(* ===== verification/_CoqProject ===== *)
-Q . S2P
Prelude.v
GoRuntime.v
GoStrings.v
GoNet.v
GoNetText.v
GoUrl.v
GoForm.v
GoBase64.v
GoFloat.v
GoJson.v
GoAsn1.v
GoFlate.v
GoHuffman.v
GoDeflate.v
GoXml.v
GoXmlLex.v
TtlStore.v
CaptchaStore.v
CaptchaGenerator.v
CaptchaReply.v
CaptchaToken.v
SamlReplay.v
SamlXml.v
SamlRawXml.v
SamlIdentityShape.v
SamlAssertion.v
SamlConfig.v
SamlInflate.v
SamlValidate.v
SamlAuthn.v
PasskeySessions.v
PasskeyCredentials.v
PasskeyService.v
PasskeyJourney.v
OidcUrl.v
OidcParams.v
OidcHttp.v
OidcClaims.v
OidcProvider.v
GeoAddress.v
GeoRecord.v
GeoWatcher.v
GeoWatcherLocks.v
