(* ===== verification/Prelude.v ===== *)
(** * A verification of authcore

    authcore is a Go library of authentication building blocks: captchas, passkeys
    (WebAuthn), OpenID Connect, SAML service providers and offline IP geolocation. Every
    package is independent of the others; each wraps one protocol library and adds the
    state, the checks and the limits around it. This development models the sources under
    src/ and proves what these additions promise. This file is its root: it holds the
    notations, tactics and generic lemmas the other files share.

    ** How the code is modelled

    A Go function that returns a value and an error is a function into [res] (below), with
    the errors of its package as an inductive type; early returns are [check] and
    [of_option] in the monad. A method that changes its receiver takes and returns the
    state. Code under one lock is one step; where the order of steps of several goroutines
    matters, the operations are programs of such steps, and the theorems quantify over all
    interleavings. For the RWMutex of the geolocation watcher, where readers and writers
    wait for each other, the lock calls themselves are steps too (GeoWatcherLocks). Maps are [gmap]; the order of a Go map iteration, where it can show, is a
    parameter. Integers are [Z] with the wrap-around written out where it can happen.

    The Go runtime and the standard library functions the sources use are in
      - GoRuntime: time, container/list, crypto/subtle, io.LimitReader;
      - GoStrings: bytes, UTF-8, the functions of package strings, big-endian integers;
      - GoNet: [net.ParseIP] and [netip.ParseAddr], with the texts of addresses in GoNetText;
      - GoBase64: encoding/base64;
      - GoUrl: [url.Parse], [URL.String] and query strings;
      - GoForm: [mime.ParseMediaType] and [Request.ParseForm] of net/http;
      - GoFloat: float64 and float32 as IEEE 754 numbers (the Standard Library's
        [spec_float]), conversions, comparisons, [math.Ceil];
      - GoJson: the scanner of encoding/json and decoding into structs;
      - GoAsn1: encoding/asn1 for ECDSA signatures;
      - GoFlate: the decompressor of compress/flate; GoHuffman: that the codes it builds are
        prefix-free whatever the lengths; GoDeflate: a compressor that the round trip is
        stated with, for any blocks, references and Huffman codes;
      - GoXmlLex: the lexer of encoding/xml ([RawToken]) on bytes, with a printer;
      - GoXml: encoding/xml's [Token] on top of it: namespaces and nesting.
    Third-party libraries (crewjam/saml, go-webauthn, go-oidc, oauth2, base64Captcha,
    maxminddb), signatures and hashes, the network, the file system and the tables of
    letters past ASCII ([XmlNames], [UnicodeTables]) are parameters; what a theorem needs of
    them is a named hypothesis, and its witness instantiates it.

    ** The components

    Captcha (src/captcha). TtlStore is the state shared by the two in-memory stores of the
    repository, a map and a list of entries with expiry, with the specification they refine:
    a bounded queue. CaptchaStore is store.go ([Set], [Get], [Verify], [Len], the purge and
    eviction loops). CaptchaGenerator is captcha.go: the [Store] and [Generator] interfaces
    are classes with laws, [ImageGenerator] turns the one into the other. CaptchaToken is
    token.go, the siteverify client, and CaptchaReply the JSON reply it decodes.

    SAML (src/saml). SamlReplay is replay.go: the [ReplayCache] class and the memory cache.
    SamlRawXml (rawxml.go) and SamlIdentityShape (identity_shape.go) are the scanners over
    the tokens of GoXml and GoXmlLex; SamlXml has the namespaces of SAML and a sample
    document as text. SamlAssertion is
    assertion.go, SamlConfig provider.go and errors.go, SamlInflate inflate.go,
    SamlValidate validate.go (the checks in their order, then the replay cache), SamlAuthn
    authn_request.go (signed redirects).

    Passkeys (src/passkey). PasskeySessions is session_store.go and PasskeyCredentials
    credential_store.go, both as instances of the interface classes; PasskeyService is
    passkey.go, registration.go, authentication.go, discoverable.go and identity.go: the six
    ceremony methods as programs of store calls, which run interleaved by a scheduler
    ([run_pool]) or alone ([exec]; [run_alone] is that they agree). PasskeyJourney puts them
    together.

    OpenID Connect (src/oidc). OidcUrl ([httpsURL]), OidcParams and OidcClaims (the
    authorized party) have the helpers of provider.go, OidcHttp is http.go with the way
    net/http follows redirects, OidcProvider has [New], [Begin] and [Complete].

    Geolocation (src/geoip). GeoAddress is [IsResolvable], GeoRecord the
    rest of geoip.go. GeoWatcher is watcher.go, cut at its locks, with its goroutines and
    the specification it refines: one database, known by the time and size of its file
    ([spec_call]); GeoWatcherLocks is watcher.go again with every call of its [sync.RWMutex],
    on which goroutines block, and a lock discipline ([wp]) the operations keep.

    ** What is proved

    - Single use: an assertion is accepted once ([response_single_use], over any cache with
      the laws of [ReplayLaws]); a ceremony session is consumed by the first
      finish call under any schedule ([ceremony_single_use], [finish_consumes_session]); a
      captcha is checked once ([generator_single_use]).
    - Acceptance, as equivalences that cover every branch: SAML responses, ID tokens,
      passkey logins, siteverify replies, configurations, URLs ([response_accepted_iff],
      [complete_accepts_iff], [login_accepted_iff], [token_accepted_iff],
      [new_provider_iff], [new_provider_trusts], [https_url_iff]).
    - What acceptance rests on in the text itself: the body of a request or a redirect
      parameter ([accepted_response_origin]), the form sent to a captcha provider and its
      reply ([accepted_reply_says_true]), the claims of an ID token
      ([accepted_party_is_client]).
    - Refusal: a response that is not accepted leaves the replay cache alone
      ([refused_response_spares_cache]); a failed [New] releases its transport
      ([new_failure_releases]).
    - Honest parties get through: a user who registers a passkey can log in with it, by
      handle or without one ([register_then_login]); a response that an identity provider prints, and posts,
      compresses into a redirect or hands over, is accepted ([honest_response_accepted]); an
      OpenID login that was begun completes ([login_completes]).
    - Parties are not mixed up: a login is completed with the issuer, client and endpoints
      it was begun with ([begun_state_same_party], [begun_state_binds]); a passkey stays its
      owner's and stands for its owner ([credential_owner_fixed],
      [discoverable_login_owner]).
    - Refinement: both in-memory stores implement a bounded queue
      ([memory_store_refines_queue], [sessions_refine_queue]), with what a client sees of it
      ([put_then_take], [set_then_verify]); what the replay cache decides is told by its
      valid entries ([memory_cache_decides]).
    - Scanners against the document tree, with the names that the decoder resolves
      ([response_shape_of_document], [identity_shape_of_document], [weak_scan_complete]), and
      against the bytes of a printed document ([printed_document_checked]).
    - Encodings: signed redirects, ECDSA signatures, delivered documents, protocol values
      ([signed_redirect], [ecdsa_signature_converted], [delivered_document_validated],
      [canonical_values]). The attribute maps of an assertion lose and add nothing
      ([attributes_indexed]).
    - Geolocation: which addresses are looked up ([resolvable_iff_public]), which file a
      lookup answers from ([watcher_follows_files]), what Go's random map order can
      show in ([record_order_independent]).
    - Types, resources and bounds: every location is well formed ([lookup_well_formed],
      [coordinates_are_points]), redirects and response sizes ([bounded_client_safe]),
      database handles ([watcher_no_use_after_close]), inflation limits
      ([redirect_message_iff]).
    - Termination: the watcher's locks never deadlock, and every call of it returns
      ([calls_return]). The other loops are structural or have enough fuel (below).
    - Behaviour the comments do not tell: the largest cap in [redirect_message_iff]
      ([inflate_limit_wraps]), [oversized_redirect_signed], [purge_stops_early],
      [set_path_effect], [set_path_lost], [disabled_watcher_resolves],
      [fallback_name_unstable], the case of no hostname in [token_accepted_iff].

    ** Bounds and fuel

    Loops over Go values are structural or run on a fuel that is the length of what they
    consume; the lemmas next to them show that it suffices ([scan_fuel] for JSON, which
    uses twice the length; [params_loop_fuel] for media types; [rawTokens_fuel] and the
    lemmas it rests on for XML; [nextBlock_fuel], [huffmanBlock_fuel] and
    [read_lengths_fuel] for DEFLATE, whose fuel is the number of bits). [client_do] runs on four rounds, and [bounded_client_safe] shows
    that it never uses them up. [v6_loop] counts the groups an address has room for. One
    call of the watcher is at most five steps cut at the locks, and at most eighteen
    ([max_turns]) with the lock calls.

    ** What is not modelled

    The text of log and error messages beyond their identity, nil receivers of the
    geolocation watcher and the error its [Close] passes on, contexts apart from whether one is nil or done, and durations of
    network calls apart from the replay window. What crewjam and encoding/xml write as
    metadata are parameters of [MetadataXML]. A request of the OpenID client is its method
    and its URL as text, which is what the transport looks at. Nothing else of the packages
    is left out: what the definitions do not cover of src/ is comments, imports, tests,
    documentation and the declaration of [AuthMethod], a string type. *)

(** ** Shared notations, tactics and lemmas *)

From stdpp Require Export prelude gmap strings list sorting relations.

#[export] Set Default Goal Selector "!".

Declare Scope authcore_scope.
Delimit Scope authcore_scope with authcore.
Create HintDb authcore discriminated.

(** ** Fallible results

    A Go function that returns [(T, error)] with a zero [T] next to a non-nil
    error is a function into [res E T]. *)

Inductive res (E A : Type) : Type :=
| Ok (a : A)
| Err (e : E).
Arguments Ok {E A} _.
Arguments Err {E A} _.

#[export] Instance res_ret E : MRet (res E) := λ A a, Ok a.
#[export] Instance res_bind E : MBind (res E) := λ A B f r,
  match r with Ok a => f a | Err e => Err e end.
#[export] Instance res_fmap E : FMap (res E) := λ A B f r,
  match r with Ok a => Ok (f a) | Err e => Err e end.

(** [check b e] is the early return [if !b { return ..., e }]. *)
Definition check {E} (b : bool) (e : E) : res E unit :=
  if b then Ok tt else Err e.

(** [of_option o e] is the early return on a missing value. *)
Definition of_option {E A} (o : option A) (e : E) : res E A :=
  match o with Some a => Ok a | None => Err e end.

(** [wrap f r] is [fmt.Errorf("...: %w", err)]: the error is wrapped, the value kept. *)
Definition wrap {E F A} (f : E → F) (r : res E A) : res F A :=
  match r with Ok a => Ok a | Err e => Err (f e) end.

Definition is_ok {E A} (r : res E A) : bool :=
  match r with Ok _ => true | Err _ => false end.

Section res_lemmas.
Context {E : Type}.

Lemma bind_Ok {A B} (f : A → res E B) (r : res E A) b :
  r ≫= f = Ok b ↔ ∃ a, r = Ok a ∧ f a = Ok b.
Proof. destruct r as [a|e]; cbn; naive_solver. Qed.

Lemma bind_Err {A B} (f : A → res E B) (r : res E A) e :
  r ≫= f = Err e ↔ r = Err e ∨ ∃ a, r = Ok a ∧ f a = Err e.
Proof. destruct r as [a|e']; cbn; naive_solver. Qed.

Lemma check_Ok b (e : E) u : check b e = Ok u ↔ b = true.
Proof. destruct b, u; cbn; naive_solver. Qed.

Lemma check_Err b (e e' : E) : check b e = Err e' ↔ b = false ∧ e = e'.
Proof. destruct b; cbn; naive_solver. Qed.

(** How to see that a sequence of checks never answers a given error. *)
Lemma bind_not_Err {A B} (f : A → res E B) (r : res E A) e :
  r ≠ Err e → (∀ a, f a ≠ Err e) → r ≫= f ≠ Err e.
Proof. rewrite bind_Err. naive_solver. Qed.

Lemma check_not_Err b (e e' : E) : e ≠ e' → check b e ≠ Err e'.
Proof. rewrite check_Err. naive_solver. Qed.

Lemma of_option_not_Err {A} (o : option A) (e e' : E) : e ≠ e' → of_option o e ≠ Err e'.
Proof. destruct o; cbn; naive_solver. Qed.

Lemma of_option_Ok {A} (o : option A) (e : E) a : of_option o e = Ok a ↔ o = Some a.
Proof. destruct o; cbn; naive_solver. Qed.

Lemma wrap_Ok {F A} (f : E → F) (r : res E A) a : wrap f r = Ok a ↔ r = Ok a.
Proof. destruct r; cbn; naive_solver. Qed.
End res_lemmas.

(** A loop over a list that a failing round leaves at once. *)
Fixpoint fold_res {E S A} (f : S → A → res E S) (l : list A) (s : S) : res E S :=
  match l with
  | [] => Ok s
  | x :: l' => s' ← f s x; fold_res f l' s'
  end.

Lemma fold_res_app {E S A} (f : S → A → res E S) l k s :
  fold_res f (l ++ k) s = fold_res f l s ≫= fold_res f k.
Proof. revert s. induction l as [|x l IH]; intros s; cbn; [done|]. by destruct (f s x); cbn. Qed.

Lemma res_bind_assoc {E A B C} (r : res E A) (f : A → res E B) (g : B → res E C) :
  (r ≫= f) ≫= g = r ≫= (λ a, f a ≫= g).
Proof. by destruct r. Qed.

(** [res_inv] breaks every successful bind, check and wrap among the hypotheses
    into what its success says. *)
Ltac res_inv :=
  repeat match goal with
  | H : mbind _ _ = Ok _ |- _ =>
      apply bind_Ok in H; destruct H as (? & ? & ?)
  | H : check _ _ = Ok _ |- _ => apply check_Ok in H
  | H : of_option _ _ = Ok _ |- _ => apply of_option_Ok in H
  | H : wrap _ _ = Ok _ |- _ => apply wrap_Ok in H
  | H : Ok _ = Ok _ |- _ => injection H as H
  | H : mret _ = Ok _ |- _ => injection H as H
  | H : Err _ = Ok _ |- _ => discriminate H
  | H : Ok _ = Err _ |- _ => discriminate H
  end; simplify_eq.

(** [bool_simp] turns the boolean connectives of guards into propositions. *)
Ltac bool_simp :=
  repeat match goal with
  | H : (_ && _) = true |- _ => apply andb_true_iff in H; destruct H
  | H : (_ || _) = false |- _ => apply orb_false_iff in H; destruct H
  | H : negb _ = true |- _ => apply negb_true_iff in H
  | H : negb _ = false |- _ => apply negb_false_iff in H
  | H : bool_decide _ = true |- _ => apply bool_decide_eq_true in H
  | H : bool_decide _ = false |- _ => apply bool_decide_eq_false in H
  | H : Z.leb _ _ = true |- _ => apply Z.leb_le in H
  | H : Z.leb _ _ = false |- _ => apply Z.leb_gt in H
  | H : Z.ltb _ _ = true |- _ => apply Z.ltb_lt in H
  | H : Z.ltb _ _ = false |- _ => apply Z.ltb_ge in H
  | H : Z.eqb _ _ = true |- _ => apply Z.eqb_eq in H
  | H : Z.eqb _ _ = false |- _ => apply Z.eqb_neq in H
  | H : Nat.leb _ _ = true |- _ => apply Nat.leb_le in H
  | H : Nat.leb _ _ = false |- _ => apply Nat.leb_gt in H
  | H : Nat.ltb _ _ = true |- _ => apply Nat.ltb_lt in H
  | H : Nat.ltb _ _ = false |- _ => apply Nat.ltb_ge in H
  | H : Nat.eqb _ _ = true |- _ => apply Nat.eqb_eq in H
  | H : Nat.eqb _ _ = false |- _ => apply Nat.eqb_neq in H
  end.

Lemma if_bool_decide {A} (P : Prop) `{Decision P} (a b : A) :
  (if bool_decide P then a else b) = if decide P then a else b.
Proof. case_bool_decide; by case_decide. Qed.

(** Linear arithmetic with division and remainder by constants. *)
Ltac zdiv := Z.to_euclidean_division_equations; lia.

(** ** Lists *)

Section list_lemmas.
Context {A : Type}.
Implicit Types l : list A.

(** The longest prefix whose elements satisfy [P], dropped: a loop that pops the
    front of a queue while a test holds. *)
Fixpoint drop_while (P : A → bool) l : list A :=
  match l with
  | [] => []
  | x :: l' => if P x then drop_while P l' else l
  end.

Lemma drop_while_suffix P l : drop_while P l `suffix_of` l.
Proof.
  induction l as [|x l IH]; cbn; [done|].
  destruct (P x); [by apply suffix_cons_r|done].
Qed.

Lemma drop_while_keep P l x : x ∈ l → P x = false → x ∈ drop_while P l.
Proof.
  induction l as [|y l IH]; cbn; [done|]. intros Hx HP.
  destruct (P y) eqn:Hy; [|done].
  apply elem_of_cons in Hx as [->|Hx]; [congruence|auto].
Qed.

Lemma suffix_elem_of l1 l2 x : l1 `suffix_of` l2 → x ∈ l1 → x ∈ l2.
Proof. intros [k ->]. set_solver. Qed.

Lemma drop_suffix n l : drop n l `suffix_of` l.
Proof. exists (take n l). by rewrite take_drop. Qed.

Lemma Sorted_suffix (R : relation A) l1 l2 :
  l1 `suffix_of` l2 → Sorted R l2 → Sorted R l1.
Proof.
  intros [k ->]. induction k as [|x k IH]; cbn; [done|].
  intros H. apply IH. by inversion H.
Qed.

Lemma StronglySorted_snoc (R : relation A) l x :
  StronglySorted R l → Forall (λ y, R y x) l → StronglySorted R (l ++ [x]).
Proof.
  induction 1 as [|y l Hl IH Hy]; intros Hx; cbn.
  - by repeat constructor.
  - apply Forall_cons in Hx as [??].
    constructor; [by apply IH|]. apply Forall_app. by repeat constructor.
Qed.

Lemma StronglySorted_suffix (R : relation A) l1 l2 :
  l1 `suffix_of` l2 → StronglySorted R l2 → StronglySorted R l1.
Proof.
  intros [k ->]. induction k as [|x k IH]; cbn; [done|].
  intros H. apply IH. by inversion H.
Qed.

Lemma filter_id (P : A → Prop) `{∀ x, Decision (P x)} l :
  (∀ x, x ∈ l → P x) → filter P l = l.
Proof.
  induction l as [|x l IH]; intros HP; [done|].
  rewrite filter_cons, decide_True by set_solver. f_equal. set_solver.
Qed.

Lemma StronglySorted_filter (R : relation A) (P : A → Prop) `{∀ x, Decision (P x)} l :
  StronglySorted R l → StronglySorted R (filter P l).
Proof.
  induction 1 as [|y l Hl IH Hy]; [constructor|].
  rewrite filter_cons. case_decide; [|done].
  constructor; [done|].
  apply Forall_forall. intros z [_ Hz]%list_elem_of_filter.
  rewrite Forall_forall in Hy. auto.
Qed.
End list_lemmas.

(** A property of every element, checked by evaluation. *)
Lemma Forall_bool {A} (P : A → Prop) (p : A → bool) l :
  (∀ x, p x = true → P x) → forallb p l = true → Forall P l.
Proof.
  intros Hp Hl. rewrite forallb_forall in Hl. apply Forall_forall. intros x Hx.
  by apply Hp, Hl, list_elem_of_In.
Qed.

(** Keys without duplicates have one value each. *)
Lemma NoDup_fst_inj {A B} (l : list (A * B)) a b b' :
  NoDup l.*1 → (a, b) ∈ l → (a, b') ∈ l → b = b'.
Proof.
  induction l as [|[a' c] l IH]; cbn; [by intros _ ?%elem_of_nil|].
  intros [Ha Hnd]%NoDup_cons H1 H2.
  assert (∀ d, (a', d) ∉ l) as Hn.
  { intros d Hd. apply Ha. apply list_elem_of_fmap. by exists (a', d). }
  apply elem_of_cons in H1 as [H1|H1], H2 as [H2|H2]; [naive_solver..|by apply IH].
Qed.

#[export] Hint Resolve drop_while_suffix drop_suffix : authcore.
