(* ===== verification/GoRuntime.v ===== *)
(** * GoRuntime

    What the components use of Go's [time], [container/list] and [crypto/subtle]
    packages.

    - A [time.Time] is a [Z]: the nanoseconds since the zero Time, so that [IsZero]
      is [t = 0]. A [time.Duration] is a [Z] too; the range of [Time.Add] (seconds in
      an int64) is far outside what the code reaches.
    - A [list.List] is the sequence of its nodes, each with the identity Go's
      [*list.Element] pointer gives it, and the counter the next node takes its
      identity from. [Remove] takes a pointer, as the code's does. *)

From S2P Require Import Prelude.

(** ** time *)

Abbreviation Time := Z (only parsing).
Abbreviation Duration := Z (only parsing).

Definition Second : Duration := 1000000000.
Definition Minute : Duration := 60 * Second.
Definition zero_time : Time := 0.
Definition IsZero (t : Time) : bool := Z.eqb t zero_time.
Definition After (t u : Time) : bool := Z.ltb u t.
Definition Before (t u : Time) : bool := Z.ltb t u.
Definition Add (t : Time) (d : Duration) : Time := t + d.

(** ** Integers and readers *)

(** [int64] arithmetic wraps around. *)
Definition MaxInt64 : Z := 2 ^ 63 - 1.
Definition int64 (z : Z) : Z := (z + 2 ^ 63) mod 2 ^ 64 - 2 ^ 63.

Lemma int64_id z : (- 2 ^ 63 ≤ z < 2 ^ 63)%Z → int64 z = z.
Proof. intros Hz. unfold int64. rewrite Z.mod_small by lia. lia. Qed.

(** An [io.Reader] read to its end: the bytes it yields, the error it ends with ([None]
    is [io.EOF]), and whether its last [Read] returns bytes and error together. *)
Record reader (E : Type) : Type := Reader {
  r_bytes : string;
  r_err : option E;
  r_err_with_bytes : bool;
}.
Arguments Reader {E} _ _ _.
Arguments r_bytes {E} _.
Arguments r_err {E} _.
Arguments r_err_with_bytes {E} _.

Definition ReadAll {E} (r : reader E) : res E string :=
  match r_err r with Some e => Err e | None => Ok (r_bytes r) end.

(** [io.LimitReader(r, n)] reports [io.EOF] once [n] bytes went through, without asking the
    underlying reader again. *)
Definition LimitReader {E} (r : reader E) (n : Z) : reader E :=
  if Z.leb n 0 then Reader "" None false
  else
    let m := Z.of_nat (String.length (r_bytes r)) in
    if Z.ltb m n || (Z.eqb m n && r_err_with_bytes r) then r
    else Reader (String.substring 0 (Z.to_nat n) (r_bytes r)) None false.

Lemma LimitReader_short {E} (r : reader E) n :
  (Z.of_nat (String.length (r_bytes r)) < n)%Z → LimitReader r n = r.
Proof.
  intros Hn. unfold LimitReader. destruct (Z.leb_spec n 0); [lia|].
  by destruct (Z.ltb_spec (Z.of_nat (String.length (r_bytes r))) n); [|lia].
Qed.

Lemma length_substring s : ∀ n, String.length (String.substring 0 n s) = Nat.min n (String.length s).
Proof. induction s as [|a s IH]; intros [|n]; cbn; [done..|]. by rewrite IH. Qed.

(** What a limit of one byte more than is wanted says: all that came through within what is
    wanted is all there was, with the error it ended with. *)
Lemma ReadAll_limited {E} (r : reader E) n out :
  (0 ≤ n)%Z →
  ReadAll (LimitReader r (n + 1)) = Ok out ∧ (Z.of_nat (String.length out) ≤ n)%Z ↔
  r_err r = None ∧ r_bytes r = out ∧ (Z.of_nat (String.length out) ≤ n)%Z.
Proof.
  intros Hn. unfold LimitReader, ReadAll. destruct (Z.leb_spec (n + 1) 0); [lia|].
  destruct r as [bs err together]; cbn [r_bytes r_err r_err_with_bytes].
  destruct (_ || _) eqn:Hin; cbn [r_bytes r_err].
  - destruct err; naive_solver.
  - bool_simp. split.
    + intros [[= <-] Hl]. rewrite length_substring in Hl. lia.
    + intros (_ & -> & ?). lia.
Qed.

(** ** container/list *)

Record golist (A : Type) : Type := GoList {
  gl_next : nat;               (* identity of the next node *)
  gl_nodes : list (nat * A);   (* front first *)
}.
Arguments GoList {A} _ _.
Arguments gl_next {A} _.
Arguments gl_nodes {A} _.

Section golist.
Context {A : Type}.
Implicit Types l : golist A.

Definition list_New : golist A := GoList 0 [].
Definition Front l : option (nat * A) := head (gl_nodes l).
Definition PushBack (a : A) l : nat * golist A :=
  (gl_next l, GoList (S (gl_next l)) (gl_nodes l ++ [(gl_next l, a)])).
Definition Remove (n : nat) l : golist A :=
  GoList (gl_next l) (filter (λ x, x.1 ≠ n) (gl_nodes l)).

(** Every node has its own identity, older than the counter. *)
Definition golist_wf l : Prop :=
  NoDup (gl_nodes l).*1 ∧ Forall (λ n, n < gl_next l)%nat (gl_nodes l).*1.

Lemma golist_wf_New : golist_wf list_New.
Proof. split; constructor. Qed.

Lemma Remove_sublist n l : gl_nodes (Remove n l) `sublist_of` gl_nodes l.
Proof. apply sublist_filter. Qed.

Lemma golist_wf_Remove n l : golist_wf l → golist_wf (Remove n l).
Proof.
  intros [Hnd Hlt]. pose proof (fmap_sublist fst _ _ (Remove_sublist n l)) as Hs.
  split; [by eapply sublist_NoDup|].
  rewrite Forall_forall in Hlt |- *. intros m Hm. apply Hlt.
  by eapply elem_of_sublist.
Qed.

Lemma golist_wf_PushBack a l : golist_wf l → golist_wf (PushBack a l).2.
Proof.
  intros [Hnd Hlt]. unfold golist_wf, PushBack; cbn. rewrite fmap_app; cbn. split.
  - apply NoDup_app. split_and!; [done| |by apply NoDup_singleton].
    intros m Hm ->%list_elem_of_singleton.
    rewrite Forall_forall in Hlt. apply Hlt in Hm. lia.
  - apply Forall_app. split; [|by repeat constructor; lia].
    eapply Forall_impl; [done|]. cbn. lia.
Qed.

(** Removing the front node pops it. *)
Lemma Remove_front n a rest next :
  golist_wf (GoList next ((n, a) :: rest)) →
  Remove n (GoList next ((n, a) :: rest)) = GoList next rest.
Proof.
  intros [Hnd _]. cbn in Hnd. apply NoDup_cons in Hnd as [Hn _].
  unfold Remove, gl_nodes, gl_next. f_equal. rewrite filter_cons, decide_False by (cbn; tauto).
  apply filter_id. intros [m b] Hm; cbn. intros ->. apply Hn.
  apply list_elem_of_fmap. by exists (n, b).
Qed.
End golist.

#[export] Hint Resolve golist_wf_New golist_wf_Remove golist_wf_PushBack : authcore.

(** ** crypto/subtle *)

(** [ConstantTimeCompare x y]: 1 when the contents are equal, 0 otherwise; every byte
    is looked at whatever the earlier ones were. *)
Fixpoint xor_accumulate (v : N) (x y : string) : N :=
  match x, y with
  | String a x', String b y' =>
      xor_accumulate (N.lor v (N.lxor (Ascii.N_of_ascii a) (Ascii.N_of_ascii b))) x' y'
  | _, _ => v
  end.

Definition ConstantTimeCompare (x y : string) : Z :=
  if Nat.eqb (String.length x) (String.length y)
  then if N.eqb (xor_accumulate 0 x y) 0 then 1 else 0
  else 0.

Lemma xor_accumulate_zero x : ∀ v y,
  String.length x = String.length y →
  xor_accumulate v x y = 0%N ↔ v = 0%N ∧ x = y.
Proof.
  induction x as [|a x IH]; intros v [|b y] Hlen; cbn in *; try lia; [naive_solver|].
  rewrite IH by lia. rewrite N.lor_eq_0_iff, N.lxor_eq_0_iff. split.
  - intros [[-> Hab] ->]. split; [done|]. f_equal.
    by rewrite <- (Ascii.ascii_N_embedding a), Hab, Ascii.ascii_N_embedding.
  - intros [-> [= -> ->]]. done.
Qed.

Lemma ConstantTimeCompare_eq x y : ConstantTimeCompare x y = 1%Z ↔ x = y.
Proof.
  unfold ConstantTimeCompare.
  destruct (Nat.eqb_spec (String.length x) (String.length y)) as [Hlen|Hlen].
  - pose proof (xor_accumulate_zero x 0 y Hlen) as Hx.
    destruct (N.eqb_spec (xor_accumulate 0 x y) 0); naive_solver.
  - naive_solver.
Qed.
