(* ===== verification/GoStrings.v ===== *)
(** * GoStrings

    What the components use of Go's [strings], [unicode] and [unicode/utf8] packages.
    A Go string, and a [[]byte] seen as a value, is a [string]: its bytes. [bytes s]
    is the same content as integers in [0, 256).

    The Unicode case tables are data of the Go distribution: they are the fields of the
    class [UnicodeTables], and only reached for runes outside ASCII, as in the Go code. *)

From S2P Require Import Prelude.
Local Open Scope Z_scope.

(** ** Bytes *)

Definition byte_of (a : Ascii.ascii) : Z := Z.of_N (Ascii.N_of_ascii a).
Definition of_byte (b : Z) : Ascii.ascii := Ascii.ascii_of_N (Z.to_N b).
Definition bytes (s : string) : list Z := byte_of <$> String.list_ascii_of_string s.
Definition of_bytes (l : list Z) : string :=
  String.string_of_list_ascii (of_byte <$> l).
Definition is_byte (b : Z) : Prop := 0 <= b < 256.

(** [len(s)]. *)
Definition len (s : string) : Z := Z.of_nat (String.length s).

Lemma of_byte_of a : of_byte (byte_of a) = a.
Proof. unfold of_byte, byte_of. by rewrite N2Z.id, Ascii.ascii_N_embedding. Qed.

Lemma byte_of_is_byte a : is_byte (byte_of a).
Proof. unfold is_byte, byte_of. pose proof (Ascii.N_ascii_bounded a). lia. Qed.

Lemma byte_of_of b : is_byte b → byte_of (of_byte b) = b.
Proof.
  unfold is_byte, byte_of, of_byte. intros Hb.
  rewrite Ascii.N_ascii_embedding by lia. lia.
Qed.

Lemma byte_of_inj a b : byte_of a = byte_of b → a = b.
Proof. intros H. by rewrite <- (of_byte_of a), H, of_byte_of. Qed.

Lemma of_bytes_bytes s : of_bytes (bytes s) = s.
Proof.
  unfold of_bytes, bytes. rewrite <- list_fmap_compose.
  rewrite <- (String.string_of_list_ascii_of_string s) at 2. f_equal.
  rewrite <- list_fmap_id. apply list_fmap_ext. intros _ a _. apply of_byte_of.
Qed.

Lemma bytes_are_bytes s : Forall is_byte (bytes s).
Proof. apply Forall_fmap, Forall_true. apply byte_of_is_byte. Qed.

Lemma bytes_of_bytes l : Forall is_byte l → bytes (of_bytes l) = l.
Proof.
  intros Hl. unfold bytes, of_bytes. rewrite String.list_ascii_of_string_of_list_ascii.
  rewrite <- list_fmap_compose. trans (id <$> l); [|apply list_fmap_id].
  apply list_fmap_ext. intros i b Hb. apply byte_of_of.
  by eapply Forall_lookup_1.
Qed.

Lemma bytes_inj s t : bytes s = bytes t → s = t.
Proof. intros H. by rewrite <- (of_bytes_bytes s), H, of_bytes_bytes. Qed.

#[export] Instance string_app_assoc : Assoc (=) String.append.
Proof. intros s t u. induction s as [|a s IH]; [done|]. exact (f_equal (String a) IH). Qed.

Lemma of_bytes_app l k : of_bytes (l ++ k) = of_bytes l +:+ of_bytes k.
Proof. induction l as [|b l IH]; [done|]. exact (f_equal (String (of_byte b)) IH). Qed.

Lemma bytes_app s t : bytes (s +:+ t) = bytes s ++ bytes t.
Proof.
  induction s as [|a s IH]; [done|].
  change (byte_of a :: bytes (s +:+ t) = byte_of a :: bytes s ++ bytes t). by rewrite IH.
Qed.

Lemma length_bytes s : length (bytes s) = String.length s.
Proof. unfold bytes. rewrite length_fmap. by induction s; cbn; f_equal. Qed.

Lemma lor_lt_pow2 a b n : 0 <= a < 2 ^ n → 0 <= b < 2 ^ n → 0 <= n → Z.lor a b < 2 ^ n.
Proof.
  intros Ha Hb Hn. assert (Z.lor a b / 2 ^ n = 0) as Hz.
  { rewrite <- Z.shiftr_div_pow2, Z.shiftr_lor, !Z.shiftr_div_pow2 by done.
    by rewrite !Z.div_small. }
  apply Z.div_small_iff in Hz; lia.
Qed.

(** ** Fixed-width integers *)

(** [FillBytes] into a buffer of the given width: big endian, zero padded. *)
Fixpoint FillBytes (width : nat) (v : Z) : list Z :=
  match width with
  | O => []
  | S w => FillBytes w (v / 256) ++ [v mod 256]
  end.

(** [SetBytes] *)
Definition SetBytes (l : list Z) : Z := fold_left (λ v b, 256 * v + b) l 0.

Lemma length_FillBytes w : ∀ v, length (FillBytes w v) = w.
Proof. induction w as [|w IH]; intros v; [done|]. cbn. rewrite length_app, IH. cbn. lia. Qed.

Lemma FillBytes_are_bytes w : ∀ v, Forall is_byte (FillBytes w v).
Proof.
  induction w as [|w IH]; intros v; cbn; [constructor|]. apply Forall_app. split; [apply IH|].
  repeat constructor; zdiv.
Qed.

#[export] Hint Resolve bytes_are_bytes FillBytes_are_bytes : authcore.

(** Lists built from parts that consist of bytes do so themselves. *)
Ltac are_bytes :=
  repeat first
    [ assumption
    | solve [eauto 2 with authcore]
    | apply Forall_nil_2
    | apply Forall_cons_2; [solve [done | unfold is_byte; lia]|]
    | apply Forall_app_2 ].

Lemma SetBytes_FillBytes w : ∀ v, 0 ≤ v < 256 ^ Z.of_nat w → SetBytes (FillBytes w v) = v.
Proof.
  unfold SetBytes. induction w as [|w IH]; intros v Hv; [cbn in *; lia|].
  cbn [FillBytes]. rewrite fold_left_app. cbn [fold_left].
  rewrite Nat2Z.inj_succ, Z.pow_succ_r in Hv by lia.
  rewrite IH; [zdiv|]. split; [apply Z.div_pos; lia|]. apply Z.div_lt_upper_bound; lia.
Qed.

Lemma SetBytes_app l k : SetBytes (l ++ k) = SetBytes l * 256 ^ Z.of_nat (length k) + SetBytes k.
Proof.
  unfold SetBytes. rewrite fold_left_app. generalize (fold_left (λ v b, 256 * v + b) l 0). intros v.
  assert (∀ k v w, fold_left (λ v b, 256 * v + b) k (v + w) =
            v * 256 ^ Z.of_nat (length k) + fold_left (λ v b, 256 * v + b) k w) as H.
  { clear. induction k as [|b k IH]; intros v w; cbn [fold_left length]; [rewrite Z.pow_0_r; lia|].
    rewrite Nat2Z.inj_succ, Z.pow_succ_r by lia.
    replace (256 * (v + w) + b) with (256 * v + (256 * w + b)) by lia. rewrite IH. lia. }
  rewrite <- (Z.add_0_r v) at 1. apply H.
Qed.

Lemma SetBytes_range l : Forall is_byte l → 0 ≤ SetBytes l < 256 ^ Z.of_nat (length l).
Proof.
  induction l as [|b l IH] using rev_ind; [done|]. intros [Hl Hb]%Forall_app.
  apply Forall_cons in Hb as [Hb _]. specialize (IH Hl). unfold is_byte in Hb.
  rewrite SetBytes_app, length_app. cbn [length]. change (SetBytes [b]) with b.
  rewrite Nat2Z.inj_add, Z.pow_add_r by lia. change (256 ^ Z.of_nat 1) with 256. nia.
Qed.

Lemma SetBytes_inj l k :
  length l = length k → Forall is_byte l → Forall is_byte k → SetBytes l = SetBytes k → l = k.
Proof.
  revert k. induction l as [|b l IH] using rev_ind; intros k Hlen Hl Hk Heq.
  { by destruct k. }
  destruct k as [|c k _] using rev_ind; [rewrite length_app in Hlen; cbn in Hlen; lia|].
  rewrite !length_app in Hlen. cbn in Hlen. rewrite !SetBytes_app in Heq.
  apply Forall_app in Hl as [Hl Hb], Hk as [Hk Hc].
  apply Forall_cons in Hb as [Hb _], Hc as [Hc _]. unfold is_byte in *.
  cbn [length] in Heq. change (256 ^ Z.of_nat 1) with 256 in Heq.
  change (SetBytes [b]) with b in Heq. change (SetBytes [c]) with c in Heq.
  f_equal; [apply IH; [lia|done|done|lia]|f_equal; lia].
Qed.

(** [big.Int.BitLen] *)
Definition BitLen (n : Z) : Z := if Z.eqb n 0 then 0 else Z.log2 (Z.abs n) + 1.

Lemma BitLen_at_least n b : 0 < b → b ≤ BitLen n ↔ 2 ^ (b - 1) ≤ Z.abs n.
Proof.
  intros Hb. unfold BitLen. destruct (Z.eqb_spec n 0) as [->|Hn].
  - pose proof (Z.pow_pos_nonneg 2 (b - 1) ltac:(done) ltac:(lia)). cbn [Z.abs]. lia.
  - pose proof (Z.log2_le_pow2 (Z.abs n) (b - 1) ltac:(lia)). lia.
Qed.

Lemma BitLen_spec v : 0 < v → 1 ≤ BitLen v ∧ 2 ^ (BitLen v - 1) ≤ v < 2 ^ BitLen v.
Proof.
  intros Hv. unfold BitLen. destruct (Z.eqb_spec v 0); [lia|]. rewrite Z.abs_eq by lia.
  pose proof (Z.log2_nonneg v). pose proof (Z.log2_spec v Hv) as Hl.
  replace (Z.log2 v + 1 - 1) with (Z.log2 v) by lia. rewrite <- Z.add_1_r in Hl. lia.
Qed.

Lemma FillBytes_cons w : ∀ v, FillBytes (S w) v = (v / 256 ^ Z.of_nat w) mod 256 :: FillBytes w v.
Proof.
  induction w as [|w IH]; intros v; [cbn; by rewrite Z.div_1_r|].
  change (FillBytes (S (S w)) v) with (FillBytes (S w) (v / 256) ++ [v mod 256]). rewrite IH. cbn [app FillBytes].
  rewrite Z.div_div, <- Z.pow_succ_r, <- Nat2Z.inj_succ by lia. done.
Qed.

(** ** unicode/utf8 *)

Definition RuneError : Z := 65533.

Definition cont (b : Z) : bool := (128 <=? b) && (b <=? 191).
Definition between (lo b hi : Z) : bool := (lo <=? b) && (b <=? hi).

(** [utf8.DecodeRune] on a non-empty input: the rune and its width; an encoding that
    is truncated, overlong, a surrogate or past U+10FFFF is [RuneError] of width 1. *)
Definition decode_rune (l : list Z) : Z * nat :=
  match l with
  | [] => (RuneError, 0%nat)
  | b0 :: l' =>
      if b0 <? 128 then (b0, 1%nat)
      else if between 194 b0 223 then
        match l' with
        | b1 :: _ => if cont b1
            then (Z.lor (Z.shiftl (Z.land b0 31) 6) (Z.land b1 63), 2%nat)
            else (RuneError, 1%nat)
        | _ => (RuneError, 1%nat)
        end
      else if between 224 b0 239 then
        match l' with
        | b1 :: b2 :: _ =>
            if between (if b0 =? 224 then 160 else 128) b1 (if b0 =? 237 then 159 else 191)
               && cont b2
            then (Z.lor (Z.shiftl (Z.land b0 15) 12)
                        (Z.lor (Z.shiftl (Z.land b1 63) 6) (Z.land b2 63)), 3%nat)
            else (RuneError, 1%nat)
        | _ => (RuneError, 1%nat)
        end
      else if between 240 b0 244 then
        match l' with
        | b1 :: b2 :: b3 :: _ =>
            if between (if b0 =? 240 then 144 else 128) b1 (if b0 =? 244 then 143 else 191)
               && cont b2 && cont b3
            then (Z.lor (Z.shiftl (Z.land b0 7) 18)
                    (Z.lor (Z.shiftl (Z.land b1 63) 12)
                           (Z.lor (Z.shiftl (Z.land b2 63) 6) (Z.land b3 63))), 4%nat)
            else (RuneError, 1%nat)
        | _ => (RuneError, 1%nat)
        end
      else (RuneError, 1%nat)
  end.

(** [for _, r := range s]: every round consumes at least one byte. *)
Fixpoint runes_loop (fuel : nat) (l : list Z) : list Z :=
  match fuel, l with
  | _, [] | O, _ => []
  | S fuel, _ => let '(r, n) := decode_rune l in r :: runes_loop fuel (drop n l)
  end.
Definition runes (l : list Z) : list Z := runes_loop (length l) l.

(** [utf8.ValidString]: no round of the loop meets an invalid encoding. *)
Fixpoint valid_loop (fuel : nat) (l : list Z) : bool :=
  match fuel, l with
  | _, [] => true
  | O, _ => false
  | S fuel, _ =>
      let '(r, n) := decode_rune l in
      negb ((r =? RuneError) && (n =? 1)%nat) && valid_loop fuel (drop n l)
  end.
Definition ValidString (s : string) : bool := valid_loop (length (bytes s)) (bytes s).

(** [utf8.AppendRune] *)
Definition encode_rune (r : Z) : list Z :=
  if between 0 r 127 then [r]
  else if between 128 r 2047 then
    [Z.lor 192 (Z.shiftr r 6); Z.lor 128 (Z.land r 63)]
  else if between 55296 r 57343 || (r <? 0) || (1114111 <? r) then [239; 191; 189]
  else if r <=? 65535 then
    [Z.lor 224 (Z.shiftr r 12); Z.lor 128 (Z.land (Z.shiftr r 6) 63); Z.lor 128 (Z.land r 63)]
  else
    [Z.lor 240 (Z.shiftr r 18); Z.lor 128 (Z.land (Z.shiftr r 12) 63);
     Z.lor 128 (Z.land (Z.shiftr r 6) 63); Z.lor 128 (Z.land r 63)].

(** ** strings *)

(** [strings.Map]: a negative result drops the rune, an invalid byte is mapped as
    [RuneError]. *)
Definition strings_Map (mapping : Z → Z) (s : string) : string :=
  of_bytes (runes (bytes s) ≫= λ r, let r' := mapping r in
                                    if r' <? 0 then [] else encode_rune r').

Lemma runes_ascii l : Forall (λ b, 0 <= b < 128) l → runes l = l.
Proof.
  unfold runes. induction 1 as [|b l Hb Hl IH]; [done|]. cbn [length runes_loop decode_rune].
  destruct (Z.ltb_spec b 128); [|lia]. by change (drop 1 (b :: l)) with l; rewrite IH.
Qed.

(** A mapping that drops some ASCII characters and keeps the others is a filter. *)
Lemma strings_Map_filter (P : Z → bool) s :
  Forall (λ b, 0 <= b < 128) (bytes s) →
  strings_Map (λ r, if P r then -1 else r) s = of_bytes (filter (λ b, P b = false) (bytes s)).
Proof.
  intros Hs. unfold strings_Map. f_equal. rewrite runes_ascii by done.
  induction Hs as [|b l Hb Hl IH]; [done|]. rewrite bind_cons, filter_cons, IH.
  destruct (P b); cbn [Z.ltb Z.compare].
  - by rewrite decide_False.
  - rewrite decide_True by done. destruct (Z.ltb_spec b 0); [lia|].
    unfold encode_rune, between. destruct (Z.leb_spec 0 b); [|lia].
    destruct (Z.leb_spec b 127); [|lia]. done.
Qed.

Class UnicodeTables : Type := {
  (** The two runes are in one orbit of [unicode.SimpleFold]; asked with the smaller
      rune first. *)
  same_fold : Z → Z → bool;
  unicode_ToLower : Z → Z;
  unicode_ToUpper : Z → Z;
}.

Definition is_ascii (b : Z) : bool := b <? 128.
Definition lower_byte (b : Z) : Z := if between 65 b 90 then b + 32 else b.
Definition upper_byte (b : Z) : Z := if between 97 b 122 then b - 32 else b.

(** The UTF-8 encodings of the runes [unicode.IsSpace] holds of. *)
Definition space_encodings : list (list Z) :=
  [[9]; [10]; [11]; [12]; [13]; [32]; [194; 133]; [194; 160]; [225; 154; 128];
   [226; 128; 128]; [226; 128; 129]; [226; 128; 130]; [226; 128; 131]; [226; 128; 132];
   [226; 128; 133]; [226; 128; 134]; [226; 128; 135]; [226; 128; 136]; [226; 128; 137];
   [226; 128; 138]; [226; 128; 168]; [226; 128; 169]; [226; 128; 175]; [226; 129; 159];
   [227; 128; 128]].

Fixpoint strip_prefix (p l : list Z) : option (list Z) :=
  match p, l with
  | [], _ => Some l
  | x :: p', y :: l' => if x =? y then strip_prefix p' l' else None
  | _ :: _, [] => None
  end.

Lemma strip_prefix_length p : ∀ l r, strip_prefix p l = Some r → (length r ≤ length l)%nat.
Proof.
  induction p as [|x p IH]; intros l r; cbn; [by intros [= ->]|].
  destruct l as [|y l]; [done|]. destruct (x =? y); [|done]. intros H%IH. cbn. lia.
Qed.

Fixpoint strip_one (encs : list (list Z)) (l : list Z) : option (list Z) :=
  match encs with
  | [] => None
  | p :: encs' => match strip_prefix p l with Some l' => Some l' | None => strip_one encs' l end
  end.

Fixpoint strip_all (fuel : nat) (encs : list (list Z)) (l : list Z) : list Z :=
  match fuel with
  | O => l
  | S fuel => match strip_one encs l with Some l' => strip_all fuel encs l' | None => l end
  end.

(** [strings.TrimSpace]: leading, then trailing, white space. *)
Definition TrimSpace (s : string) : string :=
  let l := strip_all (String.length s) space_encodings (bytes s) in
  of_bytes (reverse (strip_all (length l) (reverse <$> space_encodings) (reverse l))).

(** [strings.Cut(s, sep)] for a one-byte separator: what is before its first
    occurrence, and what is after it. *)
Fixpoint cut (sep : Z) (l : list Z) : list Z * option (list Z) :=
  match l with
  | [] => ([], None)
  | c :: l' =>
      if c =? sep then ([], Some l')
      else let '(a, r) := cut sep l' in (c :: a, r)
  end.

Lemma cut_length sep l a r : cut sep l = (a, Some r) → (length r < length l)%nat.
Proof.
  revert a. induction l as [|c l IH]; intros a; cbn; [done|]. destruct (c =? sep).
  - intros [= <- <-]. lia.
  - destruct (cut sep l) as [a' r']. intros [= <- ->]. specialize (IH a' eq_refl). lia.
Qed.

Lemma cut_clean sep a b : sep ∉ a → cut sep (a ++ sep :: b) = (a, Some b).
Proof.
  induction a as [|c a IH]; cbn; [by rewrite Z.eqb_refl|].
  intros [Hc Ha]%not_elem_of_cons. destruct (Z.eqb_spec c sep); [lia|]. by rewrite IH.
Qed.

(** [strings.Contains] *)
Fixpoint contains_bytes (sub l : list Z) : bool :=
  match strip_prefix sub l with
  | Some _ => true
  | None => match l with [] => false | _ :: l' => contains_bytes sub l' end
  end.
Definition Contains (s sub : string) : bool := contains_bytes (bytes sub) (bytes s).

Section unicode.
Context {U : UnicodeTables}.

Definition ToLower (s : string) : string :=
  if forallb is_ascii (bytes s) then of_bytes (lower_byte <$> bytes s)
  else strings_Map unicode_ToLower s.

Definition ToUpper (s : string) : string :=
  if forallb is_ascii (bytes s) then of_bytes (upper_byte <$> bytes s)
  else strings_Map unicode_ToUpper s.

(** Two ASCII bytes, the smaller first, that differ by case only. *)
Definition ascii_case_pair (sr tr : Z) : bool := between 65 sr 90 && (tr =? sr + 32).

Definition fold_byte (a b : Z) : bool :=
  (a =? b) || ascii_case_pair (Z.min a b) (Z.max a b).

Definition fold_rune (a b : Z) : bool :=
  (a =? b) ||
  (if Z.max a b <? 128 then ascii_case_pair (Z.min a b) (Z.max a b)
   else same_fold (Z.min a b) (Z.max a b)).

Fixpoint fold_runes (s t : list Z) : bool :=
  match s, t with
  | [], [] => true
  | a :: s', b :: t' => fold_rune a b && fold_runes s' t'
  | _, _ => false
  end.

(** [strings.EqualFold]: byte by byte until the first byte outside ASCII, rune by
    rune from there on. *)
Fixpoint equal_fold (s t : list Z) : bool :=
  match s, t with
  | [], [] => true
  | a :: s', b :: t' =>
      if 128 <=? Z.lor a b then fold_runes (runes s) (runes t)
      else fold_byte a b && equal_fold s' t'
  | _, _ => false
  end.
Definition EqualFold (s t : string) : bool := equal_fold (bytes s) (bytes t).

Lemma fold_runes_refl s : fold_runes s s = true.
Proof. induction s; cbn; [done|]. unfold fold_rune. by rewrite Z.eqb_refl. Qed.

Lemma EqualFold_refl s : EqualFold s s = true.
Proof.
  unfold EqualFold. induction (bytes s) as [|a l IH]; cbn; [done|].
  destruct (128 <=? Z.lor a a); [apply fold_runes_refl|].
  unfold fold_byte. by rewrite Z.eqb_refl, IH.
Qed.

Lemma fold_rune_sym a b : fold_rune a b = fold_rune b a.
Proof. unfold fold_rune. by rewrite Z.eqb_sym, Z.min_comm, Z.max_comm. Qed.

Lemma fold_runes_sym s : ∀ t, fold_runes s t = fold_runes t s.
Proof. induction s as [|a s IH]; intros [|b t]; cbn; [done..|]. by rewrite fold_rune_sym, IH. Qed.

Lemma EqualFold_sym s t : EqualFold s t = EqualFold t s.
Proof.
  unfold EqualFold. generalize (bytes s) (bytes t). clear.
  induction l as [|a l IH]; intros [|b l0]; cbn -[runes]; [done..|].
  rewrite Z.lor_comm. destruct (128 <=? Z.lor b a); [apply fold_runes_sym|].
  rewrite IH. f_equal. unfold fold_byte. by rewrite Z.eqb_sym, Z.min_comm, Z.max_comm.
Qed.

Lemma fold_byte_lower a b :
  is_byte a → is_byte b → fold_byte a b = true ↔ lower_byte a = lower_byte b.
Proof.
  unfold is_byte, fold_byte, ascii_case_pair, lower_byte, between. intros Ha Hb.
  destruct (Z.leb_spec 65 a), (Z.leb_spec a 90), (Z.leb_spec 65 b), (Z.leb_spec b 90);
    cbn [andb]; lia.
Qed.

(** On ASCII strings [EqualFold] is equality of the lower-cased strings. *)
Lemma EqualFold_ascii s t :
  forallb is_ascii (bytes s) = true → forallb is_ascii (bytes t) = true →
  EqualFold s t = true ↔ lower_byte <$> bytes s = lower_byte <$> bytes t.
Proof.
  unfold EqualFold. pose proof (bytes_are_bytes s) as Hs. pose proof (bytes_are_bytes t) as Ht.
  revert Hs Ht. generalize (bytes s) (bytes t). clear.
  induction l as [|a l IH]; intros [|b l0]; cbn -[runes]; [done..|].
  intros [Ha Hl]%Forall_cons [Hb Hl0]%Forall_cons [H1 H2]%andb_true_iff [H3 H4]%andb_true_iff.
  unfold is_ascii in H1, H3. bool_simp.
  assert (Z.lor a b < 128) by (unfold is_byte in *; apply (lor_lt_pow2 a b 7); lia).
  destruct (Z.leb_spec 128 (Z.lor a b)); [lia|].
  rewrite andb_true_iff, fold_byte_lower, (IH l0) by done.
  split; [intros [-> ->]; done|by intros [= -> ->]].
Qed.
End unicode.

(** Tables for text that is all ASCII, to evaluate definitions with. *)
Definition ascii_unicode : UnicodeTables := {|
  same_fold := λ _ _, false;
  unicode_ToLower := λ r, r;
  unicode_ToUpper := λ r, r;
|}.
