(* ===== verification/GoNet.v ===== *)
(** * GoNet

    IP addresses as package [net] and [net/netip] parse them: dotted quads, and IPv6 groups
    with an ellipsis and a trailing dotted quad. *)

From S2P Require Import Prelude GoStrings.
Local Open Scope Z_scope.

(** ** Parsing *)

Definition dot : Z := 46.
Definition colon : Z := 58.
Definition percent : Z := 37.
Definition digit (c : Z) : bool := between 48 c 57.

(** [parseIPv4Fields]: the bytes left, the one before them, the octet being read and how
    many digits it has so far, and the octets already read. *)
Fixpoint v4_loop (s : list Z) (prev : option Z) (val digLen : Z) (fields : list Z)
    : option (list Z) :=
  match s with
  | [] => if (length fields <? 3)%nat then None else Some (fields ++ [val])
  | c :: s' =>
      if digit c then
        if (digLen =? 1) && (val =? 0) then None
        else let val := val * 10 + c - 48 in
             if 255 <? val then None else v4_loop s' (Some c) val (digLen + 1) fields
      else if c =? dot then
        if bool_decide (prev = None) || bool_decide (s' = []) || bool_decide (prev = Some dot)
        then None
        else if (length fields =? 3)%nat then None
        else v4_loop s' (Some c) 0 0 (fields ++ [val])
      else None
  end.
Definition parseIPv4Fields (s : list Z) : option (list Z) := v4_loop s None 0 0 [].

Definition hex_value (c : Z) : option Z :=
  if digit c then Some (c - 48)
  else if between 97 c 102 then Some (c - 87)
  else if between 65 c 70 then Some (c - 55)
  else None.

(** A group of hexadecimal digits: how many, their value and what follows. *)
Fixpoint hex_group (s : list Z) (off : nat) (acc : Z) : option (nat * Z * list Z) :=
  match s with
  | [] => Some (off, acc, [])
  | c :: s' =>
      match hex_value c with
      | None => Some (off, acc, s)
      | Some v =>
          let acc := Z.shiftl acc 4 + v in
          if (3 <? off)%nat then None
          else if 65535 <? acc then None
          else hex_group s' (S off) acc
      end
  end.

(** The loop of [parseIPv6]: [groups] is how often it may still run, [(16 - i) / 2]; the
    bytes left, the address so far and where the ellipsis was. *)
Fixpoint v6_loop (groups : nat) (s ip : list Z) (ellipsis : option nat)
    : option (list Z * list Z * option nat) :=
  match groups with
  | O => Some (s, ip, ellipsis)
  | S groups =>
      match hex_group s 0 0 with
      | None => None
      | Some (off, acc, rest) =>
          if (off =? 0)%nat then None
          else if bool_decide (head rest = Some dot) then
            if bool_decide (ellipsis = None) && negb (length ip =? 12)%nat then None
            else if (16 <? length ip + 4)%nat then None
            else match parseIPv4Fields s with
                 | None => None
                 | Some v4 => Some ([], ip ++ v4, ellipsis)
                 end
          else
            let ip := ip ++ [Z.shiftr acc 8; acc mod 256] in
            match rest with
            | [] => Some ([], ip, ellipsis)
            | c :: rest =>
                if negb (c =? colon) then None
                else match rest with
                     | [] => None
                     | c' :: rest' =>
                         if c' =? colon then
                           if negb (bool_decide (ellipsis = None)) then None
                           else match rest' with
                                | [] => Some ([], ip, Some (length ip))
                                | _ :: _ => v6_loop groups rest' ip (Some (length ip))
                                end
                         else v6_loop groups rest ip ellipsis
                     end
            end
      end
  end.

(** [parseIPv6] of an input without a zone. *)
Definition parseIPv6 (s : list Z) : option (list Z) :=
  let '(s, ellipsis) :=
    match s with
    | c :: c' :: s' => if (c =? colon) && (c' =? colon) then (s', Some 0%nat) else (s, None)
    | _ => (s, None)
    end in
  if bool_decide (s = []) && negb (bool_decide (ellipsis = None)) then Some (repeat 0 16)
  else match v6_loop 8 s [] ellipsis with
       | None => None
       | Some (s, ip, ellipsis) =>
           if negb (bool_decide (s = [])) then None
           else if (length ip <? 16)%nat then
             match ellipsis with
             | None => None
             | Some e => Some (take e ip ++ repeat 0 (16 - length ip) ++ drop e ip)
             end
           else if negb (bool_decide (ellipsis = None)) then None else Some ip
       end.

Definition v4_in_v6 (v4 : list Z) : list Z := repeat 0 10 ++ [255; 255] ++ v4.

(** The first dot, colon or percent sign decides. An address with a zone is not an
    [IP]. *)
Fixpoint parse_kind (s : list Z) : option Z :=
  match s with
  | [] => None
  | c :: s' => if (c =? dot) || (c =? colon) || (c =? percent) then Some c else parse_kind s'
  end.

Definition ParseIP (s : string) : option (list Z) :=
  let l := bytes s in
  match parse_kind l with
  | Some c =>
      if c =? dot then v4_in_v6 <$> parseIPv4Fields l
      else if c =? colon then
        if bool_decide (percent ∈ l) then None else parseIPv6 l
      else None
  | None => None
  end.

(** [netip.ParseAddr] of a text that is an IPv6 address, possibly with a zone: the address
    without its zone. *)
Definition ParseAddr6 (l : list Z) : option (list Z) :=
  if bool_decide (parse_kind l = Some colon) then
    match cut percent l with
    | (s, None) => parseIPv6 s
    | (_, Some []) => None
    | (s, Some _) => parseIPv6 s
    end
  else None.

(** ** Sixteen bytes *)

Definition address (ip : list Z) : Prop := length ip = 16%nat ∧ Forall is_byte ip.

Lemma v4_loop_bytes s : ∀ prev val digLen fields r,
  Forall is_byte fields → (length fields ≤ 3)%nat → 0 ≤ val ≤ 255 →
  v4_loop s prev val digLen fields = Some r → length r = 4%nat ∧ Forall is_byte r.
Proof.
  induction s as [|c s IH]; intros prev val digLen fields r Hf Hl Hv; cbn [v4_loop].
  - destruct (Nat.ltb_spec (length fields) 3); [done|]. intros [= <-]. rewrite length_app. cbn.
    split; [lia|]. apply Forall_app. split; [done|]. repeat constructor; unfold is_byte; lia.
  - destruct (digit c) eqn:Hd.
    + destruct ((digLen =? 1) && (val =? 0)); [done|].
      destruct (Z.ltb_spec 255 (val * 10 + c - 48)); [done|]. apply IH; [done..|].
      unfold digit, between in Hd. bool_simp. lia.
    + destruct (c =? dot); [|done]. destruct (_ || _ || _); [done|].
      destruct (Nat.eqb_spec (length fields) 3); [done|].
      apply IH; [|rewrite length_app; cbn; lia|lia].
      apply Forall_app. split; [done|]. repeat constructor; unfold is_byte; lia.
Qed.

Lemma hex_value_range c v : hex_value c = Some v → 0 ≤ v < 16.
Proof.
  unfold hex_value, digit, between. repeat case_match; intros [= <-]; bool_simp; lia.
Qed.

Lemma hex_group_range s : ∀ off acc n v rest,
  0 ≤ acc ≤ 65535 → hex_group s off acc = Some (n, v, rest) → 0 ≤ v ≤ 65535.
Proof.
  induction s as [|c s IH]; intros off acc n v rest Ha; cbn [hex_group]; [by intros [= <- <- <-]|].
  destruct (hex_value c) as [d|] eqn:Hd; [|by intros [= <- <- <-]].
  destruct (3 <? off)%nat; [done|]. apply hex_value_range in Hd.
  rewrite Z.shiftl_mul_pow2 by lia. change (2 ^ 4) with 16.
  destruct (Z.ltb_spec 65535 (acc * 16 + d)); [done|]. apply IH. lia.
Qed.

Lemma v6_loop_bytes groups : ∀ s ip e s' ip' e',
  Forall is_byte ip → (length ip + 2 * groups = 16)%nat →
  (∀ n, e = Some n → (n ≤ length ip)%nat) →
  v6_loop groups s ip e = Some (s', ip', e') →
  Forall is_byte ip' ∧ (length ip' ≤ 16)%nat ∧ ∀ n, e' = Some n → (n ≤ length ip')%nat.
Proof.
  induction groups as [|groups IH]; intros s ip e s' ip' e' Hb Hlen He; cbn [v6_loop].
  { intros [= <- <- <-]. split_and!; [done|lia|done]. }
  destruct (hex_group s 0 0) as [[[off acc] rest]|] eqn:Hg; [|done].
  destruct (off =? 0)%nat; [done|]. apply hex_group_range in Hg; [|lia].
  case_bool_decide.
  { destruct (_ && _); [done|]. destruct (Nat.ltb_spec 16 (length ip + 4)); [done|].
    destruct (parseIPv4Fields s) as [v4|] eqn:Hv4; [|done]. intros [= <- <- <-].
    apply v4_loop_bytes in Hv4 as [Hl4 Hb4]; [|constructor|cbn; lia|lia].
    rewrite length_app. split_and!; [by apply Forall_app|lia|]. intros n Hn. specialize (He n Hn). lia. }
  set (ip1 := ip ++ [Z.shiftr acc 8; acc mod 256]).
  assert (Forall is_byte ip1 ∧ length ip1 = (length ip + 2)%nat) as [Hb1 Hl1].
  { unfold ip1. rewrite length_app. split; [|done]. apply Forall_app. split; [done|].
    rewrite Z.shiftr_div_pow2 by lia. repeat constructor; unfold is_byte; zdiv. }
  assert (∀ n, e = Some n → (n ≤ length ip1)%nat) by (intros n Hn; specialize (He n Hn); lia).
  assert (∀ n, Some (length ip1) = Some n → (n ≤ length ip1)%nat) by (intros n [= <-]; lia).
  destruct rest as [|c rest]; [intros [= <- <- <-]; split_and!; [done|lia|done]|].
  destruct (c =? colon); [|done]. cbn [negb].
  destruct rest as [|c' rest']; [done|]. destruct (c' =? colon).
  - destruct (negb _); [done|]. destruct rest' as [|].
    + intros [= <- <- <-]. split_and!; [done|lia|done].
    + apply IH; [done|lia|done].
  - apply IH; [done|lia|done].
Qed.

Lemma parseIPv6_address s ip : parseIPv6 s = Some ip → address ip.
Proof.
  unfold parseIPv6.
  destruct (match s with c :: c' :: s' => _ | _ => _ end) as [s1 e1] eqn:Hs.
  assert (∀ n, e1 = Some n → (n ≤ length (@nil Z))%nat) as He1.
  { intros n ->. destruct s as [|c [|c' s']]; [done..|].
    destruct (_ && _); [by injection Hs as _ <-|done]. }
  clear Hs. destruct (_ && _). { intros [= <-]. split; [done|]. by repeat constructor. }
  destruct (v6_loop 8 s1 [] e1) as [[[s2 ip2] e2]|] eqn:Hl; [|done].
  apply v6_loop_bytes in Hl as (Hb & Hlen & He); [|constructor|done|done].
  destruct (negb _); [done|]. destruct (Nat.ltb_spec (length ip2) 16).
  - destruct e2 as [e|]; [|done]. intros [= <-]. specialize (He e eq_refl). split.
    + rewrite !length_app, length_take, length_drop, repeat_length. lia.
    + apply Forall_app. split; [by apply Forall_take|]. apply Forall_app.
      split; [|by apply Forall_drop]. apply Forall_forall. intros x Hx%list_elem_of_In%repeat_spec.
      unfold is_byte. lia.
  - destruct (negb _); [done|]. intros [= <-]. split; [lia|done].
Qed.

Lemma ParseIP_address s ip : ParseIP s = Some ip → address ip.
Proof.
  unfold ParseIP. destruct (parse_kind (bytes s)) as [c|]; [|done]. destruct (c =? dot).
  - destruct (parseIPv4Fields (bytes s)) as [v4|] eqn:Hv4; [|done]. intros [= <-].
    apply v4_loop_bytes in Hv4 as [Hl4 Hb4]; [|constructor|cbn; lia|lia].
    split; [unfold v4_in_v6; rewrite !length_app; cbn; lia|].
    apply Forall_app. split; [by repeat constructor|]. by repeat constructor.
  - destruct (c =? colon); [|done]. case_bool_decide; [done|]. apply parseIPv6_address.
Qed.
