(* ===== verification/GoNetText.v ===== *)
(** * GoNetText

    The texts of IP addresses: dotted quads, and IPv6 groups in hexadecimal with an ellipsis
    anywhere. Each is read back as its address by the parsers of GoNet. *)

From S2P Require Import Prelude GoStrings GoNet.
Local Open Scope Z_scope.

(** ** Dotted quads *)

(** The decimal digits of a byte, and the usual text of an IPv4 address. *)
Definition decimal (n : Z) : list Z :=
  if n <? 10 then [48 + n]
  else if n <? 100 then [48 + n / 10; 48 + n mod 10]
  else [48 + n / 100; 48 + n / 10 mod 10; 48 + n mod 10].
Definition dotted (a b c d : Z) : list Z :=
  decimal a ++ dot :: decimal b ++ dot :: decimal c ++ dot :: decimal d.

Lemma v4_loop_digit c s prev val digLen fields :
  digit c = true → ¬ (digLen = 1 ∧ val = 0) → val * 10 + c - 48 ≤ 255 →
  v4_loop (c :: s) prev val digLen fields = v4_loop s (Some c) (val * 10 + c - 48) (digLen + 1) fields.
Proof.
  intros Hc Hz Hv. cbn [v4_loop]. rewrite Hc.
  destruct (Z.eqb_spec digLen 1), (Z.eqb_spec val 0); cbn [andb]; try tauto;
    by rewrite (proj2 (Z.ltb_ge 255 _)).
Qed.

(** The digits of a byte are read back as the byte. *)
Lemma v4_loop_decimal n rest prev fields :
  is_byte n → ∃ c k, c ≠ dot ∧
    v4_loop (decimal n ++ rest) prev 0 0 fields = v4_loop rest (Some c) n k fields.
Proof.
  unfold is_byte. intros Hn. unfold decimal.
  assert (∀ x, 0 ≤ x < 10 → digit (48 + x) = true) as Hd.
  { intros x Hx. unfold digit, between. apply andb_true_iff. rewrite !Z.leb_le. lia. }
  assert (∀ x, 0 ≤ x < 10 → 48 + x ≠ dot) as Hdot by (unfold dot; lia).
  destruct (Z.ltb_spec n 10); [|destruct (Z.ltb_spec n 100)]; cbn [app].
  - exists (48 + n), 1. split; [apply Hdot; lia|].
    rewrite v4_loop_digit by (first [apply Hd; lia|lia]). f_equal; lia.
  - exists (48 + n mod 10), 2. assert (0 ≤ n mod 10 < 10 ∧ 0 < n / 10 < 10 ∧ n = n / 10 * 10 + n mod 10)
      as (? & ? & ?) by zdiv. split; [by apply Hdot|].
    rewrite !v4_loop_digit by (first [apply Hd; lia|lia]). f_equal; lia.
  - exists (48 + n mod 10), 3.
    assert (0 ≤ n mod 10 < 10 ∧ 0 ≤ n / 10 mod 10 < 10 ∧ 0 < n / 100 < 10 ∧
            n = n / 100 * 100 + n / 10 mod 10 * 10 + n mod 10) as (? & ? & ? & ?) by zdiv.
    split; [by apply Hdot|]. rewrite !v4_loop_digit by (first [apply Hd; lia|lia]). f_equal; lia.
Qed.

Lemma v4_loop_dot s c val digLen fields :
  c ≠ dot → s ≠ [] → (length fields < 3)%nat →
  v4_loop (dot :: s) (Some c) val digLen fields = v4_loop s (Some dot) 0 0 (fields ++ [val]).
Proof.
  intros Hc Hs Hl. cbn [v4_loop]. change (digit dot) with false. rewrite Z.eqb_refl.
  rewrite !bool_decide_eq_false_2 by congruence. cbn [orb].
  by destruct (Nat.eqb_spec (length fields) 3); [lia|].
Qed.

Lemma decimal_not_nil n rest : decimal n ++ rest ≠ [].
Proof. unfold decimal. by repeat case_match. Qed.

(** Every IPv4 address is parsed from its usual text. *)
Lemma parse_dotted a b c d :
  Forall is_byte [a; b; c; d] → parseIPv4Fields (dotted a b c d) = Some [a; b; c; d].
Proof.
  rewrite !Forall_cons. intros (Ha & Hb & Hc & Hd & _). unfold parseIPv4Fields, dotted.
  destruct (v4_loop_decimal a (dot :: decimal b ++ dot :: decimal c ++ dot :: decimal d) None [] Ha)
    as (x & k & Hx & ->).
  rewrite v4_loop_dot by (first [done|apply decimal_not_nil|cbn; lia]).
  edestruct (v4_loop_decimal b) as (x2 & k2 & Hx2 & ->); [done|].
  rewrite v4_loop_dot by (first [done|apply decimal_not_nil|cbn; lia]).
  edestruct (v4_loop_decimal c) as (x3 & k3 & Hx3 & ->); [done|].
  rewrite v4_loop_dot by (first [done|rewrite <- (app_nil_r (decimal d)); apply decimal_not_nil|cbn; lia]).
  rewrite <- (app_nil_r (decimal d)).
  by edestruct (v4_loop_decimal d) as (x4 & k4 & Hx4 & ->).
Qed.


(** ** Groups *)

Definition hex_digit (v : Z) : Z := if v <? 10 then 48 + v else 87 + v.

(** [appendHex]: a group without leading zeros. *)
Definition hex (x : Z) : list Z :=
  (if 4096 <=? x then [hex_digit (x / 4096)] else []) ++
  (if 256 <=? x then [hex_digit (x / 256 mod 16)] else []) ++
  (if 16 <=? x then [hex_digit (x / 16 mod 16)] else []) ++ [hex_digit (x mod 16)].

Definition group (x : Z) : Prop := 0 ≤ x < 65536.

Fixpoint groups_text (gs : list Z) : list Z :=
  match gs with
  | [] => []
  | [g] => hex g
  | g :: gs => hex g ++ colon :: groups_text gs
  end.
Definition group_bytes (gs : list Z) : list Z := gs ≫= λ g, [g / 256; g mod 256].

(** A text with an ellipsis between two lists of groups. *)
Definition ellipsis_text (left right : list Z) : list Z :=
  groups_text left ++ colon :: colon :: groups_text right.

Lemma hex_value_digit v : 0 ≤ v < 16 → hex_value (hex_digit v) = Some v.
Proof.
  intros Hv. unfold hex_value, hex_digit, digit, between. destruct (Z.ltb_spec v 10).
  - rewrite !(proj2 (Z.leb_le _ _)) by lia. cbn. f_equal. lia.
  - rewrite (proj2 (Z.leb_gt (87 + v) 57)) by lia. rewrite andb_false_r.
    rewrite !(proj2 (Z.leb_le _ _)) by lia. cbn. f_equal. lia.
Qed.

Lemma hex_group_digits ds rest : ∀ off acc,
  Forall (λ d, 0 ≤ d < 16) ds → (off + length ds ≤ 4)%nat → 0 ≤ acc < 16 ^ Z.of_nat off →
  (head rest ≫= hex_value) = None →
  hex_group ((hex_digit <$> ds) ++ rest) off acc =
  Some ((off + length ds)%nat, fold_left (λ a d, 16 * a + d) ds acc, rest).
Proof.
  induction ds as [|d ds IH]; intros off acc Hds Hoff Hacc Hrest; cbn [fmap list_fmap app length fold_left].
  { rewrite Nat.add_0_r. destruct rest as [|c rest]; [done|]. cbn in Hrest |- *. by rewrite Hrest. }
  apply Forall_cons in Hds as [Hd Hds]. cbn [length] in Hoff. cbn [hex_group].
  rewrite hex_value_digit by done. rewrite Z.shiftl_mul_pow2 by lia.
  change (2 ^ 4) with 16. destruct (Nat.ltb_spec 3 off); [lia|].
  assert (16 ^ Z.of_nat (S off) = 16 * 16 ^ Z.of_nat off) as Hpow
    by (rewrite Nat2Z.inj_succ, Z.pow_succ_r by lia; done).
  assert (acc * 16 + d < 16 ^ Z.of_nat (S off)) as Hlt by lia.
  assert (16 ^ Z.of_nat (S off) ≤ 16 ^ 4) by (apply Z.pow_le_mono_r; lia).
  rewrite (proj2 (Z.ltb_ge 65535 _)) by lia.
  rewrite IH by (done || lia). rewrite (Z.mul_comm acc). by rewrite <- Nat.add_succ_comm.
Qed.

#[local] Ltac digits_range := repeat first [apply Forall_nil_2|apply Forall_cons_2; [done|]].

(** The digits of a group. *)
Lemma hex_digits g : group g → ∃ ds, hex g = hex_digit <$> ds ∧ Forall (λ d, 0 ≤ d < 16) ds ∧
  (0 < length ds ≤ 4)%nat ∧ fold_left (λ a d, 16 * a + d) ds 0 = g.
Proof.
  unfold group, hex. intros Hg.
  assert (0 ≤ g mod 16 < 16 ∧ 0 ≤ g / 16 mod 16 < 16 ∧ 0 ≤ g / 256 mod 16 < 16 ∧ 0 ≤ g / 4096 < 16)
    as (? & ? & ? & ?) by zdiv.
  destruct (Z.leb_spec 4096 g); [|destruct (Z.leb_spec 256 g); [|destruct (Z.leb_spec 16 g)]].
  - exists [g / 4096; g / 256 mod 16; g / 16 mod 16; g mod 16]. rewrite !(proj2 (Z.leb_le _ _)) by lia.
    split_and!; [done|digits_range|cbn; lia..|cbn; zdiv].
  - exists [g / 256 mod 16; g / 16 mod 16; g mod 16]. rewrite !(proj2 (Z.leb_le _ _)) by lia.
    split_and!; [done|digits_range|cbn; lia..|cbn; zdiv].
  - exists [g / 16 mod 16; g mod 16]. split_and!; [done|digits_range|cbn; lia..|cbn; zdiv].
  - exists [g mod 16]. split_and!; [done|digits_range|cbn; lia..|cbn; zdiv].
Qed.

Lemma hex_group_hex g rest :
  group g → (head rest ≫= hex_value) = None →
  ∃ n, (0 < n)%nat ∧ hex_group (hex g ++ rest) 0 0 = Some (n, g, rest).
Proof.
  intros (ds & -> & Hds & Hlen & Hval)%hex_digits Hrest. exists (length ds). split; [lia|].
  rewrite hex_group_digits; [by rewrite Hval|done|lia|done|done].
Qed.

(** ** The loop over the groups *)

Lemma groups_text_cons g gs :
  groups_text (g :: gs) = hex g ++ match gs with [] => [] | _ => colon :: groups_text gs end.
Proof. destruct gs; [by rewrite app_nil_r|done]. Qed.

Lemma hex_head g : group g → ∃ c l, hex g = c :: l ∧ c ≠ colon.
Proof.
  intros (ds & -> & Hds & Hlen & _)%hex_digits. destruct ds as [|d ds]; [cbn in Hlen; lia|].
  apply Forall_cons in Hds as [Hd _]. exists (hex_digit d), (hex_digit <$> ds). split; [done|].
  unfold hex_digit, colon. destruct (Z.ltb_spec d 10); lia.
Qed.

Lemma groups_text_head g gs : group g → ∃ c l, groups_text (g :: gs) = c :: l ∧ c ≠ colon.
Proof.
  intros (c & l & Hc & Hne)%hex_head. rewrite groups_text_cons, Hc. cbn [app]. by eexists _, _.
Qed.

(** One group and what follows it. *)
Lemma v6_loop_group groups g rest ip e :
  group g → (head rest ≫= hex_value) = None → head rest ≠ Some dot →
  v6_loop (S groups) (hex g ++ rest) ip e =
  let ip := ip ++ [g / 256; g mod 256] in
  match rest with
  | [] => Some ([], ip, e)
  | c :: rest =>
      if negb (c =? colon) then None
      else match rest with
           | [] => None
           | c' :: rest' =>
               if c' =? colon then
                 if negb (bool_decide (e = None)) then None
                 else match rest' with
                      | [] => Some ([], ip, Some (length ip))
                      | _ :: _ => v6_loop groups rest' ip (Some (length ip))
                      end
               else v6_loop groups rest ip e
           end
  end.
Proof.
  intros Hg Hrest Hdot. cbn [v6_loop].
  destruct (hex_group_hex g rest Hg Hrest) as (n & Hn & ->).
  destruct (Nat.eqb_spec n 0); [lia|]. rewrite bool_decide_eq_false_2 by done.
  rewrite Z.shiftr_div_pow2 by lia. done.
Qed.

(** A list of groups at the end of the text. *)
Lemma v6_loop_last gs : ∀ groups ip e,
  gs ≠ [] → Forall group gs → (length gs ≤ groups)%nat →
  v6_loop groups (groups_text gs) ip e = Some ([], ip ++ group_bytes gs, e).
Proof.
  induction gs as [|g gs IH]; intros [|groups] ip e Hne Hgs Hlen; try done; [cbn in Hlen; lia|].
  apply Forall_cons in Hgs as [Hg Hgs]. rewrite groups_text_cons. destruct gs as [|g' gs].
  { rewrite v6_loop_group by done. done. }
  rewrite v6_loop_group by done. cbn zeta.
  destruct (groups_text_head g' gs) as (c & l & Hc & Hcolon); [by apply Forall_cons in Hgs as [? _]|].
  rewrite Z.eqb_refl, Hc. cbn [negb]. destruct (Z.eqb_spec c colon); [done|]. rewrite <- Hc.
  rewrite IH by (first [done|cbn in Hlen |- *; lia]).
  by rewrite <- app_assoc.
Qed.

(** A list of groups with an ellipsis behind it. *)
Lemma v6_loop_ellipsis gs right : ∀ groups ip,
  gs ≠ [] → Forall group gs → (length gs ≤ groups)%nat →
  let ip' := ip ++ group_bytes gs in
  v6_loop groups (groups_text gs ++ colon :: colon :: right) ip None =
  match right with
  | [] => Some ([], ip', Some (length ip'))
  | _ => v6_loop (groups - length gs) right ip' (Some (length ip'))
  end.
Proof.
  induction gs as [|g gs IH]; intros [|groups] ip Hne Hgs Hlen; try done; [cbn in Hlen; lia|].
  apply Forall_cons in Hgs as [Hg Hgs]. rewrite groups_text_cons. destruct gs as [|g' gs].
  { rewrite app_nil_r, v6_loop_group by done. cbn zeta. rewrite !Z.eqb_refl. cbn [negb].
    rewrite bool_decide_eq_true_2 by done. cbn [negb length Nat.sub]. by rewrite Nat.sub_0_r. }
  rewrite <- app_assoc. cbn [app]. rewrite v6_loop_group by done. cbn zeta.
  destruct (groups_text_head g' gs) as (c & l & Hc & Hcolon); [by apply Forall_cons in Hgs as [? _]|].
  rewrite Z.eqb_refl, Hc. cbn [negb app]. destruct (Z.eqb_spec c colon); [done|].
  change (c :: l ++ colon :: colon :: right) with ((c :: l) ++ colon :: colon :: right). rewrite <- Hc.
  rewrite IH by (first [done|cbn in Hlen |- *; lia]). rewrite <- app_assoc. done.
Qed.

Lemma length_group_bytes gs : length (group_bytes gs) = (2 * length gs)%nat.
Proof.
  induction gs as [|g gs IH]; [done|]. change (group_bytes (g :: gs)) with ([g / 256; g mod 256] ++ group_bytes gs).
  rewrite length_app, IH. cbn [length]. lia.
Qed.

(** ** IPv6 texts *)

Lemma parseIPv6_start c l :
  c ≠ colon →
  parseIPv6 (c :: l) =
  match v6_loop 8 (c :: l) [] None with
  | Some (s, ip, ellipsis) =>
      if negb (bool_decide (s = [])) then None
      else if (length ip <? 16)%nat then
        match ellipsis with
        | None => None
        | Some e => Some (take e ip ++ repeat 0 (16 - length ip) ++ drop e ip)
        end
      else if negb (bool_decide (ellipsis = None)) then None else Some ip
  | None => None
  end.
Proof.
  intros Hc. unfold parseIPv6. destruct l as [|c' l].
  - rewrite bool_decide_eq_false_2 by done. by destruct (v6_loop _ _ _ _) as [[[]]|].
  - destruct (Z.eqb_spec c colon); [done|]. cbn [andb].
    rewrite bool_decide_eq_false_2 by done. by destruct (v6_loop _ _ _ _) as [[[]]|].
Qed.

Lemma parseIPv6_groups gs :
  Forall group gs → length gs = 8%nat → parseIPv6 (groups_text gs) = Some (group_bytes gs).
Proof.
  intros Hgs Hlen. destruct gs as [|g gs]; [done|].
  destruct (groups_text_head g gs) as (c & l & Hc & Hcolon); [by apply Forall_cons in Hgs as [? _]|].
  rewrite Hc, parseIPv6_start, <- Hc by done. rewrite v6_loop_last by (first [done|lia]).
  cbn [app]. rewrite bool_decide_eq_true_2 by done. cbn [negb].
  by rewrite length_group_bytes, Hlen.
Qed.

Lemma parseIPv6_ellipsis left right :
  Forall group (left ++ right) → (length left + length right ≤ 7)%nat →
  parseIPv6 (ellipsis_text left right) =
  Some (group_bytes left ++ repeat 0 (16 - 2 * (length left + length right)) ++ group_bytes right).
Proof.
  intros [Hl Hr]%Forall_app Hlen. unfold ellipsis_text. destruct left as [|g left].
  { unfold parseIPv6. cbn [groups_text app]. rewrite Z.eqb_refl. cbn [andb].
    destruct right as [|g right]; [done|].
    destruct (groups_text_head g right) as (c & l & Hc & _); [by apply Forall_cons in Hr as [? _]|].
    rewrite bool_decide_eq_false_2 by (by rewrite Hc). cbn [andb].
    rewrite v6_loop_last by (first [done|cbn in *; lia]). cbn [app].
    rewrite bool_decide_eq_true_2 by done. cbn [negb]. rewrite length_group_bytes.
    destruct (Nat.ltb_spec (2 * length (g :: right)) 16); [done|cbn in *; lia]. }
  destruct (groups_text_head g left) as (c & l & Hc & Hcolon); [by apply Forall_cons in Hl as [? _]|].
  rewrite Hc. cbn [app]. rewrite parseIPv6_start by done.
  change (c :: l ++ colon :: colon :: groups_text right)
    with ((c :: l) ++ colon :: colon :: groups_text right).
  rewrite <- Hc, v6_loop_ellipsis by (first [done|cbn in *; lia]). cbn zeta. rewrite app_nil_l.
  set (lbytes := group_bytes (g :: left)).
  assert (length lbytes = 2 * length (g :: left))%nat as Hlb by apply length_group_bytes.
  destruct right as [|g' right].
  - cbn [groups_text]. rewrite bool_decide_eq_true_2 by done. cbn [negb length] in *.
    destruct (Nat.ltb_spec (length lbytes) 16); [|lia].
    rewrite firstn_all, skipn_all, Hlb, Nat.add_0_r. done.
  - destruct (groups_text_head g' right) as (c' & l' & Hc' & _); [by apply Forall_cons in Hr as [? _]|].
    rewrite Hc', <- Hc', v6_loop_last by (first [done|cbn in *; lia]).
    rewrite bool_decide_eq_true_2 by done. cbn [negb]. rewrite length_app, length_group_bytes, Hlb.
    destruct (Nat.ltb_spec (2 * length (g :: left) + 2 * length (g' :: right)) 16); [|cbn in *; lia].
    rewrite <- Hlb, take_app_length, drop_app_length. f_equal. f_equal. f_equal. f_equal. lia.
Qed.

(** ** The texts of an address *)

(** The texts of the 16 bytes of an address. *)
Inductive spells : list Z → list Z → Prop :=
| spells_dotted a b c d :
    Forall is_byte [a; b; c; d] → spells (dotted a b c d) (v4_in_v6 [a; b; c; d])
| spells_groups gs :
    Forall group gs → length gs = 8%nat → spells (groups_text gs) (group_bytes gs)
| spells_ellipsis left right :
    Forall group (left ++ right) → (length left + length right ≤ 7)%nat →
    spells (ellipsis_text left right)
           (group_bytes left ++ repeat 0 (16 - 2 * (length left + length right)) ++
            group_bytes right).

(** The characters of these texts: digits, small letters, colons and dots. *)
Definition text_char (c : Z) : Prop := c = dot ∨ 48 ≤ c ≤ 102.

Lemma decimal_chars n : is_byte n → Forall (λ c, 48 ≤ c ≤ 57) (decimal n).
Proof.
  unfold is_byte, decimal. intros Hn.
  destruct (Z.ltb_spec n 10); [|destruct (Z.ltb_spec n 100)];
    repeat (apply Forall_cons_2; [zdiv|]); apply Forall_nil_2.
Qed.

Lemma hex_chars g : group g → Forall (λ c, 48 ≤ c ≤ 57 ∨ 97 ≤ c ≤ 102) (hex g).
Proof.
  intros (ds & -> & Hds & _)%hex_digits. apply Forall_fmap. eapply Forall_impl; [exact Hds|].
  intros d Hd. cbv beta in Hd. unfold compose, hex_digit. destruct (Z.ltb_spec d 10); lia.
Qed.

Lemma groups_chars gs : Forall group gs → Forall (λ c, 48 ≤ c ≤ 58 ∨ 97 ≤ c ≤ 102) (groups_text gs).
Proof.
  induction 1 as [|g gs Hg Hgs IH]; [apply Forall_nil_2|]. rewrite groups_text_cons.
  apply Forall_app_2.
  - eapply Forall_impl; [by apply hex_chars|]. cbn. lia.
  - destruct gs; [apply Forall_nil_2|]. apply Forall_cons_2; [unfold colon; lia|done].
Qed.

Lemma spells_chars l ip : spells l ip → l ≠ [] ∧ Forall text_char l.
Proof.
  destruct 1 as [a b c d Hb|gs Hgs Hlen|left right Hgs Hlen].
  - rewrite !Forall_cons in Hb. destruct Hb as (Ha & Hb & Hc & Hd & _). unfold dotted.
    split; [apply decimal_not_nil|].
    assert (∀ n, is_byte n → Forall text_char (decimal n)) as Hdec.
    { intros n Hn. eapply Forall_impl; [by apply decimal_chars|]. unfold text_char. cbn. lia. }
    repeat first [apply Forall_app_2|apply Forall_cons_2; [by left|]]; by apply Hdec.
  - split.
    + destruct gs as [|g gs]; [done|]. apply Forall_cons in Hgs as [Hg _].
      by destruct (groups_text_head g gs Hg) as (c & l & -> & _).
    + eapply Forall_impl; [by apply groups_chars|]. unfold text_char. cbn. lia.
  - unfold ellipsis_text. apply Forall_app in Hgs as [Hl Hr]. split; [by destruct (groups_text left)|].
    assert (∀ gs, Forall group gs → Forall text_char (groups_text gs)) as Hgt.
    { intros gs Hgs. eapply Forall_impl; [by apply groups_chars|]. unfold text_char. cbn. lia. }
    apply Forall_app_2; [by apply Hgt|].
    do 2 (apply Forall_cons_2; [unfold text_char, colon; lia|]). by apply Hgt.
Qed.

Lemma parse_kind_app a c l :
  Forall (λ b, b ≠ dot ∧ b ≠ colon ∧ b ≠ percent) a → c = dot ∨ c = colon →
  parse_kind (a ++ c :: l) = Some c.
Proof.
  intros Ha Hc. induction Ha as [|b a (H1 & H2 & H3) Ha IH]; cbn.
  - by destruct Hc as [-> | ->].
  - destruct (Z.eqb_spec b dot), (Z.eqb_spec b colon), (Z.eqb_spec b percent); done.
Qed.

Lemma ParseIP_groups l :
  Forall (λ c, 48 ≤ c ≤ 58 ∨ 97 ≤ c ≤ 102) l → colon ∈ l →
  ParseIP (of_bytes l) = parseIPv6 l.
Proof.
  intros Hl Hcolon. unfold ParseIP.
  rewrite bytes_of_bytes by (eapply Forall_impl; [exact Hl|unfold is_byte; cbn; lia]).
  assert (parse_kind l = Some colon) as ->.
  { induction Hl as [|c l Hc Hl IH]; [by apply elem_of_nil in Hcolon|]. cbn [parse_kind].
    unfold dot, colon, percent in *. destruct (Z.eqb_spec c 46); [lia|].
    destruct (Z.eqb_spec c 58) as [->|]; [done|]. destruct (Z.eqb_spec c 37); [lia|]. cbn [orb].
    apply IH. by apply elem_of_cons in Hcolon as [?|?]; [lia|]. }
  change (colon =? dot) with false. rewrite Z.eqb_refl, bool_decide_eq_false_2; [done|].
  intros Hin. rewrite Forall_forall in Hl. apply Hl in Hin. unfold percent in Hin. lia.
Qed.

(** Every text of an address is read as that address. *)
Lemma ParseIP_spells l ip : spells l ip → ParseIP (of_bytes l) = Some ip.
Proof.
  intros Hs. pose proof (spells_chars l ip Hs) as [_ Hchars].
  destruct Hs as [a b c d Hb|gs Hgs Hlen|left right Hgs Hlen].
  - unfold ParseIP. rewrite bytes_of_bytes
      by (eapply Forall_impl; [exact Hchars|unfold text_char, dot, is_byte; lia]).
    pose proof (parse_dotted a b c d Hb) as Hp. unfold dotted at 1.
    rewrite parse_kind_app; [| |by left].
    + rewrite Z.eqb_refl. by rewrite Hp.
    + apply Forall_cons in Hb as [Ha _]. eapply Forall_impl; [by apply decimal_chars|].
      unfold dot, colon, percent. cbn. lia.
  - rewrite ParseIP_groups; [by apply parseIPv6_groups|by apply groups_chars|].
    destruct gs as [|g [|g' gs]]; [done..|]. rewrite groups_text_cons. set_solver.
  - apply Forall_app in Hgs as [Hl Hr]. rewrite ParseIP_groups.
    + apply parseIPv6_ellipsis; [by apply Forall_app_2|done].
    + apply Forall_app_2; [by apply groups_chars|].
      do 2 (apply Forall_cons_2; [unfold colon; lia|]). by apply groups_chars.
    + unfold ellipsis_text. set_solver.
Qed.

(** Every address has a text. *)
Fixpoint groups_of (ip : list Z) : list Z :=
  match ip with
  | a :: b :: ip => (256 * a + b) :: groups_of ip
  | _ => []
  end.

Lemma groups_of_bytes : ∀ ip, Forall is_byte ip → Nat.even (length ip) = true →
  group_bytes (groups_of ip) = ip ∧ Forall group (groups_of ip) ∧
  (2 * length (groups_of ip) = length ip)%nat.
Proof.
  fix IH 1. intros [|a [|b ip]] Hb Heven; [done|done|].
  apply Forall_cons in Hb as [Ha Hb]. apply Forall_cons in Hb as [Hb Hip].
  destruct (IH ip Hip Heven) as (H1 & H2 & H3). clear IH. unfold is_byte in *.
  cbn [groups_of length]. split_and!; [|apply Forall_cons_2; [unfold group; lia|done]|lia].
  change (group_bytes ((256 * a + b) :: groups_of ip)) with
    ([(256 * a + b) / 256; (256 * a + b) mod 256] ++ group_bytes (groups_of ip)).
  rewrite H1. cbn [app]. f_equal; [|f_equal]; zdiv.
Qed.

Lemma spells_address ip : address ip → spells (groups_text (groups_of ip)) ip.
Proof.
  intros [Hlen Hip]. destruct (groups_of_bytes ip Hip) as (Hb & Hg & Hn); [by rewrite Hlen|].
  rewrite <- Hb at 2. apply spells_groups; [done|lia].
Qed.

(** There is no white space to trim around a text. *)
Lemma strip_one_text encs c l :
  Forall (λ e, ∃ b e', e = b :: e' ∧ (b < 33 ∨ 127 < b)) encs → text_char c →
  strip_one encs (c :: l) = None.
Proof.
  intros He Hc. induction He as [|e encs (b & e' & -> & Hb) He IH]; [done|]. cbn.
  destruct (Z.eqb_spec b c); [unfold text_char, dot in Hc; lia|done].
Qed.

Lemma space_heads (encs : list (list Z)) :
  encs = space_encodings ∨ encs = reverse <$> space_encodings →
  Forall (λ e, ∃ b e', e = b :: e' ∧ (b < 33 ∨ 127 < b)) encs.
Proof.
  intros [-> | ->]; unfold space_encodings; cbn [fmap list_fmap];
    repeat (apply Forall_cons_2; [eexists _, _; split; [reflexivity|lia]|]); apply Forall_nil_2.
Qed.

Lemma TrimSpace_text l : l ≠ [] → Forall text_char l → TrimSpace (of_bytes l) = of_bytes l.
Proof.
  intros Hne Hl. unfold TrimSpace.
  rewrite bytes_of_bytes by (eapply Forall_impl; [exact Hl|unfold text_char, dot, is_byte; lia]).
  assert (∀ encs n k, Forall (λ e, ∃ b e', e = b :: e' ∧ (b < 33 ∨ 127 < b)) encs →
            Forall text_char k → strip_all n encs k = k) as Hstrip.
  { intros encs n [|c k] He Hk; destruct n as [|n]; cbn; try done.
    - assert (strip_one encs [] = None) as ->; [|done].
      induction He as [|e encs (b & e' & -> & _) He IH]; [done|exact IH].
    - apply Forall_cons in Hk as [Hc _]. by rewrite strip_one_text. }
  rewrite (Hstrip space_encodings _ l) by (first [done|apply space_heads; by left]).
  rewrite Hstrip; [by rewrite reverse_involutive|apply space_heads; by right|by apply Forall_reverse].
Qed.

Example spelled :
  of_bytes (ellipsis_text [0x2001; 0xdb8] [1]) = "2001:db8::1"%string ∧
  of_bytes (ellipsis_text [] []) = "::"%string ∧
  of_bytes (dotted 192 0 2 33) = "192.0.2.33"%string.
Proof. by vm_compute. Qed.
