(* ===== verification/GoUrl.v ===== *)
(** * GoUrl

    Go's [net/url]: [Parse], [String] and [Hostname], query escaping and its inverse, the
    parser of a query string and [Values.Encode]. [Parse] is that of Go 1.26: one colon in a
    host, an IPv6 address between brackets, and its limit on query parameters. *)

From S2P Require Import Prelude GoStrings GoNet.
Local Open Scope Z_scope.

(** [User]: the name, and the password when one is set. *)
Record Userinfo : Type := MkUserinfo { username : string; password : option string }.

Record URL : Type := MkURL {
  Scheme : string;
  Opaque : string;
  User : option Userinfo;
  Host : string;
  Path : string;
  RawPath : string;
  OmitHost : bool;
  ForceQuery : bool;
  RawQuery : string;
  Fragment : string;
  RawFragment : string;
}.

(** ** Query escaping *)

(** The bytes [QueryEscape] leaves alone: letters, digits and [-_.~]. *)
Definition unreserved (b : Z) : bool :=
  between 97 b 122 || between 65 b 90 || between 48 b 57 ||
  (b =? 45) || (b =? 95) || (b =? 46) || (b =? 126).

Definition upperhex (n : Z) : Z := if n <? 10 then 48 + n else 55 + n.

Definition escape_byte (b : Z) : list Z :=
  if b =? 32 then [43]
  else if unreserved b then [b]
  else [37; upperhex (Z.shiftr b 4); upperhex (Z.land b 15)].

Definition QueryEscape (s : string) : string := of_bytes (bytes s ≫= escape_byte).

Definition unhex (c : Z) : option Z :=
  if between 48 c 57 then Some (c - 48)
  else if between 97 c 102 then Some (c - 87)
  else if between 65 c 70 then Some (c - 55)
  else None.

Fixpoint unescape (l : list Z) : option (list Z) :=
  match l with
  | [] => Some []
  | c :: l' =>
      if c =? 37 then
        match l' with
        | a :: b :: l'' =>
            x ← unhex a; y ← unhex b; r ← unescape l''; Some (16 * x + y :: r)
        | _ => None
        end
      else if c =? 43 then r ← unescape l'; Some (32 :: r)
      else r ← unescape l'; Some (c :: r)
  end.

Definition QueryUnescape (s : string) : option string := of_bytes <$> unescape (bytes s).

Lemma unhex_upperhex n : 0 <= n < 16 → unhex (upperhex n) = Some n.
Proof.
  intros Hn. unfold unhex, upperhex, between.
  destruct (Z.ltb_spec n 10).
  - replace ((48 <=? 48 + n) && (48 + n <=? 57)) with true by lia. f_equal; lia.
  - replace ((48 <=? 55 + n) && (55 + n <=? 57)) with false by lia.
    replace ((97 <=? 55 + n) && (55 + n <=? 102)) with false by lia.
    replace ((65 <=? 55 + n) && (55 + n <=? 70)) with true by lia. f_equal; lia.
Qed.

(** A byte is its two nibbles. *)
Lemma nibbles b :
  is_byte b →
  0 <= Z.shiftr b 4 < 16 ∧ 0 <= Z.land b 15 < 16 ∧ 16 * Z.shiftr b 4 + Z.land b 15 = b.
Proof.
  unfold is_byte. intros Hb. change 15 with (Z.ones 4).
  rewrite Z.shiftr_div_pow2, Z.land_ones by done. change (2 ^ 4) with 16. zdiv.
Qed.

Lemma unescape_escape_byte b l :
  is_byte b → unescape (escape_byte b ++ l) = (λ r, b :: r) <$> unescape l.
Proof.
  intros Hb. pose proof (nibbles b Hb) as (Hhi & Hlo & Hnib). unfold escape_byte.
  destruct (Z.eqb_spec b 32) as [->|Hsp]; cbn; [by destruct (unescape l)|].
  destruct (unreserved b) eqn:Hu.
  - assert (b ≠ 37 ∧ b ≠ 43) as [H1 H2].
    { unfold unreserved, between in Hu. lia. }
    cbn. apply Z.eqb_neq in H1, H2. rewrite H1, H2. by destruct (unescape l).
  - cbn -[Z.shiftr Z.land]. rewrite !unhex_upperhex by done. cbn -[Z.shiftr Z.land Z.mul].
    rewrite Hnib. by destruct (unescape l).
Qed.

Lemma escape_byte_is_byte b : is_byte b → Forall is_byte (escape_byte b).
Proof.
  intros Hb. pose proof (nibbles b Hb) as (Hhi & Hlo & _). unfold escape_byte, is_byte in *.
  destruct (b =? 32); [repeat constructor; lia|].
  destruct (unreserved b); [repeat constructor; lia|].
  assert (∀ n, 0 <= n < 16 → 0 <= upperhex n < 256).
  { intros n Hn. unfold upperhex. destruct (n <? 10); lia. }
  repeat constructor; try lia; apply H; lia.
Qed.

Lemma escape_bytes_are_bytes l : Forall is_byte l → Forall is_byte (l ≫= escape_byte).
Proof.
  induction 1 as [|b l Hb Hl IH]; cbn; [constructor|].
  apply Forall_app. split; [by apply escape_byte_is_byte|done].
Qed.

Lemma QueryUnescape_Escape s : QueryUnescape (QueryEscape s) = Some s.
Proof.
  unfold QueryUnescape, QueryEscape.
  rewrite bytes_of_bytes by apply escape_bytes_are_bytes, bytes_are_bytes.
  assert (∀ l, Forall is_byte l → unescape (l ≫= escape_byte) = Some l) as H.
  { induction 1 as [|b l Hb Hl IH]; [done|]. cbn -[unescape].
    rewrite unescape_escape_byte by done. by rewrite IH. }
  rewrite H by apply bytes_are_bytes. cbn. by rewrite of_bytes_bytes.
Qed.

(** An escaped string holds none of the bytes that structure a query. *)
Lemma QueryEscape_clean s b : b ∈ bytes (QueryEscape s) → b ≠ 38 ∧ b ≠ 61 ∧ b ≠ 59.
Proof.
  unfold QueryEscape. rewrite bytes_of_bytes by apply escape_bytes_are_bytes, bytes_are_bytes.
  intros (c & Hb & Hc)%list_elem_of_bind.
  pose proof (bytes_are_bytes s) as Hs. rewrite Forall_forall in Hs. apply Hs in Hc.
  pose proof (nibbles c Hc) as (Hhi & Hlo & _). unfold escape_byte, is_byte in *.
  destruct (c =? 32); [apply list_elem_of_singleton in Hb; lia|].
  destruct (unreserved c) eqn:Hu.
  - apply list_elem_of_singleton in Hb as ->. unfold unreserved, between in Hu. lia.
  - assert (∀ n, 0 <= n < 16 → upperhex n ≠ 38 ∧ upperhex n ≠ 61 ∧ upperhex n ≠ 59) as Hh.
    { intros n Hn. unfold upperhex. destruct (Z.ltb_spec n 10); lia. }
    repeat (apply elem_of_cons in Hb as [->|Hb]; [first [lia|by apply Hh]|]).
    by apply elem_of_nil in Hb.
Qed.

(** ** Escaping by component *)

Inductive component : Type :=
| EncodePath | EncodeHost | EncodeZone | EncodeUserPassword | EncodeFragment.

Definition is_in (c : Z) (s : string) : bool := bool_decide (c ∈ bytes s).
Definition alnum (c : Z) : bool := between 97 c 122 || between 65 c 90 || between 48 c 57.

Definition shouldEscape (c : Z) (m : component) : bool :=
  if alnum c then false
  else if match m with EncodeHost | EncodeZone => is_in c "!$&'()*+,;=:[]<>" || (c =? 34) | _ => false end
  then false
  else if is_in c "-_.~" then false
  else if is_in c "$&+,/:;=?@" then
    match m with
    | EncodePath => c =? 63
    | EncodeUserPassword => is_in c "@/?:"
    | EncodeFragment => false
    | EncodeHost | EncodeZone => true
    end
  else match m with EncodeFragment => negb (is_in c "!()*") | _ => true end.

Definition escape_component (m : component) (l : list Z) : list Z :=
  l ≫= λ c, if shouldEscape c m then [37; upperhex (Z.shiftr c 4); upperhex (Z.land c 15)] else [c].

(** [unescape]: in a host only [%25] and escapes of bytes outside ASCII are allowed, in a
    zone any byte but those a host may not hold. *)
Fixpoint unescape_component (m : component) (l : list Z) : option (list Z) :=
  match l with
  | [] => Some []
  | c :: l' =>
      if c =? 37 then
        match l' with
        | a :: b :: l'' =>
            x ← unhex a; y ← unhex b;
            let v := 16 * x + y in
            let is25 := (a =? 50) && (b =? 53) in
            let allowed :=
              match m with
              | EncodeHost => is25 || (8 <=? x)
              | EncodeZone => is25 || (v =? 32) || negb (shouldEscape v EncodeHost)
              | _ => true
              end in
            if allowed then r ← unescape_component m l''; Some (v :: r) else None
        | _ => None
        end
      else if match m with EncodeHost | EncodeZone => (c <? 128) && shouldEscape c m | _ => false end
      then None
      else r ← unescape_component m l'; Some (c :: r)
  end.

(** ** Parse *)

(** [getScheme]: the bytes read so far in reverse; [None] is a missing scheme. *)
Fixpoint getScheme_loop (whole l acc : list Z) : option (list Z * list Z) :=
  match l with
  | [] => Some ([], whole)
  | c :: l' =>
      if between 97 c 122 || between 65 c 90 then getScheme_loop whole l' (c :: acc)
      else if between 48 c 57 || is_in c "+-." then
        match acc with [] => Some ([], whole) | _ => getScheme_loop whole l' (c :: acc) end
      else if c =? 58 then
        match acc with [] => None | _ => Some (reverse acc, l') end
      else Some ([], whole)
  end.
Definition getScheme (l : list Z) : option (list Z * list Z) := getScheme_loop l l [].

Definition validOptionalPort (port : list Z) : bool :=
  match port with
  | [] => true
  | c :: digits => (c =? 58) && forallb (λ d, between 48 d 57) digits
  end.

(** Cutting at the last occurrence of a byte. *)
Definition cut_last (sep : Z) (l : list Z) : option (list Z * list Z) :=
  match cut sep (reverse l) with
  | (_, None) => None
  | (b, Some a) => Some (reverse a, reverse b)
  end.

(** [strings.Index(s, "%25")]: what is before and what is from there on. *)
Fixpoint cut_percent25 (l : list Z) : option (list Z * list Z) :=
  match l with
  | [] => None
  | c :: l' =>
      if bool_decide (take 3 l = [37; 50; 53]) then Some ([], l)
      else '(a, b) ← cut_percent25 l'; Some (c :: a, b)
  end.

(** An IP literal without its opening bracket. *)
Definition parse_ip_literal (l : list Z) : option (list Z) :=
  '(hostname, colonPort) ← cut_last 93 l;
  if negb (validOptionalPort colonPort) || is_in 91 (of_bytes hostname) then None
  else
    port ← unescape_component EncodeHost colonPort;
    name ← match cut_percent25 hostname with
           | Some (h, z) =>
               a ← unescape_component EncodeHost h; b ← unescape_component EncodeZone z;
               Some (a ++ b)
           | None => unescape_component EncodeHost hostname
           end;
    _ ← ParseAddr6 name;
    Some ([91] ++ name ++ [93] ++ port).

Definition postgres (scheme : list Z) : bool :=
  bool_decide (of_bytes scheme ∈ ["postgres"; "postgresql"]%string).

Definition parseHost (scheme host : list Z) : option (list Z) :=
  if bool_decide (head host = Some 91) then parse_ip_literal (tail host)
  else if bool_decide (91 ∈ host) then None
  else
    let colonPort := match cut 58 host with
                     | (_, None) => []
                     | (_, Some p) =>
                         match cut_last 58 p with
                         | Some (_, p') => if postgres scheme then 58 :: p' else 58 :: p
                         | None => 58 :: p
                         end
                     end in
    if negb (validOptionalPort colonPort) then None else unescape_component EncodeHost host.

Definition validUserinfo (l : list Z) : bool :=
  forallb (λ c, alnum c || is_in c "-._:~!$&'()*+,;=%@") l.

Definition parseAuthority (scheme authority : list Z) : option (option Userinfo * list Z) :=
  match cut_last 64 authority with
  | None => host ← parseHost scheme authority; Some (None, host)
  | Some (userinfo, host) =>
      host ← parseHost scheme host;
      if negb (validUserinfo userinfo) then None
      else match cut 58 userinfo with
           | (name, None) =>
               name ← unescape_component EncodeUserPassword name;
               Some (Some (MkUserinfo (of_bytes name) None), host)
           | (name, Some pw) =>
               name ← unescape_component EncodeUserPassword name;
               pw ← unescape_component EncodeUserPassword pw;
               Some (Some (MkUserinfo (of_bytes name) (Some (of_bytes pw))), host)
           end
  end.

(** [setPath] and [setFragment]: the decoded component, and the text itself when it is not
    the default encoding of that. *)
Definition set_component (m : component) (l : list Z) : option (string * string) :=
  p ← unescape_component m l;
  Some (of_bytes p, if bool_decide (escape_component m p = l) then ""%string else of_bytes l).

Definition has_ctl (l : list Z) : bool := existsb (λ b, (b <? 32) || (b =? 127)) l.

(** The query mark: a single one at the end only is remembered. *)
Definition split_query (rest : list Z) : bool * list Z * list Z :=
  match cut 63 rest with
  | (a, Some []) => (true, a, [])
  | (a, Some q) => (false, a, q)
  | (a, None) => (false, a, [])
  end.

Definition blank_URL : URL := MkURL "" "" None "" "" "" false false "" "" "".

(** The authority after two slashes, and the path that follows it. *)
Definition take_authority (scheme rest : list Z)
    : option (option Userinfo * list Z * bool * list Z) :=
  if bool_decide (take 2 rest = [47; 47]) &&
     (negb (bool_decide (scheme = [])) || negb (bool_decide (take 3 rest = [47; 47; 47])))
  then
    let '(authority, path) :=
      match cut 47 (drop 2 rest) with
      | (a, Some p) => (a, 47 :: p)
      | (a, None) => (a, [])
      end in
    '(user, host) ← parseAuthority scheme authority;
    Some (user, host, false, path)
  else Some (None, [], negb (bool_decide (scheme = [])) && bool_decide (head rest = Some 47), rest).

(** [parse] without a fragment. *)
Definition parse (l : list Z) : option URL :=
  if has_ctl l then None
  else if bool_decide (l = [42]) then Some (MkURL "" "" None "" "*" "" false false "" "" "")
  else
    '(scheme, rest) ← getScheme l;
    let scheme := lower_byte <$> scheme in
    let '(force, rest, rawq) := split_query rest in
    if negb (bool_decide (head rest = Some 47)) && negb (bool_decide (scheme = [])) then
      Some (MkURL (of_bytes scheme) (of_bytes rest) None "" "" "" false force (of_bytes rawq) "" "")
    else if negb (bool_decide (head rest = Some 47)) && bool_decide (58 ∈ (cut 47 rest).1) then None
    else
      '(user, host, omit, rest) ← take_authority scheme rest;
      '(path, rawpath) ← set_component EncodePath rest;
      Some (MkURL (of_bytes scheme) "" user (of_bytes host) path rawpath omit force
                  (of_bytes rawq) "" "").

(** [url.Parse]; [None] is an error. *)
Definition url_Parse (rawURL : string) : option URL :=
  match cut 35 (bytes rawURL) with
  | (l, None) | (l, Some []) => parse l
  | (l, Some frag) =>
      u ← parse l;
      '(fragment, rawfragment) ← set_component EncodeFragment frag;
      Some (MkURL (Scheme u) (Opaque u) (User u) (Host u) (Path u) (RawPath u) (OmitHost u)
                  (ForceQuery u) (RawQuery u) fragment rawfragment)
  end.

(** ** String and Hostname *)

(** [splitHostPort]: the host without a port, brackets removed. *)
Definition splitHostPort (hostPort : string) : string :=
  let l := bytes hostPort in
  let host := match cut_last 58 l with
              | Some (h, p) => if validOptionalPort (58 :: p) then h else l
              | None => l
              end in
  if bool_decide (head host = Some 91) && bool_decide (last host = Some 93) &&
     (2 <=? Z.of_nat (length host))
  then of_bytes (removelast (tail host)) else of_bytes host.

Definition Hostname (u : URL) : string := splitHostPort (Host u).

Definition valid_encoded (m : component) (l : list Z) : bool :=
  forallb (λ c, is_in c "!$&'()*+,;=:@[]%" || negb (shouldEscape c m)) l.

(** [EscapedPath] and [EscapedFragment]. *)
Definition escaped (m : component) (dec raw : string) : list Z :=
  if negb (bool_decide (raw = ""%string)) && valid_encoded m (bytes raw) &&
     bool_decide (unescape_component m (bytes raw) = Some (bytes dec))
  then bytes raw
  else if match m with EncodePath => bool_decide (dec = "*"%string) | _ => false end then [42]
  else escape_component m (bytes dec).

Definition Userinfo_String (u : Userinfo) : list Z :=
  match password u with
  | Some pw => escape_component EncodeUserPassword (bytes (username u)) ++ [58] ++
               escape_component EncodeUserPassword (bytes pw)
  | None => escape_component EncodeUserPassword (bytes (username u))
  end.

Definition url_String (u : URL) : string :=
  let empty s := bool_decide (s = ""%string) in
  let scheme := if empty (Scheme u) then [] else bytes (Scheme u) ++ [58] in
  let hier :=
    if negb (empty (Opaque u)) then bytes (Opaque u)
    else
      let no_user := bool_decide (User u = None) in
      let authority :=
        if negb (empty (Scheme u)) || negb (empty (Host u)) || negb no_user then
          if OmitHost u && empty (Host u) && no_user then []
          else (if negb (empty (Host u)) || negb (empty (Path u)) || negb no_user then [47; 47] else [])
               ++ match User u with Some ui => Userinfo_String ui ++ [64] | None => [] end
               ++ escape_component EncodeHost (bytes (Host u))
        else [] in
      let path := escaped EncodePath (Path u) (RawPath u) in
      let slash := if negb (bool_decide (path = [])) && negb (bool_decide (head path = Some 47))
                      && negb (empty (Host u)) then [47] else [] in
      let dot := if bool_decide (scheme ++ authority ++ slash = []) && bool_decide (58 ∈ (cut 47 path).1)
                 then [46; 47] else [] in
      authority ++ slash ++ dot ++ path in
  let query := if ForceQuery u || negb (empty (RawQuery u)) then 63 :: bytes (RawQuery u) else [] in
  let fragment := if empty (Fragment u) then []
                  else 35 :: escaped EncodeFragment (Fragment u) (RawFragment u) in
  of_bytes (scheme ++ hier ++ query ++ fragment).

(** The query of a URL stands in its text as it is. *)
Lemma url_String_query u :
  RawQuery u ≠ ""%string →
  ∃ before after, url_String u = before +:+ "?" +:+ RawQuery u +:+ after ∧
    (after = ""%string ∨ ∃ fragment, after = "#" +:+ fragment).
Proof.
  intros Hq. unfold url_String. cbn zeta. rewrite (bool_decide_eq_false_2 (RawQuery u = _)) by done.
  rewrite orb_true_r. set (fragment := if bool_decide (Fragment u = _) then _ else _).
  match goal with |- context [of_bytes (?a ++ ?b ++ _)] => exists (of_bytes (a ++ b)), (of_bytes fragment) end.
  split.
  - rewrite !of_bytes_app. change (63 :: bytes (RawQuery u)) with ([63] ++ bytes (RawQuery u)).
    rewrite of_bytes_app, of_bytes_bytes. by rewrite <- !(assoc_L String.append).
  - unfold fragment. case_bool_decide; [by left|right]. by eexists.
Qed.

(** ** Query strings *)

(** The pieces of the query between ampersands, as the loop of [parseQuery] cuts them:
    it stops when nothing is left. *)
Fixpoint pieces (fuel : nat) (l : list Z) : list (list Z) :=
  match fuel, l with
  | O, _ | _, [] => []
  | S fuel, _ =>
      let '(a, r) := cut 38 l in
      a :: match r with Some r => pieces fuel r | None => [] end
  end.

(** One round: an empty piece is skipped; a semicolon or a bad escape is an error. *)
Definition parse_piece (p : list Z) : option (option (string * string)) :=
  if forallb (λ c, negb (c =? 59)) p then
    match p with
    | [] => Some None
    | _ =>
        let '(k, v) := cut 61 p in
        k ← unescape k; v ← unescape (default [] v);
        Some (Some (of_bytes k, of_bytes v))
    end
  else None.

(** The pairs in order, [None] if any piece is in error. *)
Definition parse_pairs (s : string) : option (list (string * string)) :=
  omap id <$> mapM parse_piece (pieces (S (length (bytes s))) (bytes s)).

(** [urlParamsWithinMax]: ampersands are counted, not parameters. *)
Definition defaultMaxParams : Z := 10000.
Definition params_within_max (s : string) : bool :=
  Z.of_nat (length (filter (λ c, c = 38) (bytes s))) + 1 <=? defaultMaxParams.

(** [url.ParseQuery]: the pairs in order, [None] on an error. *)
Definition ParseQuery (s : string) : option (list (string * string)) :=
  if params_within_max s then parse_pairs s else None.

(** The values [url.ParseQuery] returns, with or without an error: the pairs that parse. *)
Definition query_values (s : string) : list (string * string) :=
  if params_within_max s
  then omap (λ p, default None (parse_piece p)) (pieces (S (length (bytes s))) (bytes s))
  else [].

(** [Values.Encode] on pairs already in the order of their keys. *)
Definition encode_pair (kv : string * string) : string :=
  (QueryEscape kv.1 +:+ "=" +:+ QueryEscape kv.2)%string.

Definition encode_pairs (kvs : list (string * string)) : string :=
  String.concat "&" (encode_pair <$> kvs).

(** [Query()] drops the error; [Get] is the first value. *)
Definition url_Query (u : URL) : list (string * string) := query_values (RawQuery u).

Definition Get (q : list (string * string)) (key : string) : string :=
  from_option snd ""%string (find (λ kv, bool_decide (kv.1 = key)) q).

(** ** Joining queries *)

(** All pieces between ampersands, empty ones included. *)
Fixpoint split_amp (l : list Z) : list (list Z) :=
  match l with
  | [] => [[]]
  | c :: l' =>
      if c =? 38 then [] :: split_amp l'
      else match split_amp l' with [] => [[c]] | p :: ps => (c :: p) :: ps end
  end.

Lemma split_amp_nonempty l : split_amp l ≠ [].
Proof. induction l as [|c l IH]; cbn; [done|]. destruct (c =? 38); [done|]. by destruct (split_amp l). Qed.

Lemma split_amp_app a b : split_amp (a ++ 38 :: b) = split_amp a ++ split_amp b.
Proof.
  induction a as [|c a IH]; [done|]. cbn [app split_amp]. rewrite IH.
  destruct (c =? 38); [done|]. pose proof (split_amp_nonempty a).
  by destruct (split_amp a).
Qed.

Lemma split_amp_cut l :
  split_amp l = let '(a, r) := cut 38 l in
                a :: match r with Some r => split_amp r | None => [] end.
Proof.
  induction l as [|c l IH]; [done|]. cbn [split_amp cut]. destruct (c =? 38); [done|].
  rewrite IH. by destruct (cut 38 l).
Qed.

Lemma split_amp_one l : 38 ∉ l → split_amp l = [l].
Proof.
  induction l as [|c l IH]; [done|]. intros [Hc Hl]%not_elem_of_cons. cbn [split_amp].
  destruct (Z.eqb_spec c 38); [lia|]. by rewrite IH.
Qed.

Definition parse_all (ps : list (list Z)) : option (list (string * string)) :=
  omap id <$> mapM parse_piece ps.

Lemma parse_all_cons p ps :
  parse_all (p :: ps) =
  (o ← parse_piece p; kvs ← parse_all ps; Some (from_option (λ kv, kv :: kvs) kvs o)).
Proof.
  unfold parse_all. cbn. destruct (parse_piece p) as [o|]; [|done]. cbn.
  destruct (mapM parse_piece ps); [|done]. by destruct o.
Qed.

Lemma parse_all_app ps qs :
  parse_all (ps ++ qs) = (a ← parse_all ps; b ← parse_all qs; Some (a ++ b)).
Proof.
  induction ps as [|p ps IH]; cbn [app].
  { cbn. by destruct (parse_all qs). }
  rewrite !parse_all_cons, IH. destruct (parse_piece p) as [o|]; [|done]. cbn.
  destruct (parse_all ps); [|done]. cbn. destruct (parse_all qs); [|done]. by destruct o.
Qed.

Lemma pieces_split fuel : ∀ l, (length l < fuel)%nat →
  parse_all (pieces fuel l) = parse_all (split_amp l).
Proof.
  induction fuel as [|fuel IH]; intros l Hl; [lia|].
  destruct l as [|c l]; [done|]. set (l' := c :: l) in *. rewrite split_amp_cut.
  change (pieces (S fuel) l') with
    (let '(a, r) := cut 38 l' in a :: match r with Some r => pieces fuel r | None => [] end).
  destruct (cut 38 l') as [a [r|]] eqn:Hc; [|done].
  rewrite !parse_all_cons, IH; [done|]. apply cut_length in Hc. lia.
Qed.

Lemma parse_pairs_split s : parse_pairs s = parse_all (split_amp (bytes s)).
Proof. apply pieces_split. lia. Qed.

(** Two queries joined by an ampersand. *)
Lemma parse_pairs_amp s t :
  parse_pairs (s +:+ "&" +:+ t) = (a ← parse_pairs s; b ← parse_pairs t; Some (a ++ b)).
Proof.
  rewrite !parse_pairs_split, !bytes_app.
  change (bytes "&" ++ bytes t) with (38 :: bytes t).
  by rewrite split_amp_app, parse_all_app.
Qed.

Lemma parse_pairs_pair k v : parse_pairs (encode_pair (k, v)) = Some [(k, v)].
Proof.
  unfold encode_pair; cbn [fst snd]. rewrite parse_pairs_split, !bytes_app.
  change (bytes "=" ++ bytes (QueryEscape v)) with (61 :: bytes (QueryEscape v)).
  pose proof (QueryEscape_clean k) as Hk. pose proof (QueryEscape_clean v) as Hv.
  set (ek := bytes (QueryEscape k)) in *. set (ev := bytes (QueryEscape v)) in *.
  assert (∀ b, b ∈ ek ++ 61 :: ev → b ≠ 38 ∧ b ≠ 59) as Hclean.
  { intros b [Hb|[->|Hb]%elem_of_cons]%elem_of_app; [|lia|]; [apply Hk in Hb|apply Hv in Hb]; lia. }
  rewrite split_amp_one by (intros Hb; apply Hclean in Hb; lia).
  rewrite parse_all_cons. unfold parse_piece.
  assert (forallb (λ c, negb (c =? 59)) (ek ++ 61 :: ev) = true) as ->.
  { apply forallb_forall. intros b Hb%list_elem_of_In. apply Hclean in Hb.
    apply negb_true_iff, Z.eqb_neq. lia. }
  rewrite cut_clean by (intros Hb; apply Hk in Hb; lia).
  pose proof (QueryUnescape_Escape k) as Huk. pose proof (QueryUnescape_Escape v) as Huv.
  unfold QueryUnescape in Huk, Huv. fold ek in Huk. fold ev in Huv.
  destruct (ek ++ 61 :: ev) as [|c l] eqn:He; [by destruct ek|].
  cbn [default from_option id]. destruct (unescape ek) as [uk|]; [|done].
  destruct (unescape ev) as [uv|]; [|done]. cbn in Huk, Huv |- *. congruence.
Qed.

Lemma ParseQuery_pairs s q : ParseQuery s = Some q → parse_pairs s = Some q.
Proof. unfold ParseQuery. by destruct (params_within_max s). Qed.

(** A query with more parameters than the limit has none of them. *)
Lemma oversized_query u key : params_within_max (RawQuery u) = false → Get (url_Query u) key = ""%string.
Proof. unfold url_Query, query_values. by intros ->. Qed.

Lemma mapM_values ps q :
  mapM parse_piece ps = Some q → omap (λ p, default None (parse_piece p)) ps = omap id q.
Proof.
  revert q. induction ps as [|p ps IH]; intros q; cbn; [by intros [= <-]|].
  destruct (parse_piece p) as [o|]; [|done]. cbn. destruct (mapM parse_piece ps) as [q'|]; [|done].
  cbn. intros [= <-]. cbn. rewrite (IH q') by done. by destruct o.
Qed.

Lemma query_values_ParseQuery s q : ParseQuery s = Some q → query_values s = q.
Proof.
  unfold ParseQuery, query_values. destruct (params_within_max s); [|done].
  unfold parse_pairs. destruct (mapM _ _) as [q'|] eqn:Hm; [|done]. cbn. intros [= <-].
  by apply mapM_values.
Qed.

(** ** The round trip of a form *)

Lemma encode_pairs_cons kv kvs :
  encode_pairs (kv :: kvs) =
  match kvs with [] => encode_pair kv | _ => encode_pair kv +:+ "&" +:+ encode_pairs kvs end.
Proof. by destruct kvs. Qed.

Lemma parse_encode_pairs kvs : parse_pairs (encode_pairs kvs) = Some kvs.
Proof.
  induction kvs as [|[k v] kvs IH]; [done|]. rewrite encode_pairs_cons.
  destruct kvs; [by rewrite parse_pairs_pair|]. by rewrite parse_pairs_amp, parse_pairs_pair, IH.
Qed.

Lemma encode_pair_amps kv : filter (λ c, c = 38) (bytes (encode_pair kv)) = [].
Proof.
  destruct kv as [k v]. unfold encode_pair; cbn [fst snd]. rewrite !bytes_app.
  apply elem_of_nil_inv. intros b [-> [Hb|[Hb%list_elem_of_singleton|Hb]%elem_of_app]%elem_of_app]%list_elem_of_filter;
    [apply QueryEscape_clean in Hb; lia|done|apply QueryEscape_clean in Hb; lia].
Qed.

Lemma encode_pairs_amps kvs :
  length (filter (λ c, c = 38) (bytes (encode_pairs kvs))) = pred (length kvs).
Proof.
  induction kvs as [|kv kvs IH]; [done|]. rewrite encode_pairs_cons.
  destruct kvs as [|kv' kvs]; [by rewrite encode_pair_amps|].
  rewrite !bytes_app, !filter_app, encode_pair_amps. cbn [app]. rewrite length_app, IH. done.
Qed.

(** The receiver of a form of at most ten thousand values gets the form. *)
Lemma ParseQuery_encode_pairs kvs :
  Z.of_nat (length kvs) ≤ defaultMaxParams → ParseQuery (encode_pairs kvs) = Some kvs.
Proof.
  intros Hn. unfold ParseQuery, params_within_max. rewrite encode_pairs_amps, parse_encode_pairs.
  unfold defaultMaxParams in *. destruct (Z.leb_spec (Z.of_nat (pred (length kvs)) + 1) 10000); [done|].
  lia.
Qed.
