(* ===== verification/GoForm.v ===== *)
(** * GoForm

    What net/http and mime do to a posted form: [mime.ParseMediaType] on a Content-Type
    header and [Request.ParseForm], with the limit of ten megabytes, the limit of GoUrl on
    the number of values, and the fields of the request it fills. *)

From S2P Require Import Prelude GoRuntime GoStrings GoUrl.
Local Open Scope Z_scope.

(** ** mime: tokens and values *)

Definition isTSpecial (c : Z) : bool := is_in c "()<>@,;:\/[]?=" || (c =? 34).
Definition isTokenChar (c : Z) : bool := between 33 c 126 && negb (isTSpecial c).

Fixpoint consumeToken (v : list Z) : list Z * list Z :=
  match v with
  | c :: v' => if isTokenChar c then let '(t, rest) := consumeToken v' in (c :: t, rest)
               else ([], v)
  | [] => ([], [])
  end.

(** A quoted string after its first quote. A backslash that no special follows is kept;
    [None]: a line end, or no closing quote. *)
Fixpoint quoted (v : list Z) : option (list Z * list Z) :=
  let push c := fmap (λ '(s, rest), (c :: s, rest)) in
  match v with
  | [] => None
  | r :: v' =>
      if r =? 34 then Some ([], v')
      else
        let keep := if (r =? 13) || (r =? 10) then None else push r (quoted v') in
        match v' with
        | c :: v'' => if (r =? 92) && isTSpecial c then push c (quoted v'') else keep
        | [] => keep
        end
  end.

Definition consumeValue (v : list Z) : list Z * list Z :=
  if bool_decide (head v = Some 34) then default ([], v) (quoted (tail v)) else consumeToken v.

(** [strings.TrimLeftFunc(v, unicode.IsSpace)] *)
Definition trim_left (v : list Z) : list Z := strip_all (length v) space_encodings v.

(** One parameter with the semicolon before it; [None] is an empty key. *)
Definition consumeMediaParam (v : list Z) : option (list Z * list Z * list Z) :=
  rest ← strip_prefix [59] (trim_left v);
  let '(param, rest) := consumeToken (trim_left rest) in
  if bool_decide (param = []) then None
  else
    rest ← strip_prefix [61] (trim_left rest);
    let rest := trim_left rest in
    let '(value, rest2) := consumeValue rest in
    if bool_decide (value = []) && bool_decide (rest2 = rest) then None
    else Some (lower_byte <$> param, value, rest2).

Inductive media_error : Type :=
| ErrNoMediaType
| ErrNoSlash
| ErrNoSubtype
| ErrAfterSubtype
| ErrInvalidMediaParameter
| ErrDuplicateParam.

Definition checkMediaTypeDisposition (s : list Z) : option media_error :=
  let '(typ, rest) := consumeToken s in
  if bool_decide (typ = []) then Some ErrNoMediaType
  else match rest with
       | [] => None
       | c :: rest =>
           if negb (c =? 47) then Some ErrNoSlash
           else let '(subtype, rest) := consumeToken rest in
                if bool_decide (subtype = []) then Some ErrNoSubtype
                else if bool_decide (rest ≠ []) then Some ErrAfterSubtype
                else None
       end.

(** The loop over the parameters. A name with a star goes to the map of its continuation,
    the others to the result: the same name to the same map, so that one list of names and
    values tells the duplicates. *)
Fixpoint params_loop (fuel : nat) (v : list Z) (seen : list (list Z * list Z))
    : option media_error :=
  match fuel with
  | O => None
  | S fuel =>
      let v := trim_left v in
      match v, consumeMediaParam v with
      | [], _ => None
      | _, None =>
          if bool_decide (TrimSpace (of_bytes v) = ";"%string) then None
          else Some ErrInvalidMediaParameter
      | _, Some (key, value, rest) =>
          match find (λ kv, bool_decide (kv.1 = key)) seen with
          | Some (_, old) => if bool_decide (old ≠ value) then Some ErrDuplicateParam
                             else params_loop fuel rest seen
          | None => params_loop fuel rest ((key, value) :: seen)
          end
      end
  end.

(** ** The fuel of the parameters *)

Lemma strip_one_length encs : ∀ l r, strip_one encs l = Some r → (length r ≤ length l)%nat.
Proof.
  induction encs as [|p encs IH]; intros l r; cbn; [done|].
  destruct (strip_prefix p l) eqn:Hp; [intros [= <-]; by apply strip_prefix_length in Hp|apply IH].
Qed.

Lemma strip_all_length encs n : ∀ v, (length (strip_all n encs v) ≤ length v)%nat.
Proof.
  induction n as [|n IH]; intros v; cbn; [done|].
  destruct (strip_one encs v) as [v'|] eqn:Hs; [|done].
  apply strip_one_length in Hs. specialize (IH v'). lia.
Qed.

Lemma trim_left_length v : (length (trim_left v) ≤ length v)%nat.
Proof. apply strip_all_length. Qed.

Lemma consumeToken_length v : (length (consumeToken v).2 ≤ length v)%nat.
Proof.
  induction v as [|c v IH]; cbn; [done|]. destruct (isTokenChar c); [|done].
  destruct (consumeToken v) as [t rest]. cbn in *. lia.
Qed.

Lemma quoted_length : ∀ v s rest, quoted v = Some (s, rest) → (length rest ≤ length v)%nat.
Proof.
  fix IH 1. intros [|r v] s rest; cbn; [done|]. destruct (r =? 34); [intros [= _ <-]; lia|].
  assert (∀ o, (∀ s rest, o = Some (s, rest) → (length rest ≤ length v)%nat) → ∀ c,
    ((λ '(s, rest), (c :: s, rest)) <$> o) = Some (s, rest) → (length rest ≤ S (length v))%nat) as Hpush.
  { intros [[s' rest']|] Ho c; [|done]. intros [= _ <-]. specialize (Ho _ _ eq_refl). lia. }
  assert ((if (r =? 13) || (r =? 10) then None
           else (λ '(s, rest), (r :: s, rest)) <$> quoted v) = Some (s, rest) →
          (length rest ≤ S (length v))%nat) as Hkeep.
  { destruct (_ || _); [done|]. apply Hpush. apply IH. }
  destruct v as [|c v]; [exact Hkeep|]. destruct (_ && _); [|exact Hkeep].
  apply Hpush. intros s' rest' H. apply IH in H. cbn. lia.
Qed.

Lemma consumeValue_length v : (length (consumeValue v).2 ≤ length v)%nat.
Proof.
  unfold consumeValue. case_bool_decide; [|apply consumeToken_length].
  destruct (quoted (tail v)) as [[s rest]|] eqn:Hq; [|done]. apply quoted_length in Hq.
  destruct v; cbn in *; lia.
Qed.

Lemma strip_one_byte b v rest : strip_prefix [b] v = Some rest → length v = S (length rest).
Proof. destruct v as [|c v]; cbn; [done|]. destruct (b =? c); [|done]. destruct v; by intros [= <-]. Qed.

Lemma consumeMediaParam_length v key value rest :
  consumeMediaParam v = Some (key, value, rest) → (length rest < length v)%nat.
Proof.
  unfold consumeMediaParam. intros (v1 & Hv1%strip_one_byte & H)%bind_Some.
  pose proof (trim_left_length v). pose proof (trim_left_length v1).
  pose proof (consumeToken_length (trim_left v1)).
  destruct (consumeToken (trim_left v1)) as [param v2]; cbn [snd] in *.
  case_bool_decide; [done|]. apply bind_Some in H as (v3 & Hv3%strip_one_byte & H).
  pose proof (trim_left_length v2). pose proof (trim_left_length v3).
  pose proof (consumeValue_length (trim_left v3)).
  destruct (consumeValue (trim_left v3)) as [val v4]; cbn [snd] in *.
  destruct (_ && _); [done|]. injection H as _ _ <-. lia.
Qed.

(** More fuel changes nothing. *)
Lemma params_loop_fuel fuel : ∀ fuel' v seen,
  (length v < fuel)%nat → (length v < fuel')%nat →
  params_loop fuel v seen = params_loop fuel' v seen.
Proof.
  induction fuel as [|fuel IH]; intros [|fuel'] v seen Hf Hf'; [lia..|]. cbn [params_loop].
  pose proof (trim_left_length v) as Ht. destruct (trim_left v) as [|c l] eqn:Hv; [done|].
  destruct (consumeMediaParam (c :: l)) as [[[key value] rest]|] eqn:Hp; [|done].
  apply consumeMediaParam_length in Hp.
  destruct (find _ seen) as [[k old]|]; [destruct (bool_decide _); [done|]|]; apply IH; lia.
Qed.

Section form.
Context {U : UnicodeTables}.

(** [mime.ParseMediaType]: the media type and the error; a type with a bad parameter is
    returned with its error. The parameters have no use here. *)
Definition ParseMediaType (v : string) : string * option media_error :=
  let base := (cut 59 (bytes v)).1 in
  let mediatype := TrimSpace (ToLower (of_bytes base)) in
  match checkMediaTypeDisposition (bytes mediatype) with
  | Some e => (""%string, Some e)
  | None =>
      let rest := drop (length base) (bytes v) in
      match params_loop (S (length rest)) rest [] with
      | Some ErrDuplicateParam => (""%string, Some ErrDuplicateParam)
      | e => (mediatype, e)
      end
  end.

(** ** net/http: ParseForm *)

Abbreviation Values := (list (string * string)).

(** What [ParseForm] reads and fills. A nil body or form is [None]. *)
Record http_Request : Type := HttpRequest {
  r_Method : string;
  r_Header : gmap string (list string);
  r_Body : option (reader string);
  r_MaxBytes : bool;                 (* the body comes from http.MaxBytesReader *)
  r_URL : URL;
  r_PostForm : option Values;
  r_Form : option Values;
}.

(** [Header.Get], for a key in canonical form. *)
Definition Header_Get (h : gmap string (list string)) (key : string) : string :=
  default ""%string (h !! key ≫= head).

Inductive form_error : Type :=
| ErrMediaType (e : media_error)
| ErrBody (e : string)
| ErrPostTooLarge
| ErrQuery.

Definition form_media_type : string := "application/x-www-form-urlencoded".
Definition maxFormSize : Z := 10 * 2 ^ 20.

Definition first_error {E} (e e' : option E) : option E := match e with Some _ => e | None => e' end.

(** The values [url.ParseQuery] returns and its error. *)
Definition parse_values (s : string) : Values * option form_error :=
  (query_values s, match ParseQuery s with Some _ => None | None => Some ErrQuery end).

(** [io.ReadAll] of the body, or of its first bytes. *)
Definition read_form (r : http_Request) (body : reader string) : res string string :=
  if r_MaxBytes r
  then match r_err body with Some e => Err e | None => Ok (r_bytes body) end
  else ReadAll (LimitReader body (maxFormSize + 1)).

Definition parsePostForm (r : http_Request) : option Values * option form_error :=
  match r_Body r with
  | None => (None, None)
  | Some body =>
      let ct := Header_Get (r_Header r) "Content-Type" in
      let ct := if bool_decide (ct = ""%string) then "application/octet-stream"%string else ct in
      let '(ct, e) := ParseMediaType ct in
      let err := ErrMediaType <$> e in
      if bool_decide (ct = form_media_type) then
        match read_form r body with
        | Err e => (None, first_error err (Some (ErrBody e)))
        | Ok b =>
            if negb (r_MaxBytes r) && (maxFormSize <? len b) then (None, Some ErrPostTooLarge)
            else let '(vs, e) := parse_values b in (Some vs, first_error err e)
        end
      else (None, err)
  end.

(** The error and the request with its forms filled; the body is not read again, since
    the form is there. *)
Definition ParseForm (r : http_Request) : option form_error * http_Request :=
  let '(post, err) :=
    match r_PostForm r with
    | Some post => (post, None)
    | None =>
        if bool_decide (r_Method r ∈ ["POST"; "PUT"; "PATCH"]%string) then
          let '(vs, err) := parsePostForm r in (default [] vs, err)
        else ([], None)
    end in
  let '(form, err) :=
    match r_Form r with
    | Some form => (form, err)
    | None =>
        let '(new, e) := parse_values (RawQuery (r_URL r)) in (post ++ new, first_error err e)
    end in
  (err, HttpRequest (r_Method r) (r_Header r) (r_Body r) (r_MaxBytes r) (r_URL r)
                    (Some post) (Some form)).

(** ** A form that is posted *)

(** The forms of a request that nobody parsed before are empty. *)
Definition unparsed (r : http_Request) : Prop := r_PostForm r = None ∧ r_Form r = None.

(** A form posted as a browser does: within the limits, with a query that parses. *)
Definition carries (r : http_Request) (form : Values) : Prop :=
  unparsed r ∧ r_Method r = "POST"%string ∧
  (∃ ct, r_Header r !! "Content-Type"%string = Some [ct] ∧ ct ≠ ""%string ∧
         ParseMediaType ct = (form_media_type, None)) ∧
  (∃ e, r_Body r = Some (Reader (encode_pairs form) None e)) ∧
  len (encode_pairs form) ≤ maxFormSize ∧ Z.of_nat (length form) ≤ defaultMaxParams ∧
  is_Some (ParseQuery (RawQuery (r_URL r))).

Lemma parse_values_Ok s q : ParseQuery s = Some q → parse_values s = (q, None).
Proof. intros H. unfold parse_values. by rewrite (query_values_ParseQuery s q H), H. Qed.

Lemma read_form_Ok r s e : len s ≤ maxFormSize → read_form r (Reader s None e) = Ok s.
Proof.
  intros Hs. unfold read_form. destruct (r_MaxBytes r); [done|].
  rewrite LimitReader_short; [done|]. cbn [r_bytes]. unfold len in Hs. lia.
Qed.

(** The form arrives, with the values of the URL behind it. *)
Lemma ParseForm_carries r form :
  carries r form →
  ∃ r', ParseForm r = (None, r') ∧ r_PostForm r' = Some form ∧ r_URL r' = r_URL r ∧
        r_Form r' = Some (form ++ url_Query (r_URL r)).
Proof.
  intros ([Hp Hf] & Hm & (ct & Hct & Hne & Htype) & (e & Hb) & Hlen & Hn & [q Hq]).
  unfold ParseForm, parsePostForm, Header_Get, url_Query.
  rewrite Hp, Hf, Hm, Hb, Hct, (parse_values_Ok _ _ Hq), (query_values_ParseQuery _ _ Hq).
  cbn [mbind option_bind head default from_option id].
  rewrite (bool_decide_eq_false_2 (ct = ""%string)), Htype, read_form_Ok by done.
  rewrite bool_decide_eq_true_2, (bool_decide_eq_true_2 (form_media_type = form_media_type)) by (done || set_solver).
  cbn [fmap option_fmap option_map].
  rewrite (parse_values_Ok _ form) by (by apply ParseQuery_encode_pairs).
  destruct (Z.ltb_spec maxFormSize (len (encode_pairs form))); [lia|]. rewrite andb_false_r.
  by eexists.
Qed.

(** A parsed request stays as it is, and parses without an error, even after one. *)
Lemma ParseForm_again r : ParseForm (ParseForm r).2 = (None, (ParseForm r).2).
Proof.
  unfold ParseForm. destruct (match r_PostForm r with Some _ => _ | None => _ end) as [post err].
  by destruct (match r_Form r with Some _ => _ | None => _ end) as [form err'].
Qed.

(** The values of a form that nobody parsed before are those of the body, never those of
    the URL. *)
Lemma ParseForm_body r r' :
  r_PostForm r = None → ParseForm r = (None, r') → r_PostForm r' ≠ Some [] →
  r_Method r ∈ ["POST"; "PUT"; "PATCH"]%string ∧
  ∃ body b, r_Body r = Some body ∧ read_form r body = Ok b ∧
            r_PostForm r' = ParseQuery b ∧ (r_MaxBytes r = false → len b ≤ maxFormSize).
Proof.
  intros Hp. unfold ParseForm. rewrite Hp. case_bool_decide as Hm.
  2:{ destruct (match r_Form r with Some _ => _ | None => _ end). by intros [= _ <-]. }
  destruct (parsePostForm r) as [vs err] eqn:Hparse.
  intros H Hne. split; [done|].
  assert (err = None ∧ r_PostForm r' = Some (default [] vs)) as [-> Hr'].
  { destruct (r_Form r) as [f|]; [by injection H as -> <-|].
    unfold parse_values in H. destruct err; [done|]. by injection H as _ <-. }
  rewrite Hr' in *. unfold parsePostForm in Hparse. destruct (r_Body r) as [body|]; [|by injection Hparse as <-].
  destruct (ParseMediaType _) as [ct e]. case_bool_decide; [|by injection Hparse as <-].
  destruct (read_form r body) as [b|er] eqn:Hread; [|by destruct e].
  destruct (negb (r_MaxBytes r) && (maxFormSize <? len b)) eqn:Hsize; [done|].
  unfold parse_values in Hparse. destruct e; [done|]. cbn in Hparse.
  destruct (ParseQuery b) as [q|] eqn:Hq; [|done]. injection Hparse as <-.
  exists body, b. split_and!; [done..| |].
  - by rewrite Hq, (query_values_ParseQuery _ _ Hq).
  - intros Hmax. rewrite Hmax in Hsize. cbn in Hsize. lia.
Qed.
End form.

Example media_types :
  (ParseMediaType (U := ascii_unicode)) <$>
    [form_media_type; " Application/X-WWW-Form-Urlencoded ; charset=UTF-8";
     "a/b; c=1; c=2"; "a/b;"; "a b"; "a/b; c=1; C=1"; "a/b; c"]%string =
  [(form_media_type, None); (form_media_type, None); (""%string, Some ErrDuplicateParam);
   ("a/b"%string, None); (""%string, Some ErrNoSlash); ("a/b"%string, None);
   ("a/b"%string, Some ErrInvalidMediaParameter)].
Proof. vm_compute. reflexivity. Qed.
