(* ===== verification/GoBase64.v ===== *)
(** * GoBase64

    Go's [encoding/base64]: the encoder and the decoder of [StdEncoding] and
    [RawURLEncoding], strict or not. The decoder skips CR and LF wherever they stand,
    in strict mode too; a strict decoder also wants the bits past the last byte to be
    zero. An error of the decoder is [None] (its offset is not modelled). *)

From S2P Require Import Prelude GoStrings.
Local Open Scope Z_scope.

Record encoding : Type := Encoding {
  url_alphabet : bool;   (* - and _ in place of + and / *)
  padded : bool;
  strict : bool;
}.

Definition StdEncoding : encoding := Encoding false true false.
Definition RawURLEncoding : encoding := Encoding true false false.
Definition Strict (e : encoding) : encoding := Encoding (url_alphabet e) (padded e) true.

(** Sextet to character and back. *)
Definition enc6 (e : encoding) (v : Z) : Z :=
  if v <? 26 then 65 + v
  else if v <? 52 then 71 + v
  else if v <? 62 then v - 4
  else if v =? 62 then (if url_alphabet e then 45 else 43)
  else (if url_alphabet e then 95 else 47).

Definition dec6 (e : encoding) (c : Z) : option Z :=
  if between 65 c 90 then Some (c - 65)
  else if between 97 c 122 then Some (c - 71)
  else if between 48 c 57 then Some (c + 4)
  else if c =? (if url_alphabet e then 45 else 43) then Some 62
  else if c =? (if url_alphabet e then 95 else 47) then Some 63
  else None.

Definition pad_char : Z := 61.
Definition is_newline (c : Z) : bool := (c =? 10) || (c =? 13).
Definition padding (e : encoding) (n : nat) : list Z :=
  if padded e then replicate n pad_char else [].

Fixpoint encode (e : encoding) (l : list Z) : list Z :=
  match l with
  | [] => []
  | [b0] => [enc6 e (b0 / 4); enc6 e (b0 mod 4 * 16)] ++ padding e 2
  | [b0; b1] =>
      [enc6 e (b0 / 4); enc6 e (b0 mod 4 * 16 + b1 / 16); enc6 e (b1 mod 16 * 4)]
        ++ padding e 1
  | b0 :: b1 :: b2 :: l' =>
      enc6 e (b0 / 4) :: enc6 e (b0 mod 4 * 16 + b1 / 16) ::
      enc6 e (b1 mod 16 * 4 + b2 / 64) :: enc6 e (b2 mod 64) :: encode e l'
  end.

(** The bytes of a last quantum of two or three characters. *)
Definition tail2 (e : encoding) (v0 v1 : Z) : option (list Z) :=
  if strict e && negb (v1 mod 16 =? 0) then None else Some [v0 * 4 + v1 / 16].

Definition tail3 (e : encoding) (v0 v1 v2 : Z) : option (list Z) :=
  if strict e && negb (v2 mod 4 =? 0) then None
  else Some [v0 * 4 + v1 / 16; v1 mod 16 * 16 + v2 / 4].

(** [decodeQuantum] until the input, already without newlines, is used up. *)
Fixpoint decode_quanta (e : encoding) (l : list Z) : option (list Z) :=
  match l with
  | [] => Some []
  | c0 :: c1 :: l2 =>
      v0 ← dec6 e c0; v1 ← dec6 e c1;
      match l2 with
      | [] => if padded e then None else tail2 e v0 v1
      | c2 :: l3 =>
          if padded e && (c2 =? pad_char) then
            match l3 with
            | [c3] => if c3 =? pad_char then tail2 e v0 v1 else None
            | _ => None
            end
          else
            v2 ← dec6 e c2;
            match l3 with
            | [] => if padded e then None else tail3 e v0 v1 v2
            | c3 :: l4 =>
                if padded e && (c3 =? pad_char) then
                  match l4 with [] => tail3 e v0 v1 v2 | _ => None end
                else
                  v3 ← dec6 e c3; r ← decode_quanta e l4;
                  Some (v0 * 4 + v1 / 16 :: v1 mod 16 * 16 + v2 / 4
                          :: v2 mod 4 * 64 + v3 :: r)
            end
      end
  | [_] => None
  end.

Definition decode (e : encoding) (l : list Z) : option (list Z) :=
  decode_quanta e (filter (λ c, is_newline c = false) l).

Definition EncodeToString (e : encoding) (s : string) : string := of_bytes (encode e (bytes s)).
Definition DecodeString (e : encoding) (s : string) : option string :=
  of_bytes <$> decode e (bytes s).

(** ** Sextets *)

Lemma dec6_enc6 e v : 0 <= v < 64 → dec6 e (enc6 e v) = Some v.
Proof.
  intros Hv. unfold dec6, enc6, between.
  destruct (Z.ltb_spec v 26); [|destruct (Z.ltb_spec v 52); [|destruct (Z.ltb_spec v 62)]].
  - replace ((65 <=? 65 + v) && (65 + v <=? 90)) with true by lia. f_equal; lia.
  - replace ((65 <=? 71 + v) && (71 + v <=? 90)) with false by lia.
    replace ((97 <=? 71 + v) && (71 + v <=? 122)) with true by lia. f_equal; lia.
  - replace ((65 <=? v - 4) && (v - 4 <=? 90)) with false by lia.
    replace ((97 <=? v - 4) && (v - 4 <=? 122)) with false by lia.
    replace ((48 <=? v - 4) && (v - 4 <=? 57)) with true by lia. f_equal; lia.
  - assert (v = 62 ∨ v = 63) as [-> | ->] by lia; by destruct e as [[] ? ?].
Qed.

Lemma enc6_dec6 e c v : dec6 e c = Some v → enc6 e v = c ∧ 0 <= v < 64.
Proof.
  unfold dec6, enc6, between. intros H.
  repeat match type of H with
  | (if ?b then _ else _) = _ => destruct b eqn:?
  | Some _ = Some _ => injection H as <-
  | None = _ => discriminate H
  end; bool_simp; cbn.
  - destruct (Z.ltb_spec (c - 65) 26); lia.
  - destruct (Z.ltb_spec (c - 71) 26); [lia|]. destruct (Z.ltb_spec (c - 71) 52); lia.
  - destruct (Z.ltb_spec (c + 4) 26); [lia|]. destruct (Z.ltb_spec (c + 4) 52); [lia|].
    destruct (Z.ltb_spec (c + 4) 62); lia.
  - lia.
  - lia.
Qed.

Lemma enc6_clean e v : 0 <= v < 64 → is_newline (enc6 e v) = false ∧ enc6 e v =? pad_char = false.
Proof.
  intros Hv. unfold is_newline, pad_char, enc6.
  destruct (v <? 26) eqn:?, (v <? 52) eqn:?, (v <? 62) eqn:?, (v =? 62), (url_alphabet e); lia.
Qed.

Lemma enc6_is_byte e v : 0 <= v < 64 → is_byte (enc6 e v).
Proof.
  intros Hv. unfold is_byte, enc6.
  destruct (v <? 26) eqn:?, (v <? 52) eqn:?, (v <? 62) eqn:?, (v =? 62), (url_alphabet e); lia.
Qed.

(** The sextets of three bytes are in range. *)
Lemma sextets b0 b1 b2 :
  is_byte b0 → is_byte b1 → is_byte b2 →
  0 <= b0 / 4 < 64 ∧ 0 <= b0 mod 4 * 16 < 64 ∧ 0 <= b0 mod 4 * 16 + b1 / 16 < 64 ∧
  0 <= b1 mod 16 * 4 < 64 ∧ 0 <= b1 mod 16 * 4 + b2 / 64 < 64 ∧ 0 <= b2 mod 64 < 64.
Proof. unfold is_byte. intros. zdiv. Qed.

(** Induction three bytes at a time. *)
Lemma bytes_ind3 (P : list Z → Prop) :
  P [] → (∀ b0, P [b0]) → (∀ b0 b1, P [b0; b1]) →
  (∀ b0 b1 b2 l, P l → P (b0 :: b1 :: b2 :: l)) → ∀ l, P l.
Proof.
  intros H0 H1 H2 H3 l. remember (length l) as n eqn:Hn. revert l Hn.
  induction n as [n IH] using lt_wf_ind. intros [|b0 [|b1 [|b2 l]]] Hn; [done..|].
  apply H3. eapply IH; [|done]. cbn in Hn. lia.
Qed.

Lemma encode_all_chars e (P : Z → Prop) l :
  Forall is_byte l → (∀ v, 0 <= v < 64 → P (enc6 e v)) → P pad_char → Forall P (encode e l).
Proof.
  intros Hl Henc Hpad. revert Hl. assert (is_byte 0) as Hz by (unfold is_byte; lia).
  assert (∀ n, Forall P (padding e n)) as Hpads.
  { intros n. unfold padding. destruct (padded e); [by apply Forall_replicate|constructor]. }
  induction l as [|b0|b0 b1|b0 b1 b2 l IH] using bytes_ind3; intros Hl; [constructor|..].
  - apply Forall_cons in Hl as [Hb0 _].
    destruct (sextets b0 0 0 Hb0 Hz Hz) as (S1 & S2 & _).
    apply Forall_app. split; [|done]. repeat constructor; by apply Henc.
  - apply Forall_cons in Hl as [Hb0 [Hb1 _]%Forall_cons].
    destruct (sextets b0 b1 0 Hb0 Hb1 Hz) as (S1 & _ & S3 & S4 & _).
    apply Forall_app. split; [|done]. repeat constructor; by apply Henc.
  - apply Forall_cons in Hl as [Hb0 [Hb1 [Hb2 Hl]%Forall_cons]%Forall_cons].
    destruct (sextets b0 b1 b2 Hb0 Hb1 Hb2) as (S1 & _ & S3 & _ & S5 & S6).
    cbn. repeat (constructor; [by apply Henc|]). auto.
Qed.

Lemma encode_are_bytes e l : Forall is_byte l → Forall is_byte (encode e l).
Proof.
  intros Hl. apply encode_all_chars; [done|apply enc6_is_byte|]. unfold is_byte, pad_char. lia.
Qed.
#[export] Hint Resolve encode_are_bytes : authcore.

Lemma encode_no_newline e l :
  Forall is_byte l → filter (λ c, is_newline c = false) (encode e l) = encode e l.
Proof.
  intros Hl. apply filter_id. apply Forall_forall.
  apply encode_all_chars; [done| |done]. intros v Hv. by apply enc6_clean.
Qed.

(** Computes with the decoder, the arithmetic on sextets left alone. *)
Ltac b64_simpl := cbn -[enc6 Z.div Z.modulo Z.mul Z.add].

(** ** Round trips *)

Lemma decode_quanta_encode e l : Forall is_byte l → decode_quanta e (encode e l) = Some l.
Proof.
  assert (is_byte 0) as Hz by (unfold is_byte; lia).
  induction l as [|b0|b0 b1|b0 b1 b2 l IH] using bytes_ind3; intros Hl; [done|..].
  - apply Forall_cons in Hl as [Hb0 _]. unfold is_byte in Hb0.
    destruct (sextets b0 0 0 Hb0 Hz Hz) as (S1 & S2 & _).
    assert (tail2 e (b0 / 4) (b0 mod 4 * 16) = Some [b0]) as Ht.
    { unfold tail2. replace (b0 mod 4 * 16 mod 16 =? 0) with true by zdiv.
      rewrite andb_false_r. do 2 f_equal. zdiv. }
    unfold encode, padding. b64_simpl.
    rewrite !dec6_enc6 by done. b64_simpl.
    by destruct (padded e).
  - apply Forall_cons in Hl as [Hb0 [Hb1 _]%Forall_cons]. unfold is_byte in *.
    destruct (sextets b0 b1 0 Hb0 Hb1 Hz) as (S1 & _ & S3 & S4 & _).
    assert (tail3 e (b0 / 4) (b0 mod 4 * 16 + b1 / 16) (b1 mod 16 * 4) = Some [b0; b1]) as Ht.
    { unfold tail3. replace (b1 mod 16 * 4 mod 4 =? 0) with true by zdiv.
      rewrite andb_false_r. f_equal. f_equal; [zdiv|]. f_equal. zdiv. }
    unfold encode, padding. b64_simpl.
    destruct (enc6_clean e _ S4) as [_ Hp].
    rewrite !dec6_enc6 by done. b64_simpl.
    rewrite Hp, andb_false_r. b64_simpl.
    by destruct (padded e).
  - apply Forall_cons in Hl as [Hb0 [Hb1 [Hb2 Hl]%Forall_cons]%Forall_cons].
    destruct (sextets b0 b1 b2 Hb0 Hb1 Hb2) as (S1 & _ & S3 & _ & S5 & S6).
    destruct (enc6_clean e _ S5) as [_ Hp5], (enc6_clean e _ S6) as [_ Hp6].
    b64_simpl.
    rewrite !dec6_enc6 by done. b64_simpl.
    rewrite Hp5, Hp6, andb_false_r. b64_simpl.
    rewrite IH by done. cbn -[Z.div Z.modulo Z.mul Z.add]. unfold is_byte in *.
    f_equal. f_equal; [zdiv|]. f_equal; [zdiv|]. f_equal. zdiv.
Qed.

Lemma decode_encode e l : Forall is_byte l → decode e (encode e l) = Some l.
Proof.
  intros Hl. unfold decode. rewrite encode_no_newline by done. by apply decode_quanta_encode.
Qed.

(** Induction four characters at a time. *)
Lemma chars_ind4 (P : list Z → Prop) :
  P [] → (∀ c0, P [c0]) → (∀ c0 c1, P [c0; c1]) → (∀ c0 c1 c2, P [c0; c1; c2]) →
  (∀ c0 c1 c2 c3 l, P l → P (c0 :: c1 :: c2 :: c3 :: l)) → ∀ l, P l.
Proof.
  intros H0 H1 H2 H3 H4 l. remember (length l) as n eqn:Hn. revert l Hn.
  induction n as [n IH] using lt_wf_ind. intros [|c0 [|c1 [|c2 [|c3 l]]]] Hn; [done..|].
  apply H4. eapply IH; [|done]. cbn in Hn. lia.
Qed.

Lemma tail2_inv e v0 v1 b :
  strict e = true → 0 <= v0 < 64 → 0 <= v1 < 64 → tail2 e v0 v1 = Some b →
  encode e b = enc6 e v0 :: enc6 e v1 :: padding e 2 ∧ Forall is_byte b.
Proof.
  intros Hs H0 H1. unfold tail2. rewrite Hs. cbn [andb].
  destruct (Z.eqb_spec (v1 mod 16) 0) as [Hz|]; [|done]. intros [= <-]. split.
  - cbn -[enc6 Z.div Z.modulo Z.mul Z.add].
    replace ((v0 * 4 + v1 / 16) / 4) with v0 by zdiv.
    replace ((v0 * 4 + v1 / 16) mod 4 * 16) with v1 by zdiv. done.
  - repeat constructor; zdiv.
Qed.

Lemma tail3_inv e v0 v1 v2 b :
  strict e = true → 0 <= v0 < 64 → 0 <= v1 < 64 → 0 <= v2 < 64 →
  tail3 e v0 v1 v2 = Some b →
  encode e b = enc6 e v0 :: enc6 e v1 :: enc6 e v2 :: padding e 1 ∧ Forall is_byte b.
Proof.
  intros Hs H0 H1 H2. unfold tail3. rewrite Hs. cbn [andb].
  destruct (Z.eqb_spec (v2 mod 4) 0) as [Hz|]; [|done]. intros [= <-]. split.
  - cbn -[enc6 Z.div Z.modulo Z.mul Z.add].
    replace ((v0 * 4 + v1 / 16) / 4) with v0 by zdiv.
    replace ((v0 * 4 + v1 / 16) mod 4 * 16 + (v1 mod 16 * 16 + v2 / 4) / 16) with v1 by zdiv.
    replace ((v1 mod 16 * 16 + v2 / 4) mod 16 * 4) with v2 by zdiv. done.
  - repeat constructor; zdiv.
Qed.

(** Breaks a successful decoding step into its sextets. *)
Ltac b64_inv :=
  repeat match goal with
  | H : mbind _ _ = Some _ |- _ => apply bind_Some in H; destruct H as (? & ? & H)
  | H : dec6 _ _ = Some _ |- _ => apply enc6_dec6 in H; destruct H as [<- ?]
  | H : (if ?b then _ else _) = Some _ |- _ => destruct b eqn:?
  | H : None = Some _ |- _ => discriminate H
  | H : match ?l with [] => _ | _ => _ end = Some _ |- _ => destruct l
  end; bool_simp; subst.

(** What a strict decoder accepts is exactly what the encoder writes. *)
Lemma encode_decode_quanta e l : ∀ b,
  strict e = true → decode_quanta e l = Some b → encode e b = l ∧ Forall is_byte b.
Proof.
  induction l as [|c0|c0 c1|c0 c1 c2|c0 c1 c2 c3 l IH] using chars_ind4;
    intros b Hs H; cbn [decode_quanta] in H; [by injection H as <-|done|..].
  - b64_inv. apply tail2_inv in H as [-> ?]; [|done..].
    unfold padding. by destruct (padded e).
  - b64_inv. apply tail3_inv in H as [-> ?]; [|done..].
    unfold padding. by destruct (padded e).
  - destruct (padded e && (c2 =? pad_char)) eqn:Hp2; bool_simp.
    { b64_inv. apply tail2_inv in H as [-> ?]; [|done..]. unfold padding.
      destruct (padded e); [|done]. done. }
    destruct (padded e && (c3 =? pad_char)) eqn:Hp3; bool_simp.
    { b64_inv. apply tail3_inv in H as [-> ?]; [|done..]. unfold padding.
      destruct (padded e); [|done]. done. }
    b64_inv. injection H as <-.
    match goal with Hd : decode_quanta e l = Some _ |- _ => apply IH in Hd as [Henc Hb]; [|done] end.
    split.
    + cbn -[enc6 Z.div Z.modulo Z.mul Z.add]. rewrite Henc.
      f_equal; [f_equal; zdiv|]. f_equal; [f_equal; zdiv|]. f_equal; [f_equal; zdiv|].
      f_equal. f_equal. zdiv.
    + repeat (constructor; [unfold is_byte; zdiv|]). done.
Qed.

Lemma encode_decode e l b :
  strict e = true → decode e l = Some b →
  encode e b = filter (λ c, is_newline c = false) l ∧ Forall is_byte b.
Proof. intros Hs. by apply encode_decode_quanta. Qed.

Lemma length_encode_raw e l :
  padded e = false → Z.of_nat (length (encode e l)) = (4 * Z.of_nat (length l) + 2) / 3.
Proof.
  intros Hp. induction l as [|b0|b0 b1|b0 b1 b2 l IH] using bytes_ind3; unfold padding;
    cbn -[enc6 Z.div Z.modulo Z.mul Z.add Z.of_nat]; unfold padding; rewrite ?Hp; try done.
  rewrite !Nat2Z.inj_succ, IH. zdiv.
Qed.

(** ** On strings *)

Lemma DecodeString_EncodeToString e s : DecodeString e (EncodeToString e s) = Some s.
Proof.
  unfold DecodeString, EncodeToString. pose proof (bytes_are_bytes s) as Hs.
  rewrite bytes_of_bytes by are_bytes.
  rewrite decode_encode by done. cbn. by rewrite of_bytes_bytes.
Qed.

Lemma EncodeToString_inj e s t : EncodeToString e s = EncodeToString e t → s = t.
Proof.
  intros H. apply (f_equal (DecodeString e)) in H.
  rewrite !DecodeString_EncodeToString in H. by injection H.
Qed.
