(* ===== verification/GoFloat.v ===== *)
(** * GoFloat

    Go's [float64] and [float32] as the Standard Library's specification of IEEE 754
    numbers, the conversions and comparisons the sources use, and [math.Ceil]. *)

From Stdlib Require Import SpecFloat.
From S2P Require Import Prelude.
Local Open Scope Z_scope.

Abbreviation float := spec_float.

(** ** Operations *)

Definition lt64 (x y : float) : bool := SFltb x y.
Definition le64 (x y : float) : bool := SFleb x y.
Definition eq64 (x y : float) : bool := SFeqb x y.

(** A conversion from an integer rounds to nearest, ties to even. *)
Definition float64_of_int (n : Z) : float := binary_normalize 53 1024 n 0 false.

Definition float64_of_float32 (f : float) : float :=
  match f with
  | S754_finite s m e => binary_round 53 1024 s m e
  | _ => f
  end.

Definition IsNaN (f : float) : bool := match f with S754_nan => true | _ => false end.
Definition IsInf (f : float) : bool := match f with S754_infinity _ => true | _ => false end.

(** The least integer not below [m * 2^e], for a negative [e]. *)
Definition ceil_frac (s : bool) (m : positive) (e : Z) : Z :=
  - ((- cond_Zopp s (Zpos m)) / 2 ^ (- e)).

(** [math.Ceil]: a result of zero keeps the sign. *)
Definition Ceil (f : float) : float :=
  match f with
  | S754_finite s m e =>
      if 0 <=? e then f
      else let z := ceil_frac s m e in
           if z =? 0 then S754_zero s else float64_of_int z
  | _ => f
  end.

(** [int(f)] truncates; the sources only convert finite values in range. *)
Definition int_of_float (f : float) : Z :=
  match f with
  | S754_finite s m e =>
      cond_Zopp s (if 0 <=? e then Zpos m * 2 ^ e else Zpos m / 2 ^ (- e))
  | _ => 0
  end.

(** ** Values *)

Definition valid64 (f : float) : Prop := valid_binary 53 1024 f = true.
Definition valid32 (f : float) : Prop := valid_binary 24 128 f = true.
Definition finite (f : float) : Prop :=
  match f with S754_zero _ | S754_finite _ _ _ => True | _ => False end.

(** Every finite float64 is an integral multiple of [2^-1074]: its value in these units,
    and the integer [n] in them. *)
Definition units (f : float) : Z :=
  match f with
  | S754_finite s m e => cond_Zopp s (Zpos m * 2 ^ (e + 1074))
  | _ => 0
  end.
Definition int_units (n : Z) : Z := n * 2 ^ 1074.

Lemma digits2_pos_log2 m : Zpos (digits2_pos m) = Z.log2 (Zpos m) + 1.
Proof.
  induction m as [m IH|m IH|]; cbn [digits2_pos]; [| |done].
  - rewrite Pos2Z.inj_succ, IH, (Pos2Z.inj_xI m), Z.log2_succ_double by lia. lia.
  - rewrite Pos2Z.inj_succ, IH, (Pos2Z.inj_xO m), Z.log2_double by lia. lia.
Qed.

Lemma digits_bounds m : 2 ^ (Zpos (digits2_pos m) - 1) ≤ Zpos m < 2 ^ Zpos (digits2_pos m).
Proof.
  rewrite digits2_pos_log2. pose proof (Z.log2_spec (Zpos m) ltac:(lia)).
  rewrite Z.add_simpl_r. by replace (Z.log2 (Zpos m) + 1) with (Z.succ (Z.log2 (Zpos m))) by lia.
Qed.

Lemma digits_unique m k : 0 < k → 2 ^ (k - 1) ≤ Zpos m < 2 ^ k → Zpos (digits2_pos m) = k.
Proof.
  intros Hk Hm. rewrite digits2_pos_log2, (Z.log2_unique (Zpos m) (k - 1)); [lia|lia|].
  by replace (Z.succ (k - 1)) with k by lia.
Qed.

Lemma bounded64 m e :
  bounded 53 1024 m e = true ↔
  e = Z.max (Zpos (digits2_pos m) + e - 53) (-1074) ∧ e ≤ 971.
Proof.
  unfold bounded, canonical_mantissa, fexp, emin. rewrite andb_true_iff, Z.eqb_eq, Z.leb_le. lia.
Qed.

(** Of two canonical numbers the one with the larger exponent is larger. *)
Lemma bounded64_lt m1 e1 m2 e2 :
  bounded 53 1024 m1 e1 = true → bounded 53 1024 m2 e2 = true → e1 < e2 →
  Zpos m1 * 2 ^ (e1 + 1074) < Zpos m2 * 2 ^ (e2 + 1074).
Proof.
  rewrite !bounded64. intros [H1 _] [H2 _] He.
  pose proof (digits_bounds m1) as [_ Hm1]. pose proof (digits_bounds m2) as [Hm2 _].
  assert (Zpos (digits2_pos m2) = 53) as Hd2 by lia. rewrite Hd2 in Hm2.
  assert (Zpos m1 < 2 ^ 53) as Hm1'
    by (eapply Z.lt_le_trans; [exact Hm1|apply Z.pow_le_mono_r; lia]).
  replace (e2 + 1074) with ((e1 + 1074) + (e2 - e1)) by lia. rewrite (Z.pow_add_r 2 (e1 + 1074)) by lia.
  assert (2 ^ 1 ≤ 2 ^ (e2 - e1)) by (apply Z.pow_le_mono_r; lia).
  assert (0 < 2 ^ (e1 + 1074)) by (apply Z.pow_pos_nonneg; lia).
  rewrite Z.pow_1_r in *. change (2 ^ 53) with (2 ^ (53 - 1) * 2) in Hm1'.
  set (P := 2 ^ (e1 + 1074)) in *. set (Q := 2 ^ (e2 - e1)) in *. set (K := 2 ^ (53 - 1)) in *.
  apply Z.lt_le_trans with (K * 2 * P); [by apply Z.mul_lt_mono_pos_r|].
  replace (Z.pos m2 * (P * Q)) with (Z.pos m2 * Q * P) by lia.
  apply Z.mul_le_mono_nonneg_r; [lia|]. apply Z.mul_le_mono_nonneg; [by apply Z.pow_nonneg|done|lia|done].
Qed.

Lemma bounded64_compare m1 e1 m2 e2 :
  bounded 53 1024 m1 e1 = true → bounded 53 1024 m2 e2 = true →
  match e1 ?= e2 with Lt => Lt | Gt => Gt | Eq => Pos.compare_cont Eq m1 m2 end =
  (Zpos m1 * 2 ^ (e1 + 1074) ?= Zpos m2 * 2 ^ (e2 + 1074)).
Proof.
  intros H1 H2. symmetry. destruct (Z.compare_spec e1 e2) as [->|He|He].
  - assert (0 < 2 ^ (e2 + 1074)).
    { apply bounded64 in H2. apply Z.pow_pos_nonneg; lia. }
    rewrite Z.mul_comm, (Z.mul_comm (Zpos m2)), <- Zmult_compare_compat_l by lia. done.
  - apply Z.compare_lt_iff. by apply bounded64_lt.
  - apply Z.compare_gt_iff. by apply bounded64_lt.
Qed.

(** On finite numbers the comparisons of Go are those of the values. *)
Lemma SFcompare_units x y :
  valid64 x → valid64 y → finite x → finite y → SFcompare x y = Some (units x ?= units y).
Proof.
  assert (∀ m e, bounded 53 1024 m e = true → 0 < Zpos m * 2 ^ (e + 1074)) as Hpos.
  { intros m e [? _]%bounded64. assert (0 < 2 ^ (e + 1074)) by (apply Z.pow_pos_nonneg; lia). lia. }
  unfold valid64. destruct x as [sx|sx| |sx mx ex], y as [sy|sy| |sy my ey]; cbn [finite valid_binary];
    intros Hx Hy Fx Fy; try done; cbn [SFcompare units]; f_equal.
  - apply Hpos in Hy. symmetry. destruct sy; cbn [cond_Zopp];
      [apply Z.compare_gt_iff|apply Z.compare_lt_iff]; lia.
  - apply Hpos in Hx. symmetry. destruct sx; cbn [cond_Zopp];
      [apply Z.compare_lt_iff|apply Z.compare_gt_iff]; lia.
  - pose proof (bounded64_compare _ _ _ _ Hx Hy) as Hc. pose proof (Hpos _ _ Hx). pose proof (Hpos _ _ Hy).
    destruct sx, sy; cbn [cond_Zopp].
    + rewrite Z.compare_opp, (Z.compare_antisym (Zpos mx * _)), <- Hc. by destruct (ex ?= ey).
    + symmetry. apply Z.compare_lt_iff. lia.
    + symmetry. apply Z.compare_gt_iff. lia.
    + done.
Qed.

(** ** Conversions *)

Lemma Zpos_iter_xO m k : Zpos (Pos.iter xO m k) = Zpos m * 2 ^ Zpos k.
Proof.
  induction k as [|k IH] using Pos.peano_ind; [cbn; lia|].
  rewrite Pos.iter_succ, Pos2Z.inj_xO, IH, Pos2Z.inj_succ, Z.pow_succ_r by lia. lia.
Qed.

Lemma binary_round_aux_exact s m e :
  bounded 53 1024 m e = true → binary_round_aux 53 1024 s (Zpos m) e loc_Exact = S754_finite s m e.
Proof.
  intros [He Hmax]%bounded64. unfold binary_round_aux, shr_fexp.
  assert (fexp 53 1024 (Zdigits2 (Zpos m) + e) - e = 0) as Hs.
  { unfold fexp, emin, Zdigits2. lia. }
  rewrite Hs. cbn -[fexp Z.leb]. change (Zpos (digits2_pos m)) with (Zdigits2 (Zpos m)). rewrite Hs.
  cbn -[Z.leb]. by rewrite (proj2 (Z.leb_le e (1024 - 53))) by lia.
Qed.

(** A number that fits the precision is represented exactly. *)
Lemma binary_round_exact s m e :
  let d := Zpos (digits2_pos m) in
  d ≤ 53 → -1074 ≤ d + e - 53 → d + e ≤ 1024 →
  ∃ m', binary_round 53 1024 s m e = S754_finite s m' (d + e - 53) ∧
        Zpos m' = Zpos m * 2 ^ (53 - d) ∧ bounded 53 1024 m' (d + e - 53) = true.
Proof.
  intros d Hd Hmin Hmax. pose proof (digits_bounds m) as Hm. fold d in Hm.
  assert (∃ m', shl_align m e (fexp 53 1024 (d + e)) = (m', d + e - 53) ∧
                Zpos m' = Zpos m * 2 ^ (53 - d)) as (m' & Hshl & Hm').
  { unfold shl_align, fexp, emin.
    replace (Z.max (d + e - 53) (3 - 1024 - 53) - e) with (d - 53) by lia.
    destruct (d - 53) as [|p|k] eqn:Hk; [| lia |].
    - exists m. replace (53 - d) with 0 by lia. split; [f_equal; lia|lia].
    - exists (Pos.iter xO m k). rewrite Zpos_iter_xO. replace (53 - d) with (Zpos k) by lia.
      split; [f_equal; lia|done]. }
  assert (bounded 53 1024 m' (d + e - 53) = true) as Hb.
  { apply bounded64. rewrite (digits_unique m' 53); [lia|lia|]. rewrite Hm'.
    assert (0 < 2 ^ (53 - d)) by (apply Z.pow_pos_nonneg; lia).
    replace (53 - 1) with ((d - 1) + (53 - d)) by lia.
    replace (2 ^ 53) with (2 ^ (d + (53 - d))) by (f_equal; lia).
    rewrite !Z.pow_add_r by lia. nia. }
  exists m'. split_and!; [|done..]. unfold binary_round. fold d. rewrite Hshl.
  by apply binary_round_aux_exact.
Qed.

Lemma shr_m_iter p : ∀ mrs, 0 ≤ shr_m mrs → shr_m (@SpecFloat.iter_pos shr_record shr_1 p mrs) = shr_m mrs / 2 ^ Zpos p.
Proof.
  assert (∀ mrs, 0 ≤ shr_m mrs → shr_m (shr_1 mrs) = shr_m mrs / 2) as H1.
  { intros [[|[m|m|]|m] r s] ?; cbn in *; [done| | |done|lia].
    - rewrite (Pos2Z.inj_xI m). zdiv.
    - rewrite (Pos2Z.inj_xO m). zdiv. }
  induction p as [p IH|p IH|]; intros mrs Hm; cbn [SpecFloat.iter_pos].
  - assert (0 ≤ shr_m (shr_1 mrs)) by (rewrite H1 by done; apply Z.div_pos; lia).
    assert (0 < 2 ^ Zpos p) by (apply Z.pow_pos_nonneg; lia).
    rewrite IH, IH, H1 by (done || (rewrite ?IH by done; by apply Z.div_pos)).
    rewrite !Z.div_div by lia. f_equal. rewrite (Pos2Z.inj_xI p), Z.pow_add_r, Z.pow_mul_r by lia.
    change (2 ^ 2) with (2 * 2). rewrite Z.pow_mul_l. lia.
  - assert (0 < 2 ^ Zpos p) by (apply Z.pow_pos_nonneg; lia).
    rewrite IH, IH by (done || (rewrite ?IH by done; by apply Z.div_pos)).
    rewrite Z.div_div by lia. f_equal. rewrite (Pos2Z.inj_xO p), Z.pow_mul_r by lia.
    change (2 ^ 2) with (2 * 2). by rewrite Z.pow_mul_l.
  - by rewrite H1.
Qed.

(** A longer mantissa is rounded to one that fits. *)
Lemma binary_round_long s m :
  let d := Zpos (digits2_pos m) in
  53 < d ≤ 64 → ∃ m' e', binary_round 53 1024 s m 0 = S754_finite s m' e' ∧
                         bounded 53 1024 m' e' = true.
Proof.
  intros d Hd. pose proof (digits_bounds m) as Hm. fold d in Hm.
  assert (∃ p, d - 53 = Zpos p) as [p Hp] by (exists (Z.to_pos (d - 53)); lia).
  assert (fexp 53 1024 d = Zpos p) as Hf by (unfold fexp, emin; lia).
  unfold binary_round. fold d. rewrite Z.add_0_r, Hf. change (shl_align m 0 (Zpos p)) with (m, 0).
  unfold binary_round_aux at 1, shr_fexp at 1. cbn [Zdigits2]. fold d. rewrite Z.add_0_r, Hf.
  rewrite Z.sub_0_r. cbn [shr shr_record_of_loc].
  set (mrs := SpecFloat.iter_pos shr_1 p _). rewrite Z.add_0_l.
  assert (shr_m mrs = Zpos m / 2 ^ Zpos p) as Hq by (by apply shr_m_iter).
  assert (2 ^ (53 - 1) ≤ shr_m mrs < 2 ^ 53) as Hrange.
  { rewrite Hq, <- Hp.
    assert (0 < 2 ^ (d - 53)) by (apply Z.pow_pos_nonneg; lia).
    replace (d - 1) with ((53 - 1) + (d - 53)) in Hm by lia.
    replace (2 ^ d) with (2 ^ (53 + (d - 53))) in Hm by (f_equal; lia).
    rewrite !Z.pow_add_r in Hm by lia. split.
    - apply Z.div_le_lower_bound; lia.
    - apply Z.div_lt_upper_bound; lia. }
  assert (∃ x, round_nearest_even (shr_m mrs) (loc_of_shr_record mrs) = Zpos x ∧
               2 ^ (53 - 1) ≤ Zpos x ≤ 2 ^ 53) as (x & Hx & Hxr).
  { destruct (round_nearest_even (shr_m mrs) (loc_of_shr_record mrs)) as [|x|x] eqn:He;
      [|exists x; split; [done|]|]; revert He; unfold round_nearest_even;
      repeat case_match; lia. }
  rewrite Hx.
  destruct (decide (Zpos x = 2 ^ 53)) as [E|E].
  - assert (x = 9007199254740992%positive) as -> by lia. exists (2 ^ 52)%positive, (Zpos p + 1).
    assert (Zpos p ≤ 11) by lia. unfold shr_fexp.
    replace (fexp 53 1024 (Zdigits2 9007199254740992 + Zpos p) - Zpos p) with 1
      by (cbn [Zdigits2]; unfold fexp, emin; cbn [digits2_pos]; lia).
    cbn -[Z.leb Z.add]. rewrite (proj2 (Z.leb_le _ _)) by lia. split; [done|].
    apply bounded64. rewrite (digits_unique _ 53); [lia|lia|done].
  - assert (bounded 53 1024 x (Zpos p) = true) as Hb.
    { apply bounded64. rewrite (digits_unique x 53); lia. }
    exists x, (Zpos p). split; [|done]. apply (binary_round_aux_exact s) in Hb.
    unfold binary_round_aux, shr_fexp in Hb |- *. revert Hb.
    assert (fexp 53 1024 (Zdigits2 (Zpos x) + Zpos p) - Zpos p = 0) as ->.
    { cbn [Zdigits2]. rewrite (digits_unique x 53) by lia. unfold fexp, emin. lia. }
    cbn -[fexp Z.leb digits2_pos]. intros. rewrite (proj2 (Z.leb_le _ _)) by lia. done.
Qed.

Lemma float64_of_int_valid n : - 2 ^ 64 < n < 2 ^ 64 → valid64 (float64_of_int n).
Proof.
  assert (∀ s m, Zpos m < 2 ^ 64 → valid64 (binary_round 53 1024 s m 0)) as H.
  { intros s m Hm. pose proof (digits_bounds m) as [Hl _].
    assert (Zpos (digits2_pos m) ≤ 64).
    { assert (Zpos (digits2_pos m) - 1 < 64); [|lia]. apply (Z.pow_lt_mono_r_iff 2); lia. }
    destruct (decide (Zpos (digits2_pos m) ≤ 53)).
    - destruct (binary_round_exact s m 0) as (? & -> & _ & ?); [lia..|done].
    - destruct (binary_round_long s m) as (? & ? & -> & ?); [lia|done]. }
  intros Hn. unfold float64_of_int, binary_normalize. destruct n; [done|apply H; lia|apply H; lia].
Qed.

Lemma float64_of_int_exact n :
  - 2 ^ 53 < n < 2 ^ 53 → finite (float64_of_int n) ∧ units (float64_of_int n) = int_units n ∧
  int_of_float (float64_of_int n) = n.
Proof.
  assert (∀ s m, Zpos m < 2 ^ 53 →
    finite (binary_round 53 1024 s m 0) ∧
    units (binary_round 53 1024 s m 0) = int_units (cond_Zopp s (Zpos m)) ∧
    int_of_float (binary_round 53 1024 s m 0) = cond_Zopp s (Zpos m)) as H.
  { intros s m Hm. pose proof (digits_bounds m) as [Hl _].
    assert (Zpos (digits2_pos m) ≤ 53) as Hd.
    { assert (Zpos (digits2_pos m) - 1 < 53); [|lia]. apply (Z.pow_lt_mono_r_iff 2); lia. }
    destruct (binary_round_exact s m 0) as (m' & -> & Hm' & _); [lia..|].
    set (d := Zpos (digits2_pos m)) in *. split_and!; [done|..].
    - cbn [units]. rewrite Hm'. unfold int_units.
      assert (Zpos m * 2 ^ (53 - d) * 2 ^ (d + 0 - 53 + 1074) = Zpos m * 2 ^ 1074) as ->.
      { rewrite <- Z.mul_assoc, <- Z.pow_add_r by lia. do 2 f_equal. lia. }
      destruct s; cbn [cond_Zopp]; lia.
    - cbn [int_of_float]. f_equal. rewrite Hm'. destruct (Z.leb_spec 0 (d + 0 - 53)).
      + replace d with 53 by lia. cbn. lia.
      + replace (- (d + 0 - 53)) with (53 - d) by lia. apply Z.div_mul. apply Z.pow_nonzero; lia. }
  intros Hn. unfold float64_of_int, binary_normalize. destruct n as [|p|p]; [done|apply H; lia|].
  apply (H true). lia.
Qed.

Lemma float64_of_float32_valid f : valid32 f → valid64 (float64_of_float32 f).
Proof.
  unfold valid32, valid64. destruct f as [| | |s m e]; [done..|]. cbn [valid_binary float64_of_float32].
  unfold bounded, canonical_mantissa, fexp, emin. rewrite andb_true_iff, Z.eqb_eq, Z.leb_le. intros [? ?].
  destruct (binary_round_exact s m e) as (? & -> & _ & ?); [lia..|done].
Qed.

(** ** Comparisons and rounding up *)

Section compare.
Context (x y : float) (Vx : valid64 x) (Vy : valid64 y) (Fx : finite x) (Fy : finite y).

Lemma lt64_units : lt64 x y = (units x <? units y).
Proof. unfold lt64, SFltb. rewrite SFcompare_units by done. reflexivity. Qed.

Lemma le64_units : le64 x y = (units x <=? units y).
Proof. unfold le64, SFleb. rewrite SFcompare_units by done. unfold Z.leb. by destruct (_ ?= _). Qed.

Lemma eq64_units : eq64 x y = (units x =? units y).
Proof.
  unfold eq64, SFeqb. rewrite SFcompare_units by done. rewrite Z.eqb_compare. by destruct (_ ?= _).
Qed.
End compare.

(** The least integer that is not below a value given in units. *)
Definition ceiling (u : Z) : Z := - ((- u) / 2 ^ 1074).

Lemma ceiling_spec u : int_units (ceiling u - 1) < u ≤ int_units (ceiling u).
Proof.
  unfold ceiling, int_units. assert (0 < 2 ^ 1074) by (apply Z.pow_pos_nonneg; lia).
  pose proof (Z.mod_pos_bound (- u) (2 ^ 1074) ltac:(done)).
  pose proof (Z.div_mod (- u) (2 ^ 1074) ltac:(lia)). generalize dependent (2 ^ 1074). intros P **. nia.
Qed.

Lemma ceiling_range u n : 0 ≤ u ≤ int_units n → 0 ≤ ceiling u ≤ n.
Proof.
  pose proof (ceiling_spec u). unfold int_units in *.
  assert (0 < 2 ^ 1074) by (apply Z.pow_pos_nonneg; lia).
  generalize dependent (2 ^ 1074). intros P **. nia.
Qed.

Lemma ceil_frac_ceiling m e :
  -1074 ≤ e < 0 → ceil_frac false m e = ceiling (Zpos m * 2 ^ (e + 1074)).
Proof.
  intros He. unfold ceil_frac, ceiling. cbn [cond_Zopp]. f_equal.
  replace (2 ^ 1074) with (2 ^ (- e) * 2 ^ (e + 1074)) by (rewrite <- Z.pow_add_r by lia; f_equal; lia).
  rewrite <- Z.mul_opp_l, Z.div_mul_cancel_r; [done|..]; apply Z.pow_nonzero; lia.
Qed.

Lemma int_Ceil f n :
  valid64 f → finite f → 0 ≤ units f ≤ int_units n → n < 2 ^ 53 →
  int_of_float (Ceil f) = ceiling (units f).
Proof.
  intros Hv Hf Hu Hn. pose proof (ceiling_range _ _ Hu) as Hr.
  destruct f as [s| | |s m e]; [done..|]. unfold valid64 in Hv. cbn [valid_binary] in Hv.
  apply bounded64 in Hv. cbn [units] in *.
  assert (0 < 2 ^ (e + 1074)) by (apply Z.pow_pos_nonneg; lia).
  destruct s; cbn [cond_Zopp] in *; [lia|]. unfold Ceil. destruct (Z.leb_spec 0 e) as [He|He].
  - cbn [int_of_float cond_Zopp]. rewrite (proj2 (Z.leb_le 0 e)) by done.
    unfold ceiling. rewrite Z.pow_add_r, Z.mul_assoc, <- Z.mul_opp_l, Z.div_mul by
      (first [lia|apply Z.pow_nonzero; lia]). lia.
  - rewrite ceil_frac_ceiling by lia. destruct (Z.eqb_spec (ceiling (Zpos m * 2 ^ (e + 1074))) 0) as [->|].
    + done.
    + apply float64_of_int_exact. lia.
Qed.
