(* ===== verification/GoJson.v ===== *)
(** * GoJson

    Go's [encoding/json] (version 1) as the sources use it: the scanner, string literals,
    and decoding into a struct of booleans, strings, string slices and raw messages. A
    value keeps the text it was read from, as [RawMessage] does. *)

From S2P Require Import Prelude GoRuntime GoStrings.
Local Open Scope Z_scope.

(** ** Values *)

(** A string is its literal without the quotes; an object keeps its members in order,
    duplicates included. *)
Inductive json : Type :=
| JNull
| JBool (b : bool)
| JNumber
| JString (lit : list Z)
| JArray (elems : list json)
| JObject (members : list (list Z * list Z * json)).   (* name, text of the value, value *)

(** ** The scanner *)

Definition json_space (c : Z) : bool := (c =? 32) || (c =? 9) || (c =? 10) || (c =? 13).

Fixpoint skip_space (l : list Z) : list Z :=
  match l with c :: l' => if json_space c then skip_space l' else l | [] => [] end.

Definition json_digit (c : Z) : bool := between 48 c 57.
Definition json_hex (c : Z) : bool := json_digit c || between 97 c 102 || between 65 c 70.

(** What may follow a backslash, other than [u]: b, f, n, r, t, a backslash, a slash and a
    quote. *)
Definition is_escape (e : Z) : bool := bool_decide (e ∈ [98; 102; 110; 114; 116; 92; 47; 34]).

(** The rest of a string literal: its content and what follows the closing quote. *)
Fixpoint scan_string (l : list Z) : option (list Z * list Z) :=
  match l with
  | [] => None
  | c :: l' =>
      if c =? 34 then Some ([], l')
      else if c =? 92 then
        match l' with
        | e :: l'' =>
            if is_escape e then '(s, r) ← scan_string l''; Some (c :: e :: s, r)
            else if e =? 117 then
              match l'' with
              | h1 :: h2 :: h3 :: h4 :: l4 =>
                  if json_hex h1 && json_hex h2 && json_hex h3 && json_hex h4
                  then '(s, r) ← scan_string l4; Some (c :: e :: h1 :: h2 :: h3 :: h4 :: s, r)
                  else None
              | _ => None
              end
            else None
        | [] => None
        end
      else if c <? 32 then None
      else '(s, r) ← scan_string l'; Some (c :: s, r)
  end.

Fixpoint skip_digits (l : list Z) : list Z :=
  match l with c :: l' => if json_digit c then skip_digits l' else l | [] => [] end.

(** At least one digit. *)
Definition digits1 (l : list Z) : option (list Z) :=
  match l with c :: l' => if json_digit c then Some (skip_digits l') else None | [] => None end.

(** A number from its first byte on: what follows it. *)
Definition scan_number (l : list Z) : option (list Z) :=
  let l := match l with c :: l' => if c =? 45 then l' else l | [] => [] end in
  l ← match l with c :: l' => if c =? 48 then Some l' else digits1 l | [] => None end;
  l ← match l with c :: l' => if c =? 46 then digits1 l' else Some l | [] => Some [] end;
  match l with
  | c :: l' =>
      if (c =? 101) || (c =? 69) then
        match l' with
        | x :: l'' => if (x =? 43) || (x =? 45) then digits1 l'' else digits1 l'
        | [] => None
        end
      else Some l
  | [] => Some []
  end.

Definition strip (p l : list Z) : option (list Z) := strip_prefix p l.

Definition maxNestingDepth : nat := Z.to_nat 10000.

(** The bytes consumed between two suffixes of the input. *)
Definition text_between (l rest : list Z) : list Z := take (length l - length rest) l.

(** A value from its first byte on, and what follows it. [depth] counts the objects and
    arrays that may still be opened. Twice the length is enough fuel ([scan_fuel]). *)
Fixpoint scan_value (fuel depth : nat) (l : list Z) {struct fuel} : option (json * list Z) :=
  match fuel with
  | O => None
  | S fuel =>
      match l with
      | [] => None
      | c :: l' =>
          if c =? 34 then '(s, r) ← scan_string l'; Some (JString s, r)
          else if c =? 123 then
            match depth with
            | O => None
            | S depth =>
                match skip_space l' with
                | [] => None
                | d :: r => if d =? 125 then Some (JObject [], r)
                            else '(ms, r) ← scan_members fuel depth (d :: r); Some (JObject ms, r)
                end
            end
          else if c =? 91 then
            match depth with
            | O => None
            | S depth =>
                match skip_space l' with
                | [] => None
                | d :: r => if d =? 93 then Some (JArray [], r)
                            else '(vs, r) ← scan_elems fuel depth (d :: r); Some (JArray vs, r)
                end
            end
          else if c =? 110 then r ← strip (bytes "ull") l'; Some (JNull, r)
          else if c =? 116 then r ← strip (bytes "rue") l'; Some (JBool true, r)
          else if c =? 102 then r ← strip (bytes "alse") l'; Some (JBool false, r)
          else r ← scan_number l; Some (JNumber, r)
      end
  end
(** Members from the first name on, up to the closing brace. *)
with scan_members (fuel depth : nat) (l : list Z) {struct fuel}
    : option (list (list Z * list Z * json) * list Z) :=
  match fuel with
  | O => None
  | S fuel =>
      match l with
      | [] => None
      | q :: l' =>
          if negb (q =? 34) then None
          else
            '(name, r) ← scan_string l';
            match skip_space r with
            | [] => None
            | col :: r =>
                if negb (col =? 58) then None
                else
                  let start := skip_space r in
                  '(v, r) ← scan_value fuel depth start;
                  let m := (name, text_between start r, v) in
                  match skip_space r with
                  | [] => None
                  | d :: r =>
                      if d =? 125 then Some ([m], r)
                      else if d =? 44 then '(ms, r) ← scan_members fuel depth (skip_space r); Some (m :: ms, r)
                      else None
                  end
            end
      end
  end
with scan_elems (fuel depth : nat) (l : list Z) {struct fuel} : option (list json * list Z) :=
  match fuel with
  | O => None
  | S fuel =>
      '(v, r) ← scan_value fuel depth l;
      match skip_space r with
      | [] => None
      | d :: r =>
          if d =? 93 then Some ([v], r)
          else if d =? 44 then '(vs, r) ← scan_elems fuel depth (skip_space r); Some (v :: vs, r)
          else None
      end
  end.

(** *** The fuel *)

Lemma skip_space_length l : (length (skip_space l) ≤ length l)%nat.
Proof. induction l as [|c l IH]; cbn; [done|]. destruct (json_space c); cbn; lia. Qed.

Lemma scan_string_length n : ∀ l s r, (length l ≤ n)%nat →
  scan_string l = Some (s, r) → (length r < length l)%nat.
Proof.
  induction n as [|n IH]; intros [|c l] s r Hn; cbn [scan_string length] in *; [done|lia|done|].
  destruct (c =? 34); [intros [= <- <-]; lia|]. destruct (c =? 92).
  - destruct l as [|e l]; [done|]. cbn [length] in *. destruct (is_escape e).
    { intros ([s' r'] & H%IH & [= <- <-])%bind_Some; lia. }
    destruct (e =? 117); [|done]. destruct l as [|h1 [|h2 [|h3 [|h4 l]]]]; [done..|]. cbn [length] in *.
    destruct (_ && _); [|done]. intros ([s' r'] & H%IH & [= <- <-])%bind_Some; lia.
  - destruct (c <? 32); [done|]. intros ([s' r'] & H%IH & [= <- <-])%bind_Some; lia.
Qed.

Lemma skip_digits_length l : (length (skip_digits l) ≤ length l)%nat.
Proof. induction l as [|c l IH]; cbn; [done|]. destruct (json_digit c); cbn; lia. Qed.

Lemma digits1_length l r : digits1 l = Some r → (length r < length l)%nat.
Proof.
  destruct l as [|c l]; cbn; [done|]. destruct (json_digit c); [|done]. intros [= <-].
  pose proof (skip_digits_length l). lia.
Qed.

Lemma scan_number_length l r : scan_number l = Some r → (length r < length l)%nat.
Proof.
  unfold scan_number. intros (l1 & H1 & (l2 & H2 & H)%bind_Some)%bind_Some.
  assert (length l1 < length l)%nat.
  { destruct l as [|c l]; [done|]. destruct (c =? 45).
    - destruct l as [|d l]; [done|]. destruct (d =? 48); [injection H1 as <-; cbn; lia|].
      apply digits1_length in H1. cbn in *. lia.
    - destruct (c =? 48); [injection H1 as <-; cbn; lia|]. by apply digits1_length in H1. }
  assert (length l2 ≤ length l1)%nat.
  { destruct l1 as [|c l1]; [by injection H2 as <-|]. destruct (c =? 46); [|by injection H2 as <-].
    apply digits1_length in H2. cbn. lia. }
  destruct l2 as [|c l2]; [injection H as <-; cbn; lia|]. destruct (_ || _); [|injection H as <-; lia].
  destruct l2 as [|x l2]; [done|].
  destruct (_ || _); apply digits1_length in H; cbn in *; lia.
Qed.

Lemma scan_length fuel :
  (∀ depth l v r, scan_value fuel depth l = Some (v, r) → (length r < length l)%nat) ∧
  (∀ depth l ms r, scan_members fuel depth l = Some (ms, r) → (length r < length l)%nat) ∧
  (∀ depth l vs r, scan_elems fuel depth l = Some (vs, r) → (length r < length l)%nat).
Proof.
  induction fuel as [|fuel (IHv & IHm & IHe)]; [done|]. split_and!.
  - intros depth [|c l] v r; cbn [scan_value]; [done|].
    destruct (c =? 34). { intros ([s' r'] & H & [= <- <-])%bind_Some. apply scan_string_length with (n := length l) in H; cbn; lia. }
    pose proof (skip_space_length l) as Hsk.
    destruct (c =? 123).
    { destruct depth; [done|]. destruct (skip_space l) as [|d l1]; [done|]. cbn in Hsk |- *.
      destruct (d =? 125); [intros [= <- <-]; lia|].
      intros ([ms r'] & H%IHm & [= <- <-])%bind_Some. cbn in H. lia. }
    destruct (c =? 91).
    { destruct depth; [done|]. destruct (skip_space l) as [|d l1]; [done|]. cbn in Hsk |- *.
      destruct (d =? 93); [intros [= <- <-]; lia|].
      intros ([ms r'] & H%IHe & [= <- <-])%bind_Some. cbn in H. lia. }
    destruct (c =? 110); [|destruct (c =? 116); [|destruct (c =? 102)]].
    4: intros (r' & H%scan_number_length & [= <- <-])%bind_Some; done.
    all: intros (r' & H%strip_prefix_length & [= <- <-])%bind_Some; cbn; lia.
  - intros depth [|q l] ms r; cbn [scan_members]; [done|]. destruct (negb (q =? 34)); [done|].
    intros ([name r1] & Hs & H)%bind_Some. apply scan_string_length with (n := length l) in Hs; [|done].
    pose proof (skip_space_length r1). destruct (skip_space r1) as [|col r2]; [done|]. cbn in *.
    destruct (negb (col =? 58)); [done|]. apply bind_Some in H as ([v r3] & Hv%IHv & H).
    pose proof (skip_space_length r2). pose proof (skip_space_length r3).
    destruct (skip_space r3) as [|d r4]; [done|]. cbn in *.
    destruct (d =? 125); [injection H as <- <-; lia|]. destruct (d =? 44); [|done].
    apply bind_Some in H as ([ms' r5] & Hm%IHm & [= <- <-]). pose proof (skip_space_length r4). lia.
  - intros depth l vs r; cbn [scan_elems]. intros ([v r1] & Hv%IHv & H)%bind_Some.
    pose proof (skip_space_length r1). destruct (skip_space r1) as [|d r2]; [done|]. cbn in *.
    destruct (d =? 93); [injection H as <- <-; lia|]. destruct (d =? 44); [|done].
    apply bind_Some in H as ([vs' r3] & He%IHe & [= <- <-]). pose proof (skip_space_length r2). lia.
Qed.

(** More fuel than needed changes nothing. *)
Lemma scan_fuel fuel : ∀ fuel',
  (∀ depth l, (2 * length l < fuel)%nat → (2 * length l < fuel')%nat →
     scan_value fuel depth l = scan_value fuel' depth l) ∧
  (∀ depth l, (2 * length l < fuel)%nat → (2 * length l < fuel')%nat →
     scan_members fuel depth l = scan_members fuel' depth l) ∧
  (∀ depth l, (2 * length l + 1 < fuel)%nat → (2 * length l + 1 < fuel')%nat →
     scan_elems fuel depth l = scan_elems fuel' depth l).
Proof.
  induction fuel as [|fuel IH]; intros [|fuel']; [split_and!; intros; lia..|].
  destruct (IH fuel') as (IHv & IHm & IHe). split_and!.
  - intros depth [|c l] H1 H2; [done|]. cbn [scan_value length] in *.
    pose proof (skip_space_length l) as Hsk. destruct (c =? 34); [done|].
    destruct (c =? 123).
    { destruct depth; [done|]. destruct (skip_space l) as [|d l1]; [done|]. cbn in Hsk.
      destruct (d =? 125); [done|]. by rewrite IHm by (cbn; lia). }
    destruct (c =? 91); [|done].
    destruct depth; [done|]. destruct (skip_space l) as [|d l1]; [done|]. cbn in Hsk.
    destruct (d =? 93); [done|]. by rewrite IHe by (cbn; lia).
  - intros depth [|q l] H1 H2; [done|]. cbn [scan_members length] in *. destruct (negb (q =? 34)); [done|].
    destruct (scan_string l) as [[name r1]|] eqn:Hs; [|done]. cbn [mbind option_bind].
    apply scan_string_length with (n := length l) in Hs; [|done].
    pose proof (skip_space_length r1). destruct (skip_space r1) as [|col r2]; [done|]. cbn in *.
    destruct (negb (col =? 58)); [done|]. pose proof (skip_space_length r2).
    rewrite IHv by lia. destruct (scan_value fuel' depth (skip_space r2)) as [[v r3]|] eqn:Hv; [|done].
    cbn [mbind option_bind]. apply scan_length in Hv. pose proof (skip_space_length r3).
    destruct (skip_space r3) as [|d r4]; [done|]. cbn in *. destruct (d =? 125); [done|].
    destruct (d =? 44); [|done]. pose proof (skip_space_length r4). by rewrite IHm by lia.
  - intros depth l H1 H2. cbn [scan_elems]. rewrite IHv by lia.
    destruct (scan_value fuel' depth l) as [[v r1]|] eqn:Hv; [|done]. cbn [mbind option_bind].
    apply scan_length in Hv. pose proof (skip_space_length r1).
    destruct (skip_space r1) as [|d r2]; [done|]. cbn in *. destruct (d =? 93); [done|].
    destruct (d =? 44); [|done]. pose proof (skip_space_length r2). by rewrite IHe by lia.
Qed.

(** ** Strings and members keep their text *)

Lemma scan_string_split n : ∀ l s r, (length l ≤ n)%nat → scan_string l = Some (s, r) →
  l = s ++ 34 :: r ∧ ∀ r', scan_string (s ++ 34 :: r') = Some (s, r').
Proof.
  induction n as [|n IH]; intros [|c l] s r Hn; cbn [scan_string length] in *; [done|lia|done|].
  destruct (Z.eqb_spec c 34) as [->|Hc]; [by intros [= <- <-]|].
  assert ((c =? 34) = false) as Hc' by lia. destruct (c =? 92) eqn:Hb.
  - destruct l as [|e l]; [done|]. cbn [length] in *. destruct (is_escape e) eqn:He.
    { intros ([s' r0] & [-> H]%IH & [= <- <-])%bind_Some; [|lia]. split; [done|]. intros r'.
      cbn [app scan_string]. by rewrite Hc', Hb, He, H. }
    destruct (e =? 117) eqn:Hu; [|done]. destruct l as [|h1 [|h2 [|h3 [|h4 l]]]]; [done..|].
    cbn [length] in *. destruct (_ && _) eqn:Hh; [|done].
    intros ([s' r0] & [-> H]%IH & [= <- <-])%bind_Some; [|lia]. split; [done|]. intros r'.
    cbn [app scan_string]. by rewrite Hc', Hb, He, Hu, Hh, H.
  - destruct (c <? 32) eqn:Hl; [done|].
    intros ([s' r0] & [-> H]%IH & [= <- <-])%bind_Some; [|lia]. split; [done|]. intros r'.
    cbn [app scan_string]. by rewrite Hc', Hb, Hl, H.
Qed.

Lemma scan_value_quote fuel depth l v r :
  scan_value fuel depth (34 :: l) = Some (v, r) → ∃ s, v = JString s ∧ scan_string l = Some (s, r).
Proof. destruct fuel; [done|]. cbn. intros ([s r'] & H & [= <- <-])%bind_Some. by exists s. Qed.

Lemma scan_value_string fuel depth l s r :
  scan_value fuel depth l = Some (JString s, r) → ∃ l', l = 34 :: l' ∧ scan_string l' = Some (s, r).
Proof.
  destruct fuel as [|fuel]; [done|]. destruct l as [|c l]; [done|]. cbn [scan_value].
  destruct (Z.eqb_spec c 34) as [->|_].
  { intros ([s' r'] & H & [= <- <-])%bind_Some. by exists l. }
  repeat case_match; try done; by intros (? & _ & ?)%bind_Some; repeat case_match.
Qed.

Lemma scan_value_head fuel depth l v r :
  scan_value fuel depth l = Some (v, r) → ∃ c l', l = c :: l' ∧ json_space c = false.
Proof.
  destruct fuel as [|fuel]; [done|]. destruct l as [|c l]; [done|]. intros H. exists c, l.
  split; [done|]. destruct (json_space c) eqn:Hc; [|done]. exfalso. revert H.
  unfold json_space in Hc. rewrite !orb_true_iff, !Z.eqb_eq in Hc.
  destruct Hc as [[[->| ->]| ->]| ->]; by intros (? & ? & ?)%bind_Some.
Qed.

(** The text of a scanned value is not empty. *)
Lemma text_between_head fuel depth l v r :
  scan_value fuel depth l = Some (v, r) →
  ∃ c l', l = c :: l' ∧ json_space c = false ∧
          text_between l r = c :: take (length l' - length r) l'.
Proof.
  intros H. destruct (scan_value_head _ _ _ _ _ H) as (c & l' & -> & Hc). exists c, l'.
  split_and!; [done..|]. apply scan_length in H. cbn [length] in H. unfold text_between. cbn [length].
  by replace (S (length l') - length r)%nat with (S (length l' - length r)) by lia.
Qed.

(** A member as the scanner leaves it: its text is that of its value. *)
Definition scanned (m : list Z * list Z * json) : Prop :=
  ∃ fuel depth start r, scan_value fuel depth start = Some (m.2, r) ∧ m.1.2 = text_between start r.

Lemma scan_members_scanned fuel : ∀ depth l ms r,
  scan_members fuel depth l = Some (ms, r) → Forall scanned ms.
Proof.
  induction fuel as [|fuel IH]; intros depth [|q l] ms r; cbn [scan_members]; [done..|].
  destruct (negb (q =? 34)); [done|]. intros ([name r1] & _ & H)%bind_Some.
  destruct (skip_space r1) as [|col r2]; [done|]. destruct (negb (col =? 58)); [done|].
  apply bind_Some in H as ([v r3] & Hv & H).
  assert (scanned (name, text_between (skip_space r2) r3, v)) by (by exists fuel, depth, (skip_space r2), r3).
  destruct (skip_space r3) as [|d r4]; [done|]. destruct (d =? 125); [injection H as <- <-; by constructor|].
  destruct (d =? 44); [|done]. apply bind_Some in H as ([ms' r5] & Hm%IH & [= <- <-]). by constructor.
Qed.

Lemma scan_object_scanned fuel depth l ms r :
  scan_value fuel depth l = Some (JObject ms, r) → Forall scanned ms.
Proof.
  destruct fuel as [|fuel]; [done|]. destruct l as [|c l]; [done|]. cbn [scan_value].
  destruct (c =? 34); [by intros ([? ?] & _ & [=])%bind_Some|].
  destruct (c =? 123).
  { destruct depth; [done|]. destruct (skip_space l) as [|d l']; [done|].
    destruct (d =? 125); [by intros [= <- _]|].
    intros ([ms' r'] & H & [= <- <-])%bind_Some. by eapply scan_members_scanned. }
  repeat case_match; try done; by intros (? & _ & ?)%bind_Some; repeat case_match.
Qed.

(** The first value of a text, and what follows it. *)
Definition first_value (l : list Z) : option (json * list Z) :=
  scan_value (S (2 * length l)) maxNestingDepth (skip_space l).

(** A value that shows its own end, where literals and numbers end with what follows. *)
Definition self_delimited (v : json) : bool :=
  match v with JArray _ | JObject _ => true | _ => false end.

(** What [Decoder.Decode] finds in a reader: the first value, as soon as it is seen to be
    complete. The end of the reader completes a literal or a number, another error does
    not; an error behind the value is not noticed. *)
Definition decoder_value {E} (r : reader E) : option json :=
  '(v, rest) ← first_value (bytes (r_bytes r));
  if negb (self_delimited v) && bool_decide (rest = []) && bool_decide (is_Some (r_err r))
  then None else Some v.

Lemma decoder_value_object {E} (r : reader E) ms :
  decoder_value r = Some (JObject ms) ↔ ∃ rest, first_value (bytes (r_bytes r)) = Some (JObject ms, rest).
Proof.
  unfold decoder_value. destruct (first_value _) as [[v rest]|]; cbn [mbind option_bind]; [|naive_solver].
  split.
  - case_match; [done|]. intros [= ->]. by exists rest.
  - by intros (rest' & [= -> ->]).
Qed.

(** A text that is one value, as [Unmarshal] requires. *)
Definition whole_value (l : list Z) : option json :=
  '(v, r) ← first_value l; if bool_decide (skip_space r = []) then Some v else None.

(** ** String literals *)

Definition hex4 (l : list Z) : option Z :=
  match l with
  | h1 :: h2 :: h3 :: h4 :: _ =>
      let digit c := if json_digit c then c - 48 else if between 97 c 102 then c - 87 else c - 55 in
      if json_hex h1 && json_hex h2 && json_hex h3 && json_hex h4
      then Some (((digit h1 * 16 + digit h2) * 16 + digit h3) * 16 + digit h4)
      else None
  | _ => None
  end.

Definition unescape_char (e : Z) : Z :=
  if e =? 98 then 8 else if e =? 102 then 12 else if e =? 110 then 10
  else if e =? 114 then 13 else if e =? 116 then 9 else e.

(** [unquote] of a scanned literal: surrogates are paired or replaced, invalid UTF-8 is
    replaced. *)
Fixpoint unquote_loop (fuel : nat) (l : list Z) : list Z :=
  match fuel, l with
  | O, _ | _, [] => []
  | S fuel, c :: l' =>
      if c =? 92 then
        match l' with
        | [] => []
        | e :: l'' =>
            if e =? 117 then
              match hex4 l'' with
              | None => []
              | Some r1 =>
                  let rest := drop 4 l'' in
                  if between 55296 r1 57343 then
                    let pair := match rest with
                                | b :: u :: l2 => if (b =? 92) && (u =? 117) then hex4 l2 else None
                                | _ => None
                                end in
                    match pair with
                    | Some r2 =>
                        if (r1 <? 56320) && between 56320 r2 57343
                        then encode_rune ((r1 - 55296) * 1024 + (r2 - 56320) + 65536)
                               ++ unquote_loop fuel (drop 6 rest)
                        else encode_rune RuneError ++ unquote_loop fuel rest
                    | None => encode_rune RuneError ++ unquote_loop fuel rest
                    end
                  else encode_rune r1 ++ unquote_loop fuel rest
              end
            else unescape_char e :: unquote_loop fuel l''
        end
      else if c <? 128 then c :: unquote_loop fuel l'
      else let '(r, n) := decode_rune l in encode_rune r ++ unquote_loop fuel (drop n l)
  end.

Definition unquote (lit : list Z) : string := of_bytes (unquote_loop (length lit) lit).

(** ** Decoding into Go values *)

(** A decoder of one destination: the new value, and whether there was a type error. *)
Definition decode_bool (v : json) (b : bool) : bool * bool :=
  match v with JBool b' => (b', false) | JNull => (b, false) | _ => (b, true) end.

Definition decode_string (v : json) (s : string) : string * bool :=
  match v with JString lit => (unquote lit, false) | JNull => (s, false) | _ => (s, true) end.

(** A slice is its backing array and its length: decoding into it reuses the array, so a
    null element keeps what an earlier array left there. *)
Record strings : Type := MkStrings { backing : list string; sl_len : nat }.
Definition elems (s : strings) : list string := take (sl_len s) (backing s).
Definition nil_strings : strings := MkStrings [] 0.

Fixpoint decode_elems (vs : list json) (i : nat) (back : list string) : list string * bool :=
  match vs with
  | [] => (back, false)
  | v :: vs =>
      let '(s, e) := decode_string v (default ""%string (back !! i)) in
      let back := take i back ++ [s] ++ drop (S i) back in
      let '(back, e') := decode_elems vs (S i) back in (back, e || e')
  end.

Definition decode_strings (v : json) (s : strings) : strings * bool :=
  match v with
  | JArray [] => (nil_strings, false)
  | JArray vs => let '(back, e) := decode_elems vs 0 (backing s) in (MkStrings back (length vs), e)
  | JNull => (nil_strings, false)
  | _ => (s, true)
  end.

Section decode.
Context {U : UnicodeTables}.

(** The field a member name means: the exact name, else the first that is equal under case
    folding. *)
Definition find_field (fields : list string) (key : string) : option string :=
  if bool_decide (key ∈ fields) then Some key else find (λ f, EqualFold key f) fields.

(** Decoding an object into a struct: members in order, unknown ones skipped; a type error
    is remembered and decoding goes on. *)
Definition decode_member {T} (fields : list string) (assign : string → list Z → json → T → T * bool)
    (acc : T * bool) (m : list Z * list Z * json) : T * bool :=
  let '(name, text, v) := m in
  match find_field fields (unquote name) with
  | None => acc
  | Some f => let '(s, e) := assign f text v acc.1 in (s, acc.2 || e)
  end.

Definition decode_struct {T} (fields : list string) (assign : string → list Z → json → T → T * bool)
    (v : json) (s : T) : T * bool :=
  match v with
  | JObject ms => fold_left (decode_member fields assign) ms (s, false)
  | JNull => (s, false)
  | _ => (s, true)
  end.
End decode.
