(* ===== verification/GoAsn1.v ===== *)
(** * GoAsn1

    Go's [encoding/asn1] as the sources use it: [Unmarshal] into a struct of two
    [*big.Int], which is how an ECDSA signature is read, and the DER that the standard
    library's signer writes. *)

From S2P Require Import Prelude GoStrings.
Local Open Scope Z_scope.

(** ** Reading *)

(** The bytes of a long length, most significant first. *)
Fixpoint long_length (n : nat) (acc : Z) (l : list Z) : option (Z * list Z) :=
  match n with
  | O => Some (acc, l)
  | S n =>
      match l with
      | [] => None
      | b :: l =>
          if Z.shiftl 1 23 <=? acc then None
          else let acc := Z.shiftl acc 8 + b in
               if acc =? 0 then None else long_length n acc l
      end
  end.

(** The length part of [parseTagAndLength]. *)
Definition parse_length (l : list Z) : option (Z * list Z) :=
  match l with
  | [] => None
  | b :: l =>
      if Z.land b 128 =? 0 then Some (Z.land b 127, l)
      else
        let numBytes := Z.land b 127 in
        if numBytes =? 0 then None
        else '(n, l) ← long_length (Z.to_nat numBytes) 0 l;
             if n <? 128 then None else Some (n, l)
  end.

(** [parseField] of a field whose identifier is the single byte [tag]: its content and what
    follows. Every other identifier, a long one included, is an error. *)
Definition parse_field (tag : Z) (l : list Z) : option (list Z * list Z) :=
  match l with
  | [] => None
  | b :: l =>
      if negb (b =? tag) then None
      else '(n, l) ← parse_length l;
           if Z.of_nat (length l) <? n then None
           else Some (take (Z.to_nat n) l, drop (Z.to_nat n) l)
  end.

Definition checkInteger (l : list Z) : bool :=
  match l with
  | [] => false
  | [_] => true
  | b0 :: b1 :: _ => negb ((b0 =? 0) && (Z.land b1 128 =? 0) || (b0 =? 255) && (Z.land b1 128 =? 128))
  end.

(** [parseBigInt]: two's complement. *)
Definition parseBigInt (l : list Z) : option Z :=
  if checkInteger l then
    match l with
    | b0 :: _ => if Z.land b0 128 =? 128 then Some (SetBytes l - 256 ^ Z.of_nat (length l))
                 else Some (SetBytes l)
    | [] => None
    end
  else None.

Definition tag_SEQUENCE : Z := 48.
Definition tag_INTEGER : Z := 2.

(** [asn1.Unmarshal] into [struct{ R, S *big.Int }]: the rest, and the two pointers. Bytes
    left over inside the sequence are ignored. *)
Definition asn1_Unmarshal (s : string) : option (string * option Z * option Z) :=
  '(inner, rest) ← parse_field tag_SEQUENCE (bytes s);
  '(r, inner) ← parse_field tag_INTEGER inner;
  r ← parseBigInt r;
  '(s, _) ← parse_field tag_INTEGER inner;
  s ← parseBigInt s;
  Some (of_bytes rest, Some r, Some s).

(** ** Writing *)

(** The shortest form of a length. *)
Definition der_length (n : Z) : list Z :=
  if n <? 128 then [n] else if n <? 256 then [129; n] else [130; n / 256; n mod 256].

Definition der_field (tag : Z) (content : list Z) : list Z :=
  [tag] ++ der_length (Z.of_nat (length content)) ++ content.

(** A positive number in as few bytes as leave the sign bit free. *)
Definition der_content (v : Z) : list Z := FillBytes (Z.to_nat (BitLen v / 8 + 1)) v.

Definition der_signature (r s : Z) : string :=
  of_bytes (der_field tag_SEQUENCE
    (der_field tag_INTEGER (der_content r) ++ der_field tag_INTEGER (der_content s))).

(** ** What is written is read back *)

Lemma land_128 b : is_byte b → Z.land b 128 = if b <? 128 then 0 else 128.
Proof.
  intros Hb. unfold is_byte in Hb. destruct (Z.ltb_spec b 128).
  - change 128 with (2 ^ 7). apply Z.bits_inj'. intros n Hn. rewrite Z.land_spec, Z.bits_0, Z.pow2_bits_eqb by lia.
    destruct (Z.eqb_spec 7 n) as [<-|]; [|by rewrite andb_false_r].
    rewrite andb_true_r. apply Z.testbit_false; [lia|]. by rewrite Z.div_small by lia.
  - change 128 with (2 ^ 7) at 1. apply Z.bits_inj'. intros n Hn. rewrite Z.land_spec, Z.pow2_bits_eqb by lia.
    change 128 with (2 ^ 7). rewrite Z.pow2_bits_eqb by lia.
    destruct (Z.eqb_spec 7 n) as [<-|]; [|by rewrite andb_false_r].
    rewrite andb_true_r. apply Z.testbit_true; [lia|].
    change (2 ^ 7) with 128. zdiv.
Qed.

Lemma parse_length_der n l :
  0 ≤ n < 65536 → parse_length (der_length n ++ l) = Some (n, l).
Proof.
  intros Hn. unfold der_length. destruct (Z.ltb_spec n 128); [|destruct (Z.ltb_spec n 256)]; cbn [app parse_length].
  - rewrite land_128 by (unfold is_byte; lia). destruct (Z.ltb_spec n 128); [|lia]. cbn.
    change 127 with (Z.ones 7). by rewrite Z.land_ones, Z.mod_small by lia.
  - change (Z.land 129 128 =? 0) with false. change (Z.land 129 127) with 1. cbn [Z.eqb]. cbn iota.
    change (Z.to_nat 1) with 1%nat. cbn [long_length].
    change (Z.shiftl 1 23 <=? 0) with false. cbn iota. change (Z.shiftl 0 8 + n) with n.
    destruct (Z.eqb_spec n 0); [lia|]. cbn [mbind option_bind]. by destruct (Z.ltb_spec n 128); [lia|].
  - change (Z.land 130 128 =? 0) with false. change (Z.land 130 127) with 2. cbn [Z.eqb]. cbn iota.
    change (Z.to_nat 2) with 2%nat. cbn [long_length].
    change (Z.shiftl 1 23 <=? 0) with false. cbn iota. change (Z.shiftl 0 8 + n / 256) with (n / 256).
    assert (1 ≤ n / 256 < 256) by zdiv. destruct (Z.eqb_spec (n / 256) 0); [lia|].
    change (Z.shiftl 1 23) with 8388608. destruct (Z.leb_spec 8388608 (n / 256)); [lia|].
    rewrite Z.shiftl_mul_pow2 by lia. change (2 ^ 8) with 256.
    replace (n / 256 * 256 + n mod 256) with n by zdiv. destruct (Z.eqb_spec n 0); [lia|].
    cbn [mbind option_bind]. by destruct (Z.ltb_spec n 128); [lia|].
Qed.

Lemma parse_field_der tag content l :
  Z.of_nat (length content) < 65536 → parse_field tag (der_field tag content ++ l) = Some (content, l).
Proof.
  intros Hn. unfold der_field. rewrite <- !app_assoc. cbn [app parse_field]. rewrite Z.eqb_refl. cbn [negb].
  rewrite parse_length_der by lia. cbn [mbind option_bind]. rewrite length_app.
  destruct (Z.ltb_spec (Z.of_nat (length content + length l)) (Z.of_nat (length content))); [lia|].
  by rewrite Nat2Z.id, take_app_length, drop_app_length.
Qed.

Lemma parseBigInt_der v : 0 < v → parseBigInt (der_content v) = Some v.
Proof.
  intros Hv. destruct (BitLen_spec v Hv) as (Hb & Hlo & Hhi). unfold der_content.
  set (q := BitLen v / 8). assert (0 ≤ q ∧ 8 * q ≤ BitLen v ≤ 8 * q + 7) as [Hq Hbq] by (unfold q; zdiv).
  replace (Z.to_nat (q + 1)) with (S (Z.to_nat q)) by lia.
  assert (256 ^ q = 2 ^ (8 * q)) as Hpow by (rewrite Z.pow_mul_r by lia; done).
  assert (v < 2 ^ (8 * q) * 128) as Hv128.
  { change 128 with (2 ^ 7). rewrite <- Z.pow_add_r by lia.
    eapply Z.lt_le_trans; [exact Hhi|]. apply Z.pow_le_mono_r; lia. }
  assert (0 ≤ v / 256 ^ q < 128) as Htop.
  { rewrite Hpow. split; [apply Z.div_pos; lia|]. apply Z.div_lt_upper_bound; [lia|]. lia. }
  assert (SetBytes (FillBytes (S (Z.to_nat q)) v) = v) as Hset.
  { apply SetBytes_FillBytes. rewrite Nat2Z.inj_succ, Z2Nat.id, Z.pow_succ_r, Hpow by lia. lia. }
  unfold parseBigInt. rewrite FillBytes_cons in Hset |- *. rewrite Z2Nat.id in * by lia.
  rewrite (Z.mod_small (v / 256 ^ q)) in * by lia.
  assert (checkInteger (v / 256 ^ q :: FillBytes (Z.to_nat q) v) = true) as ->.
  { destruct (Z.to_nat q) as [|w] eqn:Hw; [done|]. rewrite FillBytes_cons. cbn [checkInteger].
    apply negb_true_iff, orb_false_iff. split; [|destruct (Z.eqb_spec (v / 256 ^ q) 255); [lia|done]].
    destruct (Z.eqb_spec (v / 256 ^ q) 0) as [Hz|]; [|done]. cbn [andb].
    assert (q = Z.of_nat w + 1) as -> by lia. set (k := Z.of_nat w) in *.
    rewrite Z.pow_add_r, Z.pow_1_r in * by lia. apply Z.div_small_iff in Hz; [|lia].
    assert (256 ^ k * 128 ≤ v).
    { change 256 with (2 ^ 8). rewrite <- Z.pow_mul_r by lia. change 128 with (2 ^ 7). rewrite <- Z.pow_add_r by lia.
      etransitivity; [|exact Hlo]. apply Z.pow_le_mono_r; lia. }
    assert (128 ≤ v / 256 ^ k < 256) as Hsecond.
    { split; [apply Z.div_le_lower_bound; lia|]. apply Z.div_lt_upper_bound; lia. }
    rewrite Z.mod_small, land_128 by (unfold is_byte; lia). by destruct (Z.ltb_spec (v / 256 ^ k) 128); [lia|]. }
  rewrite land_128 by (unfold is_byte; lia). destruct (Z.ltb_spec (v / 256 ^ q) 128); [|lia].
  cbn [Z.eqb]. cbn iota. by rewrite Hset.
Qed.

Lemma der_length_bytes n : 0 ≤ n < 65536 → Forall is_byte (der_length n).
Proof.
  intros Hn. unfold der_length, is_byte. destruct (Z.ltb_spec n 128); [|destruct (Z.ltb_spec n 256)];
    repeat (apply Forall_cons_2 || apply Forall_nil_2); zdiv.
Qed.

Lemma der_field_bytes tag content :
  is_byte tag → Z.of_nat (length content) < 65536 → Forall is_byte content →
  Forall is_byte (der_field tag content).
Proof.
  intros Ht Hn Hc. pose proof (der_length_bytes (Z.of_nat (length content)) ltac:(lia)).
  unfold der_field. are_bytes.
Qed.

Lemma length_der_field tag content :
  (length (der_field tag content) ≤ 4 + length content)%nat.
Proof.
  unfold der_field, der_length. rewrite !length_app. cbn [length].
  destruct (_ <? 128); [|destruct (_ <? 256)]; cbn [length]; lia.
Qed.

Lemma length_der_content v w : 0 < v → BitLen v ≤ 8 * w → Z.of_nat (length (der_content v)) ≤ w + 1.
Proof. intros Hv Hw. destruct (BitLen_spec v Hv). unfold der_content. rewrite length_FillBytes. zdiv. Qed.

(** A signature is read back, with whatever follows it as the rest. *)
Lemma asn1_Unmarshal_der r s rest :
  0 < r → 0 < s → BitLen r ≤ 80000 → BitLen s ≤ 80000 →
  asn1_Unmarshal (der_signature r s +:+ rest) = Some (rest, Some r, Some s).
Proof.
  intros Hr Hs Br Bs.
  pose proof (length_der_content r 10000 Hr ltac:(lia)). pose proof (length_der_content s 10000 Hs ltac:(lia)).
  pose proof (length_der_field tag_INTEGER (der_content r)). pose proof (length_der_field tag_INTEGER (der_content s)).
  unfold asn1_Unmarshal, der_signature. rewrite bytes_app, bytes_of_bytes.
  2: { apply der_field_bytes; [done|rewrite length_app; lia|]. apply Forall_app.
       split; (apply der_field_bytes; [done|lia|apply FillBytes_are_bytes]). }
  rewrite parse_field_der by (rewrite length_app; lia). cbn [mbind option_bind].
  rewrite parse_field_der by lia. cbn [mbind option_bind]. rewrite parseBigInt_der by done. cbn [mbind option_bind].
  rewrite <- (app_nil_r (der_field tag_INTEGER (der_content s))), parse_field_der by lia.
  cbn [mbind option_bind]. rewrite parseBigInt_der by done. cbn [mbind option_bind]. by rewrite of_bytes_bytes.
Qed.
