(* ===== verification/GoFlate.v ===== *)
(** * GoFlate

    The decompressor of [compress/flate] (RFC 1951): stored blocks and blocks under fixed
    and dynamic Huffman codes, with what it has yielded when the stream is cut off or
    corrupt. The compressor it is stated against is in GoDeflate. *)

From S2P Require Import Prelude GoRuntime GoStrings.
Local Open Scope Z_scope.

(** [io.ErrUnexpectedEOF] and [flate.CorruptInputError]. *)
Inductive flate_error : Type := UnexpectedEOF | CorruptInput.

(** ** Bits *)

(** The bits of a byte in the order they are read, and those of a text. *)
Definition byte_bits (b : Z) : list bool := Z.testbit b <$> [0; 1; 2; 3; 4; 5; 6; 7].
Definition bits_of (l : list Z) : list bool := l ≫= byte_bits.

(** A number, its low bit first. *)
Fixpoint value (l : list bool) : Z :=
  match l with
  | [] => 0
  | b :: l => Z.b2z b + 2 * value l
  end.

(** [f.b & (1<<n - 1)] once there are [n] bits. *)
Definition take_bits (n : nat) (bits : list bool) : res flate_error (Z * list bool) :=
  if (length (take n bits) <? n)%nat then Err UnexpectedEOF
  else Ok (value (take n bits), drop n bits).

(** The bytes in a sequence of bits, as many as there are. *)
Fixpoint bytes_of_bits (fuel : nat) (bits : list bool) : list Z :=
  match fuel with
  | O => []
  | S fuel =>
      if (length (take 8 bits) <? 8)%nat then []
      else value (take 8 bits) :: bytes_of_bits fuel (drop 8 bits)
  end.

(** ** Huffman codes *)

(** A [huffmanDecoder]: the least number of bits to have before a symbol is read, and the
    symbols with their codes. *)
Record decoder : Type := MkDecoder { h_min : nat; h_codes : list (list bool * Z) }.

Fixpoint is_prefix (c bits : list bool) : bool :=
  match c, bits with
  | [], _ => true
  | b :: c, b' :: bits => Bool.eqb b b' && is_prefix c bits
  | _ :: _, [] => false
  end.

(** [f.huffSym(h)]: an empty tree is corrupt as soon as it is used; so is a bit sequence
    that no code is a prefix of. *)
Definition huffSym (h : decoder) (bits : list bool) : res flate_error (Z * list bool) :=
  if (length (take (h_min h) bits) <? h_min h)%nat then Err UnexpectedEOF
  else
    match find (λ cs, is_prefix cs.1 bits) (h_codes h) with
    | Some (c, s) => Ok (s, drop (length c) bits)
    | None => if existsb (λ cs, is_prefix bits cs.1) (h_codes h) then Err UnexpectedEOF
              else Err CorruptInput
    end.

(** The [n] low bits of a code, the high one first. *)
Definition code_bits (n : nat) (code : Z) : list bool :=
  (λ i, Z.testbit code (Z.of_nat (n - 1 - i))) <$> seq 0 n.

Definition count (lengths : list nat) (n : nat) : Z :=
  Z.of_nat (length (filter (λ m, m = n) lengths)).

(** [k] lengths from [n] on, each with its first code, and the code after the last one:
    [code] is the one after those of the length before. *)
Fixpoint nextcodes (k : nat) (lengths : list nat) (n : nat) (code : Z) : list (nat * Z) * Z :=
  match k with
  | O => ([], code)
  | S k =>
      let code := 2 * code in
      let '(l, last) := nextcodes k lengths (S n) (code + count lengths n) in
      ((n, code) :: l, last)
  end.

(** The symbols in order, each with the next code of its length. *)
Fixpoint assign (next : list (nat * Z)) (sym : Z) (lengths : list nat) : list (list bool * Z) :=
  match lengths with
  | [] => []
  | n :: lengths =>
      match find (λ p, p.1 =? n)%nat next with
      | Some (_, code) =>
          (code_bits n code, sym) ::
          assign ((λ p, if (p.1 =? n)%nat then (n, code + 1) else p) <$> next) (sym + 1) lengths
      | None => assign next (sym + 1) lengths
      end
  end.

(** [h.init(lengths)]: the code must be complete, empty, or a single symbol of one bit. *)
Definition init (lengths : list nat) : option decoder :=
  let used := filter (λ n, n ≠ O) lengths in
  let max := foldr Nat.max O used in
  let min := foldr Nat.min max used in
  if (max =? 0)%nat then Some (MkDecoder 0 [])
  else
    let '(next, code) := nextcodes (S max - min) lengths min 0 in
    if negb (code =? 2 ^ Z.of_nat max) && negb ((code =? 1) && (max =? 1)%nat) then None
    else Some (MkDecoder min (assign next 0 lengths)).

Definition fixed_lengths : list nat :=
  replicate 144 8%nat ++ replicate 112 9%nat ++ replicate 24 7%nat ++ replicate 8 8%nat.
Definition fixedHuffmanDecoder : decoder :=
  Eval vm_compute in default (MkDecoder 0 []) (init fixed_lengths).

(** ** Dynamic codes *)

Definition maxNumLit : Z := 286.
Definition maxNumDist : Z := 30.
Definition codeOrder : list nat :=
  [16; 17; 18; 0; 8; 7; 9; 6; 10; 5; 11; 4; 12; 3; 13; 2; 14; 1; 15]%nat.

(** The lengths of the code for lengths, three bits each in the order above. *)
Fixpoint read_codebits (order : list nat) (codebits : list nat) (bits : list bool)
    : res flate_error (list nat * list bool) :=
  match order with
  | [] => Ok (codebits, bits)
  | i :: order =>
      '(v, bits) ← take_bits 3 bits;
      read_codebits order (<[i := Z.to_nat v]> codebits) bits
  end.

(** The loop over the [n] lengths, of which [done] (the last one first) are known. *)
Fixpoint read_lengths (fuel : nat) (h : decoder) (n : nat) (done : list nat) (bits : list bool)
    : res flate_error (list nat * list bool) :=
  let i := length done in
  if (n <=? i)%nat then Ok (reverse done, bits)
  else
    match fuel with
    | O => Err CorruptInput
    | S fuel =>
        '(x, bits) ← huffSym h bits;
        if x <? 16 then read_lengths fuel h n (Z.to_nat x :: done) bits
        else
          b ← (if x =? 16 then of_option (head done) CorruptInput else Ok O);
          let '(rep, nb) := if x =? 16 then (3, 2)%nat else if x =? 17 then (3, 3)%nat
                            else (11, 7)%nat in
          '(extra, bits) ← take_bits nb bits;
          let rep := (rep + Z.to_nat extra)%nat in
          _ ← check (negb (n <? i + rep)%nat) CorruptInput;
          read_lengths fuel h n (replicate rep b ++ done) bits
    end.

Definition readHuffman (bits : list bool) : res flate_error (decoder * decoder * list bool) :=
  _ ← check (negb (length (take 14 bits) <? 14)%nat) UnexpectedEOF;
  '(hlit, bits) ← take_bits 5 bits;
  let nlit := hlit + 257 in
  _ ← check (negb (maxNumLit <? nlit)) CorruptInput;
  '(hdist, bits) ← take_bits 5 bits;
  let ndist := hdist + 1 in
  _ ← check (negb (maxNumDist <? ndist)) CorruptInput;
  '(hclen, bits) ← take_bits 4 bits;
  '(codebits, bits) ← read_codebits (take (Z.to_nat (hclen + 4)) codeOrder) (replicate 19 O) bits;
  h ← of_option (init codebits) CorruptInput;
  let n := Z.to_nat (nlit + ndist) in
  '(lengths, bits) ← read_lengths n h n [] bits;
  h1 ← of_option (init (take (Z.to_nat nlit) lengths)) CorruptInput;
  h2 ← of_option (init (drop (Z.to_nat nlit) lengths)) CorruptInput;
  (* every block ends with its marker: as many bits as that has are there *)
  let eob := nth 256 lengths O in
  Ok (MkDecoder (Nat.max (h_min h1) eob) (h_codes h1), h2, bits).

(** ** Blocks *)

(** The length a symbol from 257 on begins: its base and the number of extra bits. *)
Definition length_base (v : Z) : option (Z * nat) :=
  if v <? 265 then Some (v - (257 - 3), 0%nat)
  else if v <? 269 then Some (v * 2 - (265 * 2 - 11), 1%nat)
  else if v <? 273 then Some (v * 4 - (269 * 4 - 19), 2%nat)
  else if v <? 277 then Some (v * 8 - (273 * 8 - 35), 3%nat)
  else if v <? 281 then Some (v * 16 - (277 * 16 - 67), 4%nat)
  else if v <? 285 then Some (v * 32 - (281 * 32 - 131), 5%nat)
  else if v <? maxNumLit then Some (258, 0%nat)
  else None.

(** A distance; without a code for them five bits are the symbol. *)
Definition dist_sym (hd : option decoder) (bits : list bool) : res flate_error (Z * list bool) :=
  match hd with
  | Some hd => huffSym hd bits
  | None => if (length (take 5 bits) <? 5)%nat then Err UnexpectedEOF
            else Ok (value (reverse (take 5 bits)), drop 5 bits)
  end.

Definition read_dist (dist : Z) (bits : list bool) : res flate_error (Z * list bool) :=
  if dist <? 4 then Ok (dist + 1, bits)
  else if dist <? maxNumDist then
    let nb := Z.shiftr (dist - 2) 1 in
    '(low, bits) ← take_bits (Z.to_nat nb) bits;
    let extra := Z.lor (Z.shiftl (Z.land dist 1) nb) low in
    Ok (Z.shiftl 1 (nb + 1) + 1 + extra, bits)
  else Err CorruptInput.

(** A reference into the output: its length and distance. *)
Definition read_copy (hd : option decoder) (v : Z) (outsize : Z) (bits : list bool)
    : res flate_error (Z * Z * list bool) :=
  '(base, n) ← of_option (length_base v) CorruptInput;
  '(extra, bits) ← take_bits n bits;
  '(sym, bits) ← dist_sym hd bits;
  '(dist, bits) ← read_dist sym bits;
  _ ← check (negb (outsize <? dist)) CorruptInput;
  Ok (base + extra, dist, bits).

(** The backwards copy: the output is the last byte first, and may overlap itself. *)
Fixpoint copyHistory (len : nat) (dist : nat) (out : list Z) : list Z :=
  match len with
  | O => out
  | S len => copyHistory len dist (nth (dist - 1) out 0 :: out)
  end.

(** The output so far, and the input after the block or the error that ended it. *)
Abbreviation block_result := (list Z * res flate_error (list bool))%type.

Fixpoint huffmanBlock (fuel : nat) (hl : decoder) (hd : option decoder) (out : list Z)
    (bits : list bool) : block_result :=
  match fuel with
  | O => (out, Err UnexpectedEOF)
  | S fuel =>
      match huffSym hl bits with
      | Err e => (out, Err e)
      | Ok (v, bits) =>
          if v <? 256 then huffmanBlock fuel hl hd (v :: out) bits
          else if v =? 256 then (out, Ok bits)
          else
            match read_copy hd v (Z.of_nat (length out)) bits with
            | Err e => (out, Err e)
            | Ok (len, dist, bits) =>
                huffmanBlock fuel hl hd (copyHistory (Z.to_nat len) (Z.to_nat dist) out) bits
            end
      end
  end.

(** A stored block, from the next byte on: also whether it is empty. *)
Definition dataBlock (out : list Z) (bits : list bool) : block_result * bool :=
  let bits := drop (length bits mod 8) bits in
  match
    (_ ← check (negb (length (take 32 bits) <? 32)%nat) UnexpectedEOF;
     '(n, bits) ← take_bits 16 bits;
     '(nn, bits) ← take_bits 16 bits;
     _ ← check (nn =? 65535 - n) CorruptInput;
     Ok (Z.to_nat n, bits))
  with
  | Err e => ((out, Err e), false)
  | Ok (n, bits) =>
      let data := bytes_of_bits n bits in
      ((reverse data ++ out,
        if (length data <? n)%nat then Err UnexpectedEOF else Ok (drop (8 * n) bits)),
       (n =? 0)%nat)
  end.

(** The size of the window, at multiples of which the output is flushed. *)
Definition maxMatchOffset : Z := 32768.

(** The loop over the blocks: the output, where it was last flushed by an empty stored
    block, and the error, if any; data after the last block is not looked at. *)
Fixpoint nextBlock (fuel : nat) (out : list Z) (flushed : nat) (bits : list bool)
    : list Z * nat * option flate_error :=
  match fuel with
  | O => (out, flushed, Some UnexpectedEOF)
  | S fuel =>
      match take_bits 3 bits with
      | Err e => (out, flushed, Some e)
      | Ok (header, bits) =>
          let final := Z.testbit header 0 in
          let typ := Z.shiftr header 1 in
          let '((out, r), flush) :=
            if typ =? 0 then dataBlock out bits
            else if typ =? 1 then
              (huffmanBlock (S (length bits)) fixedHuffmanDecoder None out bits, false)
            else if typ =? 2 then
              (match readHuffman bits with
               | Err e => (out, Err e)
               | Ok (h1, h2, bits) => huffmanBlock (S (length bits)) h1 (Some h2) out bits
               end, false)
            else ((out, Err CorruptInput), false) in
          let flushed := if flush : bool then length out else flushed in
          match r with
          | Err e => (out, flushed, Some e)
          | Ok bits => if final : bool then (out, flushed, None) else nextBlock fuel out flushed bits
          end
      end
  end.

(** [flate.NewReader(bytes.NewReader(data))]: an error comes with the bytes that were not
    flushed before it. *)
Definition flate_NewReader (data : string) : reader flate_error :=
  let bits := bits_of (bytes data) in
  let '(out, flushed, err) := nextBlock (S (length bits)) [] 0 bits in
  let size := Z.of_nat (length out) in
  Reader (of_bytes (reverse out)) err
    (Z.max (Z.of_nat flushed) (maxMatchOffset * (size / maxMatchOffset)) <? size).

(** ** The fuel is enough *)

Lemma take_bits_Ok n bits v rest :
  take_bits n bits = Ok (v, rest) ↔ (n ≤ length bits)%nat ∧ v = value (take n bits) ∧ rest = drop n bits.
Proof.
  unfold take_bits. rewrite length_take. destruct (Nat.ltb_spec (n `min` length bits) n).
  - split; [done|]. lia.
  - split; [intros [= <- <-]; split_and!; [lia|done..]|]. by intros (_ & -> & ->).
Qed.

Lemma take_bits_length n bits v rest :
  take_bits n bits = Ok (v, rest) → length bits = (n + length rest)%nat.
Proof. intros (Hn & _ & ->)%take_bits_Ok. rewrite length_drop. lia. Qed.

(** A decoder none of whose codes is empty. *)
Definition decoder_ok (h : decoder) : Prop := Forall (λ cs, cs.1 ≠ []) (h_codes h).

Lemma is_prefix_spec c : ∀ bits, is_prefix c bits = true ↔ ∃ rest, bits = c ++ rest.
Proof.
  induction c as [|b c IH]; intros bits; cbn.
  - split; [by exists bits|done].
  - destruct bits as [|b' bits]; [split; [done|by intros [? ?]]|].
    rewrite andb_true_iff, Bool.eqb_true_iff, IH. split.
    + intros [-> [rest ->]]. by exists rest.
    + intros [rest [= -> ->]]. split; [done|]. by exists rest.
Qed.

Lemma huffSym_length h bits v rest :
  decoder_ok h → huffSym h bits = Ok (v, rest) → (length rest < length bits)%nat.
Proof.
  intros Hh. unfold huffSym. destruct (_ <? _)%nat; [done|].
  destruct (find _ _) as [[c s]|] eqn:Hf; [|by case_match]. intros [= -> <-].
  apply find_some in Hf as [Hin Hp]. apply list_elem_of_In in Hin.
  unfold decoder_ok in Hh. rewrite Forall_forall in Hh. specialize (Hh _ Hin). cbn in Hh, Hp.
  apply is_prefix_spec in Hp as [r ->]. rewrite length_app, length_drop, length_app.
  destruct c; [done|]. cbn. lia.
Qed.

Lemma assign_nonempty lengths : ∀ next sym,
  Forall (λ p, p.1 ≠ O) next → Forall (λ cs, cs.1 ≠ []) (assign next sym lengths).
Proof.
  induction lengths as [|n lengths IH]; intros next sym Hn; cbn [assign]; [constructor|].
  destruct (find _ next) as [[m code]|] eqn:Hf; [|by apply IH].
  apply find_some in Hf as [Hin Hm]. apply list_elem_of_In in Hin. cbn in Hm.
  apply Nat.eqb_eq in Hm as ->. rewrite Forall_forall in Hn. pose proof (Hn _ Hin) as Hn0. cbn in Hn0.
  constructor.
  - cbn. unfold code_bits. by destruct n.
  - apply IH. apply Forall_fmap, Forall_forall. intros [m c] Hp. cbn.
    destruct (Nat.eqb_spec m n); [done|]. by apply (Hn (m, c)).
Qed.

Lemma nextcodes_lengths k : ∀ lengths n code,
  n ≠ O → Forall (λ p, p.1 ≠ O) (nextcodes k lengths n code).1.
Proof.
  induction k as [|k IH]; intros lengths n code Hn; cbn [nextcodes]; [constructor|].
  specialize (IH lengths (S n) (2 * code + count lengths n) ltac:(done)).
  destruct (nextcodes k _ _ _) as [l last]. by constructor.
Qed.

Lemma init_ok lengths h : init lengths = Some h → decoder_ok h.
Proof.
  unfold init, decoder_ok. set (used := filter _ lengths). set (mx := foldr Nat.max O used).
  set (mn := foldr Nat.min mx used).
  destruct (Nat.eqb_spec mx 0) as [|Hmx]; [by intros [= <-]; constructor|].
  assert (mn ≠ O) as Hmn.
  { assert (Forall (λ n, n ≠ O) used) as Hu.
    { apply Forall_forall. intros n Hn. by apply list_elem_of_filter in Hn as [? _]. }
    unfold mn. clear -Hmx Hu. clearbody mx. induction Hu as [|n u Hn Hu IH]; cbn; lia. }
  pose proof (nextcodes_lengths (S mx - mn) lengths mn 0 Hmn) as Hl.
  destruct (nextcodes _ _ _ _) as [next code]. destruct (_ && _); [done|]. intros [= <-].
  by apply assign_nonempty.
Qed.

Lemma fixed_decoder_ok : decoder_ok fixedHuffmanDecoder.
Proof. apply (init_ok fixed_lengths). vm_compute. reflexivity. Qed.

Lemma read_dist_length d bits v rest : read_dist d bits = Ok (v, rest) → (length rest ≤ length bits)%nat.
Proof.
  unfold read_dist. destruct (d <? 4); [by intros [= _ <-]|]. destruct (d <? maxNumDist); [|done].
  intros H. apply bind_Ok in H as ([low r] & Hl%take_bits_length & [= _ <-]). lia.
Qed.

Lemma dist_sym_length hd bits v rest :
  (∀ h, hd = Some h → decoder_ok h) → dist_sym hd bits = Ok (v, rest) → (length rest ≤ length bits)%nat.
Proof.
  intros Hd. destruct hd as [h|]; cbn.
  - intros H%huffSym_length; [lia|by apply Hd].
  - destruct (_ <=? _)%nat; [done|]. intros [= _ <-]. rewrite length_drop. lia.
Qed.

Lemma read_copy_length hd v n bits l d rest :
  (∀ h, hd = Some h → decoder_ok h) → read_copy hd v n bits = Ok (l, d, rest) →
  (length rest ≤ length bits)%nat.
Proof.
  intros Hd H. unfold read_copy in H.
  apply bind_Ok in H as ([base k] & _ & H). apply bind_Ok in H as ([e r1] & H1%take_bits_length & H).
  apply bind_Ok in H as ([s r2] & H2%dist_sym_length & H); [|done].
  apply bind_Ok in H as ([d' r3] & H3%read_dist_length & H).
  apply bind_Ok in H as (? & _ & [= _ _ <-]). lia.
Qed.

Section fuel.
Context (hl : decoder) (hd : option decoder) (Hl : decoder_ok hl) (Hd : ∀ h, hd = Some h → decoder_ok h).

Lemma huffmanBlock_fuel f1 : ∀ f2 out bits,
  (length bits < f1)%nat → (length bits < f2)%nat →
  huffmanBlock f1 hl hd out bits = huffmanBlock f2 hl hd out bits.
Proof using Hl Hd.
  induction f1 as [|f1 IH]; intros [|f2] out bits H1 H2; [lia..|]. cbn [huffmanBlock].
  destruct (huffSym hl bits) as [[v r]|e] eqn:Hs; [|done]. apply huffSym_length in Hs; [|done].
  destruct (v <? 256); [apply IH; lia|]. destruct (v =? 256); [done|].
  destruct (read_copy _ _ _ _) as [[[l d] r']|e] eqn:Hc; [|done].
  apply read_copy_length in Hc; [|done]. apply IH; lia.
Qed.

Lemma huffmanBlock_length f : ∀ out bits out' rest,
  huffmanBlock f hl hd out bits = (out', Ok rest) → (length rest ≤ length bits)%nat.
Proof using Hl Hd.
  induction f as [|f IH]; intros out bits out' rest; cbn [huffmanBlock]; [done|].
  destruct (huffSym hl bits) as [[v r]|e] eqn:Hs; [|done]. apply huffSym_length in Hs; [|done].
  destruct (v <? 256); [intros H%IH; lia|]. destruct (v =? 256); [intros [= _ <-]; lia|].
  destruct (read_copy _ _ _ _) as [[[l d] r']|e] eqn:Hc; [|done].
  apply read_copy_length in Hc; [|done]. intros H%IH. lia.
Qed.
End fuel.

Lemma read_lengths_fuel h n f1 : ∀ f2 known bits,
  (n ≤ length known + f1)%nat → (n ≤ length known + f2)%nat →
  read_lengths f1 h n known bits = read_lengths f2 h n known bits.
Proof.
  induction f1 as [|f1 IH]; intros [|f2] known bits H1 H2; cbn [read_lengths];
    destruct (Nat.leb_spec n (length known)); try done; try lia.
  destruct (huffSym h bits) as [[x r]|e]; cbn [mbind res_bind]; [|done].
  destruct (x <? 16); [apply IH; cbn; lia|].
  destruct (if x =? 16 then of_option _ _ else _) as [b|e]; cbn [mbind res_bind]; [|done].
  destruct (if x =? 16 then (3, 2)%nat else _) as [rep nb] eqn:Hrep.
  assert (rep ≠ O) by (destruct (x =? 16), (x =? 17); by injection Hrep as <- <-).
  destruct (take_bits nb r) as [[e r']|e']; cbn [mbind res_bind]; [|done].
  destruct (check _ _); cbn [mbind res_bind]; [|done].
  apply IH; rewrite length_app, length_replicate; lia.
Qed.

Lemma read_codebits_length order : ∀ l bits l' rest,
  read_codebits order l bits = Ok (l', rest) → (length rest ≤ length bits)%nat.
Proof.
  induction order as [|i order IH]; intros l bits l' rest; cbn [read_codebits]; [by intros [= _ <-]|].
  intros H. apply bind_Ok in H as ([v r] & Hv%take_bits_length & H%IH). lia.
Qed.

Lemma read_lengths_length h n f : ∀ known bits l rest,
  decoder_ok h → read_lengths f h n known bits = Ok (l, rest) → (length rest ≤ length bits)%nat.
Proof.
  induction f as [|f IH]; intros known bits l rest Hh; cbn [read_lengths];
    destruct (n <=? length known)%nat; try (by intros [= _ <-]); try done.
  intros H. apply bind_Ok in H as ([x r] & Hx%huffSym_length & H); [|done].
  destruct (x <? 16); [apply IH in H; [lia|done]|].
  apply bind_Ok in H as (b & _ & H).
  destruct (if x =? 16 then (3, 2)%nat else _) as [rep nb].
  apply bind_Ok in H as ([e r'] & He%take_bits_length & H).
  apply bind_Ok in H as (? & _ & H). apply IH in H; [lia|done].
Qed.

Lemma readHuffman_ok bits h1 h2 rest :
  readHuffman bits = Ok (h1, h2, rest) →
  decoder_ok h1 ∧ decoder_ok h2 ∧ (length rest ≤ length bits)%nat.
Proof.
  unfold readHuffman. intros H.
  apply bind_Ok in H as (? & _ & H). apply bind_Ok in H as ([hlit r1] & H1%take_bits_length & H).
  apply bind_Ok in H as (? & _ & H). apply bind_Ok in H as ([hdist r2] & H2%take_bits_length & H).
  apply bind_Ok in H as (? & _ & H). apply bind_Ok in H as ([hclen r3] & H3%take_bits_length & H).
  apply bind_Ok in H as ([cb r4] & H4%read_codebits_length & H).
  apply bind_Ok in H as (h & Hh%of_option_Ok & H). apply init_ok in Hh.
  apply bind_Ok in H as ([ls r5] & H5%read_lengths_length & H); [|done].
  apply bind_Ok in H as (g1 & Hg1%of_option_Ok%init_ok & H).
  apply bind_Ok in H as (g2 & Hg2%of_option_Ok%init_ok & [= <- <- <-]).
  split_and!; [done|done|lia].
Qed.

Lemma dataBlock_length out bits out' rest flush :
  dataBlock out bits = ((out', Ok rest), flush) → (length rest ≤ length bits)%nat.
Proof.
  unfold dataBlock. set (b0 := drop _ bits).
  assert (length b0 ≤ length bits)%nat as H0 by (unfold b0; rewrite length_drop; lia).
  destruct (mbind _ _) as [[n r]|e] eqn:Hr; [|done]. cbn zeta. intros [= _ H _].
  revert H. case_match; [done|]. intros [= <-]. rewrite length_drop.
  apply bind_Ok in Hr as (? & _ & Hr). apply bind_Ok in Hr as ([m r1] & H1%take_bits_length & Hr).
  apply bind_Ok in Hr as ([m' r2] & H2%take_bits_length & Hr).
  apply bind_Ok in Hr as (? & _ & [= _ <-]). lia.
Qed.

Lemma nextBlock_fuel f1 : ∀ f2 out flushed bits,
  (length bits < f1)%nat → (length bits < f2)%nat →
  nextBlock f1 out flushed bits = nextBlock f2 out flushed bits.
Proof.
  induction f1 as [|f1 IH]; intros [|f2] out flushed bits H1 H2; [lia..|]. cbn [nextBlock].
  destruct (take_bits 3 bits) as [[header r]|e] eqn:Hh; [|done]. apply take_bits_length in Hh.
  set (block := if _ =? 0 then _ else _).
  assert (∀ out' rest fl, block = ((out', Ok rest), fl) → (length rest ≤ length r)%nat) as Hb.
  { intros out' rest fl. unfold block. case_match; [by apply dataBlock_length|].
    case_match.
    { intros Hf%(f_equal fst). cbn [fst] in Hf.
      apply huffmanBlock_length in Hf; [done|apply fixed_decoder_ok|done]. }
    case_match; [|done]. destruct (readHuffman r) as [[[h1 h2] r']|e] eqn:Hr; [|done].
    apply readHuffman_ok in Hr as (Hh1 & Hh2 & Hr). intros Hf%(f_equal fst). cbn [fst] in Hf.
    apply huffmanBlock_length in Hf; [lia|done|by intros ? [= <-]]. }
  destruct block as [[out' [rest|e]] fl]; [|done]. specialize (Hb _ _ _ eq_refl).
  destruct (Z.testbit header 0); [done|]. apply IH; lia.
Qed.

(** ** Examples *)

(** A stream that zlib wrote, under a code of its own. *)
Definition zlib_stream : list Z :=
  [5; 193; 193; 9; 192; 64; 12; 3; 193; 86; 252; 219; 167; 115; 16; 2; 7; 146; 123; 113; 23;
   42; 63; 51; 218; 138; 121; 232; 209; 86; 204; 161; 71; 91; 49; 47; 61; 218; 138; 185;
   244; 104; 43; 230; 124; 244; 252].

Example zlib_stream_read :
  let r := flate_NewReader (of_bytes zlib_stream) in
  r_err r = None ∧ String.substring 0 20 (r_bytes r) = "<a x='0'/><a x='1'/>"%string
  ∧ String.length (r_bytes r) = 51%nat.
Proof. by vm_compute. Qed.

(** Cut off: what was decoded so far comes with the error. *)
Example zlib_stream_cut :
  let r := flate_NewReader (of_bytes (take 40 zlib_stream)) in
  r_err r = Some UnexpectedEOF ∧ r_err_with_bytes r = true ∧
  String.substring 0 20 (r_bytes r) = "<a x='0'/><a x='1'/>"%string.
Proof. by vm_compute. Qed.

(** The reserved block type, and a stored block whose length is not confirmed. *)
Example corrupt_streams :
  r_err (flate_NewReader (of_bytes [7])) = Some CorruptInput ∧
  r_err (flate_NewReader (of_bytes [1; 1; 0; 0; 0; 97])) = Some CorruptInput ∧
  r_err (flate_NewReader (of_bytes [1; 1; 0; 254; 255; 97])) = None ∧
  r_err (flate_NewReader (of_bytes [])) = Some UnexpectedEOF.
Proof. by vm_compute. Qed.
