(* ===== verification/GoHuffman.v ===== *)
(** * GoHuffman

    The codes that the decompressor of GoFlate makes of code lengths: no code is the start
    of another, whatever the lengths are, so that what the decoder reads is what was
    written. *)

From S2P Require Import Prelude GoStrings GoFlate.
Local Open Scope Z_scope.

(** ** Codes *)

Definition code_of (h : decoder) (s : Z) : list bool :=
  from_option fst [] (find (λ cs, cs.2 =? s) (h_codes h)).
Definition has_code (h : decoder) (s : Z) : bool := existsb (λ cs, cs.2 =? s) (h_codes h).

Fixpoint prefix_free (l : list (list bool * Z)) : bool :=
  match l with
  | [] => true
  | x :: l => forallb (λ y, negb (is_prefix x.1 y.1) && negb (is_prefix y.1 x.1)) l && prefix_free l
  end.

(** No code is the start of another, and none is shorter than the least. *)
Definition code_ok (h : decoder) : bool :=
  prefix_free (h_codes h) && forallb (λ cs, (h_min h <=? length cs.1)%nat) (h_codes h).

Lemma has_code_spec h s : has_code h s = true → (code_of h s, s) ∈ h_codes h.
Proof.
  intros (cs & Hin & Hs)%existsb_exists. unfold code_of.
  destruct (find (λ cs, cs.2 =? s) (h_codes h)) as [[c s']|] eqn:Hf.
  - apply find_some in Hf as [Hin' Hs']. cbn in Hs' |- *. apply Z.eqb_eq in Hs' as ->.
    by apply list_elem_of_In.
  - by rewrite (find_none _ _ Hf cs Hin) in Hs.
Qed.

(** ** Canonical codes

    [nextcodes] gives each length the codes from a first one on; [assign] deals them out. *)

(** Codes of [n] and of [m] bits, the second behind all that start with the first. *)
Definition below (n : nat) (c : Z) (m : nat) (e : Z) : Prop :=
  (n ≤ m)%nat ∧ 2 ^ (Z.of_nat m - Z.of_nat n) * (c + 1) ≤ e.

Lemma code_bits_lookup n c i : (i < n)%nat → code_bits n c !! i = Some (Z.testbit c (Z.of_nat (n - 1 - i))).
Proof. intros Hi. unfold code_bits. by rewrite list_lookup_fmap, lookup_seq_lt. Qed.

Lemma length_code_bits n c : length (code_bits n c) = n.
Proof. unfold code_bits. by rewrite length_fmap, length_seq. Qed.

(** A code that is the start of another is what the other has above its low bits. *)
Lemma is_prefix_code_bits n c m e :
  0 ≤ c < 2 ^ Z.of_nat n → 0 ≤ e < 2 ^ Z.of_nat m →
  is_prefix (code_bits n c) (code_bits m e) = true →
  (n ≤ m)%nat ∧ Z.shiftr e (Z.of_nat m - Z.of_nat n) = c.
Proof.
  intros Hc He [rest Hr]%is_prefix_spec.
  assert (n ≤ m)%nat as Hnm by (apply (f_equal length) in Hr; rewrite length_app, !length_code_bits in Hr; lia).
  split; [done|]. apply Z.bits_inj'. intros k Hk. rewrite Z.shiftr_spec by done.
  destruct (Z.lt_ge_cases k (Z.of_nat n)) as [Hkn|Hkn].
  - assert (code_bits m e !! (n - 1 - Z.to_nat k)%nat = code_bits n c !! (n - 1 - Z.to_nat k)%nat) as Hi
      by (rewrite Hr; apply lookup_app_l; rewrite length_code_bits; lia).
    rewrite !code_bits_lookup in Hi by lia. injection Hi as Hi.
    replace (Z.of_nat (n - 1 - (n - 1 - Z.to_nat k))) with k in Hi by lia.
    replace (Z.of_nat (m - 1 - (n - 1 - Z.to_nat k))) with (k + (Z.of_nat m - Z.of_nat n)) in Hi by lia.
    done.
  - assert (∀ x b j, 0 ≤ x < 2 ^ b → 0 ≤ b ≤ j → Z.testbit x j = false) as Hhigh.
    { intros x b j Hx Hb. rewrite Z.testbit_eqb by lia. rewrite Z.div_small; [done|].
      split; [lia|]. eapply Z.lt_le_trans; [apply Hx|]. apply Z.pow_le_mono_r; lia. }
    by rewrite (Hhigh c (Z.of_nat n)), (Hhigh e (Z.of_nat m)) by lia.
Qed.

Lemma below_apart n c m e :
  0 ≤ c < 2 ^ Z.of_nat n → 0 ≤ e < 2 ^ Z.of_nat m → below n c m e →
  is_prefix (code_bits n c) (code_bits m e) = false ∧ is_prefix (code_bits m e) (code_bits n c) = false.
Proof.
  intros Hc He [Hnm Hb]. split; apply not_true_is_false; intros Hp.
  - apply is_prefix_code_bits in Hp as [_ Hs]; [|done..].
    rewrite Z.shiftr_div_pow2 in Hs by lia.
    assert (c + 1 ≤ e / 2 ^ (Z.of_nat m - Z.of_nat n)); [|lia].
    apply Z.div_le_lower_bound; [apply Z.pow_pos_nonneg; lia|done].
  - apply is_prefix_code_bits in Hp as [Hmn Hs]; [|done..].
    assert (Z.of_nat n - Z.of_nat m = 0) as H0 by lia. rewrite H0, Z.shiftr_0_r in Hs. subst.
    replace (Z.of_nat m - Z.of_nat n) with 0 in Hb by lia. change (2 ^ 0) with 1 in Hb. lia.
Qed.

Lemma count_cons n lengths m : count (n :: lengths) m = Z.b2z (bool_decide (n = m)) + count lengths m.
Proof. unfold count. rewrite filter_cons. case_decide; case_bool_decide; cbn; lia. Qed.

Lemma count_nonneg lengths n : 0 ≤ count lengths n.
Proof. unfold count. lia. Qed.

(** Each length still has codes for all its symbols, before those of greater lengths. *)
Record room (next : list (nat * Z)) (lengths : list nat) : Prop := Room {
  room_once : NoDup next.*1;
  room_range n c : (n, c) ∈ next → 0 ≤ c ∧ c + count lengths n ≤ 2 ^ Z.of_nat n;
  room_order n c m d : (n, c) ∈ next → (m, d) ∈ next → (n < m)%nat →
    2 ^ (Z.of_nat m - Z.of_nat n) * (c + count lengths n) ≤ d;
}.

(** The table after one code was given out. *)
Definition bump (n : nat) (code : Z) (next : list (nat * Z)) : list (nat * Z) :=
  (λ p, if (p.1 =? n)%nat then (n, code + 1) else p) <$> next.

Lemma bump_elem n code next m d :
  (m, d) ∈ bump n code next → (m = n ∧ d = code + 1) ∨ (m ≠ n ∧ (m, d) ∈ next).
Proof.
  unfold bump. intros ([m' d'] & Heq & Hin)%list_elem_of_fmap. cbn in Heq.
  destruct (Nat.eqb_spec m' n); injection Heq as -> ->; auto.
Qed.

Lemma room_skip next n lengths : room next (n :: lengths) → n ∉ next.*1 → room next lengths.
Proof.
  intros [Hnd Hr Ho] Hn.
  assert (∀ m c, (m, c) ∈ next → count (n :: lengths) m = count lengths m) as Hc.
  { intros m c Hm. rewrite count_cons, bool_decide_eq_false_2; [done|]. intros ->. apply Hn.
    apply list_elem_of_fmap. by exists (m, c). }
  split; [done|..].
  - intros m c Hm. rewrite <- (Hc m c Hm). by apply Hr.
  - intros m c m' d Hm. rewrite <- (Hc m c Hm). by apply Ho.
Qed.

Lemma room_bump next n code lengths :
  room next (n :: lengths) → (n, code) ∈ next → room (bump n code next) lengths.
Proof.
  intros [Hnd Hr Ho] Hn.
  pose proof (count_cons n lengths n) as Hcn. rewrite bool_decide_eq_true_2 in Hcn by done. cbn in Hcn.
  assert (∀ m, m ≠ n → count (n :: lengths) m = count lengths m) as Hc
    by (intros m Hm; by rewrite count_cons, bool_decide_eq_false_2).
  split.
  - replace ((bump n code next).*1) with (next.*1); [done|]. unfold bump.
    rewrite <- list_fmap_compose. apply list_fmap_ext. intros i [m d] _. cbn.
    by destruct (Nat.eqb_spec m n).
  - intros m d [[-> ->]|[Hm Hin]]%bump_elem.
    + specialize (Hr _ _ Hn). lia.
    + rewrite <- Hc by done. by apply Hr.
  - intros m c m' d [[-> ->]|[Hm Hin]]%bump_elem [[-> ->]|[Hm' Hin']]%bump_elem Hlt; [lia|..].
    + specialize (Ho _ _ _ _ Hn Hin' Hlt). rewrite Hcn in Ho.
      by replace (code + 1 + count lengths n) with (code + (1 + count lengths n)) by lia.
    + specialize (Ho _ _ _ _ Hin Hn Hlt). rewrite Hc in Ho by done. lia.
    + rewrite <- Hc by done. by apply (Ho _ _ _ _ Hin Hin').
Qed.

Lemma find_fst_Some n (next : list (nat * Z)) n' c :
  find (λ p, p.1 =? n)%nat next = Some (n', c) → n' = n ∧ (n, c) ∈ next.
Proof. intros [Hin%list_elem_of_In Hn]%find_some. cbn in Hn. by apply Nat.eqb_eq in Hn as ->. Qed.

Lemma find_fst_None n (next : list (nat * Z)) :
  find (λ p, p.1 =? n)%nat next = None → n ∉ next.*1.
Proof.
  intros Hf ([n' c] & -> & Hin%list_elem_of_In)%list_elem_of_fmap.
  pose proof (find_none _ _ Hf _ Hin) as H. cbn in H. by rewrite Nat.eqb_refl in H.
Qed.

(** What is dealt out: for the symbol of each place a code of the length given there. *)
Lemma assign_elem lengths : ∀ next sym x,
  room next lengths → x ∈ assign next sym lengths →
  ∃ i n c e, lengths !! i = Some n ∧ (n, c) ∈ next ∧ c ≤ e < c + count lengths n ∧
    x = (code_bits n e, sym + Z.of_nat i).
Proof.
  induction lengths as [|n lengths IH]; intros next sym x Hroom; cbn [assign]; [by intros ?%elem_of_nil|].
  destruct (find _ next) as [[n' code]|] eqn:Hf.
  - apply find_fst_Some in Hf as [-> Hn].
    fold (bump n code next). intros [->|Hx]%elem_of_cons.
    + exists O, n, code, code. rewrite count_cons, bool_decide_eq_true_2 by done.
      pose proof (count_nonneg lengths n). split_and!; [done|done|cbn; lia..|]. f_equal. lia.
    + apply IH in Hx as (i & m & c & e & Hi & Hm & He & ->); [|by apply room_bump].
      apply bump_elem in Hm as [[-> ->]|[Hne Hm]].
      * exists (S i), n, code, e. rewrite count_cons, bool_decide_eq_true_2 by done.
        split_and!; [done|done|cbn; lia..|]. f_equal. lia.
      * exists (S i), m, c, e. rewrite count_cons, bool_decide_eq_false_2 by done.
        split_and!; [done|done|cbn; lia..|]. f_equal. lia.
  - pose proof (find_fst_None _ _ Hf) as Hn. pose proof (room_skip next n lengths Hroom Hn) as Hroom'. intros Hx.
    apply IH in Hx as (i & m & c & e & Hi & Hm & He & ->); [|done].
    assert (n ≠ m) by (intros ->; apply Hn, list_elem_of_fmap; by exists (m, c)).
    exists (S i), m, c, e. rewrite count_cons, bool_decide_eq_false_2 by done.
    split_and!; [done|done|cbn; lia..|]. f_equal. lia.
Qed.

Lemma assign_prefix_free lengths : ∀ next sym,
  room next lengths → prefix_free (assign next sym lengths) = true.
Proof.
  induction lengths as [|n lengths IH]; intros next sym Hroom; cbn [assign]; [done|].
  destruct (find _ next) as [[n' code]|] eqn:Hf.
  - apply find_fst_Some in Hf as [-> Hn].
    fold (bump n code next). cbn [prefix_free].
    pose proof (room_bump next n code lengths Hroom Hn) as Hroom'.
    apply andb_true_iff. split; [|by apply IH]. apply forallb_forall. intros x Hx%list_elem_of_In. cbn [fst].
    apply assign_elem in Hx as (i & m & c & e & _ & Hm & He & ->); [|done]. cbn [fst].
    pose proof (room_range _ _ Hroom _ _ Hn) as Hrn. pose proof (room_range _ _ Hroom' _ _ Hm) as Hrm.
    pose proof (count_cons n lengths n) as Hcn. rewrite bool_decide_eq_true_2 in Hcn by done. cbn in Hcn.
    pose proof (count_nonneg lengths n). apply andb_true_iff. rewrite !negb_true_iff.
    apply bump_elem in Hm as [[-> ->]|[Hne Hm]].
    + apply below_apart; [lia|lia|]. split; [done|]. rewrite Z.sub_diag. change (2 ^ 0) with 1. lia.
    + pose proof (count_cons n lengths m) as Hcm. rewrite bool_decide_eq_false_2 in Hcm by done. cbn in Hcm.
      destruct (Nat.lt_total n m) as [Hlt|[->|Hlt]]; [|done|].
      * apply below_apart; [lia|lia|]. split; [lia|].
        pose proof (room_order _ _ Hroom _ _ _ _ Hn Hm Hlt) as Ho. rewrite Hcn in Ho.
        eapply Z.le_trans; [|apply He]. eapply Z.le_trans; [|exact Ho].
        apply Z.mul_le_mono_nonneg_l; [apply Z.pow_nonneg; lia|lia].
      * apply and_comm, below_apart; [lia|lia|]. split; [lia|].
        pose proof (room_order _ _ Hroom _ _ _ _ Hm Hn Hlt) as Ho. rewrite Hcm in Ho.
        eapply Z.le_trans; [|exact Ho].
        apply Z.mul_le_mono_nonneg_l; [apply Z.pow_nonneg; lia|lia].
  - apply IH, (room_skip _ n); [done|]. by apply find_fst_None.
Qed.

Lemma pow_step b c k : 0 ≤ k → 2 * 2 ^ b * c ≤ 2 ^ b * (2 * c + k).
Proof. pose proof (Z.pow_nonneg 2 b ltac:(done)). nia. Qed.

(** The first codes leave room for all, each length behind the ones before it. *)
Definition behind (lengths : list nat) (p q : nat * Z) : Prop :=
  (p.1 < q.1)%nat ∧ 2 ^ (Z.of_nat q.1 - Z.of_nat p.1) * (p.2 + count lengths p.1) ≤ q.2.

Lemma nextcodes_spec k lengths : ∀ n code l last,
  0 ≤ code → nextcodes k lengths n code = (l, last) →
  StronglySorted (behind lengths) l ∧ 2 ^ Z.of_nat k * code ≤ last ∧
  Forall (λ p, (n ≤ p.1 < n + k)%nat ∧ 2 ^ (Z.of_nat p.1 + 1 - Z.of_nat n) * code ≤ p.2 ∧
               2 ^ (Z.of_nat (n + k) - 1 - Z.of_nat p.1) * (p.2 + count lengths p.1) ≤ last) l.
Proof.
  induction k as [|k IH]; intros n code l last Hcode; cbn [nextcodes].
  { intros [= <- <-]. split_and!; [constructor|cbn; lia|constructor]. }
  destruct (nextcodes k lengths (S n) (2 * code + count lengths n)) as [l' last'] eqn:Hl.
  intros [= <- <-]. pose proof (count_nonneg lengths n) as Hc.
  apply IH in Hl as (Hs & Hlast & Hall); [|lia].
  rewrite Nat2Z.inj_succ, Z.pow_succ_r by lia. split_and!.
  - constructor; [done|]. eapply Forall_impl; [exact Hall|]. intros [m d] (Hm & Hd & _). cbn in *.
    unfold behind. cbn [fst snd]. split; [lia|]. eapply Z.le_trans; [|exact Hd]. apply Z.eq_le_incl. f_equal. f_equal. lia.
  - eapply Z.le_trans; [|exact Hlast]. by apply pow_step.
  - constructor.
    + cbn. split_and!; [lia|lia| |].
      * replace (Z.of_nat n + 1 - Z.of_nat n) with 1 by lia. lia.
      * eapply Z.le_trans; [|exact Hlast]. apply Z.eq_le_incl. f_equal. f_equal. lia.
    + eapply Forall_impl; [exact Hall|]. intros [m d] (Hm & Hd & Hu). cbn in *. split_and!; [lia|lia| |].
      * eapply Z.le_trans; [|exact Hd].
        replace (Z.of_nat m + 1 - Z.of_nat n) with (Z.succ (Z.of_nat m + 1 - Z.of_nat (S n))) by lia.
        rewrite Z.pow_succ_r by lia. apply pow_step. lia.
      * by replace (n + S k)%nat with (S (n + k)) by lia.
Qed.

Lemma behind_order lengths l n c m d :
  StronglySorted (behind lengths) l → (n, c) ∈ l → (m, d) ∈ l → (n < m)%nat → behind lengths (n, c) (m, d).
Proof.
  induction 1 as [|x l Hl IH Hx]; [by intros ?%elem_of_nil|]. rewrite Forall_forall in Hx.
  intros [<-|Hn]%elem_of_cons [Heq|Hm]%elem_of_cons Hlt; [simplify_eq; lia|by apply Hx| |by apply IH].
  subst x. destruct (Hx _ Hn) as [Hlt' _]. cbn in Hlt'. lia.
Qed.

Lemma nextcodes_room k lengths n l last :
  nextcodes k lengths n 0 = (l, last) → last ≤ 2 ^ (Z.of_nat (n + k) - 1) → room l lengths.
Proof.
  intros Hl Hlast. apply nextcodes_spec in Hl as (Hs & _ & Hall); [|done]. rewrite Forall_forall in Hall.
  split.
  - clear Hall Hlast. induction Hs as [|x l Hs IH Hx]; cbn; constructor; [|done].
    intros (y & Hy & Hin)%list_elem_of_fmap. rewrite Forall_forall in Hx. destruct (Hx _ Hin). lia.
  - intros m c Hin. destruct (Hall _ Hin) as (Hm & Hc & Hu). cbn in *. split; [lia|].
    set (b := Z.of_nat (n + k) - 1 - Z.of_nat m) in *.
    replace (Z.of_nat (n + k) - 1) with (b + Z.of_nat m) in Hlast by lia.
    rewrite Z.pow_add_r in Hlast by lia. pose proof (Z.pow_pos_nonneg 2 b ltac:(done) ltac:(lia)). nia.
  - intros m c m' d Hm Hm' Hlt. by destruct (behind_order _ _ _ _ _ _ Hs Hm Hm' Hlt).
Qed.

(** [init] builds a code for any lengths it accepts. *)
Lemma init_codes lengths h :
  init lengths = Some h →
  h = MkDecoder 0 [] ∨
  ∃ next, room next lengths ∧ h_codes h = assign next 0 lengths ∧ Forall (λ p, h_min h ≤ p.1)%nat next.
Proof.
  unfold init. set (used := filter _ lengths). set (mx := foldr Nat.max O used).
  set (mn := foldr Nat.min mx used).
  destruct (Nat.eqb_spec mx 0) as [|Hmx]; [intros [= <-]; by left|].
  assert (mn ≤ mx)%nat as Hle by (unfold mn; generalize used mx; clear; intros l m; induction l; cbn; lia).
  destruct (nextcodes (S mx - mn) lengths mn 0) as [next code] eqn:Hn.
  destruct (negb (code =? _) && _) eqn:Hcode; [done|]. intros [= <-]. right. exists next. split_and!.
  - apply (nextcodes_room _ _ _ _ _ Hn). replace (Z.of_nat (mn + (S mx - mn)) - 1) with (Z.of_nat mx) by lia.
    apply andb_false_iff in Hcode as [Hc%negb_false_iff|Hc%negb_false_iff]; bool_simp; subst; [lia|].
    by replace mx with 1%nat.
  - done.
  - apply nextcodes_spec in Hn as (_ & _ & Hall); [|done]. eapply Forall_impl; [exact Hall|].
    intros p (Hp & _). cbn. lia.
Qed.

Lemma init_code_ok lengths h : init lengths = Some h → code_ok h = true.
Proof.
  intros [->|(next & Hroom & Hcodes & Hmin)]%init_codes; [done|]. unfold code_ok. rewrite Hcodes.
  rewrite assign_prefix_free by done. apply forallb_forall.
  intros x (i & n & c & e & _ & Hn & _ & ->)%list_elem_of_In%assign_elem; [|done]. cbn [fst].
  rewrite length_code_bits. rewrite Forall_forall in Hmin. by apply Nat.leb_le, (Hmin (n, c)).
Qed.

(** The code of a symbol is as long as its place in the lengths says. *)
Lemma init_code_length lengths h s :
  init lengths = Some h → has_code h s = true → length (code_of h s) = nth (Z.to_nat s) lengths O.
Proof.
  intros Hh%init_codes Hs%has_code_spec. destruct Hh as [->|(next & Hroom & Hcodes & _)]; [by apply elem_of_nil in Hs|].
  rewrite Hcodes in Hs. apply assign_elem in Hs as (i & n & c & e & Hi & _ & _ & [= -> ->]); [|done].
  rewrite length_code_bits. replace (Z.to_nat (0 + Z.of_nat i)) with i by lia.
  symmetry. by apply nth_lookup_Some.
Qed.

(** ** Symbols *)

Lemma is_prefix_app c : ∀ d rest, is_prefix c (d ++ rest) = true → is_prefix c d = true ∨ is_prefix d c = true.
Proof.
  induction c as [|b c IH]; intros [|b' d] rest; cbn; auto.
  intros [H1 H2]%andb_true_iff. apply Bool.eqb_true_iff in H1 as ->. rewrite eqb_reflx. cbn.
  by eapply IH.
Qed.

Lemma find_code l c s rest :
  prefix_free l = true → (c, s) ∈ l → find (λ cs, is_prefix cs.1 (c ++ rest)) l = Some (c, s).
Proof.
  induction l as [|x l IH]; [by intros _ ?%elem_of_nil|]. cbn [prefix_free find].
  intros [Hx Hl]%andb_true_iff [<-|Hin]%elem_of_cons.
  - cbn. assert (is_prefix c (c ++ rest) = true) as -> by (apply is_prefix_spec; by exists rest). done.
  - destruct (is_prefix x.1 (c ++ rest)) eqn:Hp; [|by apply IH].
    rewrite forallb_forall in Hx. apply list_elem_of_In in Hin. specialize (Hx _ Hin). cbn in Hx.
    apply andb_true_iff in Hx as [H1 H2]. apply is_prefix_app in Hp as [Hp|Hp]; rewrite Hp in *; done.
Qed.

Lemma has_code_length h s : decoder_ok h → has_code h s = true → (0 < length (code_of h s))%nat.
Proof.
  intros Hh Hs%has_code_spec. unfold decoder_ok in Hh. rewrite Forall_forall in Hh.
  specialize (Hh _ Hs). cbn in Hh. destruct (code_of h s); [done|]. cbn. lia.
Qed.

Lemma code_ok_spec h :
  code_ok h = true →
  prefix_free (h_codes h) = true ∧ ∀ s, has_code h s = true → (h_min h ≤ length (code_of h s))%nat.
Proof.
  intros [Hp Hmin]%andb_true_iff. split; [done|]. intros s Hs%has_code_spec%list_elem_of_In.
  rewrite forallb_forall in Hmin. by apply Nat.leb_le, (Hmin _ Hs).
Qed.

(** A symbol is read back, with at least as many bits there as the decoder asks for. *)
Lemma huffSym_code h s rest :
  prefix_free (h_codes h) = true → has_code h s = true →
  (h_min h ≤ length (code_of h s ++ rest))%nat →
  huffSym h (code_of h s ++ rest) = Ok (s, rest).
Proof.
  intros Hp Hs%has_code_spec Hlen. unfold huffSym. rewrite length_take.
  destruct (Nat.ltb_spec (h_min h `min` length (code_of h s ++ rest)) (h_min h)); [lia|].
  rewrite (find_code _ _ _ _ Hp Hs). by rewrite drop_app_length.
Qed.

Lemma huffSym_code_ok h s rest :
  code_ok h = true → has_code h s = true → huffSym h (code_of h s ++ rest) = Ok (s, rest).
Proof.
  intros [Hp Hmin]%code_ok_spec Hs. apply huffSym_code; [done..|]. rewrite length_app.
  specialize (Hmin s Hs). lia.
Qed.

