(* ===== verification/GoDeflate.v ===== *)
(** * GoDeflate

    A compressor for the decompressor of GoFlate: texts as blocks of all three kinds, with
    any references, any Huffman codes and any way to write them down, and the proof that
    the reader yields what the blocks stand for. *)

From S2P Require Import Prelude GoRuntime GoStrings GoFlate GoHuffman.
Local Open Scope Z_scope.

(** ** Compressed texts *)

(** What a block stands for: bytes as they are, or bytes and references to what was there
    before, here in the order of the text. *)
Inductive token : Type := Lit (b : Z) | Match (len dist : Z).

(** How code lengths are written: one by one, the last one again, or zeros. *)
Inductive len_op : Type := Len (n : nat) | Again (k : nat) | Zeros (k : nat).

(** A dynamic code: how many lengths of each kind, the lengths of the code they are written
    in (in the order they are sent), and the lengths. *)
Record header : Type := Header {
  nlit : nat;
  ndist : nat;
  codebits : list nat;
  ops : list len_op;
}.

Inductive block : Type :=
| Stored (data : list Z)
| Fixed (ts : list token)
| Dynamic (c : header) (ts : list token).

Fixpoint repeat_from (n : nat) (dist : Z) (out : list Z) : list Z :=
  match n with
  | O => out
  | S n => repeat_from n dist (out ++ [nth (length out - Z.to_nat dist) out 0])
  end.

Definition expand_token (out : list Z) (t : token) : list Z :=
  match t with Lit b => out ++ [b] | Match len dist => repeat_from (Z.to_nat len) dist out end.
Definition expand_block (out : list Z) (b : block) : list Z :=
  match b with
  | Stored data => out ++ data
  | Fixed ts | Dynamic _ ts => fold_left expand_token ts out
  end.

(** The text of a sequence of blocks. *)
Definition expand (bs : list block) : list Z := fold_left expand_block bs [].

(** ** Code lengths *)

(** The lengths, the last one first. *)
Definition expand_op (known : list nat) (o : len_op) : list nat :=
  match o with
  | Len n => n :: known
  | Again k => replicate k (default O (head known)) ++ known
  | Zeros k => replicate k O ++ known
  end.
Definition lengths_of (c : header) : list nat := reverse (fold_left expand_op (ops c) []).

(** The code the lengths are written in, the code of literals and lengths, which is not
    read with fewer bits than the end marker has, and the code of distances. *)
Definition place (order vals arr : list nat) : list nat :=
  foldl (λ arr iv, <[iv.1 := iv.2]> arr) arr (zip order vals).
Definition decoders (c : header) : option (decoder * decoder * decoder) :=
  h ← init (place codeOrder (codebits c) (replicate 19 O));
  h1 ← init (take (nlit c) (lengths_of c));
  h2 ← init (drop (nlit c) (lengths_of c));
  Some (h, MkDecoder (Nat.max (h_min h1) (nth 256 (lengths_of c) O)) (h_codes h1), h2).

(** ** Well-formed blocks *)

(** The symbol for a length or a distance, its base and the number of extra bits. *)
Definition length_symbol (len : Z) : Z * (Z * nat) :=
  let fits v := match length_base v with
                | Some (b, n) => (b <=? len) && (len <? b + 2 ^ Z.of_nat n)
                | None => false
                end in
  let v := default 285 (find fits (seqZ 257 29)) in
  (v, default (258, 0%nat) (length_base v)).

Definition dist_base (s : Z) : Z * nat :=
  if s <? 4 then (s + 1, 0%nat)
  else let nb := Z.shiftr (s - 2) 1 in (Z.shiftl 1 (nb + 1) + 1 + Z.shiftl (Z.land s 1) nb, Z.to_nat nb).
Definition dist_symbol (dist : Z) : Z :=
  if dist <=? 4 then dist - 1
  else let nb := Z.log2 (dist - 1) - 1 in 2 * nb + (dist - 1) / 2 ^ nb.

(** A token that can be written under a code of literals and lengths, and one of distances
    if there is one. *)
Definition token_ok (hl : decoder) (hd : option decoder) (out : list Z) (t : token) : Prop :=
  match t with
  | Lit b => is_byte b ∧ has_code hl b = true
  | Match len dist =>
      3 ≤ len ≤ 258 ∧ 1 ≤ dist ≤ 32768 ∧ dist ≤ Z.of_nat (length out) ∧
      has_code hl (length_symbol len).1 = true ∧
      match hd with Some hd => has_code hd (dist_symbol dist) = true | None => True end
  end.
Fixpoint tokens_ok (hl : decoder) (hd : option decoder) (out : list Z) (ts : list token) : Prop :=
  match ts with
  | [] => True
  | t :: ts => token_ok hl hd out t ∧ tokens_ok hl hd (expand_token out t) ts
  end.

(** A length that can be written, given how many are known. *)
Definition op_ok (h : decoder) (known : list nat) (o : len_op) : bool :=
  match o with
  | Len n => (n <? 16)%nat && has_code h (Z.of_nat n)
  | Again k => (3 <=? k)%nat && (k <=? 6)%nat && negb (length known =? 0)%nat && has_code h 16
  | Zeros k => (3 <=? k)%nat && (k <=? 138)%nat && has_code h (if (k <? 11)%nat then 17 else 18)
  end.
Fixpoint ops_ok (h : decoder) (known : list nat) (os : list len_op) : bool :=
  match os with
  | [] => true
  | o :: os => op_ok h known o && ops_ok h (expand_op known o) os
  end.

Definition header_ok (c : header) : bool :=
  (257 <=? nlit c)%nat && (nlit c <=? 286)%nat && (1 <=? ndist c)%nat && (ndist c <=? 30)%nat &&
  (4 <=? length (codebits c))%nat && (length (codebits c) <=? 19)%nat &&
  forallb (λ n, n <? 8)%nat (codebits c) && (length (lengths_of c) =? nlit c + ndist c)%nat &&
  match decoders c with
  | Some (h, h1, _) => ops_ok h [] (ops c) && has_code h1 256
  | None => false
  end.

Definition block_ok (out : list Z) (b : block) : Prop :=
  match b with
  | Stored data => Forall is_byte data ∧ Z.of_nat (length data) ≤ 65535
  | Fixed ts => tokens_ok fixedHuffmanDecoder None out ts
  | Dynamic c ts =>
      header_ok c = true ∧
      match decoders c with Some (_, h1, h2) => tokens_ok h1 (Some h2) out ts | None => False end
  end.
Fixpoint blocks_ok (out : list Z) (bs : list block) : Prop :=
  match bs with [] => True | b :: bs => block_ok out b ∧ blocks_ok (expand_block out b) bs end.

(** ** Their encoding *)

Fixpoint num_bits (n : nat) (x : Z) : list bool :=
  match n with O => [] | S n => Z.odd x :: num_bits n (Z.div2 x) end.

Definition put_dist (hd : option decoder) (s : Z) : list bool :=
  match hd with Some hd => code_of hd s | None => reverse (num_bits 5 s) end.

Definition put_token (hl : decoder) (hd : option decoder) (t : token) : list bool :=
  match t with
  | Lit b => code_of hl b
  | Match len dist =>
      let '(v, (b, n)) := length_symbol len in
      let s := dist_symbol dist in
      code_of hl v ++ num_bits n (len - b) ++ put_dist hd s ++
      num_bits (dist_base s).2 (dist - (dist_base s).1)
  end.

(** The tokens and the end marker. *)
Definition put_tokens (hl : decoder) (hd : option decoder) (ts : list token) : list bool :=
  (ts ≫= put_token hl hd) ++ code_of hl 256.

Definition put_op (h : decoder) (o : len_op) : list bool :=
  match o with
  | Len n => code_of h (Z.of_nat n)
  | Again k => code_of h 16 ++ num_bits 2 (Z.of_nat k - 3)
  | Zeros k => if (k <? 11)%nat then code_of h 17 ++ num_bits 3 (Z.of_nat k - 3)
               else code_of h 18 ++ num_bits 7 (Z.of_nat k - 11)
  end.

Definition put_header (h : decoder) (c : header) : list bool :=
  num_bits 5 (Z.of_nat (nlit c) - 257) ++ num_bits 5 (Z.of_nat (ndist c) - 1) ++
  num_bits 4 (Z.of_nat (length (codebits c)) - 4) ++
  (codebits c ≫= λ n, num_bits 3 (Z.of_nat n)) ++ (ops c ≫= put_op h).

(** Zeros up to the next byte. *)
Definition padding (pos : nat) : list bool := replicate ((8 - pos mod 8) mod 8) false.

(** A block at a position after its first bit. *)
Definition put_block (pos : nat) (b : block) : list bool :=
  match b with
  | Stored data =>
      let n := Z.of_nat (length data) in
      [false; false] ++ padding (pos + 2) ++ num_bits 16 n ++ num_bits 16 (65535 - n) ++ bits_of data
  | Fixed ts => [true; false] ++ put_tokens fixedHuffmanDecoder None ts
  | Dynamic c ts =>
      [false; true] ++
      match decoders c with
      | Some (h, h1, h2) => put_header h c ++ put_tokens h1 (Some h2) ts
      | None => []
      end
  end.

Fixpoint put_blocks (pos : nat) (bs : list block) : list bool :=
  match bs with
  | [] => padding pos
  | b :: bs =>
      let l := (match bs with [] => true | _ => false end) :: put_block (pos + 1) b in
      l ++ put_blocks (pos + length l) bs
  end.

Definition deflate (bs : list block) : list Z :=
  let l := put_blocks 0 bs in bytes_of_bits (length l) l.

(** ** Bits *)

Lemma length_num_bits n : ∀ x, length (num_bits n x) = n.
Proof. induction n as [|n IH]; intros x; cbn; [done|by rewrite IH]. Qed.

Lemma value_num_bits n : ∀ x, 0 ≤ x < 2 ^ Z.of_nat n → value (num_bits n x) = x.
Proof.
  induction n as [|n IH]; intros x Hx; cbn [num_bits value].
  - change (2 ^ Z.of_nat 0) with 1 in Hx. lia.
  - rewrite Nat2Z.inj_succ, Z.pow_succ_r in Hx by lia. pose proof (Z.div2_odd x).
    rewrite IH by (rewrite Z.div2_div; zdiv). lia.
Qed.

Lemma take_bits_num n x rest :
  0 ≤ x < 2 ^ Z.of_nat n → take_bits n (num_bits n x ++ rest) = Ok (x, rest).
Proof.
  intros Hx. apply take_bits_Ok. pose proof (length_num_bits n x) as Hl.
  rewrite length_app, take_app_length', drop_app_length', value_num_bits by lia.
  split_and!; [lia|done..].
Qed.

Lemma byte_bits_num b : byte_bits b = num_bits 8 b.
Proof.
  unfold byte_bits. cbn [fmap list_fmap num_bits].
  rewrite <- !Z.bit0_odd, !Z.div2_spec, !Z.shiftr_spec by lia. done.
Qed.

Lemma length_bits_of l : length (bits_of l) = (8 * length l)%nat.
Proof.
  unfold bits_of. induction l as [|b l IH]; [done|]. rewrite bind_cons, length_app, IH. cbn. lia.
Qed.

Lemma bytes_of_bits_of l : ∀ fuel rest,
  Forall is_byte l → (length l ≤ fuel)%nat → (fuel = length l ∨ (length rest < 8)%nat) →
  bytes_of_bits fuel (bits_of l ++ rest) = l.
Proof.
  induction l as [|b l IH]; intros fuel rest Hl Hf Hr.
  - destruct fuel as [|fuel]; [done|]. destruct Hr as [|Hr]; [done|]. unfold bits_of. cbn [mbind list_bind app].
    cbn [bytes_of_bits]. rewrite length_take. by destruct (Nat.ltb_spec (8 `min` length rest) 8); [|lia].
  - apply Forall_cons in Hl as [Hb Hl]. destruct fuel as [|fuel]; [cbn in Hf; lia|].
    unfold bits_of. rewrite bind_cons, <- app_assoc. fold (bits_of l). cbn [bytes_of_bits].
    rewrite byte_bits_num. pose proof (length_num_bits 8 b) as Hlen.
    rewrite take_app_length', drop_app_length', Hlen, value_num_bits by done. cbn [Nat.ltb Nat.leb].
    f_equal. apply IH; [done|cbn in Hf; lia|]. cbn in Hr. destruct Hr; [left; lia|by right].
Qed.

(** Whole bytes of bits are the bits of some bytes. *)
Lemma bits_of_bytes n : ∀ bits, length bits = (8 * n)%nat →
  ∃ l, bits = bits_of l ∧ length l = n ∧ Forall is_byte l.
Proof.
  induction n as [|n IH]; intros bits Hl.
  { exists []. by apply nil_length_inv in Hl as ->. }
  destruct bits as [|b0 [|b1 [|b2 [|b3 [|b4 [|b5 [|b6 [|b7 bits]]]]]]]]; try (cbn in Hl; lia).
  destruct (IH bits) as (l & -> & Hll & Hb); [cbn in Hl; lia|].
  exists (value [b0; b1; b2; b3; b4; b5; b6; b7] :: l). split_and!.
  - unfold bits_of. rewrite bind_cons. by destruct b0, b1, b2, b3, b4, b5, b6, b7.
  - cbn. by rewrite Hll.
  - constructor; [|done]. by destruct b0, b1, b2, b3, b4, b5, b6, b7.
Qed.

(** Checking a range of numbers one by one. *)
Fixpoint all_from (n : nat) (lo : Z) (P : Z → bool) : bool :=
  match n with O => true | S n => P lo && all_from n (lo + 1) P end.

Lemma all_from_spec P n : ∀ lo, all_from n lo P = true → ∀ x, lo ≤ x < lo + Z.of_nat n → P x = true.
Proof.
  induction n as [|n IH]; intros lo; cbn [all_from]; [lia|]. intros [H0 H]%andb_true_iff x Hx.
  destruct (Z.eq_dec x lo) as [->|]; [done|]. apply (IH _ H). lia.
Qed.

(** The fixed code. *)
Lemma fixed_code_ok : code_ok fixedHuffmanDecoder = true.
Proof. vm_compute. reflexivity. Qed.

Lemma fixed_has_code s : 0 ≤ s < 288 → has_code fixedHuffmanDecoder s = true.
Proof. revert s. refine (all_from_spec (has_code fixedHuffmanDecoder) 288 0 _). vm_compute. reflexivity. Qed.

(** ** References *)

Lemma length_symbol_spec len :
  3 ≤ len ≤ 258 →
  let '(v, (b, n)) := length_symbol len in
  257 ≤ v < 286 ∧ length_base v = Some (b, n) ∧ 0 ≤ len - b < 2 ^ Z.of_nat n.
Proof.
  intros Hlen.
  assert (let '(v, (b, n)) := length_symbol len in
    (257 <=? v) && (v <? 286) && bool_decide (length_base v = Some (b, n)) &&
    (0 <=? len - b) && (len - b <? 2 ^ Z.of_nat n) = true) as H.
  { revert len Hlen. assert (∀ len, 3 ≤ len < 3 + 256 →
      (let '(v, (b, n)) := length_symbol len in
       (257 <=? v) && (v <? 286) && bool_decide (length_base v = Some (b, n)) &&
       (0 <=? len - b) && (len - b <? 2 ^ Z.of_nat n)) = true) as Hall.
    { refine (all_from_spec (λ len, let '(v, (b, n)) := length_symbol len in _) 256 3 _).
      vm_compute. reflexivity. }
    intros len Hlen. specialize (Hall len ltac:(lia)). by destruct (length_symbol len) as [v [b n]]. }
  destruct (length_symbol len) as [v [b n]]. bool_simp. split_and!; try lia; done.
Qed.

Lemma dist_symbol_spec dist :
  1 ≤ dist ≤ 32768 →
  0 ≤ dist_symbol dist < 30 ∧
  0 ≤ dist - (dist_base (dist_symbol dist)).1 < 2 ^ Z.of_nat (dist_base (dist_symbol dist)).2.
Proof.
  intros Hd. unfold dist_symbol. destruct (Z.leb_spec dist 4).
  { assert (dist ∈ [1; 2; 3; 4]) as Hin by (rewrite !elem_of_cons; lia).
    rewrite !elem_of_cons, elem_of_nil in Hin. by repeat destruct Hin as [->|Hin]. }
  set (m := dist - 1). set (nb := Z.log2 m - 1). set (q := m / 2 ^ nb).
  assert (2 ≤ Z.log2 m < 15) as Hk.
  { split; [apply (Z.log2_le_mono 4 m); lia|]. apply Z.log2_lt_pow2; [lia|].
    change (2 ^ 15) with 32768. lia. }
  destruct (Z.log2_spec m ltac:(lia)) as [Hlo Hhi]. rewrite Z.pow_succ_r in Hhi by lia.
  replace (Z.log2 m) with (nb + 1) in Hlo, Hhi by lia. rewrite Z.pow_add_r in Hlo, Hhi by lia.
  change (2 ^ 1) with 2 in *. assert (0 < 2 ^ nb) as Hpow by (apply Z.pow_pos_nonneg; lia).
  assert (2 ≤ q ≤ 3) as Hq.
  { unfold q. split; [apply Z.div_le_lower_bound; lia|].
    apply Z.lt_succ_r, Z.div_lt_upper_bound; lia. }
  assert (m = 2 ^ nb * q + m mod 2 ^ nb) as Hm by (by apply Z.div_mod; lia).
  pose proof (Z.mod_pos_bound m (2 ^ nb) Hpow) as Hr.
  split; [lia|]. unfold dist_base. destruct (Z.ltb_spec (2 * nb + q) 4); [lia|]. cbn [fst snd].
  assert (Z.shiftr (2 * nb + q - 2) 1 = nb) as ->.
  { rewrite Z.shiftr_div_pow2 by done. change (2 ^ 1) with 2. zdiv. }
  assert (Z.land (2 * nb + q) 1 = q - 2) as ->.
  { change 1 with (Z.ones 1). rewrite Z.land_ones by done. change (2 ^ 1) with 2. zdiv. }
  rewrite !Z.shiftl_mul_pow2, Z2Nat.id, Z.pow_add_r by lia. change (2 ^ 1) with 2. nia.
Qed.

Lemma read_dist_symbol s e rest :
  0 ≤ s < 30 → 0 ≤ e < 2 ^ Z.of_nat (dist_base s).2 →
  read_dist s (num_bits (dist_base s).2 e ++ rest) = Ok ((dist_base s).1 + e, rest).
Proof.
  intros Hs. unfold dist_base, read_dist. destruct (Z.ltb_spec s 4); cbn [fst snd].
  - change (2 ^ Z.of_nat 0) with 1. intros He. replace e with 0 by lia. cbn. by rewrite Z.add_0_r.
  - intros He. unfold maxNumDist. destruct (Z.ltb_spec s 30); [|lia].
    rewrite take_bits_num by done. cbn [mbind res_bind].
    set (nb := Z.shiftr (s - 2) 1) in *.
    assert (0 ≤ nb) as Hnb by (unfold nb; apply Z.shiftr_nonneg; lia).
    rewrite Z2Nat.id in He by done. rewrite <- (Z.add_assoc _ (Z.shiftl (Z.land s 1) nb) e).
    rewrite <- (Z.add_lor_land (Z.shiftl (Z.land s 1) nb) e).
    replace (Z.land (Z.shiftl (Z.land s 1) nb) e) with 0; [by rewrite Z.add_0_r|].
    symmetry. apply Z.bits_inj'. intros i Hi. rewrite Z.land_spec, Z.bits_0, Z.shiftl_spec by done.
    destruct (Z.lt_ge_cases i nb).
    + by rewrite (Z.testbit_neg_r _ (i - nb)) by lia.
    + rewrite andb_comm. destruct (Z.eq_dec e 0) as [->|]; [by rewrite Z.bits_0|].
      rewrite (Z.bits_above_log2 e i); [done|lia|]. apply Z.log2_lt_pow2; [lia|].
      eapply Z.lt_le_trans; [apply He|]. by apply Z.pow_le_mono_r.
Qed.

Lemma dist_sym_fixed s rest :
  0 ≤ s < 32 → dist_sym None (reverse (num_bits 5 s) ++ rest) = Ok (s, rest).
Proof.
  intros Hs. unfold dist_sym.
  assert (length (reverse (num_bits 5 s)) = 5%nat) as Hl by (by rewrite length_reverse, length_num_bits).
  rewrite take_app_length', drop_app_length', Hl, reverse_involutive by lia. cbn [Nat.ltb Nat.leb].
  by rewrite value_num_bits.
Qed.

Lemma length_repeat_from n : ∀ dist out, length (repeat_from n dist out) = (n + length out)%nat.
Proof. induction n as [|n IH]; intros dist out; cbn [repeat_from]; [done|]. rewrite IH, length_app. cbn. lia. Qed.

(** The copy, seen from the end of the output. *)
Lemma copyHistory_reverse n : ∀ dist out,
  1 ≤ dist ≤ Z.of_nat (length out) →
  copyHistory n (Z.to_nat dist) (reverse out) = reverse (repeat_from n dist out).
Proof.
  induction n as [|n IH]; intros dist out Hd; cbn [copyHistory repeat_from]; [done|].
  rewrite <- IH by (rewrite length_app; cbn; lia). f_equal. rewrite reverse_app. cbn. f_equal.
  unfold reverse; rewrite <- rev_alt, List.rev_nth by lia. f_equal. lia.
Qed.

(** What a block needs of its codes: the code of literals and lengths asks for no more bits
    than the end marker has. *)
Record coder (hl : decoder) (hd : option decoder) : Prop := Coder {
  co_lit : decoder_ok hl;
  co_prefix : prefix_free (h_codes hl) = true;
  co_end : has_code hl 256 = true;
  co_min : (h_min hl ≤ length (code_of hl 256))%nat;
  co_dist : ∀ h, hd = Some h → decoder_ok h ∧ code_ok h = true;
}.

Lemma fixed_coder : coder fixedHuffmanDecoder None.
Proof.
  destruct (code_ok_spec _ fixed_code_ok) as [Hp Hmin].
  split; [apply fixed_decoder_ok|done|by apply fixed_has_code|by apply Hmin, fixed_has_code|done].
Qed.

Section coder.
Context (hl : decoder) (hd : option decoder) (Hco : coder hl hd).

Lemma dist_sym_put s rest :
  0 ≤ s < 32 → match hd with Some hd => has_code hd s = true | None => True end →
  dist_sym hd (put_dist hd s ++ rest) = Ok (s, rest).
Proof using Hco.
  intros Hs Hcode. pose proof (co_dist _ _ Hco) as Hd. destruct hd as [h|].
  - apply huffSym_code_ok; [by apply Hd|done].
  - by apply dist_sym_fixed.
Qed.

Lemma read_copy_token len dist n rest :
  3 ≤ len ≤ 258 → 1 ≤ dist ≤ 32768 → dist ≤ n →
  match hd with Some hd => has_code hd (dist_symbol dist) = true | None => True end →
  let '(v, (b, k)) := length_symbol len in
  let s := dist_symbol dist in
  read_copy hd v n (num_bits k (len - b) ++ put_dist hd s ++
                    num_bits (dist_base s).2 (dist - (dist_base s).1) ++ rest) =
  Ok (len, dist, rest).
Proof using Hco.
  intros Hlen Hdist Hn Hcode. pose proof (length_symbol_spec len Hlen) as Hl.
  destruct (length_symbol len) as [v [b k]]. destruct Hl as (Hv & Hb & He). cbn zeta.
  destruct (dist_symbol_spec dist Hdist) as [Hs Hd].
  unfold read_copy. rewrite Hb. cbn [of_option mbind res_bind].
  rewrite take_bits_num by done. cbn [mbind res_bind].
  rewrite dist_sym_put by (done || lia). cbn [mbind res_bind].
  rewrite read_dist_symbol by done. cbn [mbind res_bind].
  replace ((dist_base (dist_symbol dist)).1 + (dist - (dist_base (dist_symbol dist)).1)) with dist by lia.
  destruct (Z.ltb_spec n dist); [lia|]. cbn. do 3 f_equal. lia.
Qed.

(** ** Blocks *)

(** A token is read back, whatever follows it, the end marker at least. *)
Lemma huffmanBlock_token t out fuel rest :
  token_ok hl hd out t → (h_min hl ≤ length rest)%nat → (length (put_token hl hd t ++ rest) ≤ fuel)%nat →
  huffmanBlock (S fuel) hl hd (reverse out) (put_token hl hd t ++ rest) =
  huffmanBlock (S (length rest)) hl hd (reverse (expand_token out t)) rest.
Proof using Hco.
  intros Ht Hrest Hf. rewrite length_app in Hf. destruct Hco as [Hdl Hp Hend Hmin Hdd].
  assert (∀ f out, (length rest < f)%nat →
    huffmanBlock f hl hd out rest = huffmanBlock (S (length rest)) hl hd out rest) as Hfuel.
  { intros f o Hlt. apply huffmanBlock_fuel; [done|naive_solver|done|lia]. }
  assert (∀ s r, has_code hl s = true → (length rest ≤ length r)%nat →
    huffSym hl (code_of hl s ++ r) = Ok (s, r)) as Hsym.
  { intros s r Hs Hr. apply huffSym_code; [done..|]. rewrite length_app. lia. }
  destruct t as [b|len dist]; cbn [token_ok put_token expand_token] in *.
  - destruct Ht as [[??] Hcode]. cbn [huffmanBlock]. rewrite Hsym by done.
    destruct (Z.ltb_spec b 256); [|lia]. rewrite reverse_app. apply Hfuel.
    pose proof (has_code_length hl b Hdl Hcode). lia.
  - destruct Ht as (Hlen & Hdist & Hout & Hcode & Hcode').
    pose proof (read_copy_token len dist (Z.of_nat (length out)) rest Hlen Hdist Hout Hcode') as Hc.
    pose proof (length_symbol_spec len Hlen) as Hl.
    destruct (length_symbol len) as [v [b k]]. destruct Hl as (Hv & _ & _). cbn zeta in Hc. cbn [fst] in Hcode.
    pose proof (has_code_length hl v Hdl Hcode).
    rewrite <- !app_assoc. cbn [huffmanBlock]. rewrite Hsym by (rewrite ?length_app; first [done|lia]).
    destruct (Z.ltb_spec v 256); [lia|]. destruct (Z.eqb_spec v 256); [lia|].
    rewrite length_reverse, Hc, copyHistory_reverse by lia. apply Hfuel.
    rewrite !length_app in Hf. lia.
Qed.

Lemma huffmanBlock_tokens ts : ∀ out fuel rest,
  tokens_ok hl hd out ts → (length (put_tokens hl hd ts ++ rest) ≤ fuel)%nat →
  huffmanBlock (S fuel) hl hd (reverse out) (put_tokens hl hd ts ++ rest) =
  (reverse (fold_left expand_token ts out), Ok rest).
Proof using Hco.
  unfold put_tokens. induction ts as [|t ts IH]; intros out fuel rest Hok Hf.
  - cbn [mbind list_bind app huffmanBlock fold_left]. destruct Hco as [Hdl Hp Hend Hmin Hdd].
    rewrite huffSym_code by (rewrite ?length_app; first [done|lia]). done.
  - destruct Hok as [Ht Hok]. rewrite bind_cons, <- !app_assoc in Hf |- *.
    rewrite huffmanBlock_token; [|done| |done].
    + rewrite app_assoc. apply IH; [done|]. by rewrite <- app_assoc.
    + rewrite !length_app. pose proof (co_min _ _ Hco). lia.
Qed.
End coder.

(** ** Dynamic codes *)

Lemma read_codebits_put vals : ∀ order arr rest,
  length order = length vals → forallb (λ n, n <? 8)%nat vals = true →
  read_codebits order arr ((vals ≫= λ n, num_bits 3 (Z.of_nat n)) ++ rest) =
  Ok (place order vals arr, rest).
Proof.
  induction vals as [|v vals IH]; intros [|i order] arr rest Hlen Hv; try done.
  cbn [forallb] in Hv. apply andb_true_iff in Hv as [H8 Hv]. apply Nat.ltb_lt in H8.
  rewrite bind_cons, <- app_assoc. cbn [read_codebits].
  rewrite take_bits_num by (change (2 ^ Z.of_nat 3) with 8; lia). cbn [mbind res_bind].
  rewrite Nat2Z.id. rewrite IH by (done || (cbn in Hlen; lia)). done.
Qed.

Lemma expand_op_length h known o :
  op_ok h known o = true → (length known < length (expand_op known o))%nat.
Proof.
  destruct o as [n|k|k]; cbn [op_ok expand_op length]; intros Ho; bool_simp;
    rewrite ?length_app, ?length_replicate; cbn [length]; lia.
Qed.

Lemma expand_ops_length h os : ∀ known,
  ops_ok h known os = true → (length known ≤ length (fold_left expand_op os known))%nat.
Proof.
  induction os as [|o os IH]; intros known; cbn [ops_ok fold_left]; [done|].
  intros [Ho%expand_op_length Hos%IH]%andb_true_iff. lia.
Qed.

(** One length, or several: as many rounds of the loop. *)
Lemma read_lengths_op h n known o fuel rest :
  code_ok h = true → op_ok h known o = true → (length (expand_op known o) ≤ n)%nat →
  read_lengths (S fuel) h n known (put_op h o ++ rest) = read_lengths fuel h n (expand_op known o) rest.
Proof.
  intros Hh Ho Hn. pose proof (expand_op_length h known o Ho) as Hlt. cbn [read_lengths].
  destruct (Nat.leb_spec n (length known)); [lia|].
  destruct o as [m|k|k]; cbn [op_ok put_op expand_op] in *; bool_simp.
  - rewrite huffSym_code_ok by done. cbn [mbind res_bind].
    destruct (Z.ltb_spec (Z.of_nat m) 16); [|lia]. by rewrite Nat2Z.id.
  - rewrite <- app_assoc, huffSym_code_ok by done. cbn [mbind res_bind Z.ltb Z.eqb Z.compare Pos.compare Pos.compare_cont Pos.eqb].
    destruct known as [|b known]; [done|]. cbn [head of_option mbind res_bind].
    rewrite take_bits_num by (change (2 ^ Z.of_nat 2) with 4; lia). cbn [mbind res_bind].
    replace (3 + Z.to_nat (Z.of_nat k - 3))%nat with k by lia.
    rewrite length_app, length_replicate in Hn.
    destruct (Nat.ltb_spec n (length (b :: known) + k)); [lia|]. done.
  - rewrite length_app, length_replicate in Hn. destruct (Nat.ltb_spec k 11).
    + rewrite <- app_assoc, huffSym_code_ok by done. cbn [mbind res_bind Z.ltb Z.eqb Z.compare Pos.compare Pos.compare_cont Pos.eqb].
      rewrite take_bits_num by (change (2 ^ Z.of_nat 3) with 8; lia). cbn [mbind res_bind].
      replace (3 + Z.to_nat (Z.of_nat k - 3))%nat with k by lia.
      destruct (Nat.ltb_spec n (length known + k)); [lia|]. done.
    + rewrite <- app_assoc, huffSym_code_ok by done. cbn [mbind res_bind Z.ltb Z.eqb Z.compare Pos.compare Pos.compare_cont Pos.eqb].
      rewrite take_bits_num by (change (2 ^ Z.of_nat 7) with 128; lia). cbn [mbind res_bind].
      replace (11 + Z.to_nat (Z.of_nat k - 11))%nat with k by lia.
      destruct (Nat.ltb_spec n (length known + k)); [lia|]. done.
Qed.

Lemma read_lengths_ops h os : ∀ known fuel n rest,
  code_ok h = true → ops_ok h known os = true → length (fold_left expand_op os known) = n →
  (n ≤ length known + fuel)%nat →
  read_lengths fuel h n known ((os ≫= put_op h) ++ rest) =
  Ok (reverse (fold_left expand_op os known), rest).
Proof.
  induction os as [|o os IH]; intros known fuel n rest Hh Hos Hn Hf.
  - cbn [fold_left mbind list_bind app] in *. destruct fuel; cbn [read_lengths];
      by destruct (Nat.leb_spec n (length known)); [|lia].
  - cbn [ops_ok fold_left] in *. apply andb_true_iff in Hos as [Ho Hos].
    pose proof (expand_op_length h known o Ho). pose proof (expand_ops_length h os _ Hos).
    destruct fuel as [|fuel]; [lia|]. rewrite bind_cons, <- app_assoc.
    rewrite read_lengths_op by (done || lia). apply IH; [done..|lia].
Qed.

(** What a well-formed header says. *)
Lemma header_ok_spec c :
  header_ok c = true →
  (257 ≤ nlit c ≤ 286)%nat ∧ (1 ≤ ndist c ≤ 30)%nat ∧ (4 ≤ length (codebits c) ≤ 19)%nat ∧
  forallb (λ n, n <? 8)%nat (codebits c) = true ∧ length (lengths_of c) = (nlit c + ndist c)%nat ∧
  ∃ h h1 h2, decoders c = Some (h, h1, h2) ∧ code_ok h = true ∧ ops_ok h [] (ops c) = true ∧
    coder h1 (Some h2).
Proof.
  unfold header_ok. destruct (decoders c) as [[[h h1] h2]|] eqn:Hd; [|by rewrite andb_false_r].
  intros H. bool_simp. split_and!; try done; try lia. exists h, h1, h2. split; [done|].
  unfold decoders in Hd. apply bind_Some in Hd as (g & Hg & Hd).
  apply bind_Some in Hd as (g1 & Hg1 & Hd). apply bind_Some in Hd as (g2 & Hg2 & [= <- <- <-]).
  apply init_code_ok in Hg. split; [done|]. split; [done|].
  destruct (code_ok_spec g1) as [Hp Hm]; [by apply (init_code_ok _ _ Hg1)|].
  assert (nth 256 (take (nlit c) (lengths_of c)) O = nth 256 (lengths_of c) O) as Hnth
    by (rewrite <- (take_drop (nlit c) (lengths_of c)) at 2; symmetry; apply app_nth1; rewrite length_take; lia).
  assert (has_code g1 256 = true) as Hend by done.
  split; [by apply (init_ok _ _ Hg1)|done|done|..].
  - pose proof (Hm _ Hend). pose proof (init_code_length _ _ _ Hg1 Hend) as Hl. cbn [h_min].
    change (Z.to_nat 256) with 256%nat in Hl. rewrite Hnth in Hl. rewrite <- Hl. by apply Nat.max_lub.
  - intros ? [= <-]. split; [by apply (init_ok _ _ Hg2)|by apply (init_code_ok _ _ Hg2)].
Qed.

(** The header is read back. *)
Lemma readHuffman_header c h h1 h2 rest :
  header_ok c = true → decoders c = Some (h, h1, h2) →
  readHuffman (put_header h c ++ rest) = Ok (h1, h2, rest).
Proof.
  intros Hok Hdec. pose proof (header_ok_spec c Hok) as (Hl & Hd & Hc & H8 & Hlen & h' & h1' & h2' & Hdec' & Hh & Hops & _).
  rewrite Hdec in Hdec'. injection Hdec' as <- <- <-.
  unfold decoders in Hdec. apply bind_Some in Hdec as (g & Hg & Hdec).
  apply bind_Some in Hdec as (g1 & Hg1 & Hdec). apply bind_Some in Hdec as (g2 & Hg2 & [= -> <- ->]).
  unfold readHuffman, put_header. rewrite <- !app_assoc.
  rewrite length_take, !length_app, !length_num_bits.
  destruct (Nat.ltb_spec (14 `min` (5 + (5 + (4 + (length (codebits c ≫= λ n, num_bits 3 (Z.of_nat n)) +
    (length (ops c ≫= put_op h) + length rest)))))) 14); [lia|]. cbn [negb check mbind res_bind].
  rewrite take_bits_num by (change (2 ^ Z.of_nat 5) with 32; lia). cbn [mbind res_bind].
  unfold maxNumLit, maxNumDist. destruct (Z.ltb_spec 286 (Z.of_nat (nlit c) - 257 + 257)); [lia|].
  cbn [negb check mbind res_bind].
  rewrite take_bits_num by (change (2 ^ Z.of_nat 5) with 32; lia). cbn [mbind res_bind].
  destruct (Z.ltb_spec 30 (Z.of_nat (ndist c) - 1 + 1)); [lia|]. cbn [negb check mbind res_bind].
  rewrite take_bits_num by (change (2 ^ Z.of_nat 4) with 16; lia). cbn [mbind res_bind].
  replace (Z.to_nat (Z.of_nat (length (codebits c)) - 4 + 4)) with (length (codebits c)) by lia.
  rewrite read_codebits_put; [|rewrite length_take; cbn; lia|done]. cbn [mbind res_bind].
  replace (place (take (length (codebits c)) codeOrder) (codebits c) (replicate 19 O))
    with (place codeOrder (codebits c) (replicate 19 O)).
  2:{ unfold place. f_equal. symmetry. apply zip_with_take_l. }
  rewrite Hg. cbn [of_option mbind res_bind].
  replace (Z.to_nat (Z.of_nat (nlit c) - 257 + 257 + (Z.of_nat (ndist c) - 1 + 1))) with (nlit c + ndist c)%nat by lia.
  replace (Z.to_nat (Z.of_nat (nlit c) - 257 + 257)) with (nlit c) by lia.
  unfold lengths_of in Hlen, Hg1, Hg2 |- *. rewrite length_reverse in Hlen.
  rewrite read_lengths_ops by (first [done|cbn; lia]). cbn [mbind res_bind].
  rewrite Hg1, Hg2. done.
Qed.

(** ** Blocks in a stream *)

Lemma dataBlock_stored data out pad rest :
  Forall is_byte data → Z.of_nat (length data) ≤ 65535 → (length pad < 8)%nat →
  (length rest mod 8 = 0)%nat →
  let n := Z.of_nat (length data) in
  dataBlock (reverse out) (pad ++ num_bits 16 n ++ num_bits 16 (65535 - n) ++ bits_of data ++ rest) =
  ((reverse (out ++ data), Ok rest), (length data =? 0)%nat).
Proof.
  intros Hb Hn Hp Hrest n. unfold dataBlock.
  assert (length (pad ++ num_bits 16 n ++ num_bits 16 (65535 - n) ++ bits_of data ++ rest) mod 8 =
          length pad)%nat as Hmod.
  { rewrite !length_app, !length_num_bits, length_bits_of. apply Nat.Div0.div_exact in Hrest.
    rewrite Hrest. set (q := (length rest / 8)%nat).
    replace (length pad + (16 + (16 + (8 * length data + 8 * q))))%nat
      with (length pad + (4 + length data + q) * 8)%nat by lia.
    rewrite Nat.Div0.mod_add. by apply Nat.mod_small. }
  rewrite Hmod, drop_app_length.
  assert (0 ≤ n < 2 ^ Z.of_nat 16) by (change (2 ^ Z.of_nat 16) with 65536; lia).
  assert (0 ≤ 65535 - n < 2 ^ Z.of_nat 16) by (change (2 ^ Z.of_nat 16) with 65536; lia).
  rewrite length_take, !length_app, !length_num_bits.
  destruct (Nat.ltb_spec (32 `min` (16 + (16 + (length (bits_of data) + length rest)))) 32); [lia|].
  cbn [negb check mbind res_bind]. rewrite take_bits_num by done. cbn [mbind res_bind].
  rewrite take_bits_num by done. cbn [mbind res_bind]. rewrite Z.eqb_refl. cbn [check mbind res_bind].
  unfold n. rewrite Nat2Z.id. rewrite bytes_of_bits_of by auto. rewrite Nat.ltb_irrefl.
  rewrite drop_app_length' by (by rewrite length_bits_of). by rewrite reverse_app.
Qed.

Lemma padding_aligns pos :
  ((pos + length (padding pos)) mod 8 = 0)%nat ∧ (length (padding pos) < 8)%nat.
Proof.
  unfold padding. rewrite length_replicate. split; [|by apply Nat.mod_upper_bound].
  pose proof (Nat.mod_upper_bound pos 8 ltac:(done)) as Hr. set (r := (pos mod 8)%nat) in *.
  assert (pos = 8 * (pos / 8) + r)%nat as Hp by (by apply Nat.div_mod).
  destruct (Nat.eq_dec r O) as [H0|H0].
  - rewrite H0 in *. cbn. rewrite Nat.add_0_r. done.
  - rewrite (Nat.mod_small (8 - r)) by lia.
    replace (pos + (8 - r))%nat with ((pos / 8 + 1) * 8)%nat by lia. apply Nat.Div0.mod_mul.
Qed.

Lemma put_blocks_aligned bs : ∀ pos, ((pos + length (put_blocks pos bs)) mod 8 = 0)%nat.
Proof.
  induction bs as [|b bs IH]; intros pos; cbn [put_blocks]; [apply padding_aligns|].
  set (l := _ :: _). rewrite length_app, Nat.add_assoc. apply IH.
Qed.

Lemma take_header f t0 t1 l :
  take_bits 3 (f :: t0 :: t1 :: l) = Ok (value [f; t0; t1], l) ∧
  Z.testbit (value [f; t0; t1]) 0 = f ∧ Z.shiftr (value [f; t0; t1]) 1 = Z.b2z t0 + 2 * Z.b2z t1.
Proof. by destruct f, t0, t1. Qed.

(** One block, the last one or not. *)
Lemma nextBlock_block final b pos out flushed fuel rest :
  block_ok out b → (∀ data, b = Stored data → (length rest mod 8 = 0)%nat) →
  ∃ flushed', nextBlock (S fuel) (reverse out) flushed (final :: put_block pos b ++ rest) =
    if final then (reverse (expand_block out b), flushed', None)
    else nextBlock fuel (reverse (expand_block out b)) flushed' rest.
Proof.
  intros Hb Hrest. destruct b as [data|ts|c ts]; cbn [put_block app expand_block block_ok] in *.
  - destruct (take_header final false false
      ((padding (pos + 2) ++ num_bits 16 (Z.of_nat (length data)) ++
        num_bits 16 (65535 - Z.of_nat (length data)) ++ bits_of data) ++ rest)) as (Ht & Hf & Hs).
    cbn [nextBlock]. rewrite Ht, Hf, Hs. cbn [Z.b2z Z.mul Z.add Z.eqb].
    rewrite <- !app_assoc. destruct Hb as [Hb Hn].
    rewrite dataBlock_stored; [|done|done|apply padding_aligns|by eapply Hrest].
    destruct final; by eexists.
  - destruct (take_header final true false (put_tokens fixedHuffmanDecoder None ts ++ rest)) as (Ht & Hf & Hs).
    cbn [nextBlock]. rewrite Ht, Hf, Hs. cbn [Z.b2z Z.mul Z.add Z.eqb Pos.eqb Pos.mul Pos.add].
    rewrite (huffmanBlock_tokens _ _ fixed_coder) by done.
    destruct final; by eexists.
  - destruct Hb as [Hok Hts]. pose proof (header_ok_spec c Hok) as (_ & _ & _ & _ & _ & h & h1 & h2 & Hd & _ & _ & Hco).
    rewrite Hd in *.
    destruct (take_header final false true ((put_header h c ++ put_tokens h1 (Some h2) ts) ++ rest)) as (Ht & Hf & Hs).
    cbn [nextBlock]. rewrite Ht, Hf, Hs. cbn [Z.b2z Z.mul Z.add Z.eqb Pos.eqb Pos.mul Pos.add].
    rewrite <- app_assoc, (readHuffman_header c h h1 h2) by done.
    rewrite (huffmanBlock_tokens _ _ Hco) by done.
    destruct final; by eexists.
Qed.

Lemma stored_aligned pos data : ((pos + length (put_block pos (Stored data))) mod 8 = 0)%nat.
Proof.
  cbn [put_block]. rewrite !length_app, !length_num_bits, length_bits_of. cbn [length].
  replace (pos + (2 + (length (padding (pos + 2)) + (16 + (16 + 8 * length data)))))%nat
    with ((pos + 2 + length (padding (pos + 2))) + (4 + length data) * 8)%nat by lia.
  rewrite Nat.Div0.mod_add. apply padding_aligns.
Qed.

Lemma nextBlock_blocks bs : ∀ pos out flushed fuel rest,
  bs ≠ [] → blocks_ok out bs → (length rest mod 8 = 0)%nat →
  (length (put_blocks pos bs ++ rest) < fuel)%nat →
  ∃ flushed', nextBlock fuel (reverse out) flushed (put_blocks pos bs ++ rest) =
              (reverse (fold_left expand_block bs out), flushed', None).
Proof.
  induction bs as [|b bs IH]; intros pos out flushed [|fuel] rest Hne Hok Hrest Hf; try done; [lia|].
  destruct Hok as [Hb Hok]. cbn [put_blocks fold_left] in *.
  set (final := match bs with [] => true | _ => false end) in *.
  rewrite <- app_assoc in Hf |- *. cbn [app length] in Hf |- *.
  set (next := put_blocks _ bs) in *.
  assert ((length (next ++ rest) + (pos + S (length (put_block (pos + 1) b)))) mod 8 = 0)%nat as Hal.
  { rewrite length_app. unfold next. cbn [length].
    pose proof (put_blocks_aligned bs (pos + S (length (put_block (pos + 1) b)))) as H.
    apply Nat.Div0.div_exact in H, Hrest. rewrite Hrest. rewrite (Nat.add_comm (length (put_blocks _ bs))), <- Nat.add_assoc, (Nat.add_comm (length (put_blocks _ bs))), H.
    rewrite <- Nat.mul_add_distr_l, Nat.mul_comm. apply Nat.Div0.mod_mul. }
  edestruct (nextBlock_block final b (pos + 1) out flushed fuel (next ++ rest)) as [flushed' ->].
  - done.
  - intros data ->. pose proof (stored_aligned (pos + 1) data) as H.
    rewrite <- Nat.Div0.add_mod_idemp_r in Hal.
    replace (pos + S (length (put_block (pos + 1) (Stored data))))%nat
      with (pos + 1 + length (put_block (pos + 1) (Stored data)))%nat in Hal by lia.
    by rewrite H, Nat.add_0_r in Hal.
  - destruct bs as [|b' bs]; [by eexists|]. cbn [final]. apply IH; try done. fold next. rewrite !length_app in Hf. rewrite length_app. lia.
Qed.

Lemma deflate_bits bs :
  bits_of (deflate bs) = put_blocks 0 bs ∧ Forall is_byte (deflate bs).
Proof.
  pose proof (put_blocks_aligned bs 0) as Hal. apply Nat.Div0.div_exact in Hal.
  destruct (bits_of_bytes _ _ Hal) as (l & Hl & Hlen & Hb). unfold deflate. rewrite Hl.
  pose proof (bytes_of_bits_of l (length (bits_of l)) [] Hb) as Hd. rewrite app_nil_r in Hd.
  rewrite Hd; [done|rewrite length_bits_of; lia|right; cbn; lia].
Qed.

(** Whatever follows the last block, the reader yields what the blocks stand for, and then
    [io.EOF]. *)
Lemma flate_deflate bs junk :
  bs ≠ [] → blocks_ok [] bs → Forall is_byte junk →
  let r := flate_NewReader (of_bytes (deflate bs ++ junk)) in
  r_bytes r = of_bytes (expand bs) ∧ r_err r = None.
Proof.
  intros Hne Hok Hj. destruct (deflate_bits bs) as [Hbits Hb]. unfold flate_NewReader.
  rewrite bytes_of_bytes by are_bytes.
  unfold bits_of. rewrite bind_app. fold (bits_of (deflate bs)) (bits_of junk). rewrite Hbits.
  destruct (nextBlock_blocks bs 0 [] 0 (S (length (put_blocks 0 bs ++ bits_of junk))) (bits_of junk))
    as [flushed' Hn]; [done|done| |lia|].
  - rewrite length_bits_of, Nat.mul_comm. apply Nat.Div0.mod_mul.
  - change (reverse []) with (@nil Z) in Hn. rewrite Hn. cbn [r_bytes r_err].
    by rewrite reverse_involutive.
Qed.

(** *** An example *)

(** A code of 257 lengths: eight bits for all but the last two, written as repetitions. *)
Definition sample_header : header := Header 257 2
  [2; 0; 0; 0; 2; 0; 2; 0; 0; 0; 0; 0; 0; 0; 0; 0; 0; 2]%nat
  (Len 8 :: replicate 42 (Again 6) ++ [Len 8; Len 8; Len 9; Len 9; Len 1; Len 1]).

Example sample_dynamic :
  header_ok sample_header = true ∧
  let b := Dynamic sample_header (Lit <$> [97; 98; 99]) in
  let r := flate_NewReader (of_bytes (deflate [Stored [120]; b])) in
  r_bytes r = "xabc"%string ∧ r_err r = None.
Proof. by vm_compute. Qed.
