(* ===== verification/GoXml.v ===== *)
(** * GoXml

    Go's [encoding/xml] as the [saml] package uses it: a sequence of tokens that ends in
    [io.EOF] or in a syntax error. [Token] is modelled on top of [RawToken]: it resolves
    namespace prefixes and matches end elements with start elements. A stream that ends in
    [io.EOF] is the flattening of a forest, and the names in it are resolved lexically. *)

From S2P Require Import Prelude.

Record Name : Type := MkName { Space : string; Local : string }.
Record Attr : Type := MkAttr { a_Name : Name; Value : string }.

#[export] Instance Name_eq_dec : EqDecision Name.
Proof. solve_decision. Defined.

(** A [xml.Token]: character data, comments, directives and processing instructions
    are [OtherToken]. *)
Inductive Token : Type :=
| StartElement (n : Name) (attrs : list Attr)
| EndElement (n : Name)
| OtherToken.

Inductive stream_end : Type := EOF | SyntaxError.

Record token_stream : Type := TokenStream { tokens : list Token; ended : stream_end }.

(** ** Nesting *)

(** The open elements after the tokens, innermost first; [None] when an end tag does
    not match. *)
Fixpoint nest (stack : list Name) (ts : list Token) : option (list Name) :=
  match ts with
  | [] => Some stack
  | StartElement n _ :: ts => nest (n :: stack) ts
  | EndElement n :: ts =>
      match stack with
      | m :: stack => if decide (m = n) then nest stack ts else None
      | [] => None
      end
  | OtherToken :: ts => nest stack ts
  end.

(** Start and end elements match, and [io.EOF] comes only when all are closed. *)
Definition stream_ok (s : token_stream) : Prop :=
  ∃ stack, nest [] (tokens s) = Some stack ∧ (ended s = EOF → stack = []).

(** ** Trees *)

Inductive tree : Type :=
| Elem (n : Name) (attrs : list Attr) (children : list tree)
| Other.

Section tree_induction.
Context (P : tree → Prop) (HOther : P Other)
        (HElem : ∀ n attrs ch, Forall P ch → P (Elem n attrs ch)).

Fixpoint tree_ind' (t : tree) : P t :=
  match t with
  | Other => HOther
  | Elem n attrs ch =>
      HElem n attrs ch
        ((fix all (l : list tree) : Forall P l :=
            match l with
            | [] => List.Forall_nil P
            | t :: l => @List.Forall_cons tree P t l (tree_ind' t) (all l)
            end) ch)
  end.
End tree_induction.

Fixpoint flatten (t : tree) : list Token :=
  match t with
  | Other => [OtherToken]
  | Elem n attrs ch => StartElement n attrs :: flat_map flatten ch ++ [EndElement n]
  end.

Definition flatten_forest (f : list tree) : list Token := flat_map flatten f.

(** The elements of a forest, one level: name, attributes and children. *)
Definition elem_of_tree (t : tree) : option (Name * list Attr * list tree) :=
  match t with Elem n a ch => Some (n, a, ch) | Other => None end.
Definition elems (f : list tree) : list (Name * list Attr * list tree) := omap elem_of_tree f.
Definition elem_names (f : list tree) : list Name := (λ e, e.1.1) <$> elems f.

(** Closing the innermost open elements one after the other: each level holds the trees
    completed so far (in reverse) before its element was opened. *)
Fixpoint close (levels : list (Name * list Attr * list tree)) (cur : list tree)
    (ts : list Token) : option (list tree) :=
  match ts with
  | [] => match levels with [] => Some (reverse cur) | _ => None end
  | StartElement n a :: ts => close ((n, a, cur) :: levels) [] ts
  | EndElement n :: ts =>
      match levels with
      | (m, a, above) :: levels =>
          if decide (m = n) then close levels (Elem m a (reverse cur) :: above) ts else None
      | [] => None
      end
  | OtherToken :: ts => close levels (Other :: cur) ts
  end.

Lemma close_nest ts : ∀ levels cur stack,
  nest ((λ l, l.1.1) <$> levels) ts = Some stack → stack = [] →
  is_Some (close levels cur ts).
Proof.
  induction ts as [|[n a|n|] ts IH]; intros levels cur stack Hn Hs; cbn in *.
  - injection Hn as <-. by destruct levels as [|l levels]; [eauto|].
  - by eapply (IH ((n, a, cur) :: levels)).
  - destruct levels as [|[[m a] above] levels]; cbn in *; [done|].
    destruct (decide (m = n)); [|done]. by eapply IH.
  - by eapply IH.
Qed.

(** The tokens already read: the completed trees under each open element. *)
Fixpoint open_tokens (levels : list (Name * list Attr * list tree)) (cur : list tree)
    : list Token :=
  match levels with
  | [] => flatten_forest (reverse cur)
  | (n, a, above) :: levels =>
      open_tokens levels above ++ StartElement n a :: flatten_forest (reverse cur)
  end.

Lemma flatten_forest_app f g : flatten_forest (f ++ g) = flatten_forest f ++ flatten_forest g.
Proof. apply flat_map_app. Qed.

Lemma open_tokens_cons levels t cur :
  open_tokens levels (t :: cur) = open_tokens levels cur ++ flatten t.
Proof.
  destruct levels as [|[[n a] above] levels]; cbn [open_tokens]; rewrite reverse_cons, flatten_forest_app.
  - unfold flatten_forest at 2; cbn. by rewrite app_nil_r.
  - unfold flatten_forest at 2; cbn. by rewrite app_nil_r, <- app_assoc.
Qed.

Lemma close_flatten ts : ∀ levels cur f,
  close levels cur ts = Some f → open_tokens levels cur ++ ts = flatten_forest f.
Proof.
  induction ts as [|[n a|n|] ts IH]; intros levels cur f Hc; cbn in Hc.
  - destruct levels; [|done]. injection Hc as <-. by rewrite app_nil_r.
  - apply IH in Hc. rewrite <- Hc. cbn [open_tokens]. by rewrite <- app_assoc.
  - destruct levels as [|[[m a] above] levels]; [done|].
    destruct (decide (m = n)) as [->|]; [|done]. apply IH in Hc. rewrite <- Hc.
    rewrite open_tokens_cons. cbn [open_tokens flatten].
    unfold flatten_forest. by rewrite <- !app_assoc; cbn; rewrite <- app_assoc.
  - apply IH in Hc. by rewrite <- Hc, open_tokens_cons, <- app_assoc.
Qed.

(** A complete stream is a forest. *)
Lemma stream_forest s :
  stream_ok s → ended s = EOF → ∃ f, tokens s = flatten_forest f.
Proof.
  intros (stack & Hn & Hs) He. specialize (Hs He).
  destruct (close_nest (tokens s) [] [] stack Hn Hs) as [f Hf].
  exists f. by apply close_flatten in Hf.
Qed.

(** The tokens of a document, to evaluate the scanners with. *)
Definition document (f : list tree) : token_stream := TokenStream (flatten_forest f) EOF.

Lemma nest_flatten t : ∀ stack rest, nest stack (flatten t ++ rest) = nest stack rest.
Proof.
  induction t as [|n a ch IH] using tree_ind'; intros stack rest; [done|].
  cbn [flatten app nest]. rewrite <- app_assoc. cbn [app].
  assert (∀ stack rest, nest stack (flat_map flatten ch ++ rest) = nest stack rest) as ->.
  { clear stack rest. induction IH as [|t ch Ht _ IHch]; intros stack rest; [done|].
    cbn [flat_map]. by rewrite <- app_assoc, Ht, IHch. }
  cbn. by rewrite decide_True.
Qed.

(** Every document is a token stream the decoder may return. *)
Lemma document_stream_ok f : stream_ok (document f).
Proof.
  exists []. split; [|done]. unfold document, flatten_forest; cbn [tokens].
  induction f as [|t f IH]; [done|]. cbn [flat_map]. by rewrite nest_flatten.
Qed.

(** ** Token on top of RawToken *)

Definition xmlURL : string := "http://www.w3.org/XML/1998/namespace".
Definition xmlnsPrefix : string := "xmlns".
Definition xmlPrefix : string := "xml".

(** The prefixes in scope; the default namespace is that of the empty one. *)
Abbreviation namespaces := (gmap string string).

(** An entry of the decoder's stack: an open element under its raw name, or a prefix with
    what it meant before. *)
Inductive stk : Type :=
| StkStart (n : Name)
| StkNs (prefix : string) (before : option string).

Definition translate (ns : namespaces) (n : Name) (isElementName : bool) : Name :=
  let lookup space := MkName (default space (ns !! space)) (Local n) in
  if bool_decide (Space n = xmlnsPrefix) then n
  else if bool_decide (Space n = ""%string) && negb isElementName then n
  else if bool_decide (Space n = xmlPrefix) then lookup xmlURL
  else if bool_decide (Space n = ""%string) && bool_decide (Local n = xmlnsPrefix) then n
  else lookup (Space n).

Definition push_ns (prefix value : string) (d : namespaces * list stk) : namespaces * list stk :=
  (<[prefix := value]> d.1, StkNs prefix (d.1 !! prefix) :: d.2).

(** The body of the loop over the attributes of a start element. *)
Definition declare_attr (d : namespaces * list stk) (a : Attr) : namespaces * list stk :=
  let d := if bool_decide (Space (a_Name a) = xmlnsPrefix)
           then push_ns (Local (a_Name a)) (Value a) d else d in
  if bool_decide (Space (a_Name a) = ""%string) && bool_decide (Local (a_Name a) = xmlnsPrefix)
  then push_ns "" (Value a) d else d.

(** The loop at the end of [popElement]: undoing the declarations of the element closed. *)
Fixpoint pop_ns (st : list stk) (ns : namespaces) : list stk * namespaces :=
  match st with
  | StkNs p (Some v) :: st => pop_ns st (<[p := v]> ns)
  | StkNs p None :: st => pop_ns st (delete p ns)
  | _ => (st, ns)
  end.

Definition translate_attr (ns : namespaces) (a : Attr) : Attr :=
  MkAttr (translate ns (a_Name a) false) (Value a).

Definition emit (t : Token) (s : token_stream) : token_stream :=
  TokenStream (t :: tokens s) (ended s).

(** The tokens [Token] returns until its first error, for the raw tokens [ts] that end
    in [e]. *)
Fixpoint decode_tokens (ns : namespaces) (st : list stk) (ts : list Token) (e : stream_end)
    : token_stream :=
  match ts with
  | [] => TokenStream [] (match e, st with EOF, [] => EOF | _, _ => SyntaxError end)
  | StartElement n attrs :: ts =>
      let '(ns, st) := fold_left declare_attr attrs (ns, st) in
      emit (StartElement (translate ns n true) (translate_attr ns <$> attrs))
           (decode_tokens ns (StkStart n :: st) ts e)
  | EndElement n :: ts =>
      match st with
      | StkStart m :: st =>
          if decide (m = n) then
            let t := translate ns n true in
            let '(st, ns) := pop_ns st ns in
            emit (EndElement t) (decode_tokens ns st ts e)
          else TokenStream [] SyntaxError
      | _ => TokenStream [] SyntaxError
      end
  | OtherToken :: ts => emit OtherToken (decode_tokens ns st ts e)
  end.

Definition decode (raw : token_stream) : token_stream := decode_tokens ∅ [] (tokens raw) (ended raw).

(** ** Lexical scoping *)

(** The namespaces inside an element, and a tree with its names resolved. *)
Definition declare (ns : namespaces) (attrs : list Attr) : namespaces :=
  (fold_left declare_attr attrs (ns, [])).1.

Fixpoint resolve (ns : namespaces) (t : tree) : tree :=
  match t with
  | Other => Other
  | Elem n attrs ch =>
      let ns := declare ns attrs in
      Elem (translate ns n true) (translate_attr ns <$> attrs) (resolve ns <$> ch)
  end.

Lemma declare_env attrs ns st :
  fold_left declare_attr attrs (ns, st) = (declare ns attrs, (fold_left declare_attr attrs (ns, st)).2).
Proof.
  assert (∀ attrs ns st st', (fold_left declare_attr attrs (ns, st)).1 =
                             (fold_left declare_attr attrs (ns, st')).1) as H.
  { clear. induction attrs as [|a attrs IH]; intros ns st st'; [done|]. cbn [fold_left].
    unfold declare_attr at 2 4, push_ns. repeat case_bool_decide; cbn [fst snd andb]; apply IH. }
  unfold declare. rewrite (H _ ns [] st). apply surjective_pairing.
Qed.

(** The bottom of a stack on which an element may be opened. *)
Definition at_element (st : list stk) : Prop :=
  match st with StkNs _ _ :: _ => False | _ => True end.

(** Undoing the declarations of an element restores what was in scope before it. *)
Lemma pop_declared attrs : ∀ ns st st0 ns0,
  pop_ns st ns = (st0, ns0) → at_element st0 →
  pop_ns (fold_left declare_attr attrs (ns, st)).2 (fold_left declare_attr attrs (ns, st)).1 = (st0, ns0).
Proof.
  induction attrs as [|a attrs IH]; intros ns st st0 ns0 Hp Hst; [done|]. cbn [fold_left].
  assert (∀ p v d, pop_ns d.2 d.1 = (st0, ns0) →
            pop_ns (push_ns p v d).2 (push_ns p v d).1 = (st0, ns0)) as Hpush.
  { intros p v [ns' st'] Hd. cbn in *. destruct (ns' !! p) as [w|] eqn:Hw.
    - by rewrite insert_insert_eq, insert_id.
    - by rewrite delete_insert_id. }
  destruct (declare_attr (ns, st) a) as [ns1 st1] eqn:Ha.
  apply IH; [|done]. unfold declare_attr in Ha.
  apply (f_equal (λ d, pop_ns d.2 d.1)) in Ha. cbn [fst snd] in Ha. rewrite <- Ha.
  destruct (bool_decide (Space (a_Name a) = xmlnsPrefix));
    destruct (bool_decide (Space (a_Name a) = ""%string) && _); repeat apply Hpush; done.
Qed.

(** The decoder inside some open elements: each with its raw name and the namespaces in
    scope in it. *)
Inductive scoped : list (Name * namespaces) → namespaces → list stk → Prop :=
| scoped_nil ns : scoped [] ns []
| scoped_cons levels ns st n attrs :
    scoped levels ns st →
    scoped ((n, declare ns attrs) :: levels) (declare ns attrs)
           (StkStart n :: (fold_left declare_attr attrs (ns, st)).2).

Lemma scoped_at_element levels ns st : scoped levels ns st → at_element st.
Proof. by destruct 1. Qed.

Lemma scoped_pop levels ns st attrs :
  scoped levels ns st →
  pop_ns (fold_left declare_attr attrs (ns, st)).2 (declare ns attrs) = (st, ns).
Proof.
  intros Hs%scoped_at_element. pose proof (pop_declared attrs ns st st ns) as H.
  rewrite declare_env in H. cbn [fst snd] in H. apply H; [|done]. by destruct st as [|[n|p b] st].
Qed.

(** Whatever the raw tokens are, what [Token] returns is nested. *)
Lemma decode_nested ts e : ∀ levels ns st,
  scoped levels ns st →
  ∃ stack, nest ((λ l, translate l.2 l.1 true) <$> levels) (tokens (decode_tokens ns st ts e)) = Some stack ∧
           (ended (decode_tokens ns st ts e) = EOF → stack = []).
Proof.
  induction ts as [|[n attrs|n|] ts IH]; intros levels ns st Hs; cbn [decode_tokens].
  - eexists. split; [done|]. cbn. by destruct e, Hs.
  - rewrite declare_env. cbn [emit tokens ended nest].
    apply (IH ((n, declare ns attrs) :: levels)). by constructor.
  - destruct Hs as [ns|levels ns st m attrs Hs]; [by eexists|].
    destruct (decide (m = n)) as [->|]; [|by eexists].
    rewrite (scoped_pop levels) by done. cbn [emit tokens ended nest fmap list_fmap fst snd].
    rewrite decide_True by done. by apply IH.
  - by apply IH.
Qed.

Lemma decode_stream_ok raw : stream_ok (decode raw).
Proof. apply (decode_nested (tokens raw) (ended raw) [] ∅ []). constructor. Qed.

(** The tokens [ts] before those of [s]. *)
Definition emit_all (ts : list Token) (s : token_stream) : token_stream :=
  TokenStream (ts ++ tokens s) (ended s).

(** The raw tokens of a tree come out as those of the tree resolved, and leave the
    decoder as it was. *)
Lemma decode_tree t : ∀ levels ns st ts e,
  scoped levels ns st →
  decode_tokens ns st (flatten t ++ ts) e = emit_all (flatten (resolve ns t)) (decode_tokens ns st ts e).
Proof.
  induction t as [|n attrs ch IH] using tree_ind'; intros levels ns st ts e Hs; [done|].
  cbn [flatten resolve app decode_tokens]. rewrite declare_env. rewrite <- app_assoc. cbn [app].
  set (ns' := declare ns attrs) in *. set (st' := (fold_left declare_attr attrs (ns, st)).2) in *.
  assert (∀ ts, decode_tokens ns' (StkStart n :: st') (flat_map flatten ch ++ ts) e =
    emit_all (flat_map flatten (resolve ns' <$> ch)) (decode_tokens ns' (StkStart n :: st') ts e)) as ->.
  { clear ts. induction IH as [|t ch Ht _ IHch]; intros ts; [by destruct (decode_tokens _ _ _ _)|].
    cbn [flat_map fmap list_fmap]. rewrite <- app_assoc.
    rewrite (Ht ((n, ns') :: levels)) by by constructor. rewrite IHch. unfold emit_all; cbn [tokens ended].
    by rewrite app_assoc. }
  cbn [decode_tokens]. rewrite decide_True by done. unfold st', ns'. rewrite (scoped_pop levels) by done.
  unfold emit, emit_all; cbn [tokens ended]. by rewrite <- app_comm_cons, <- app_assoc.
Qed.

Lemma decode_forest f : decode (document f) = document (resolve ∅ <$> f).
Proof.
  unfold decode, document. cbn [tokens ended]. unfold flatten_forest.
  assert (∀ f ts, decode_tokens ∅ [] (flat_map flatten f ++ ts) EOF =
            emit_all (flat_map flatten (resolve ∅ <$> f)) (decode_tokens ∅ [] ts EOF)) as H.
  { clear. induction f as [|t f IH]; intros ts; [by destruct (decode_tokens _ _ _ _)|].
    cbn [flat_map fmap list_fmap]. rewrite <- app_assoc, (decode_tree t []) by constructor. rewrite IH.
    unfold emit_all; cbn [tokens ended]. by rewrite app_assoc. }
  specialize (H f []). rewrite app_nil_r in H. rewrite H. unfold emit_all; cbn. by rewrite app_nil_r.
Qed.

(** The raw tokens of a stream that [Token] reads to its end are nested themselves. *)
Lemma decode_raw_nested ts e : ∀ levels ns st,
  scoped levels ns st → ended (decode_tokens ns st ts e) = EOF →
  e = EOF ∧ nest (fst <$> levels) ts = Some [].
Proof.
  induction ts as [|[n attrs|n|] ts IH]; intros levels ns st Hs; cbn [decode_tokens].
  - by destruct e, Hs.
  - rewrite declare_env. cbn [emit ended nest].
    apply (IH ((n, declare ns attrs) :: levels)). by constructor.
  - destruct Hs as [ns|levels ns st m attrs Hs]; [done|].
    destruct (decide (m = n)) as [->|]; [|done]. rewrite (scoped_pop levels) by done.
    cbn [emit ended nest fmap list_fmap fst]. rewrite decide_True by done. by apply IH.
  - by apply IH.
Qed.

(** [Token] reads a stream to its end exactly when the raw tokens are those of a forest,
    and then returns the forest with every name resolved by the declarations of the
    element itself and those around it, the innermost first. *)
Lemma decode_EOF raw s :
  decode raw = s ∧ ended s = EOF ↔ ∃ f, raw = document f ∧ s = document (resolve ∅ <$> f).
Proof.
  split.
  - intros [<- He]. apply (decode_raw_nested _ _ []) in He as [He Hn]; [|constructor].
    destruct (stream_forest raw) as [f Hf]; [by exists []|done|].
    assert (raw = document f) as -> by (destruct raw; cbn in *; by subst).
    exists f. split; [done|apply decode_forest].
  - intros (f & -> & ->). split; [apply decode_forest|done].
Qed.
