(* ===== verification/GoXmlLex.v ===== *)
(** * GoXmlLex

    The lexer of [encoding/xml] in its strict mode: [RawToken] on the bytes of a document.
    The tables of letters allowed in names are a parameter beyond ASCII. A document printed
    from a tree, with the escapes of [xml.EscapeText], is lexed to the tokens of that tree. *)

From S2P Require Import Prelude GoStrings GoXml.
Local Open Scope Z_scope.

(** [unicode.Is(first, r)] and [unicode.Is(second, r)] for the runes past ASCII. *)
Class XmlNames := { wide_first : Z → bool; wide_second : Z → bool }.

(** A step of the lexer: what it read and the rest of the input; [None] is a syntax error. *)
Abbreviation lex A := (option (A * list Z)).

(** ** Characters *)

Definition is_xml_space (b : Z) : bool := (b =? 32) || (b =? 13) || (b =? 10) || (b =? 9).

(** [d.space()] *)
Definition space (l : list Z) : list Z := drop_while is_xml_space l.

Definition letter_byte (c : Z) : bool := between 65 c 90 || between 97 c 122.
Definition digit_byte (c : Z) : bool := between 48 c 57.

Definition isNameByte (c : Z) : bool :=
  letter_byte c || digit_byte c || (c =? 95) || (c =? 58) || (c =? 46) || (c =? 45).

Definition isInCharacterRange (r : Z) : bool :=
  (r =? 9) || (r =? 10) || (r =? 13) || between 32 r 55295 || between 57344 r 65533
  || between 65536 r 1114111.

(** The runes of a text all satisfy [P], and none is an invalid byte. *)
Fixpoint all_runes (fuel : nat) (P : Z → bool) (l : list Z) : bool :=
  match fuel, l with
  | _, [] => true
  | O, _ => false
  | S fuel, _ =>
      let '(r, n) := decode_rune l in
      negb ((r =? RuneError) && (n =? 1)%nat) && P r && all_runes fuel P (drop n l)
  end.

Definition chars_ok (l : list Z) : bool := all_runes (length l) isInCharacterRange l.

(** ** Names *)

Section names.
Context {W : XmlNames}.

Definition first (r : Z) : bool :=
  if r <? 128 then letter_byte r || (r =? 58) || (r =? 95) else wide_first r.
Definition second (r : Z) : bool :=
  if r <? 128 then (r =? 45) || (r =? 46) || digit_byte r else wide_second r.

Definition isName (s : list Z) : bool :=
  match s with
  | [] => false
  | _ =>
      let '(c, n) := decode_rune s in
      negb ((c =? RuneError) && (n =? 1)%nat) && first c &&
      all_runes (length s) (λ c, first c || second c) (drop n s)
  end.

Definition name_part (b : Z) : bool := (128 <=? b) || isNameByte b.

(** [d.readName()]: the bytes up to the first one no name has; the input may not end
    before that one. *)
Fixpoint readName (l : list Z) : lex (list Z) :=
  match l with
  | [] => None
  | b :: l' =>
      if name_part b then '(n, r) ← readName l'; Some (b :: n, r) else Some ([], l)
  end.

Definition name (l : list Z) : lex (list Z) :=
  '(n, r) ← readName l; if isName n then Some (n, r) else None.

(** A name with its prefix: two colons are an error, one at an end is not a separator. *)
Definition split_name (n : list Z) : option Name :=
  match cut 58 n with
  | (space, Some local) =>
      if bool_decide (58 ∈ local) then None
      else if bool_decide (space = []) || bool_decide (local = []) then Some (MkName "" (of_bytes n))
      else Some (MkName (of_bytes space) (of_bytes local))
  | (_, None) => Some (MkName "" (of_bytes n))
  end.

Definition nsname (l : list Z) : lex Name :=
  '(n, r) ← name l; nm ← split_name n; Some (nm, r).

(** ** Text *)

Definition hex_value (c : Z) : option Z :=
  if digit_byte c then Some (c - 48)
  else if between 97 c 102 then Some (c - 87)
  else if between 65 c 70 then Some (c - 55) else None.

(** The digits of a character reference and what follows, which is not nothing. *)
Fixpoint ref_digits (base : Z) (l : list Z) : lex (list Z) :=
  match l with
  | [] => None
  | c :: l' =>
      match hex_value c with
      | Some v => if v <? base then '(ds, r) ← ref_digits base l'; Some (v :: ds, r)
                  else Some ([], l)
      | None => Some ([], l)
      end
  end.

(** [strconv.ParseUint] and the comparison with [unicode.MaxRune]. *)
Definition ref_value (base : Z) (ds : list Z) : option Z :=
  let n := fold_left (λ n d, base * n + d) ds 0 in
  if bool_decide (ds = []) || (1114111 <? n) then None else Some n.

Definition entity (n : list Z) : option Z :=
  if bool_decide (n = bytes "lt") then Some 60
  else if bool_decide (n = bytes "gt") then Some 62
  else if bool_decide (n = bytes "amp") then Some 38
  else if bool_decide (n = bytes "apos") then Some 39
  else if bool_decide (n = bytes "quot") then Some 34
  else None.

Definition semicolon {A} (a : option A) (l : list Z) : lex A :=
  match l with c :: l' => if c =? 59 then a ← a; Some (a, l') else None | [] => None end.

(** A reference, after its ampersand: the text it stands for. *)
Definition reference (l : list Z) : lex (list Z) :=
  match l with
  | [] => None
  | b :: l' =>
      if b =? 35 then
        let '(base, l') := match l' with
                           | c :: l'' => if c =? 120 then (16, l'') else (10, l')
                           | [] => (10, l')
                           end in
        '(ds, r) ← ref_digits base l';
        semicolon (encode_rune <$> ref_value base ds) r
      else
        '(n, r) ← readName l;
        semicolon (if isName n then (λ c, [c]) <$> entity n else None) r
  end.

(** The loop of [d.text]: [buf] is the buffer, last byte first, [b0] and [b1] are the two
    bytes before. A quoted text that the input ends in is an error as soon as the element
    goes on. *)
Fixpoint text_loop (fuel : nat) (quote : option Z) (cdata : bool) (b0 b1 : Z) (buf l : list Z)
    : lex (list Z) :=
  match fuel, l with
  | _, [] => if cdata || bool_decide (quote ≠ None) then None else Some (reverse buf, [])
  | O, _ => None
  | S fuel, b :: l' =>
      if bool_decide (quote = None) && (b0 =? 93) && (b1 =? 93) && (b =? 62) then
        if cdata then Some (reverse (drop 2 buf), l') else None
      else if (b =? 60) && negb cdata then
        if bool_decide (quote = None) then Some (reverse buf, l) else None
      else if bool_decide (quote = Some b) then Some (reverse buf, l')
      else if (b =? 38) && negb cdata then
        '(t, r) ← reference l'; text_loop fuel quote cdata 0 0 (reverse t ++ buf) r
      else
        text_loop fuel quote cdata b1 b
          (if b =? 13 then 10 :: buf else if (b1 =? 13) && (b =? 10) then buf else b :: buf) l'
  end.

Definition text (quote : option Z) (cdata : bool) (l : list Z) : lex (list Z) :=
  '(data, r) ← text_loop (length l) quote cdata 0 0 [] l;
  if chars_ok data then Some (data, r) else None.

(** ** Processing instructions, comments, directives *)

(** The input after the first occurrence of [p]. *)
Fixpoint after (p l : list Z) : option (list Z) :=
  match strip_prefix p l with
  | Some r => Some r
  | None => match l with [] => None | _ :: l' => after p l' end
  end.

Fixpoint procInst_loop (fuel : nat) (param s : list Z) : list Z :=
  match fuel with
  | O => []
  | S fuel =>
      match after param s with
      | Some (c :: r) =>
          if (c =? 39) || (c =? 34) then
            match cut c r with (v, Some _) => v | (_, None) => [] end
          else procInst_loop fuel param r
      | _ => []
      end
  end.
Definition procInst (param : string) (s : list Z) : list Z :=
  procInst_loop (length s) (bytes param ++ [61]) s.

(** No other version than 1.0, and no other encoding than UTF-8 in any case:
    the decoder has no [CharsetReader]. *)
Definition declaration_ok (content : list Z) : bool :=
  let ver := procInst "version" content in
  let enc := procInst "encoding" content in
  bool_decide (ver = [] ∨ ver = bytes "1.0") &&
  bool_decide (enc = [] ∨ lower_byte <$> enc = bytes "utf-8").

(** Up to the end mark, which is not part of the data. *)
Fixpoint pi_data (b0 : Z) (buf l : list Z) : lex (list Z) :=
  match l with
  | [] => None
  | b :: l' =>
      if (b0 =? 63) && (b =? 62) then Some (reverse (drop 1 buf), l') else pi_data b (b :: buf) l'
  end.

Fixpoint comment_end (b0 b1 : Z) (l : list Z) : option (list Z) :=
  match l with
  | [] => None
  | b :: l' =>
      if (b0 =? 45) && (b1 =? 45) then if b =? 62 then Some l' else None
      else comment_end b1 b l'
  end.

(** A comment inside a directive: two hyphens do not end it without a bracket. *)
Fixpoint inner_comment_end (b0 b1 : Z) (l : list Z) : option (list Z) :=
  match l with
  | [] => None
  | b :: l' =>
      if (b0 =? 45) && (b1 =? 45) && (b =? 62) then Some l' else inner_comment_end b1 b l'
  end.

(** A directive: quoted brackets do not nest, comments are skipped. *)
Fixpoint directive_end (fuel : nat) (inquote depth : Z) (l : list Z) : option (list Z) :=
  match fuel, l with
  | _, [] => None
  | O, _ => None
  | S fuel, b :: l' =>
      if (inquote =? 0) && (b =? 62) && (depth =? 0) then Some l'
      else if b =? inquote then directive_end fuel 0 depth l'
      else if negb (inquote =? 0) then directive_end fuel inquote depth l'
      else if (b =? 39) || (b =? 34) then directive_end fuel b depth l'
      else if b =? 62 then directive_end fuel 0 (depth - 1) l'
      else if b =? 60 then
        match strip_prefix (bytes "!--") l' with
        | Some r => r ← inner_comment_end 0 0 r; directive_end fuel 0 depth r
        | None => directive_end fuel 0 (depth + 1) l'
        end
      else directive_end fuel 0 depth l'
  end.

(** ** Elements *)

Definition byte_then {A} (c : Z) (l : list Z) (k : list Z → option A) : option A :=
  match l with b :: l' => if b =? c then k l' else None | [] => None end.

(** [d.attrval()]: the value is quoted. *)
Definition attrval (l : list Z) : lex (list Z) :=
  match l with
  | b :: l' => if (b =? 34) || (b =? 39) then text (Some b) false l' else None
  | [] => None
  end.

(** The attributes, whether the element is empty, and what follows its bracket. *)
Fixpoint attr_loop (fuel : nat) (l : list Z) : lex (list Attr * bool) :=
  match fuel, space l with
  | _, [] => None
  | O, _ => None
  | S fuel, b :: l' =>
      if b =? 47 then byte_then 62 l' (λ r, Some (([], true), r))
      else if b =? 62 then Some (([], false), l')
      else
        '(n, r) ← nsname (b :: l');
        byte_then 61 (space r) (λ r,
          '(v, r) ← attrval (space r);
          '(more, empty, r) ← attr_loop fuel r;
          Some ((MkAttr n (of_bytes v) :: more, empty), r))
  end.

(** ** RawToken *)

(** What starts with [<!]. *)
Definition declaration (l : list Z) : option (list Z) :=
  match l with
  | [] => None
  | b :: l' =>
      if b =? 45 then byte_then 45 l' (comment_end 0 0)
      else if b =? 91 then
        r ← strip_prefix (bytes "CDATA[") l'; '(_, r) ← text None true r; Some r
      else directive_end (length l') 0 0 l'
  end.

Definition processing (l : list Z) : option (list Z) :=
  '(target, r) ← name l;
  '(data, r) ← pi_data 0 [] (space r);
  if bool_decide (target = bytes "xml") && negb (declaration_ok data) then None else Some r.

(** The tokens of one call, for an input that is not empty; an empty element yields its
    end element at the next call. *)
Definition rawToken (l : list Z) : lex (list Token) :=
  match l with
  | [] => None
  | b :: l' =>
      if negb (b =? 60) then '(_, r) ← text None false l; Some ([OtherToken], r)
      else
        match l' with
        | [] => None
        | b :: l'' =>
            if b =? 47 then
              '(n, r) ← nsname l''; byte_then 62 (space r) (λ r, Some ([EndElement n], r))
            else if b =? 63 then r ← processing l''; Some ([OtherToken], r)
            else if b =? 33 then r ← declaration l''; Some ([OtherToken], r)
            else
              '(n, r) ← nsname l';
              '(attrs, empty, r) ← attr_loop (length r) r;
              Some (StartElement n attrs :: (if empty : bool then [EndElement n] else []), r)
        end
  end.

Fixpoint rawTokens_loop (fuel : nat) (l : list Z) : token_stream :=
  match fuel, l with
  | _, [] => TokenStream [] EOF
  | O, _ => TokenStream [] SyntaxError
  | S fuel, _ =>
      match rawToken l with
      | None => TokenStream [] SyntaxError
      | Some (ts, r) => emit_all ts (rawTokens_loop fuel r)
      end
  end.

(** The raw tokens of a document. *)
Definition rawTokens (raw : string) : token_stream :=
  rawTokens_loop (length (bytes raw)) (bytes raw).
End names.

(** ** Every step reads something *)

Ltac opt_inv :=
  repeat match goal with
  | H : mbind _ _ = Some _ |- _ => apply bind_Some in H; destruct H as (? & ? & ?)
  | H : (let '(_, _) := ?x in _) = Some _ |- _ => destruct x; cbn beta iota in H
  | H : Some _ = Some _ |- _ => injection H as H
  | H : None = Some _ |- _ => discriminate H
  end; subst.

Section lengths.
Context {W : XmlNames}.

Lemma space_length l : (length (space l) ≤ length l)%nat.
Proof. apply suffix_length, drop_while_suffix. Qed.

Lemma readName_spec l n r :
  readName l = Some (n, r) →
  l = n ++ r ∧ Forall (λ b, name_part b = true) n ∧ ∃ c, head r = Some c ∧ name_part c = false.
Proof.
  revert n r. induction l as [|b l IH]; intros n r; [done|]. cbn [readName].
  destruct (name_part b) eqn:Hb.
  - intros H. opt_inv. destruct (IH _ _ H) as (-> & Hn & Hc).
    split_and!; [done|by constructor|done].
  - intros [= <- <-]. split_and!; [done|constructor|by exists b].
Qed.

Lemma name_length l n r : name l = Some (n, r) → (length r < length l)%nat.
Proof.
  unfold name. intros H. opt_inv. destruct (isName l0) eqn:Hn; [|done]. injection H0 as -> ->.
  apply readName_spec in H as [-> _]. rewrite length_app. destruct n; [done|]. cbn. lia.
Qed.

Lemma nsname_length l n r : nsname l = Some (n, r) → (length r < length l)%nat.
Proof. unfold nsname. intros H. opt_inv. by eapply name_length. Qed.

Lemma ref_digits_length base l ds r : ref_digits base l = Some (ds, r) → (length r ≤ length l)%nat.
Proof.
  revert ds r. induction l as [|c l IH]; intros ds r; [done|]. cbn [ref_digits].
  destruct (hex_value c) as [v|]; [|intros [= _ <-]; done].
  destruct (v <? base); [|intros [= _ <-]; done]. intros H. opt_inv.
  specialize (IH _ _ H). cbn. lia.
Qed.

Lemma semicolon_length {A} (o : option A) l a r : semicolon o l = Some (a, r) → (length r < length l)%nat.
Proof.
  destruct l as [|c l]; cbn; [done|]. destruct (c =? 59); [|done]. intros H. opt_inv. lia.
Qed.

Lemma reference_length l t r : reference l = Some (t, r) → (length r < length l)%nat.
Proof.
  destruct l as [|b l]; [done|]. unfold reference. destruct (b =? 35).
  - set (p := match l with [] => _ | _ => _ end).
    assert (length p.2 ≤ length l)%nat as Hp.
    { unfold p. destruct l as [|c l]; [done|]. destruct (c =? 120); cbn; lia. }
    destruct p as [base l']. cbn [snd] in Hp. intros H. opt_inv.
    apply ref_digits_length in H. apply semicolon_length in H0. cbn. lia.
  - intros H. opt_inv. apply readName_spec in H as [H _]. apply semicolon_length in H0.
    apply (f_equal length) in H. rewrite length_app in H. lia.
Qed.

(** A text ends before a bracket, or after something read. *)
Lemma text_loop_length fuel : ∀ quote cdata b0 b1 buf l d r,
  text_loop fuel quote cdata b0 b1 buf l = Some (d, r) →
  (length r < length l)%nat ∨ (r = l ∧ (l = [] ∨ head l = Some 60)).
Proof.
  induction fuel as [|fuel IH]; intros quote cdata b0 b1 buf [|b l] d r; cbn [text_loop].
  1,3: destruct (_ || _); [done|]; intros [= _ <-]; auto.
  { done. }
  destruct (bool_decide _ && _ && _ && _).
  { destruct cdata; [|done]. intros [= _ <-]. cbn. auto with lia. }
  destruct (Z.eqb_spec b 60) as [->|]; cbn [andb].
  - destruct cdata; cbn [negb].
    + destruct (bool_decide (quote = Some 60)); [intros [= _ <-]; cbn; auto with lia|].
      intros [H|[-> _]]%IH; cbn; auto with lia.
    + destruct (bool_decide _); [|done]. intros [= _ <-]. auto.
  - destruct (bool_decide (quote = Some b)); [intros [= _ <-]; cbn; auto with lia|].
    destruct ((b =? 38) && negb cdata).
    + intros H. opt_inv. apply reference_length in H. apply IH in H0. left.
      destruct H0 as [|[-> _]]; cbn; lia.
    + intros [H|[-> _]]%IH; cbn; auto with lia.
Qed.

(** The fuel of the loop is enough. *)
Lemma text_loop_fuel f1 : ∀ f2 quote cdata b0 b1 buf l,
  (length l ≤ f1)%nat → (length l ≤ f2)%nat →
  text_loop f1 quote cdata b0 b1 buf l = text_loop f2 quote cdata b0 b1 buf l.
Proof.
  induction f1 as [|f1 IH]; intros [|f2] quote cdata b0 b1 buf [|b l] H1 H2; cbn [length] in *;
    try lia; [done..|]. cbn [text_loop]. repeat (case_match; [done|]); try done.
  case_match; [|apply IH; lia].
  destruct (reference l) as [[t r]|] eqn:Hr; cbn [mbind option_bind]; [|done].
  apply reference_length in Hr. apply IH; lia.
Qed.

Lemma text_length quote cdata l d r :
  text quote cdata l = Some (d, r) →
  (length r < length l)%nat ∨ (r = l ∧ (l = [] ∨ head l = Some 60)).
Proof.
  unfold text. intros H. opt_inv. destruct (chars_ok _); [|done]. injection H0 as _ ->.
  by eapply text_loop_length.
Qed.
Lemma byte_then_Some {A} c l (k : list Z → option A) a :
  byte_then c l k = Some a ↔ ∃ r, l = c :: r ∧ k r = Some a.
Proof.
  destruct l as [|b l]; cbn; [naive_solver|]. destruct (Z.eqb_spec b c); naive_solver.
Qed.

Lemma decode_rune_width b l : (1 ≤ (decode_rune (b :: l)).2)%nat.
Proof. unfold decode_rune. repeat case_match; cbn; lia. Qed.

Lemma all_runes_fuel P f1 : ∀ f2 l,
  (length l ≤ f1)%nat → (length l ≤ f2)%nat → all_runes f1 P l = all_runes f2 P l.
Proof.
  induction f1 as [|f1 IH]; intros [|f2] [|b l] H1 H2; cbn [length] in *; try lia; [done..|].
  cbn [all_runes]. pose proof (decode_rune_width b l) as Hw.
  destruct (decode_rune (b :: l)) as [r n]. cbn [snd] in Hw. f_equal.
  apply IH; rewrite length_drop; cbn [length]; lia.
Qed.

Lemma after_length p l r : after p l = Some r → (length r ≤ length l)%nat.
Proof.
  revert r. induction l as [|b l IH]; intros r; cbn [after].
  - destruct (strip_prefix p []) eqn:Hs; [|done]. intros [= <-]. by apply strip_prefix_length in Hs.
  - destruct (strip_prefix p (b :: l)) eqn:Hs.
    + intros [= <-]. by apply strip_prefix_length in Hs.
    + intros H%IH. cbn. lia.
Qed.

Lemma procInst_fuel p f1 : ∀ f2 s,
  p ≠ [] → (length s ≤ f1)%nat → (length s ≤ f2)%nat → procInst_loop f1 p s = procInst_loop f2 p s.
Proof.
  assert (∀ f, p ≠ [] → procInst_loop f p [] = []) as Hnil by (intros [|f] Hp; [done|by destruct p]).
  induction f1 as [|f1 IH]; intros f2 s Hp H1 H2.
  { apply Nat.le_0_r, nil_length_inv in H1 as ->. by rewrite !Hnil. }
  destruct f2 as [|f2]; [apply Nat.le_0_r, nil_length_inv in H2 as ->; by rewrite Hnil|].
  cbn [procInst_loop]. destruct (after p s) as [[|c r]|] eqn:Ha; [done| |done].
  apply after_length in Ha. cbn in Ha. case_match; [done|]. apply IH; [done|lia..].
Qed.

Lemma comment_end_length l : ∀ b0 b1 r, comment_end b0 b1 l = Some r → (length r < length l)%nat.
Proof.
  induction l as [|b l IH]; intros b0 b1 r; cbn; [done|]. destruct (_ && _).
  - destruct (b =? 62); [|done]. intros [= <-]. lia.
  - intros H%IH. lia.
Qed.

Lemma inner_comment_end_length l : ∀ b0 b1 r,
  inner_comment_end b0 b1 l = Some r → (length r < length l)%nat.
Proof.
  induction l as [|b l IH]; intros b0 b1 r; cbn; [done|]. destruct (_ && _ && _).
  - intros [= <-]. lia.
  - intros H%IH. lia.
Qed.

Lemma pi_data_length l : ∀ b0 buf d r, pi_data b0 buf l = Some (d, r) → (length r < length l)%nat.
Proof.
  induction l as [|b l IH]; intros b0 buf d r; cbn; [done|]. destruct (_ && _).
  - intros [= _ <-]. lia.
  - intros H%IH. lia.
Qed.

Lemma directive_end_length f : ∀ q d l r, directive_end f q d l = Some r → (length r < length l)%nat.
Proof.
  induction f as [|f IH]; intros q d [|b l] r; cbn [directive_end length]; try done.
  repeat case_match; try done; first [intros [= <-]; lia|intros H'%IH; lia|idtac].
  intros H'. opt_inv.
  repeat match goal with
  | H : inner_comment_end _ _ _ = Some _ |- _ => apply inner_comment_end_length in H
  | H : strip_prefix _ _ = Some _ |- _ => apply strip_prefix_length in H
  | H : directive_end _ _ _ _ = Some _ |- _ => apply IH in H
  end. lia.
Qed.

Lemma directive_end_fuel f1 : ∀ f2 q d l,
  (length l ≤ f1)%nat → (length l ≤ f2)%nat → directive_end f1 q d l = directive_end f2 q d l.
Proof.
  induction f1 as [|f1 IH]; intros [|f2] q d [|b l] H1 H2; cbn [length] in *; try lia; [done..|].
  cbn [directive_end]. repeat (case_match; [done|]).
  repeat case_match; try (apply IH; lia).
  match goal with H : strip_prefix _ _ = Some ?r |- _ =>
    apply strip_prefix_length in H; destruct (inner_comment_end 0 0 r) as [r'|] eqn:Hr; [|done];
    apply inner_comment_end_length in Hr end.
  cbn [mbind option_bind]. apply IH; lia.
Qed.

Lemma attrval_length l v r : attrval l = Some (v, r) → (length r < length l)%nat.
Proof.
  destruct l as [|b l]; cbn; [done|]. destruct (_ || _); [|done].
  intros [H|[-> _]]%text_length; lia.
Qed.

Lemma attr_loop_length f : ∀ l a r, attr_loop f l = Some (a, r) → (length r < length l)%nat.
Proof.
  induction f as [|f IH]; intros l a r; pose proof (space_length l) as Hl; cbn [attr_loop];
    destruct (space l) as [|b l']; try done. cbn [length] in Hl.
  destruct (b =? 47).
  { intros (r' & -> & [= <- <-])%byte_then_Some. cbn in Hl. lia. }
  destruct (b =? 62); [intros [= <- <-]; lia|]. intros H. opt_inv.
  apply nsname_length in H. apply byte_then_Some in H0 as (r' & Hr & H0).
  pose proof (space_length l0) as Hs. rewrite Hr in Hs. cbn in Hs, H. opt_inv.
  pose proof (space_length r') as Hs'.
  repeat match goal with
  | H : attrval _ = Some _ |- _ => apply attrval_length in H
  | H : attr_loop _ _ = Some _ |- _ => apply IH in H
  end. lia.
Qed.

Lemma attr_loop_fuel f1 : ∀ f2 l,
  (length l ≤ f1)%nat → (length l ≤ f2)%nat → attr_loop f1 l = attr_loop f2 l.
Proof.
  induction f1 as [|f1 IH]; intros f2 l H1 H2; pose proof (space_length l) as Hl.
  { assert (l = []) as -> by (destruct l; cbn in *; [done|lia]). by destruct f2. }
  destruct f2 as [|f2]; [assert (l = []) as -> by (destruct l; cbn in *; [done|lia]); done|].
  cbn [attr_loop]. destruct (space l) as [|b l'] eqn:Hsp; [done|]. cbn [length] in Hl.
  repeat (case_match; [done|]). destruct (nsname (b :: l')) as [[n r]|] eqn:Hn; [|done].
  apply nsname_length in Hn. cbn [mbind option_bind length] in *.
  pose proof (space_length r) as Hs. destruct (space r) as [|c r'] eqn:Hr; [done|].
  cbn [byte_then length] in *. case_match; [|done].
  pose proof (space_length r') as Hs'.
  destruct (attrval (space r')) as [[v r'']|] eqn:Hv; [|done]. apply attrval_length in Hv.
  cbn [mbind option_bind]. rewrite (IH f2) by lia. done.
Qed.

(** Each call of [RawToken] reads at least a byte. *)
Lemma rawToken_length l ts r : rawToken l = Some (ts, r) → (length r < length l)%nat.
Proof.
  destruct l as [|b l]; [done|]. unfold rawToken. destruct (Z.eqb_spec b 60) as [->|Hb]; cbn [negb].
  2: { intros H. opt_inv. apply text_length in H as [|[-> [|[= ?]]]]; done. }
  destruct l as [|b l]; [done|]. destruct (b =? 47).
  { intros H. opt_inv. apply byte_then_Some in H0 as (r' & Hr & [= _ <-]). apply nsname_length in H.
    pose proof (space_length l0) as Hs. rewrite Hr in Hs. cbn in *. lia. }
  destruct (b =? 63).
  { intros H. opt_inv. unfold processing in H. opt_inv. destruct (_ && _); [done|]. opt_inv.
    repeat match goal with
    | H : pi_data _ _ (space ?l) = Some _ |- _ => apply pi_data_length in H; pose proof (space_length l)
    | H : name _ = Some _ |- _ => apply name_length in H
    end. cbn. lia. }
  destruct (b =? 33).
  { intros H. opt_inv. destruct l as [|c l]; [done|]. cbn [declaration] in H. destruct (c =? 45).
    { apply byte_then_Some in H as (r' & -> & H%comment_end_length). cbn. lia. }
    destruct (c =? 91).
    - opt_inv. apply strip_prefix_length in H.
      match goal with H : text _ _ _ = Some _ |- _ => apply text_length in H as [|[-> _]] end; cbn; lia.
    - apply directive_end_length in H. cbn. lia. }
  intros H. opt_inv. apply nsname_length in H. apply attr_loop_length in H0. cbn in *. lia.
Qed.

Lemma rawTokens_fuel f1 : ∀ f2 l,
  (length l ≤ f1)%nat → (length l ≤ f2)%nat → rawTokens_loop f1 l = rawTokens_loop f2 l.
Proof.
  induction f1 as [|f1 IH]; intros [|f2] [|b l] H1 H2; cbn [length] in *; try lia; [done..|].
  cbn [rawTokens_loop]. destruct (rawToken (b :: l)) as [[ts r]|] eqn:Hr; [|done].
  apply rawToken_length in Hr. cbn [length] in Hr. f_equal. apply IH; lia.
Qed.

(** The tokens of a document: those of its first call and of the rest. *)
Lemma rawTokens_step fuel l ts r :
  rawToken l = Some (ts, r) → (length l ≤ fuel)%nat →
  rawTokens_loop fuel l = emit_all ts (rawTokens_loop (length r) r).
Proof.
  intros Hr Hf. pose proof (rawToken_length _ _ _ Hr) as Hl.
  destruct l as [|b l]; [done|]. destruct fuel as [|fuel]; [cbn in Hf; lia|].
  cbn [rawTokens_loop]. rewrite Hr. f_equal. apply rawTokens_fuel; cbn in *; lia.
Qed.
End lengths.

(** ** Printing *)

(** A document as it is written: elements under their raw names, character data and
    comments. *)
Inductive node : Type :=
| NElem (n : Name) (attrs : list Attr) (children : list node)
| NText (s : string)
| NComment (s : string).

Section node_induction.
Context (P : node → Prop) (HText : ∀ s, P (NText s)) (HComment : ∀ s, P (NComment s))
        (HElem : ∀ n attrs ch, Forall P ch → P (NElem n attrs ch)).

Fixpoint node_ind' (x : node) : P x :=
  match x with
  | NText s => HText s
  | NComment s => HComment s
  | NElem n attrs ch =>
      HElem n attrs ch
        ((fix all (l : list node) : Forall P l :=
            match l with
            | [] => List.Forall_nil P
            | x :: l => @List.Forall_cons node P x l (node_ind' x) (all l)
            end) ch)
  end.
End node_induction.

Fixpoint tree_of (x : node) : tree :=
  match x with
  | NElem n attrs ch => Elem n attrs (tree_of <$> ch)
  | NText _ | NComment _ => Other
  end.

(** [xml.EscapeText] on a text of legal characters. *)
Definition escape_byte (b : Z) : list Z :=
  if b =? 34 then bytes "&#34;" else if b =? 39 then bytes "&#39;"
  else if b =? 38 then bytes "&amp;" else if b =? 60 then bytes "&lt;"
  else if b =? 62 then bytes "&gt;" else if b =? 9 then bytes "&#x9;"
  else if b =? 10 then bytes "&#xA;" else if b =? 13 then bytes "&#xD;"
  else [b].
Definition escape (s : list Z) : list Z := s ≫= escape_byte.

Definition name_bytes (n : Name) : list Z :=
  if bool_decide (Space n = ""%string) then bytes (Local n)
  else bytes (Space n) ++ 58 :: bytes (Local n).

Definition print_attr (a : Attr) : list Z :=
  32 :: name_bytes (a_Name a) ++ 61 :: 34 :: escape (bytes (Value a)) ++ [34].

Fixpoint print (x : node) : list Z :=
  match x with
  | NElem n attrs ch =>
      60 :: name_bytes n ++ (attrs ≫= print_attr) ++
      match ch with
      | [] => [47; 62]
      | _ => 62 :: flat_map print ch ++ 60 :: 47 :: name_bytes n ++ [62]
      end
  | NText s => escape (bytes s)
  | NComment s => bytes "<!--" ++ bytes s ++ bytes "-->"
  end.

Definition print_forest (f : list node) : string := of_bytes (flat_map print f).

Lemma escape_are_bytes s : Forall is_byte s → Forall is_byte (escape s).
Proof.
  induction 1 as [|b s Hb _ IH]; [constructor|]. unfold escape. rewrite bind_cons.
  apply Forall_app_2; [|done]. unfold escape_byte.
  repeat (case_match; [are_bytes|]). are_bytes.
Qed.

Lemma name_bytes_are_bytes n : Forall is_byte (name_bytes n).
Proof.
  unfold name_bytes. case_bool_decide; are_bytes.
Qed.

#[export] Hint Resolve escape_are_bytes name_bytes_are_bytes : authcore.

Lemma print_attr_are_bytes attrs : Forall is_byte (attrs ≫= print_attr).
Proof.
  induction attrs as [|a attrs IH]; [constructor|]. rewrite bind_cons. apply Forall_app_2; [|done].
  unfold print_attr. are_bytes.
Qed.

Lemma print_are_bytes f : Forall is_byte (flat_map print f).
Proof.
  assert (∀ f, Forall (λ x, Forall is_byte (print x)) f → Forall is_byte (flat_map print f)) as Hall.
  { induction 1; [constructor|]. by apply Forall_app. }
  apply Hall, Forall_true. intros x. induction x as [s|s|n attrs ch IH] using node_ind'; cbn [print]; [are_bytes..|].
  specialize (Hall _ IH). pose proof (print_attr_are_bytes attrs).
  destruct ch as [|x ch]; [|clear IH; revert Hall; generalize (flat_map print (x :: ch)); intros p Hall];
    are_bytes.
Qed.

Section printing.
Context {W : XmlNames}.

Definition name_ok (n : Name) : bool :=
  isName (name_bytes n) && forallb name_part (name_bytes n) &&
  bool_decide (split_name (name_bytes n) = Some n).

Definition attr_ok (a : Attr) : bool := name_ok (a_Name a) && chars_ok (bytes (Value a)).

Definition is_text (x : node) : bool := match x with NText _ => true | _ => false end.

(** No two texts in a row: they would be read as one. *)
Fixpoint separated (f : list node) : bool :=
  match f with
  | x :: (y :: _) as f => negb (is_text x && is_text y) && separated f
  | _ => true
  end.

Fixpoint node_ok (x : node) : bool :=
  match x with
  | NElem n attrs ch => name_ok n && forallb attr_ok attrs && forallb node_ok ch && separated ch
  | NText s => negb (bool_decide (s = ""%string)) && chars_ok (bytes s)
  | NComment s => negb (contains_bytes [45; 45] (bytes s ++ [45]))
  end.

Definition forest_ok (f : list node) : bool := forallb node_ok f && separated f.

(** ** What is printed is read back *)

Lemma readName_app n c r :
  forallb name_part n = true → name_part c = false → readName (n ++ c :: r) = Some (n, c :: r).
Proof.
  induction n as [|b n IH]; cbn [app forallb readName].
  - by intros _ ->.
  - intros [-> Hn]%andb_true_iff Hc. by rewrite IH.
Qed.

Lemma nsname_name_bytes n c r :
  name_ok n = true → name_part c = false → nsname (name_bytes n ++ c :: r) = Some (n, c :: r).
Proof.
  unfold name_ok, nsname, name. intros H Hc. bool_simp.
  rewrite readName_app by done. cbn [mbind option_bind].
  match goal with H : isName _ = true |- _ => rewrite H end. cbn [mbind option_bind].
  match goal with H : split_name _ = Some _ |- _ => rewrite H end. done.
Qed.

(** An escaped byte is read back as the byte. *)
Lemma text_loop_escape_byte b fuel q b0 b1 buf rest :
  q = None ∨ q = Some 34 → b1 ≠ 13 → (length (escape_byte b ++ rest) ≤ fuel)%nat →
  ∃ b0' b1', b1' ≠ 13 ∧ text_loop fuel q false b0 b1 buf (escape_byte b ++ rest) =
             text_loop (length rest) q false b0' b1' (b :: buf) rest.
Proof.
  intros Hq Hb1 Hf. rewrite (text_loop_fuel _ (length (escape_byte b ++ rest))) by done. clear Hf fuel.
  assert (∀ t, reference (t ++ rest) = Some ([b], rest) →
    ∃ b0' b1', b1' ≠ 13 ∧
      text_loop (length ((38 :: t) ++ rest)) q false b0 b1 buf ((38 :: t) ++ rest) =
      text_loop (length rest) q false b0' b1' (b :: buf) rest) as Href.
  { intros t Ht. exists 0, 0. split; [done|]. cbn [app length text_loop].
    rewrite andb_false_r. cbn. rewrite bool_decide_eq_false_2 by (by destruct Hq as [->| ->]).
    rewrite Ht. cbn [mbind option_bind]. apply text_loop_fuel; [|done]. rewrite length_app. lia. }
  unfold escape_byte.
  repeat match goal with |- context [if b =? ?c then _ else _] =>
    destruct (Z.eqb_spec b c) as [->|];
    [match goal with |- context [bytes ?s ++ rest] => exact (Href (tail (bytes s)) eq_refl) end|] end.
  exists b1, b. split; [done|]. cbn [app length text_loop].
  rewrite (proj2 (Z.eqb_neq b 62)), (proj2 (Z.eqb_neq b 60)), (proj2 (Z.eqb_neq b 38)),
    (proj2 (Z.eqb_neq b 13)), (proj2 (Z.eqb_neq b1 13)) by done.
  rewrite andb_false_r. cbn [andb].
  rewrite bool_decide_eq_false_2 by (destruct Hq as [->| ->]; congruence). done.
Qed.

Lemma text_loop_escape s : ∀ fuel q b0 b1 buf rest,
  q = None ∨ q = Some 34 → b1 ≠ 13 → (length (escape s ++ rest) ≤ fuel)%nat →
  ∃ b0' b1', text_loop fuel q false b0 b1 buf (escape s ++ rest) =
             text_loop (length rest) q false b0' b1' (reverse s ++ buf) rest.
Proof.
  induction s as [|b s IH]; intros fuel q b0 b1 buf rest Hq Hb1 Hf.
  - exists b0, b1. by apply text_loop_fuel.
  - unfold escape in *. rewrite bind_cons in Hf |- *. rewrite <- app_assoc in Hf |- *.
    edestruct text_loop_escape_byte as (b0' & b1' & Hb1' & ->); [done..|].
    destruct (IH _ q b0' b1' (b :: buf) rest Hq Hb1' ltac:(done)) as (c0 & c1 & ->).
    exists c0, c1. by rewrite reverse_cons, <- app_assoc.
Qed.

(** Character data up to a tag or the end, and a value up to its quote. *)
Lemma text_escape s rest :
  chars_ok s = true → (rest = [] ∨ head rest = Some 60) →
  text None false (escape s ++ rest) = Some (s, rest).
Proof.
  intros Hs Hrest. unfold text.
  edestruct (text_loop_escape s) as (b0 & b1 & ->); [by left|done..|].
  rewrite app_nil_r. destruct Hrest as [->|Hh].
  - cbn. by rewrite reverse_involutive, Hs.
  - destruct rest as [|c rest]; [done|]. injection Hh as ->. cbn [length text_loop].
    rewrite andb_false_r. cbn. by rewrite reverse_involutive, Hs.
Qed.

Lemma attrval_escape s rest :
  chars_ok s = true → attrval (34 :: escape s ++ 34 :: rest) = Some (s, rest).
Proof.
  intros Hs. cbn [attrval Z.eqb Pos.eqb orb]. unfold text.
  edestruct (text_loop_escape s) as (b0 & b1 & ->); [by right|done..|].
  rewrite app_nil_r. cbn -[chars_ok]. rewrite bool_decide_eq_true_2 by done.
  cbn [mbind option_bind]. by rewrite reverse_involutive, Hs.
Qed.

(** The first byte of a name is neither a space nor a mark of its own. *)
Lemma name_ok_head n : name_ok n = true → ∃ c m, name_bytes n = c :: m ∧ name_part c = true.
Proof.
  unfold name_ok. intros H. bool_simp. destruct (name_bytes n) as [|c m]; [done|].
  exists c, m. cbn [forallb] in *. by bool_simp.
Qed.

Lemma name_part_not c d : name_part c = true → name_part d = false → (c =? d) = false.
Proof. intros Hc Hd. apply Z.eqb_neq. congruence. Qed.

Lemma name_part_space c : name_part c = true → is_xml_space c = false.
Proof.
  intros H. unfold is_xml_space. by rewrite !(name_part_not c) by done.
Qed.

(** A printed attribute is read as one. *)
Lemma attr_loop_attr a fuel l :
  attr_ok a = true →
  attr_loop (S fuel) (print_attr a ++ l) =
  '(more, empty, r) ← attr_loop fuel l; Some ((a :: more, empty), r).
Proof.
  unfold attr_ok. intros [Hn Hv]%andb_true_iff.
  destruct (name_ok_head _ Hn) as (c & m & Hm & Hc).
  assert (space (print_attr a ++ l) =
          name_bytes (a_Name a) ++ 61 :: 34 :: escape (bytes (Value a)) ++ 34 :: l) as Hsp.
  { unfold print_attr, space. cbn [app drop_while is_xml_space Z.eqb Pos.eqb orb].
    rewrite <- app_assoc. cbn [app]. rewrite <- app_assoc. rewrite Hm. cbn [app drop_while].
    by rewrite name_part_space. }
  cbn [attr_loop]. rewrite Hsp. pose proof (nsname_name_bytes (a_Name a) 61
    (34 :: escape (bytes (Value a)) ++ 34 :: l) Hn eq_refl) as Hname.
  rewrite Hm in Hname |- *. cbn [app] in Hname |- *.
  rewrite (name_part_not c 47), (name_part_not c 62), Hname by done.
  cbn [mbind option_bind space drop_while is_xml_space Z.eqb Pos.eqb orb byte_then].
  rewrite attrval_escape by done. cbn [mbind option_bind]. rewrite of_bytes_bytes. by destruct a.
Qed.

(** The attributes of a printed element, up to its end mark. *)
Lemma attr_loop_print attrs e empty rest :
  forallb attr_ok attrs = true →
  (e, empty) = ([47; 62], true) ∨ (e, empty) = ([62], false) → ∀ fuel,
  (length ((attrs ≫= print_attr) ++ e ++ rest) ≤ fuel)%nat →
  attr_loop fuel ((attrs ≫= print_attr) ++ e ++ rest) = Some ((attrs, empty), rest).
Proof.
  intros Hok He. induction attrs as [|a attrs IH]; intros fuel Hf.
  - rewrite (attr_loop_fuel _ (length (e ++ rest))) by done. by destruct He as [[= -> ->]|[= -> ->]].
  - cbn [forallb] in Hok. apply andb_true_iff in Hok as [Ha Hok].
    rewrite bind_cons in Hf |- *. rewrite <- app_assoc in Hf |- *.
    rewrite (attr_loop_fuel _ (S (length (print_attr a ++ (attrs ≫= print_attr) ++ e ++ rest)))) by lia.
    rewrite attr_loop_attr, IH by (done || (rewrite (length_app (print_attr a)); lia)). done.
Qed.

(** The start of a printed element. *)
Lemma rawToken_start n attrs e empty rest :
  name_ok n = true → forallb attr_ok attrs = true →
  (e, empty) = ([47; 62], true) ∨ (e, empty) = ([62], false) →
  rawToken (60 :: name_bytes n ++ (attrs ≫= print_attr) ++ e ++ rest) =
  Some (StartElement n attrs :: (if empty then [EndElement n] else []), rest).
Proof.
  intros Hn Hok He. destruct (name_ok_head _ Hn) as (c & m & Hm & Hc).
  assert (∃ d t, (attrs ≫= print_attr) ++ e ++ rest = d :: t ∧ name_part d = false) as (d & t & Ht & Hd).
  { destruct attrs as [|a attrs]; [|by do 2 eexists].
    by destruct He as [[= -> ->]|[= -> ->]]; do 2 eexists. }
  pose proof (nsname_name_bytes n d t Hn Hd) as Hname. rewrite <- Ht in Hname. rewrite Hm in Hname |- *.
  cbn [app] in Hname |- *. cbn [rawToken Z.eqb Pos.eqb negb].
  rewrite (name_part_not c 47), (name_part_not c 63), (name_part_not c 33), Hname by done.
  cbn [mbind option_bind]. by rewrite (attr_loop_print _ e empty).
Qed.

Lemma rawToken_end n rest :
  name_ok n = true → rawToken (60 :: 47 :: name_bytes n ++ 62 :: rest) = Some ([EndElement n], rest).
Proof.
  intros Hn. cbn [rawToken Z.eqb Pos.eqb negb]. by rewrite nsname_name_bytes.
Qed.

(** A comment ends at the first two hyphens. *)
Lemma comment_end_print s : ∀ b0 b1 rest,
  contains_bytes [45; 45] (b0 :: b1 :: s ++ [45]) = false →
  comment_end b0 b1 (s ++ 45 :: 45 :: 62 :: rest) = Some rest.
Proof.
  assert (∀ x y l, contains_bytes [45; 45] (x :: y :: l) = false →
            (x =? 45) && (y =? 45) = false ∧ contains_bytes [45; 45] (y :: l) = false) as Hstep.
  { intros x y l. change (contains_bytes [45; 45] (x :: y :: l)) with
      (match (if 45 =? x then if 45 =? y then Some l else None else None) with
       | Some _ => true | None => contains_bytes [45; 45] (y :: l) end).
    rewrite (Z.eqb_sym 45 x), (Z.eqb_sym 45 y). by destruct (x =? 45), (y =? 45). }
  induction s as [|b s IH]; intros b0 b1 rest [H0 H1]%Hstep; cbn [app comment_end]; rewrite H0.
  - apply Hstep in H1 as [H1 _]. change (45 =? 45) with true in *. rewrite andb_true_r in H1.
    by rewrite H1.
  - by apply IH.
Qed.

Lemma rawToken_comment s rest :
  contains_bytes [45; 45] (bytes s ++ [45]) = false →
  rawToken (bytes "<!--" ++ bytes s ++ bytes "-->" ++ rest) = Some ([OtherToken], rest).
Proof.
  intros Hs. change (rawToken (bytes "<!--" ++ bytes s ++ bytes "-->" ++ rest)) with
    (r ← comment_end 0 0 (bytes s ++ 45 :: 45 :: 62 :: rest); Some ([OtherToken], r)).
  by rewrite comment_end_print.
Qed.

Lemma escape_head s : s ≠ [] → ∃ c r, escape s = c :: r ∧ c ≠ 60.
Proof.
  destruct s as [|b s]; [done|]. intros _. unfold escape. rewrite bind_cons. unfold escape_byte.
  repeat (case_match; [by do 2 eexists|]). do 2 eexists. split; [done|]. bool_simp. done.
Qed.

Lemma rawToken_text s rest :
  s ≠ ""%string → chars_ok (bytes s) = true → (rest = [] ∨ head rest = Some 60) →
  rawToken (escape (bytes s) ++ rest) = Some ([OtherToken], rest).
Proof.
  intros Hne Hs Hrest. pose proof (text_escape (bytes s) rest Hs Hrest) as Ht.
  destruct (escape_head (bytes s)) as (c & r & Hc & Hc60).
  { intros H. by apply Hne, (bytes_inj s ""). }
  rewrite Hc in Ht |- *. cbn [app] in Ht |- *. cbn [rawToken].
  rewrite (proj2 (Z.eqb_neq c 60)) by done. cbn [negb]. by rewrite Ht.
Qed.

(** What may follow a node: after a text, a tag or the end. *)
Definition follows (x : node) (rest : list Z) : Prop :=
  is_text x = true → rest = [] ∨ head rest = Some 60.

(** The tokens of an input. *)
Definition tokens_of (l : list Z) : token_stream := rawTokens_loop (length l) l.

Lemma tokens_step l ts r : rawToken l = Some (ts, r) → tokens_of l = emit_all ts (tokens_of r).
Proof. intros H. exact (rawTokens_step _ _ _ _ H (le_n _)). Qed.

Lemma emit_all_app ts us s : emit_all ts (emit_all us s) = emit_all (ts ++ us) s.
Proof. unfold emit_all. cbn. by rewrite app_assoc. Qed.

Lemma emit_all_nil s : emit_all [] s = s.
Proof. by destruct s. Qed.

(** Nodes that are not texts start with a bracket. *)
Lemma print_head f rest :
  (∀ x f', f = x :: f' → is_text x = false) → (rest = [] ∨ head rest = Some 60) →
  flat_map print f ++ rest = [] ∨ head (flat_map print f ++ rest) = Some 60.
Proof.
  intros Hx Hrest. destruct f as [|x f]; [done|]. specialize (Hx x f eq_refl).
  right. by destruct x.
Qed.

Definition reads_back (x : node) : Prop :=
  ∀ rest, node_ok x = true → follows x rest →
    tokens_of (print x ++ rest) = emit_all (flatten (tree_of x)) (tokens_of rest).

(** A list of nodes, given that each of them is read back. *)
Lemma forest_reads_back f : ∀ rest,
  Forall reads_back f → forallb node_ok f = true → separated f = true →
  (rest = [] ∨ head rest = Some 60) →
  tokens_of (flat_map print f ++ rest) =
  emit_all (flat_map flatten (tree_of <$> f)) (tokens_of rest).
Proof.
  induction f as [|x f IH]; intros rest Hf Hok Hsep Hrest; [by rewrite emit_all_nil|].
  apply Forall_cons in Hf as [Hx Hf]. cbn [forallb] in Hok. apply andb_true_iff in Hok as [Hokx Hok].
  assert (separated f = true ∧ (is_text x = true → ∀ y f', f = y :: f' → is_text y = false))
    as [Hsep' Hxy].
  { destruct f as [|y f]; [done|]. cbn [separated] in Hsep. apply andb_true_iff in Hsep as [H1 H2].
    split; [done|]. intros Ht ? ? [= <- <-]. rewrite Ht in H1. by apply negb_true_iff in H1. }
  cbn [flat_map fmap list_fmap]. rewrite <- app_assoc, Hx, IH, emit_all_app; [done..|].
  intros Ht. apply print_head; [by apply Hxy|done].
Qed.

Lemma node_reads_back x : reads_back x.
Proof.
  induction x as [s|s|n attrs ch IH] using node_ind'; intros rest Hok Hfollow.
  - cbn [node_ok] in Hok. bool_simp. apply tokens_step.
    apply rawToken_text; [done..|]. by apply Hfollow.
  - cbn [node_ok] in Hok. apply negb_true_iff in Hok. cbn [print]. rewrite <- !app_assoc.
    by apply tokens_step, rawToken_comment.
  - cbn [node_ok] in Hok. bool_simp. cbn [print tree_of flatten app]. rewrite <- !app_assoc.
    destruct ch as [|x ch].
    + apply tokens_step. cbn [fmap list_fmap flat_map app].
      apply (rawToken_start _ _ [47; 62] true); [done..|by left].
    + change ((62 :: flat_map print (x :: ch) ++ 60 :: 47 :: name_bytes n ++ [62]) ++ rest)
        with ([62] ++ (flat_map print (x :: ch) ++ 60 :: 47 :: name_bytes n ++ [62]) ++ rest).
      erewrite tokens_step by (apply (rawToken_start _ _ [62] false); [done..|by right]).
      rewrite <- app_assoc, forest_reads_back by (done || by right).
      cbn [app]. rewrite <- app_assoc. cbn [app].
      erewrite tokens_step by by apply rawToken_end. by rewrite !emit_all_app, <- app_assoc.
Qed.

(** A printed forest is read as its tokens, to the end. *)
Lemma rawTokens_print f : forest_ok f = true → rawTokens (print_forest f) = document (tree_of <$> f).
Proof.
  unfold forest_ok. intros [Hok Hsep]%andb_true_iff. unfold rawTokens, print_forest.
  rewrite bytes_of_bytes by apply print_are_bytes. fold (tokens_of (flat_map print f)).
  rewrite <- (app_nil_r (flat_map print f)), forest_reads_back by (auto using Forall_true, node_reads_back).
  unfold document, emit_all, flatten_forest. cbn. by rewrite app_nil_r.
Qed.
End printing.
