(* ===== verification/TtlStore.v ===== *)
(** * TtlStore

    The bounded, expiring store that [captcha/store.go] and
    [passkey/session_store.go] each hold a copy of: a map from ids to entries next to
    a linked list of the ids in insertion order, the entry pointing at its list node.
    The two copies differ only in the type of the stored value and in their public
    operations, which [CaptchaStore] and [PasskeySessions] model.

    The first part is the state and the operations the two copies share, as the code
    has them. The second is what they implement: a bounded first-in first-out queue
    of (id, (value, expiry)), oldest first. [wf] is the representation invariant that
    ties map and list together, and the [abs_] lemmas are the simulation. *)

From S2P Require Import Prelude GoRuntime.

(** ** State *)

Record entry (V : Type) : Type := Entry {
  e_value : V;
  e_expires : Time;
  e_elem : nat;               (* this entry's node in [order] *)
}.
Arguments Entry {V} _ _ _.
Arguments e_value {V} _.
Arguments e_expires {V} _.
Arguments e_elem {V} _.

Record store (V : Type) : Type := Store {
  items : gmap string (entry V);
  order : golist string;      (* ids in insertion order; front is oldest *)
  ttl : Duration;
  maxItems : Z;
}.
Arguments Store {V} _ _ _ _.
Arguments items {V} _.
Arguments order {V} _.
Arguments ttl {V} _.
Arguments maxItems {V} _.

Section ttl_store.
Context {V : Type}.
Implicit Types (s : store V) (e : entry V) (id : string).

Definition new_store (maxItems : Z) (ttl : Duration) : store V :=
  Store ∅ list_New ttl maxItems.

(** Forget [id] and unlink its node [n]. *)
Definition drop_entry (id : string) (n : nat) s : store V :=
  Store (delete id (items s)) (Remove n (order s)) (ttl s) (maxItems s).

(** [elem := s.order.PushBack(id); s.items[id] = &entry{...}]. *)
Definition push_entry (id : string) (v : V) (expires : Time) s : store V :=
  let '(n, l) := PushBack id (order s) in
  Store (<[id := Entry v expires n]> (items s)) l (ttl s) (maxItems s).

(** The [for] loop of [purgeExpiredLocked]: each round that continues unlinks the
    front node, so the list's length bounds the rounds. *)
Fixpoint purge_loop (fuel : nat) (now : Time) s : store V :=
  match fuel with
  | O => s
  | S fuel =>
      match Front (order s) with
      | None => s
      | Some (n, id) =>
          match items s !! id with
          | Some e =>
              if After now (e_expires e)
              then purge_loop fuel now (drop_entry id n s)
              else s
          | None => purge_loop fuel now (drop_entry id n s)
          end
      end
  end.

Definition purge_expired (now : Time) s : store V :=
  purge_loop (length (gl_nodes (order s))) now s.

(** The capacity loop [for len(s.items) >= s.maxItems { ... }]. *)
Fixpoint evict_loop (fuel : nat) s : store V :=
  match fuel with
  | O => s
  | S fuel =>
      if Z.leb (maxItems s) (Z.of_nat (size (items s))) then
        match Front (order s) with
        | None => s
        | Some (n, id) => evict_loop fuel (drop_entry id n s)
        end
      else s
  end.

Definition evict_to_capacity s : store V :=
  evict_loop (length (gl_nodes (order s))) s.

Definition store_Len s : Z := Z.of_nat (size (items s)).

(** ** The queue it implements *)

Definition qentry : Type := string * (V * Time).
Implicit Types q : list (string * (V * Time)).

Definition q_expired (now : Time) (x : string * (V * Time)) : bool := After now x.2.2.
Definition q_purge (now : Time) q : list (string * (V * Time)) :=
  drop_while (q_expired now) q.
Definition q_delete (id : string) q : list (string * (V * Time)) :=
  filter (λ x, x.1 ≠ id) q.
Definition q_make_room (max : Z) q : list (string * (V * Time)) :=
  drop (length q - (Z.to_nat max - 1)) q.
Definition q_find (id : string) q : option (V * Time) :=
  (list_to_map q : gmap string (V * Time)) !! id.

(** Oldest first, expiries never decrease. *)
Definition q_sorted q : Prop := StronglySorted (λ x y, x.2.2 ≤ y.2.2)%Z q.

(** ** Representation invariant and abstraction *)

Definition wf s : Prop :=
  golist_wf (order s) ∧
  ∀ n id, (n, id) ∈ gl_nodes (order s) ↔ ∃ e, items s !! id = Some e ∧ e_elem e = n.

Definition abs_entry (m : gmap string (entry V)) (x : nat * string) :
    option (string * (V * Time)) :=
  (λ e, (x.2, (e_value e, e_expires e))) <$> m !! x.2.

Definition abs s : list (string * (V * Time)) :=
  omap (abs_entry (items s)) (gl_nodes (order s)).

Definition bounded s : Prop := (0 < maxItems s)%Z ∧ (store_Len s ≤ maxItems s)%Z.

Lemma wf_new m t : wf (new_store m t).
Proof.
  split; [auto with authcore|]. cbn. intros n id.
  rewrite elem_of_nil, lookup_empty. naive_solver.
Qed.

Lemma wf_node_item s n id :
  wf s → (n, id) ∈ gl_nodes (order s) → ∃ e, items s !! id = Some e ∧ e_elem e = n.
Proof. intros [_ H] Hn. by apply H. Qed.

Lemma wf_item_node s id e :
  wf s → items s !! id = Some e → (e_elem e, id) ∈ gl_nodes (order s).
Proof. intros [_ H] He. apply H. eauto. Qed.

(** A node list with distinct identities in which an id has at most one identity has
    distinct ids. *)
Lemma nodes_NoDup_ids (l : list (nat * string)) :
  NoDup l.*1 → (∀ n m id, (n, id) ∈ l → (m, id) ∈ l → n = m) → NoDup l.*2.
Proof.
  induction l as [|[n id] l IH]; cbn; [constructor|].
  intros [Hn Hnd]%NoDup_cons Hinj. constructor.
  - intros ([m id'] & Hid & Hm)%list_elem_of_fmap. cbn in Hid. subst id'.
    apply Hn. rewrite (Hinj n m id) by set_solver. apply list_elem_of_fmap.
    by exists (m, id).
  - apply IH; [done|]. intros. eapply Hinj; by apply list_elem_of_further.
Qed.

Lemma wf_NoDup_ids s : wf s → NoDup (gl_nodes (order s)).*2.
Proof.
  intros Hwf. apply nodes_NoDup_ids; [apply Hwf|].
  intros n m id (e & He & <-)%(wf_node_item s _ _ Hwf) (e' & He' & <-)%(wf_node_item s _ _ Hwf).
  congruence.
Qed.

Lemma abs_entry_Some m x y :
  abs_entry m x = Some y ↔
  ∃ e, m !! x.2 = Some e ∧ y = (x.2, (e_value e, e_expires e)).
Proof. unfold abs_entry. rewrite fmap_Some. naive_solver. Qed.

Lemma abs_keys_aux m (l : list (nat * string)) :
  (∀ n id, (n, id) ∈ l → is_Some (m !! id)) → (omap (abs_entry m) l).*1 = l.*2.
Proof.
  induction l as [|[n id] l IH]; intros Hl; [done|]. cbn.
  destruct (Hl n id) as [e He]; [set_solver|].
  unfold abs_entry at 1; cbn. rewrite He; cbn. f_equal. apply IH. set_solver.
Qed.

Lemma abs_keys s : wf s → (abs s).*1 = (gl_nodes (order s)).*2.
Proof.
  intros Hwf. apply abs_keys_aux. intros n id Hn.
  destruct (wf_node_item _ _ _ Hwf Hn) as (e & -> & _). eauto.
Qed.

Lemma abs_NoDup s : wf s → NoDup (abs s).*1.
Proof. intros Hwf. rewrite abs_keys by done. by apply wf_NoDup_ids. Qed.

Lemma abs_elem_of s id v t :
  wf s →
  (id, (v, t)) ∈ abs s ↔ ∃ e, items s !! id = Some e ∧ e_value e = v ∧ e_expires e = t.
Proof.
  intros Hwf. unfold abs. rewrite list_elem_of_omap. split.
  - intros ([n id'] & _ & (e & He & [= -> -> ->])%abs_entry_Some). naive_solver.
  - intros (e & He & <- & <-). exists (e_elem e, id).
    split; [by apply wf_item_node|]. apply abs_entry_Some. eauto.
Qed.

(** The map is the queue seen as a finite map. *)
Lemma abs_find s id :
  wf s → q_find id (abs s) = (λ e, (e_value e, e_expires e)) <$> items s !! id.
Proof.
  intros Hwf. unfold q_find. apply option_eq. intros [v t].
  rewrite <- elem_of_list_to_map by by apply abs_NoDup.
  rewrite abs_elem_of by done. rewrite fmap_Some. naive_solver.
Qed.

Lemma abs_length s : wf s → length (abs s) = length (gl_nodes (order s)).
Proof.
  intros Hwf. rewrite <- (length_fmap fst (abs s)), <- (length_fmap snd (gl_nodes _)).
  by rewrite abs_keys.
Qed.

Lemma abs_Len s : wf s → store_Len s = Z.of_nat (length (abs s)).
Proof.
  intros Hwf. unfold store_Len. f_equal.
  rewrite <- (length_fmap fst (abs s)), <- size_dom.
  rewrite <- (size_list_to_set (C := gset string)) by by apply abs_NoDup.
  f_equal. apply set_eq. intros id. rewrite elem_of_dom, elem_of_list_to_set.
  rewrite list_elem_of_fmap. split.
  - intros [e He]. exists (id, (e_value e, e_expires e)). split; [done|].
    apply abs_elem_of; eauto.
  - intros ([id' [v t]] & -> & (e & He & _)%abs_elem_of); [eauto|done].
Qed.

(** ** The simulation, operation by operation *)

(** Unlinking [id] through its own node: both loops and [deleteLocked] do this. *)
Lemma wf_drop s id e :
  wf s → items s !! id = Some e → wf (drop_entry id (e_elem e) s).
Proof.
  intros Hwf He. split; [apply golist_wf_Remove, Hwf|].
  intros n id'. unfold drop_entry, Remove; cbn [items order gl_nodes].
  rewrite list_elem_of_filter. setoid_rewrite lookup_delete_Some. split.
  - intros [Hn Hin]. destruct (wf_node_item _ _ _ Hwf Hin) as (e' & He' & <-).
    exists e'. split_and!; [|done|done]. intros <-. apply Hn. cbn. congruence.
  - intros (e' & [Hne He'] & <-). pose proof (wf_item_node _ _ _ Hwf He') as Hin.
    split; [|done]. cbn. intros Heq.
    pose proof (wf_item_node _ _ _ Hwf He) as Hin'. rewrite <- Heq in Hin'.
    apply Hne. destruct Hwf as [[Hnd _] _]. by eapply NoDup_fst_inj.
Qed.

(** Two node lists with the same ids, over maps that agree on them, abstract alike. *)
Lemma omap_abs_ext m1 m2 (l : list (nat * string)) :
  (∀ n id, (n, id) ∈ l → m1 !! id = m2 !! id) →
  omap (abs_entry m1) l = omap (abs_entry m2) l.
Proof.
  induction l as [|[n id] l IH]; intros Hl; [done|]. cbn.
  assert (abs_entry m1 (n, id) = abs_entry m2 (n, id)) as ->
    by (unfold abs_entry; cbn; by rewrite (Hl n id) by set_solver).
  rewrite IH by set_solver. done.
Qed.

Lemma abs_drop s id e :
  wf s → items s !! id = Some e →
  abs (drop_entry id (e_elem e) s) = q_delete id (abs s).
Proof.
  intros Hwf He. unfold abs, drop_entry, q_delete, Remove; cbn [items order gl_nodes].
  destruct s as [m [nxt l] t mx]; cbn [items order gl_nodes gl_next] in *.
  assert (∀ n id', (n, id') ∈ l → is_Some (m !! id') ∧ (id' = id ↔ n = e_elem e)) as Hl.
  { intros n id' Hin. pose proof (wf_node_item _ _ _ Hwf Hin) as (e' & He' & Hn). cbn in He'.
    split; [eauto|]. split; [intros ->; cbn in *; congruence|]. intros ->.
    pose proof (wf_item_node _ _ _ Hwf He) as Hin'. cbn in Hin'.
    destruct Hwf as [[Hnd _] _]. by eapply NoDup_fst_inj. }
  clear Hwf He. induction l as [|[n id'] l IH]; [done|].
  destruct (Hl n id') as [[e' He'] Hid]; [set_solver|].
  rewrite filter_cons; cbn [fst].
  change (omap (abs_entry m) ((n, id') :: l))
    with (match abs_entry m (n, id') with
          | Some y => y :: omap (abs_entry m) l | None => omap (abs_entry m) l end).
  unfold abs_entry at 2; cbn [snd]. rewrite He'; cbn [fmap option_fmap option_map].
  rewrite filter_cons; cbn [fst].
  destruct (decide (id' = id)) as [->|Hne].
  - rewrite (decide_False (P := id ≠ id)) by tauto.
    rewrite decide_False by (rewrite <- (proj1 Hid eq_refl); tauto).
    apply IH. set_solver.
  - rewrite (decide_True (P := id' ≠ id)) by done.
    rewrite decide_True by tauto. cbn.
    unfold abs_entry at 1; cbn. rewrite lookup_delete_ne, He' by done. cbn.
    f_equal. apply IH. set_solver.
Qed.

(** The front of the list is the head of the queue. *)
Lemma front_abs s n id :
  wf s → Front (order s) = Some (n, id) →
  ∃ e q, items s !! id = Some e ∧ e_elem e = n ∧
    abs s = (id, (e_value e, e_expires e)) :: q ∧ abs (drop_entry id n s) = q ∧
    wf (drop_entry id n s).
Proof.
  intros Hwf Hf. unfold Front in Hf.
  destruct (gl_nodes (order s)) as [|x l] eqn:Hl; [done|]. injection Hf as ->.
  destruct (wf_node_item s n id Hwf) as (e & He & <-); [rewrite Hl; by left|].
  exists e, (omap (abs_entry (items s)) l).
  assert (abs s = (id, (e_value e, e_expires e)) :: omap (abs_entry (items s)) l) as Habs.
  { unfold abs. rewrite Hl. cbn. unfold abs_entry at 1; cbn. by rewrite He. }
  split_and!; [done|done|done| |by apply wf_drop].
  rewrite abs_drop, Habs by done. unfold q_delete. rewrite filter_cons, decide_False by tauto.
  apply filter_id. intros [id' x] Hx; cbn; intros ->. pose proof (abs_NoDup s Hwf) as Hnd.
  rewrite Habs in Hnd. apply NoDup_cons in Hnd as [Hnd _]. apply Hnd.
  apply list_elem_of_fmap. by exists (id, x).
Qed.

Lemma front_none s : wf s → Front (order s) = None → abs s = [].
Proof. intros _. unfold Front, abs. by destruct (gl_nodes (order s)). Qed.

Lemma drop_entry_nodes s n id :
  wf s → Front (order s) = Some (n, id) →
  length (gl_nodes (order s)) = S (length (gl_nodes (order (drop_entry id n s)))).
Proof.
  intros Hwf Hf. destruct (front_abs s n id Hwf Hf) as (e & q & _ & _ & Ha & Hq & Hwf').
  rewrite <- !abs_length by done. by rewrite Ha, Hq.
Qed.

(** Nothing but the map and the list is touched by a loop. *)
Definition same_bounds s s' : Prop := ttl s' = ttl s ∧ maxItems s' = maxItems s.

Lemma purge_loop_spec fuel now s :
  wf s → length (gl_nodes (order s)) ≤ fuel →
  let s' := purge_loop fuel now s in
  wf s' ∧ abs s' = q_purge now (abs s) ∧ same_bounds s s'.
Proof.
  revert s. induction fuel as [|fuel IH]; intros s Hwf Hfuel; cbn.
  - rewrite (front_none s Hwf); [done|]. unfold Front.
    by destruct (gl_nodes (order s)); [|cbn in Hfuel; lia].
  - destruct (Front (order s)) as [[n id]|] eqn:Hf.
    2: { rewrite (front_none s Hwf Hf). done. }
    destruct (front_abs s n id Hwf Hf) as (e & q & He & Hn & Ha & Hq & Hwf').
    pose proof (drop_entry_nodes s n id Hwf Hf) as Hlen.
    rewrite He, Ha. unfold q_purge; cbn [drop_while]. unfold q_expired at 1; cbn [fst snd].
    destruct (After now (e_expires e)); [|done].
    destruct (IH (drop_entry id n s) Hwf') as (H1 & H2 & H3); [lia|].
    split_and!; [done|by rewrite H2, Hq|exact H3].
Qed.

Lemma purge_expired_spec now s :
  wf s →
  let s' := purge_expired now s in
  wf s' ∧ abs s' = q_purge now (abs s) ∧ same_bounds s s'.
Proof. intros Hwf. by apply purge_loop_spec. Qed.

Lemma evict_loop_spec fuel s :
  wf s → (0 < maxItems s)%Z → length (gl_nodes (order s)) ≤ fuel →
  let s' := evict_loop fuel s in
  wf s' ∧ abs s' = q_make_room (maxItems s) (abs s) ∧ same_bounds s s'.
Proof.
  revert s. induction fuel as [|fuel IH]; intros s Hwf Hmax Hfuel; cbn.
  - rewrite (front_none s Hwf); [done|]. unfold Front.
    by destruct (gl_nodes (order s)); [|cbn in Hfuel; lia].
  - pose proof (abs_Len s Hwf) as Hsz. unfold store_Len in Hsz. rewrite Hsz.
    unfold q_make_room. destruct (Z.leb_spec (maxItems s) (Z.of_nat (length (abs s)))).
    2: { replace (_ - _)%nat with 0%nat by lia. done. }
    destruct (Front (order s)) as [[n id]|] eqn:Hf.
    2: { rewrite (front_none s Hwf Hf) in *. cbn in *. lia. }
    destruct (front_abs s n id Hwf Hf) as (e & q & He & Hn & Ha & Hq & Hwf').
    pose proof (drop_entry_nodes s n id Hwf Hf) as Hlen.
    destruct (IH (drop_entry id n s) Hwf') as (H1 & H2 & H3); [done|lia|].
    split_and!; [done| |exact H3].
    rewrite H2, Hq, Ha. unfold q_make_room; cbn [maxItems drop_entry length].
    rewrite Ha in *. cbn [length] in *.
    replace (S (length q) - (Z.to_nat (maxItems s) - 1))%nat
      with (S (length q - (Z.to_nat (maxItems s) - 1))) by lia. done.
Qed.

Lemma evict_to_capacity_spec s :
  wf s → (0 < maxItems s)%Z →
  let s' := evict_to_capacity s in
  wf s' ∧ abs s' = q_make_room (maxItems s) (abs s) ∧ same_bounds s s'.
Proof. intros. by apply evict_loop_spec. Qed.

Lemma push_entry_spec id v t s :
  wf s → items s !! id = None →
  let s' := push_entry id v t s in
  wf s' ∧ abs s' = abs s ++ [(id, (v, t))] ∧ same_bounds s s'.
Proof.
  intros Hwf Hid. unfold push_entry, PushBack; cbn.
  assert (∀ n id', (n, id') ∈ gl_nodes (order s) → id' ≠ id) as Hne.
  { intros n id' (e & He & _)%(wf_node_item _ _ _ Hwf) ->. congruence. }
  split; [split|split; [|done]]; cbn.
  - apply (golist_wf_PushBack id), Hwf.
  - intros n id'. rewrite elem_of_app, list_elem_of_singleton, lookup_insert. split.
    + intros [Hn|[= -> ->]]; [|rewrite decide_True by done; eauto].
      rewrite decide_False by (apply not_eq_sym; eauto). by apply wf_node_item.
    + intros (e & He & <-). case_decide; [right; naive_solver|].
      left. by apply wf_item_node.
  - unfold abs; cbn. rewrite omap_app; cbn.
    unfold abs_entry at 2; cbn. rewrite lookup_insert_eq; cbn. f_equal.
    apply omap_abs_ext. intros n id' Hn. apply lookup_insert_ne.
    apply not_eq_sym; eauto.
Qed.

(** ** Facts about the queue *)

Lemma q_delete_None id q : q_find id (q_delete id q) = None.
Proof.
  unfold q_find, q_delete. apply not_elem_of_list_to_map.
  intros (x & -> & [Hx _]%list_elem_of_filter)%list_elem_of_fmap. done.
Qed.

Lemma q_delete_length id q : length (q_delete id q) ≤ length q.
Proof. apply length_filter. Qed.

Lemma q_make_room_length max q :
  (0 < max)%Z → (Z.of_nat (length (q_make_room max q)) < max)%Z.
Proof. intros Hmax. unfold q_make_room. rewrite length_drop. lia. Qed.

Lemma q_sorted_suffix q q' : q' `suffix_of` q → q_sorted q → q_sorted q'.
Proof. apply StronglySorted_suffix. Qed.

(** Under a sorted queue, stopping at the first entry that has not expired leaves no
    expired entry behind. *)
Lemma q_purge_complete now q :
  q_sorted q → Forall (λ x, (now ≤ x.2.2)%Z) (q_purge now q).
Proof.
  unfold q_purge. induction 1 as [|x q Hq IH Hx]; cbn; [done|].
  unfold q_expired at 1, After. destruct (Z.ltb_spec x.2.2 now); [done|].
  constructor; [done|]. eapply Forall_impl; [done|]. cbn. lia.
Qed.

(** The queue after operations up to time [t] under a monotone clock. *)
Definition q_timed (t : Time) (d : Duration) q : Prop :=
  q_sorted q ∧ Forall (λ x, (x.2.2 ≤ t + d)%Z) q.

Lemma q_timed_later t t' d q : q_timed t d q → (t ≤ t')%Z → q_timed t' d q.
Proof. intros [Hs Hf] Ht. split; [done|]. eapply Forall_impl; [done|]. cbn. lia. Qed.

Lemma q_timed_suffix t d q q' : q' `suffix_of` q → q_timed t d q → q_timed t d q'.
Proof.
  intros Hsuf [Hs Hf]. split; [by eapply StronglySorted_suffix|].
  rewrite Forall_forall in Hf |- *. intros x Hx. apply Hf. by eapply suffix_elem_of.
Qed.

Lemma q_timed_delete t d id q : q_timed t d q → q_timed t d (q_delete id q).
Proof.
  intros [Hs Hf]. split; [by apply StronglySorted_filter|].
  rewrite Forall_forall in Hf |- *. intros x [_ Hx]%list_elem_of_filter. auto.
Qed.

Lemma q_timed_snoc t d id v q : q_timed t d q → q_timed t d (q ++ [(id, (v, Add t d))]).
Proof.
  intros [Hs Hf]. split.
  - by apply StronglySorted_snoc.
  - apply Forall_app. split; [done|]. repeat constructor. cbn. unfold Add. lia.
Qed.

(** [x] is in the queue with at most [k] entries behind it. *)
Definition behind (k : nat) (x : string * (V * Time)) q : Prop :=
  ∃ pre post, q = pre ++ x :: post ∧ length post ≤ k.

Lemma behind_elem_of k x q : behind k x q → x ∈ q.
Proof. intros (pre & post & -> & _). set_solver. Qed.

Lemma behind_purge k now x q :
  q_expired now x = false → behind k x q → behind k x (q_purge now q).
Proof.
  intros Hx (pre & post & -> & Hk). unfold q_purge.
  induction pre as [|y pre IH]; cbn; [rewrite Hx; by exists [], post|].
  destruct (q_expired now y); [done|]. by exists (y :: pre), post.
Qed.

Lemma behind_delete k id x q : x.1 ≠ id → behind k x q → behind k x (q_delete id q).
Proof.
  intros Hx (pre & post & -> & Hk). unfold q_delete.
  rewrite filter_app, filter_cons, decide_True by done.
  eexists _, _. split; [done|]. etrans; [apply length_filter|done].
Qed.

Lemma behind_make_room k max x q :
  (Z.of_nat k + 1 < max)%Z → behind k x q → behind k x (q_make_room max q).
Proof.
  intros Hmax (pre & post & -> & Hk). unfold q_make_room. rewrite length_app; cbn [length].
  rewrite drop_app_le by lia. by eexists _, _.
Qed.

Lemma behind_snoc k x y q : behind k x q → behind (S k) x (q ++ [y]).
Proof.
  intros (pre & post & -> & Hk). exists pre, (post ++ [y]).
  rewrite length_app, <- app_assoc; cbn. split; [done|lia].
Qed.

Lemma behind_last x q : behind 0 x (q ++ [x]).
Proof. by exists q, []. Qed.

Lemma behind_find s k id v t :
  wf s → behind k (id, (v, t)) (abs s) →
  ∃ e, items s !! id = Some e ∧ e_value e = v ∧ e_expires e = t.
Proof. intros Hwf Hk. apply abs_elem_of; [done|]. by eapply behind_elem_of. Qed.

(** Neither loop brings an id into the map. *)
Lemma purge_loop_None fuel now s id :
  items s !! id = None → items (purge_loop fuel now s) !! id = None.
Proof.
  revert s. induction fuel as [|fuel IH]; intros s Hid; cbn; [done|].
  destruct (Front (order s)) as [[n id']|]; [|done].
  assert (items (drop_entry id' n s) !! id = None) by (apply lookup_delete_None; auto).
  destruct (items s !! id'); [|auto]. destruct (After _ _); auto.
Qed.

Lemma evict_loop_None fuel s id :
  items s !! id = None → items (evict_loop fuel s) !! id = None.
Proof.
  revert s. induction fuel as [|fuel IH]; intros s Hid; cbn; [done|].
  destruct (Z.leb _ _); [|done]. destruct (Front (order s)) as [[n id']|]; [|done].
  apply IH. apply lookup_delete_None; auto.
Qed.

(** ** The bounded store *)

(** What every operation keeps: the representation invariant, the bound and the
    configuration. *)
Definition inv (max : Z) (d : Duration) s : Prop :=
  wf s ∧ maxItems s = max ∧ ttl s = d ∧ (0 < max)%Z ∧ (store_Len s ≤ max)%Z.

Lemma inv_drop max d s id e :
  inv max d s → items s !! id = Some e → inv max d (drop_entry id (e_elem e) s).
Proof.
  intros (Hwf & Hmax & Hd & Hpos & Hlen) He. split_and!; [by apply wf_drop|done..|].
  pose proof (wf_drop s id e Hwf He). rewrite abs_Len in * by done.
  rewrite abs_drop by done. pose proof (q_delete_length id (abs s)). lia.
Qed.

Lemma q_find_suffix_None q q' id :
  q' `suffix_of` q → q_find id q = None → q_find id q' = None.
Proof.
  unfold q_find. intros [k ->]. rewrite <- !not_elem_of_list_to_map, fmap_app. set_solver.
Qed.

Lemma inv_new_store max d : (0 < max)%Z → inv max d (new_store max d).
Proof. intros Hmax. split_and!; [apply wf_new|done..|]. change (store_Len _) with 0%Z. lia. Qed.
End ttl_store.
