(* ===== verification/CaptchaStore.v ===== *)
(** * CaptchaStore

    [captcha/store.go]: the [Store] interface and [MemoryStore], its in-process
    implementation. The state is [TtlStore.store string]; each operation takes the
    time its call of [s.now()] returns. *)

From S2P Require Import Prelude GoRuntime GoStrings TtlStore.

Definition DefaultMemoryStoreTTL : Duration := 5 * Minute.
Definition DefaultMemoryStoreCapacity : Z := 10000.

Section memory_store.
Context {U : UnicodeTables}.
Implicit Types s : store string.

(** [newMemoryStore]: non-positive bounds are replaced by the defaults. *)
Definition newMemoryStore (maxItems : Z) (ttl : Duration) : store string :=
  let maxItems := if Z.leb maxItems 0 then DefaultMemoryStoreCapacity else maxItems in
  let ttl := if Z.leb ttl 0 then DefaultMemoryStoreTTL else ttl in
  new_store maxItems ttl.

Definition DefaultMemoryStore : store string :=
  newMemoryStore DefaultMemoryStoreCapacity DefaultMemoryStoreTTL.

Definition purgeExpiredLocked (now : Time) s : store string := purge_expired now s.

(** [deleteLocked]: the entry's own node is unlinked. *)
Definition deleteLocked (id : string) (e : entry string) s : store string :=
  drop_entry id (e_elem e) s.

(** The replacement step of [Set]: an existing id's node and entry go first. *)
Definition drop_existing (id : string) s : store string :=
  match items s !! id with
  | Some old => drop_entry id (e_elem old) s
  | None => s
  end.

(** [Set] never fails. *)
Definition Set_ (now : Time) (id value : string) s : store string :=
  let s := purgeExpiredLocked now s in
  let s := drop_existing id s in
  let s := evict_to_capacity s in
  push_entry id value (Add now (ttl s)) s.

Definition Get (now : Time) (id : string) (clear : bool) s : string * store string :=
  match items s !! id with
  | None => (""%string, s)
  | Some e =>
      if After now (e_expires e) then (""%string, deleteLocked id e s)
      else (e_value e, if clear then deleteLocked id e s else s)
  end.

Definition Verify (now : Time) (id answer : string) (clear : bool) s
    : bool * store string :=
  if bool_decide (id = ""%string) || bool_decide (answer = ""%string) then (false, s)
  else
    let '(value, s) := Get now id clear s in
    if bool_decide (value = ""%string) then (false, s)
    else (EqualFold (TrimSpace value) (TrimSpace answer), s).

Definition Len s : Z := store_Len s.

(** ** The specification: a bounded queue *)

Definition spec_Set (max : Z) (ttl : Duration) (now : Time) (id value : string)
    (q : list (string * (string * Time))) : list (string * (string * Time)) :=
  q_make_room max (q_delete id (q_purge now q)) ++ [(id, (value, Add now ttl))].

Definition spec_Get (now : Time) (id : string) (clear : bool)
    (q : list (string * (string * Time))) : string * list (string * (string * Time)) :=
  match q_find id q with
  | None => (""%string, q)
  | Some (v, expires) =>
      if After now expires then (""%string, q_delete id q)
      else (v, if clear then q_delete id q else q)
  end.

Definition spec_Verify (now : Time) (id answer : string) (clear : bool)
    (q : list (string * (string * Time))) : bool * list (string * (string * Time)) :=
  if bool_decide (id = ""%string) || bool_decide (answer = ""%string) then (false, q)
  else
    let '(value, q) := spec_Get now id clear q in
    if bool_decide (value = ""%string) then (false, q)
    else (EqualFold (TrimSpace value) (TrimSpace answer), q).

(** ** Operations as one step function *)

Inductive op : Type :=
| OpSet (now : Time) (id value : string)
| OpGet (now : Time) (id : string) (clear : bool)
| OpVerify (now : Time) (id answer : string) (clear : bool)
| OpLen.

Inductive out : Type :=
| OutSet
| OutGet (v : string)
| OutVerify (b : bool)
| OutLen (n : Z).

Definition op_time (o : op) : option Time :=
  match o with
  | OpSet now _ _ | OpGet now _ _ | OpVerify now _ _ _ => Some now
  | OpLen => None
  end.

Definition step (o : op) s : out * store string :=
  match o with
  | OpSet now id v => (OutSet, Set_ now id v s)
  | OpGet now id c => let '(v, s') := Get now id c s in (OutGet v, s')
  | OpVerify now id a c => let '(b, s') := Verify now id a c s in (OutVerify b, s')
  | OpLen => (OutLen (Len s), s)
  end.

Definition spec_step (max : Z) (ttl : Duration) (o : op)
    (q : list (string * (string * Time))) : out * list (string * (string * Time)) :=
  match o with
  | OpSet now id v => (OutSet, spec_Set max ttl now id v q)
  | OpGet now id c => let '(v, q') := spec_Get now id c q in (OutGet v, q')
  | OpVerify now id a c => let '(b, q') := spec_Verify now id a c q in (OutVerify b, q')
  | OpLen => (OutLen (Z.of_nat (length q)), q)
  end.

(** The outputs and the final state of a sequence of operations. The lock [s.mu]
    makes every operation atomic, so any interleaving of callers is one. *)
Fixpoint run {S} (stp : op → S → out * S) (ops : list op) (s : S) : list out * S :=
  match ops with
  | [] => ([], s)
  | o :: ops => let '(y, s) := stp o s in let '(ys, s) := run stp ops s in (y :: ys, s)
  end.

(** ** Simulation *)

Lemma inv_new max d :
  inv (if Z.leb max 0 then DefaultMemoryStoreCapacity else max)
      (if Z.leb d 0 then DefaultMemoryStoreTTL else d) (newMemoryStore max d).
Proof.
  unfold newMemoryStore, inv. split_and!; [apply wf_new|done|done| |].
  - destruct (Z.leb_spec max 0); [done|lia].
  - change (store_Len _) with 0%Z. destruct (Z.leb_spec max 0); [done|lia].
Qed.

Lemma drop_existing_spec id s :
  wf s →
  let s' := drop_existing id s in
  wf s' ∧ abs s' = q_delete id (abs s) ∧ items s' !! id = None ∧ same_bounds s s'.
Proof.
  intros Hwf. unfold drop_existing. destruct (items s !! id) as [e|] eqn:He.
  - split_and!; [by apply wf_drop|by apply abs_drop|apply lookup_delete_eq|done].
  - split_and!; [done| |done|done]. unfold q_delete. symmetry. apply filter_id.
    intros [id' [v t]] (e & He' & _)%abs_elem_of; [|done]. cbn. congruence.
Qed.

Lemma Set_spec max d now id v s :
  inv max d s →
  inv max d (Set_ now id v s) ∧ abs (Set_ now id v s) = spec_Set max d now id v (abs s).
Proof.
  intros (Hwf & Hmax & Hd & Hpos & _). unfold Set_, spec_Set, purgeExpiredLocked.
  destruct (purge_expired_spec now s Hwf) as (H1 & A1 & T1 & M1).
  destruct (drop_existing_spec id _ H1) as (H2 & A2 & N2 & T2 & M2).
  destruct (evict_to_capacity_spec _ H2) as (H3 & A3 & T3 & M3); [congruence|].
  set (s3 := evict_to_capacity _) in *.
  assert (items s3 !! id = None) as N3.
  { apply eq_None_not_Some. intros [e He].
    pose proof (abs_find s3 id H3) as Hf. rewrite He, A3 in Hf.
    rewrite (q_find_suffix_None (abs (drop_existing id (purge_expired now s)))) in Hf;
      [done|apply drop_suffix|]. by rewrite abs_find, N2. }
  destruct (push_entry_spec id v (Add now (ttl s3)) s3 H3 N3) as (H4 & A4 & T4 & M4).
  assert (maxItems (drop_existing id (purge_expired now s)) = max) as Hm by congruence.
  rewrite Hm, A2, A1 in A3. split.
  - split_and!; [done|congruence|congruence|done|].
    rewrite abs_Len, A4, length_app by done. cbn [length]. rewrite A3.
    pose proof (q_make_room_length max (q_delete id (q_purge now (abs s))) Hpos). lia.
  - rewrite A4, A3. do 4 f_equal. congruence.
Qed.

Lemma Get_spec max d now id c s :
  inv max d s →
  let '(v, s') := Get now id c s in
  inv max d s' ∧ spec_Get now id c (abs s) = (v, abs s').
Proof.
  intros Hinv. pose proof Hinv as (Hwf & _). unfold Get, spec_Get, deleteLocked.
  rewrite abs_find by done. destruct (items s !! id) as [e|] eqn:He; [|done]. cbn.
  pose proof (inv_drop _ _ _ _ _ Hinv He). rewrite <- (abs_drop s id e) by done.
  destruct (After now (e_expires e)), c; done.
Qed.

Lemma Verify_spec max d now id a c s :
  inv max d s →
  let '(b, s') := Verify now id a c s in
  inv max d s' ∧ spec_Verify now id a c (abs s) = (b, abs s').
Proof.
  intros Hinv. unfold Verify, spec_Verify. destruct (_ || _); [done|].
  pose proof (Get_spec max d now id c s Hinv) as Hg.
  destruct (Get now id c s) as [v s']. destruct Hg as [Hinv' ->].
  by destruct (bool_decide _).
Qed.

Lemma step_spec max d o s :
  inv max d s →
  let '(y, s') := step o s in
  inv max d s' ∧ spec_step max d o (abs s) = (y, abs s').
Proof.
  intros Hinv. destruct o as [now id v|now id c|now id a c|]; cbn [step spec_step].
  - destruct (Set_spec max d now id v s Hinv) as [? Hs]. by rewrite Hs.
  - pose proof (Get_spec max d now id c s Hinv) as Hg.
    destruct (Get now id c s). by destruct Hg as [? ->].
  - pose proof (Verify_spec max d now id a c s Hinv) as Hg.
    destruct (Verify now id a c s). by destruct Hg as [? ->].
  - split; [done|]. unfold Len. rewrite abs_Len by apply Hinv. done.
Qed.

Lemma run_spec max d ops : ∀ s,
  inv max d s →
  let '(ys, s') := run step ops s in
  inv max d s' ∧ run (spec_step max d) ops (abs s) = (ys, abs s').
Proof.
  induction ops as [|o ops IH]; intros s Hinv; cbn; [done|].
  pose proof (step_spec max d o s Hinv) as Hs.
  destruct (step o s) as [y s1]. destruct Hs as [Hinv1 ->].
  specialize (IH s1 Hinv1). destruct (run step ops s1) as [ys s2].
  by destruct IH as [? ->].
Qed.

(** ** Absent ids *)

Lemma deleteLocked_None id id' e s :
  items s !! id = None → items (deleteLocked id' e s) !! id = None.
Proof. intros H. apply lookup_delete_None. auto. Qed.

Lemma Get_None now id id' c s :
  items s !! id = None → items (Get now id' c s).2 !! id = None.
Proof.
  intros Hid. unfold Get. destruct (items s !! id') as [e|]; [|done].
  destruct (After _ _), c; cbn; try done; by apply (deleteLocked_None id id' e).
Qed.

Lemma Verify_None now id id' a c s :
  items s !! id = None → items (Verify now id' a c s).2 !! id = None.
Proof.
  intros Hid. unfold Verify. destruct (_ || _); [done|].
  pose proof (Get_None now id id' c s Hid). destruct (Get now id' c s) as [v s'].
  by destruct (bool_decide _).
Qed.

Lemma Set_None now id id' v s :
  items s !! id = None → id' ≠ id → items (Set_ now id' v s) !! id = None.
Proof.
  intros Hid Hne. unfold Set_, push_entry, PushBack; cbn.
  rewrite lookup_insert_ne by done. apply evict_loop_None.
  assert (items (purgeExpiredLocked now s) !! id = None) as Hp by by apply purge_loop_None.
  unfold drop_existing. destruct (items (purgeExpiredLocked now s) !! id'); [|done].
  apply lookup_delete_None. auto.
Qed.

Lemma Get_clear_None now id s : items (Get now id true s).2 !! id = None.
Proof.
  unfold Get. destruct (items s !! id) as [e|] eqn:He; [|done].
  destruct (After _ _); apply lookup_delete_eq.
Qed.

Lemma Verify_clear_None now id a s :
  id ≠ ""%string → a ≠ ""%string → items (Verify now id a true s).2 !! id = None.
Proof.
  intros Hid Ha. unfold Verify. rewrite !bool_decide_eq_false_2 by done. cbn.
  pose proof (Get_clear_None now id s). destruct (Get now id true s) as [v s'].
  by destruct (bool_decide _).
Qed.

Lemma Verify_absent now id a c s : items s !! id = None → (Verify now id a c s).1 = false.
Proof.
  intros Hid. unfold Verify, Get. rewrite Hid. by destruct (_ || _).
Qed.

(** ** Survival in the queue *)

Definition is_set (o : op) : bool := match o with OpSet _ _ _ => true | _ => false end.
Fixpoint sets (ops : list op) : nat :=
  match ops with [] => 0 | o :: ops => (if is_set o then 1 else 0) + sets ops end.

(** The operation leaves the entry of [id] alone until [limit]: it is about another
    id, or does not clear, and its clock has not passed [limit]. *)
Definition spares (id : string) (limit : Time) (o : op) : bool :=
  match o with
  | OpSet now id' _ => bool_decide (id' ≠ id) && Z.leb now limit
  | OpGet now id' c | OpVerify now id' _ c =>
      bool_decide (id' ≠ id) || (negb c && Z.leb now limit)
  | OpLen => true
  end.

Lemma spec_Get_behind k now id' c x (q : list (string * (string * Time))) :
  NoDup q.*1 → behind k x q →
  (id' ≠ x.1 ∨ (c = false ∧ (now ≤ x.2.2)%Z)) → behind k x (spec_Get now id' c q).2.
Proof.
  intros Hnd Hx Hsp. unfold spec_Get.
  destruct (q_find id' q) as [[v t]|] eqn:Hq; [|done].
  destruct Hsp as [Hne|[-> Ht]].
  - destruct (After now t), c; cbn; auto using behind_delete.
  - unfold After. destruct (Z.ltb_spec t now); [|done].
    apply behind_delete; [|done]. intros <-.
    unfold q_find in Hq. apply elem_of_list_to_map in Hq; [|done].
    apply behind_elem_of in Hx. destruct x as [id [v' t']]; cbn in *.
    pose proof (NoDup_fst_inj _ _ _ _ Hnd Hx Hq) as [= -> ->]. lia.
Qed.

Lemma spec_step_behind max d o k x (q : list (string * (string * Time))) :
  NoDup q.*1 → behind k x q → spares x.1 x.2.2 o = true →
  (Z.of_nat k + 1 < max)%Z ∨ sets [o] = 0 →
  behind (k + sets [o]) x (spec_step max d o q).2.
Proof.
  intros Hnd Hx Hsp Hk. destruct o as [now id v|now id c|now id a c|]; cbn in Hsp, Hk |- *.
  - bool_simp. rewrite Nat.add_comm; cbn. apply behind_snoc, behind_make_room.
    { by destruct Hk. }
    apply behind_delete; [done|]. apply behind_purge; [|done].
    unfold q_expired, After. apply Z.ltb_ge. lia.
  - rewrite Nat.add_0_r.
    assert (behind k x (spec_Get now id c q).2) as Hg.
    { apply spec_Get_behind; [done..|]. apply orb_true_iff in Hsp as [?|?]; bool_simp; auto. }
    by destruct (spec_Get now id c q).
  - rewrite Nat.add_0_r. unfold spec_Verify. destruct (bool_decide (id = _) || _); [done|].
    assert (behind k x (spec_Get now id c q).2) as Hg.
    { apply spec_Get_behind; [done..|]. apply orb_true_iff in Hsp as [?|?]; bool_simp; auto. }
    destruct (spec_Get now id c q) as [v q']. by destruct (bool_decide (v = _)).
  - by rewrite Nat.add_0_r.
Qed.

Lemma run_behind max d ops : ∀ k x s,
  inv max d s → behind k x (abs s) → forallb (spares x.1 x.2.2) ops = true →
  (Z.of_nat (k + sets ops) < max)%Z →
  inv max d (run step ops s).2 ∧ behind (k + sets ops) x (abs (run step ops s).2).
Proof.
  induction ops as [|o ops IH]; intros k x s Hinv Hx Hsp Hk; cbn in Hsp.
  { unfold sets; cbn. by rewrite Nat.add_0_r. }
  bool_simp. assert (sets (o :: ops) = sets [o] + sets ops) as Hsets
    by (cbn; by rewrite Nat.add_0_r).
  pose proof (step_spec max d o s Hinv) as Hs. cbn [run].
  assert (behind (k + sets [o]) x (spec_step max d o (abs s)).2) as Hb.
  { apply spec_step_behind; [apply abs_NoDup, Hinv|done..|].
    destruct o; cbn in Hk |- *; [left; lia|by right..]. }
  destruct (step o s) as [y s1]. destruct Hs as [Hinv1 Hs]. rewrite Hs in Hb; cbn in Hb.
  destruct (IH (k + sets [o]) x s1) as [H1 H2]; [done|done|done|lia|].
  destruct (run step ops s1) as [ys s2]; cbn in *. split; [done|].
  by rewrite Hsets, Nat.add_assoc.
Qed.

(** ** Expiry under a monotone clock *)

(** The clock readings of the operations never decrease, starting from [t]. *)
Fixpoint monotone (t : Time) (ops : list op) : bool :=
  match ops with
  | [] => true
  | o :: ops =>
      match op_time o with
      | Some now => Z.leb t now && monotone now ops
      | None => monotone t ops
      end
  end.

Lemma q_timed_Set max t d now id v (q : list (string * (string * Time))) :
  q_timed t d q → (t ≤ now)%Z → q_timed now d (spec_Set max d now id v q).
Proof.
  intros Hq Ht. apply q_timed_snoc. apply (q_timed_suffix _ _ _ _ (drop_suffix _ _)).
  apply q_timed_delete. apply (q_timed_suffix _ _ _ _ (drop_while_suffix _ _)).
  by apply (q_timed_later t).
Qed.

Lemma q_timed_Get t d now id c (q : list (string * (string * Time))) :
  q_timed t d q → (t ≤ now)%Z → q_timed now d (spec_Get now id c q).2.
Proof.
  intros Hq Ht. apply (q_timed_later _ now) in Hq; [|done]. unfold spec_Get.
  destruct (q_find id q) as [[v e]|]; [|done].
  destruct (After now e), c; cbn; auto using q_timed_delete.
Qed.

Lemma q_timed_step max t d o (q : list (string * (string * Time))) :
  q_timed t d q → (t ≤ default t (op_time o))%Z →
  q_timed (default t (op_time o)) d (spec_step max d o q).2.
Proof.
  intros Hq. destruct o as [now id v|now id c|now id a c|]; cbn; intros Ht.
  - by apply (q_timed_Set _ t).
  - pose proof (q_timed_Get t d now id c q Hq Ht). by destruct (spec_Get now id c q).
  - unfold spec_Verify. destruct (_ || _); [by apply (q_timed_later t)|].
    pose proof (q_timed_Get t d now id c q Hq Ht). destruct (spec_Get now id c q) as [v q'].
    by destruct (bool_decide (v = _)).
  - done.
Qed.

Lemma run_timed max d ops : ∀ t s,
  inv max d s → q_timed t d (abs s) → monotone t ops = true →
  ∃ t', q_timed t' d (abs (run step ops s).2) ∧
        ∀ o, monotone t (ops ++ [o]) = true → (t' ≤ default t' (op_time o))%Z.
Proof.
  induction ops as [|o ops IH]; intros t s Hinv Hq Hm; cbn [run].
  { exists t. split; [done|]. intros o. cbn. destruct (op_time o); cbn; [|lia].
    rewrite andb_true_r. lia. }
  pose proof (step_spec max d o s Hinv) as Hs.
  pose proof (q_timed_step max t d o (abs s) Hq) as Hq'.
  destruct (step o s) as [y s1]. destruct Hs as [Hinv1 Hs]. rewrite Hs in Hq'.
  destruct (IH (default t (op_time o)) s1 Hinv1) as (t' & H1 & H2).
  - apply Hq'. cbn in Hm. destruct (op_time o); cbn; [|lia]. bool_simp. lia.
  - cbn in Hm. destruct (op_time o); [by bool_simp|done].
  - exists t'. split; [by destruct (run step ops s1)|].
    intros o' Ho'. apply H2. cbn in Ho'. destruct (op_time o); [by bool_simp|done].
Qed.

Lemma run_app {S} (stp : op → S → out * S) ops o (x : S) :
  (run stp (ops ++ [o]) x).2 = (stp o (run stp ops x).2).2.
Proof.
  revert x. induction ops as [|o' ops IH]; intros x; cbn.
  - by destruct (stp o x).
  - destruct (stp o' x) as [y x1]. specialize (IH x1).
    destruct (run stp (ops ++ [o]) x1), (run stp ops x1); cbn in *. done.
Qed.

Lemma monotone_app_l t ops o : monotone t (ops ++ [o]) = true → monotone t ops = true.
Proof.
  revert t. induction ops as [|o' ops IH]; intros t; cbn; [done|].
  destruct (op_time o') as [u|]; [|apply IH]. intros ?. bool_simp.
  rewrite (IH u) by done. rewrite andb_true_r. by apply Z.leb_le.
Qed.

(** C10 (refinement): [MemoryStore] implements the bounded queue: whatever sequence of
    operations is run on a fresh store, and whatever the clock does between them, every
    result is the one the queue specification gives, and the capacity bound holds at the
    end. *)
Theorem memory_store_refines_queue (max : Z) (d : Duration) (ops : list op) :
  let max' := if Z.leb max 0 then DefaultMemoryStoreCapacity else max in
  let d' := if Z.leb d 0 then DefaultMemoryStoreTTL else d in
  let '(ys, s) := run step ops (newMemoryStore max d) in
  run (spec_step max' d') ops [] = (ys, abs s) ∧ (Len s ≤ max')%Z ∧ wf s.
Proof.
  intros max' d'. pose proof (run_spec max' d' ops _ (inv_new max d)) as H.
  destruct (run step ops (newMemoryStore max d)) as [ys s].
  destruct H as [(Hwf & _ & _ & _ & Hlen) H]. split_and!; [done|done|done].
Qed.

(** Under a clock that does not go back, purging from the front until the first
    unexpired entry purges everything: after a [Set] at [now] no entry of the store
    has expired at [now]. *)
Theorem set_leaves_no_expired (max : Z) (d : Duration) (ops : list op)
    (t0 now : Time) (id value : string) :
  monotone t0 (ops ++ [OpSet now id value]) = true →
  let s := (run step (ops ++ [OpSet now id value]) (newMemoryStore max d)).2 in
  ∀ id' e, items s !! id' = Some e → After now (e_expires e) = false.
Proof.
  intros Hm s id' e He. pose proof (inv_new max d) as Hinv.
  set (m := if Z.leb max 0 then _ else _) in Hinv.
  set (d' := if Z.leb d 0 then _ else _) in Hinv.
  destruct (run_timed m d' ops t0 _ Hinv) as (t' & [Hsort Ht'] & Hlast);
    [by split; constructor|by eapply monotone_app_l|].
  specialize (Hlast (OpSet now id value) Hm); cbn in Hlast.
  pose proof (run_spec m d' ops _ Hinv) as Hs. unfold s in He. rewrite run_app in He.
  destruct (run step ops (newMemoryStore max d)) as [ys s1]; cbn in Hsort, Ht', He.
  destruct Hs as [Hinv1 _]. destruct (Set_spec m d' now id value s1 Hinv1) as [Hinv2 Habs].
  assert ((id', (e_value e, e_expires e)) ∈ abs (Set_ now id value s1)) as Hin.
  { apply abs_elem_of; [apply Hinv2|eauto]. }
  rewrite Habs in Hin. unfold After. apply Z.ltb_ge.
  apply elem_of_app in Hin as [Hin|Hin].
  - apply (suffix_elem_of _ _ _ (drop_suffix _ _)) in Hin.
    apply list_elem_of_filter in Hin as [_ Hin].
    pose proof (q_purge_complete now _ Hsort) as Hall. rewrite Forall_forall in Hall.
    by apply Hall in Hin.
  - apply list_elem_of_singleton in Hin as [= _ _ ->]. unfold Add, d'.
    destruct (Z.leb_spec d 0); [|lia]. unfold DefaultMemoryStoreTTL, Minute, Second. lia.
Qed.

(** The stored value is still there. *)
Lemma verify_after_set (max : Z) (d : Duration) (s : store string)
    (now now' : Time) (id value answer : string) (clear : bool) (ops : list op) :
  inv max d s →
  id ≠ ""%string → value ≠ ""%string → answer ≠ ""%string →
  forallb (spares id (Add now d)) ops = true →
  (Z.of_nat (sets ops) < max)%Z → (now' ≤ Add now d)%Z →
  let s' := (run step ops (Set_ now id value s)).2 in
  (Verify now' id answer clear s').1 = EqualFold (TrimSpace value) (TrimSpace answer).
Proof.
  intros Hinv Hid Hv Ha Hsp Hsets Hnow' s'.
  destruct (Set_spec max d now id value s Hinv) as [Hinv1 Habs].
  destruct (run_behind max d ops 0 (id, (value, Add now d)) (Set_ now id value s))
    as [Hinv2 Hb]; [done| |done|done|].
  { rewrite Habs. apply behind_last. }
  destruct (behind_find _ _ _ _ _ (proj1 Hinv2) Hb) as (e & He & Hev & Het).
  unfold Verify, Get. fold s' in He. rewrite !bool_decide_eq_false_2 by done. cbn.
  rewrite He, Hev, Het. unfold After. destruct (Z.ltb_spec (Add now d) now'); [lia|].
  by rewrite bool_decide_eq_false_2.
Qed.

Lemma run_inv max d ops s : inv max d s → inv max d (run step ops s).2.
Proof.
  intros Hinv. pose proof (run_spec max d ops s Hinv) as H.
  destruct (run step ops s). by destruct H.
Qed.

(** An issued answer stays checkable. On a store that has been through any
    operations, after [Set] at [now] and then any operations that leave the entry alone,
    fewer than the capacity of them [Set]s of other ids, a [Verify] no later than [now]
    plus the lifetime compares against exactly the stored value. *)
Theorem set_then_verify (max : Z) (d : Duration) (before after : list op)
    (now now' : Time) (id value answer : string) (clear : bool)
  (Hid : id ≠ ""%string) (Hvalue : value ≠ ""%string) (Hanswer : answer ≠ ""%string) :
  let max' := if Z.leb max 0 then DefaultMemoryStoreCapacity else max in
  let d' := if Z.leb d 0 then DefaultMemoryStoreTTL else d in
  forallb (spares id (Add now d')) after = true →
  (Z.of_nat (sets after) < max')%Z → (now' ≤ Add now d')%Z →
  let s := (run step before (newMemoryStore max d)).2 in
  let s := (step (OpSet now id value) s).2 in
  let s := (run step after s).2 in
  (step (OpVerify now' id answer clear) s).1
  = OutVerify (EqualFold (TrimSpace value) (TrimSpace answer)).
Proof.
  intros max' d' Hafter Hsets Hnow. cbn zeta.
  pose proof (run_inv max' d' before _ (inv_new max d)) as Hinv.
  pose proof (verify_after_set max' d' _ now now' id value answer clear after Hinv
                Hid Hvalue Hanswer Hafter Hsets Hnow) as Hv.
  cbn [step snd] in Hv |- *. rewrite <- Hv. by destruct (Verify _ _ _ _ _).
Qed.
End memory_store.

(** ** Witnesses *)

#[local] Existing Instance ascii_unicode.

Lemma set_leaves_no_expired_witness :
  let s := (run step [OpSet 1 "a" "x"; OpGet 3 "a" false; OpSet 9 "b" "y"] (newMemoryStore 2 5)).2 in
  (∀ id' e, items s !! id' = Some e → After 9 (e_expires e) = false) ∧ Len s = 1%Z.
Proof.
  split; [|reflexivity].
  apply (set_leaves_no_expired 2 5 [OpSet 1 "a" "x"; OpGet 3 "a" false] 0 9 "b" "y"). reflexivity.
Defined.

Lemma set_then_verify_witness :
  (step (OpVerify 9 "a" " X1 " true)
     (run step [OpSet 4 "b" "y"; OpLen]
        (step (OpSet 2 "a" "x1") (run step [OpSet 1 "c" "z"] (newMemoryStore 2 10)).2).2).2).1
  = OutVerify (EqualFold (TrimSpace "x1") (TrimSpace " X1 ")) ∧
  EqualFold (TrimSpace "x1") (TrimSpace " X1 ") = true.
Proof.
  split; [|reflexivity].
  refine (set_then_verify 2 10 [OpSet 1 "c" "z"] [OpSet 4 "b" "y"; OpLen] 2 9 "a" "x1" " X1 " true
            _ _ _ _ _ _); [discriminate|discriminate|discriminate|reflexivity| |]; vm_compute;
    congruence.
Defined.
