(* ===== verification/CaptchaGenerator.v ===== *)
(** * CaptchaGenerator

    [captcha/captcha.go]: [ImageGenerator] over any [Store]. The [Store] interface of
    [captcha/store.go] is the class [Store]; what it promises a single-use client is
    [StoreLaws], which [MemoryStore] discharges. The [Generator] interface is a class too;
    its promise, [GeneratorLaws], is discharged by an [ImageGenerator] over such a store.

    base64Captcha is a third-party library: its drivers are an abstract type, and one
    run of its [Captcha.Generate] is a [lib_prog], the tree of the store calls it makes
    (each with the continuation for the call's result) ending in what it returns. *)

From Stdlib Require Import Floats.SpecFloat.
From S2P Require Import Prelude GoRuntime GoStrings TtlStore CaptchaStore.

(** The value of a Go [error] made by foreign code. *)
Definition error : Type := string.

(** ** The Store interface *)

Class Store (St : Type) : Type := {
  store_Set : Time → string → string → St → option error * St;
  store_Get : Time → string → bool → St → string * St;
  store_Verify : Time → string → string → bool → St → bool * St;
}.

(** [absent id st]: the store holds nothing a [Verify] of [id] could accept. *)
Class StoreLaws (St : Type) `{Store St} (absent : string → St → Prop) : Prop := {
  absent_Verify_false st now id answer clear :
    absent id st → (store_Verify now id answer clear st).1 = false;
  Verify_clears st now id answer :
    id ≠ ""%string → answer ≠ ""%string → absent id (store_Verify now id answer true st).2;
  absent_Set st now id id' v :
    absent id st → id' ≠ id → absent id (store_Set now id' v st).2;
  absent_Get st now id id' clear : absent id st → absent id (store_Get now id' clear st).2;
  absent_Verify st now id id' answer clear :
    absent id st → absent id (store_Verify now id' answer clear st).2;
}.

#[export] Instance memory_Store `{UnicodeTables} : Store (store string) := {
  store_Set now id v s := (None, Set_ now id v s);
  store_Get := Get;
  store_Verify := Verify;
}.

#[export] Instance memory_StoreLaws `{UnicodeTables} :
  StoreLaws (store string) (λ id s, items s !! id = None).
Proof.
  split; intros; cbn -[Verify Get Set_] in *.
  - by apply Verify_absent.
  - by apply Verify_clear_None.
  - by apply Set_None.
  - by apply Get_None.
  - by apply Verify_None.
Qed.

(** ** The Generator interface *)

Record Challenge : Type := MkChallenge { ID : string; Image : string }.

(** [Generator]; an [Env] is what one [Generate] draws and reads. *)
Class Generator (Env G : Type) : Type := {
  gen_Generate : Env → G → res error Challenge * G;
  gen_Verify : Time → string → string → G → bool * G;
}.

(** [dead id g]: no [Verify] of [id] can succeed. [avoids id e]: a [Generate] that
    does not issue [id]. *)
Class GeneratorLaws (Env G : Type) `{Generator Env G} (dead : string → G → Prop)
    (avoids : string → Env → Prop) : Prop := {
  dead_refused g now id answer : dead id g → (gen_Verify now id answer g).1 = false;
  Verify_kills g now id answer :
    id ≠ ""%string → answer ≠ ""%string → dead id (gen_Verify now id answer g).2;
  dead_Verify g now id id' answer : dead id g → dead id (gen_Verify now id' answer g).2;
  dead_Generate g e id : avoids id e → dead id g → dead id (gen_Generate e g).2;
  empty_untouched g now id answer :
    id = ""%string ∨ answer = ""%string → gen_Verify now id answer g = (false, g);
}.

Section generators.
Context {Env G : Type} `{Generator Env G}.

(** Histories of a generator. *)
Inductive gen_event : Type :=
| EvGenerate (e : Env)
| EvVerify (now : Time) (id answer : string).

Definition gen_step (ev : gen_event) (g : G) : G :=
  match ev with
  | EvGenerate e => (gen_Generate e g).2
  | EvVerify now id answer => (gen_Verify now id answer g).2
  end.

Definition gen_run (evs : list gen_event) (g : G) : G := fold_left (λ g ev, gen_step ev g) evs g.

Context {dead : string → G → Prop} {avoids : string → Env → Prop} `{!GeneratorLaws Env G dead avoids}.

Definition gen_avoids (id : string) (ev : gen_event) : Prop :=
  match ev with EvGenerate e => avoids id e | EvVerify _ _ _ => True end.

Lemma gen_run_dead id evs : ∀ g,
  Forall (gen_avoids id) evs → dead id g → dead id (gen_run evs g).
Proof.
  induction evs as [|ev evs IH]; intros g; [done|]. cbn. intros [Hev Hevs]%Forall_cons Hg.
  apply IH; [done|]. destruct ev; cbn; [by apply dead_Generate|by apply dead_Verify].
Qed.

(** A challenge that was checked once is never accepted again. *)
Lemma single_use g now now' id answer answer' evs :
  id ≠ ""%string → answer ≠ ""%string → Forall (gen_avoids id) evs →
  (gen_Verify now' id answer' (gen_run evs (gen_Verify now id answer g).2)).1 = false.
Proof. intros Hid Ha Hevs. apply dead_refused, gen_run_dead; [done|]. by apply Verify_kills. Qed.
End generators.
Arguments gen_event _ : clear implicits.

(** ** ImageGenerator *)

Record driverParams : Type := DriverParams {
  height : Z; width : Z; length_ : Z; maxSkew : spec_float; dotCount : Z;
}.

(** [0.7] as a float64. *)
Definition float_0_7 : spec_float := S754_finite false 6305039478318694 (-53).

Definition defaultDriverParams : driverParams := DriverParams 80 240 5 float_0_7 80.

(** One run of the library's [Captcha.Generate]: id, image and answer, or an error. *)
Inductive lib_prog : Type :=
| LibReturn (r : res error (string * string * string))
| LibSet (id value : string) (k : option error → lib_prog)
| LibGet (id : string) (clear : bool) (k : string → lib_prog)
| LibVerify (id answer : string) (clear : bool) (k : bool → lib_prog).

Section generator.
Context {Driver : Type} (NewDriverDigit : driverParams → Driver).
Context {St : Type} `{Store St}.

Record imageGeneratorConfig : Type := ImageGeneratorConfig { cfg_driver : Driver }.
Definition Option_ : Type := imageGeneratorConfig → imageGeneratorConfig.

Definition WithDriverParams (height width length : Z) (maxSkew : spec_float)
    (dotCount : Z) : Option_ :=
  λ _, ImageGeneratorConfig
         (NewDriverDigit (DriverParams height width length maxSkew dotCount)).

Definition WithDriver (driver : Driver) : Option_ := λ _, ImageGeneratorConfig driver.

Record ImageGenerator : Type := MkImageGenerator { driver : Driver; gstore : St }.

(** [NewImageGenerator]; [None] is the nil [Store], replaced by the default one. *)
Definition NewImageGenerator (default_store : St) (store : option St)
    (opts : list Option_) : ImageGenerator :=
  let store := default default_store store in
  let cfg := ImageGeneratorConfig (NewDriverDigit defaultDriverParams) in
  let cfg := fold_left (λ c o, o c) opts cfg in
  MkImageGenerator (cfg_driver cfg) store.

(** The store calls of a library run; [clock n] is what the clock reads at its
    [n]-th call. *)
Fixpoint run_lib (clock : nat → Time) (n : nat) (p : lib_prog) (st : St)
    : res error (string * string * string) * St :=
  match p with
  | LibReturn r => (r, st)
  | LibSet id v k =>
      let '(e, st) := store_Set (clock n) id v st in run_lib clock (S n) (k e) st
  | LibGet id c k =>
      let '(v, st) := store_Get (clock n) id c st in run_lib clock (S n) (k v) st
  | LibVerify id a c k =>
      let '(b, st) := store_Verify (clock n) id a c st in run_lib clock (S n) (k b) st
  end.

(** [Generate]; [lib] is the run of the library this call gets, drawing included. *)
Definition Generate (lib : Driver → lib_prog) (clock : nat → Time)
    (g : ImageGenerator) : res error Challenge * ImageGenerator :=
  let '(r, st) := run_lib clock 0 (lib (driver g)) (gstore g) in
  (match r with
   | Err e => Err ("captcha: generate: " +:+ e)%string
   | Ok (id, b64s, _) => Ok (MkChallenge id b64s)
   end, MkImageGenerator (driver g) st).

(** [Verify]: the challenge is consumed, correct or not. *)
Definition GVerify (now : Time) (id answer : string) (g : ImageGenerator)
    : bool * ImageGenerator :=
  if bool_decide (id = ""%string) || bool_decide (answer = ""%string) then (false, g)
  else
    let '(b, st) := store_Verify now id answer true (gstore g) in
    (b, MkImageGenerator (driver g) st).

#[export] Instance image_Generator
    : Generator ((Driver → lib_prog) * (nat → Time)) ImageGenerator := {
  gen_Generate e := Generate e.1 e.2;
  gen_Verify := GVerify;
}.

(** No branch of the library run stores [id]: its ids are fresh. *)
Fixpoint lib_avoids (id : string) (p : lib_prog) : Prop :=
  match p with
  | LibReturn _ => True
  | LibSet id' _ k => id' ≠ id ∧ ∀ e, lib_avoids id (k e)
  | LibGet _ _ k => ∀ v, lib_avoids id (k v)
  | LibVerify _ _ _ k => ∀ b, lib_avoids id (k b)
  end.

Definition lib_spares (id : string) (e : (Driver → lib_prog) * (nat → Time)) : Prop :=
  ∀ d, lib_avoids id (e.1 d).

Context {absent : string → St → Prop} `{!StoreLaws St absent}.

Lemma run_lib_absent id clock p : ∀ n st,
  lib_avoids id p → absent id st → absent id (run_lib clock n p st).2.
Proof.
  induction p as [r|id' v k IH|id' c k IH|id' a c k IH]; intros n st Hp Hst; cbn; [done|..].
  - destruct Hp as [Hne Hp]. pose proof (absent_Set st (clock n) id id' v Hst Hne).
    destruct (store_Set _ _ _ _); cbn in *. auto.
  - pose proof (absent_Get st (clock n) id id' c Hst).
    destruct (store_Get _ _ _ _); cbn in *. auto.
  - pose proof (absent_Verify st (clock n) id id' a c Hst).
    destruct (store_Verify _ _ _ _ _); cbn in *. auto.
Qed.

Lemma GVerify_absent now id answer g :
  absent id (gstore g) → (GVerify now id answer g).1 = false.
Proof.
  intros Hg. unfold GVerify. destruct (_ || _); [done|].
  pose proof (absent_Verify_false (gstore g) now id answer true Hg).
  by destruct (store_Verify now id answer true (gstore g)).
Qed.

(** [ImageGenerator] keeps the promises of [Generator] over any store that keeps those of
    [Store]. *)
#[export] Instance image_GeneratorLaws :
  GeneratorLaws ((Driver → lib_prog) * (nat → Time)) ImageGenerator
    (λ id g, absent id (gstore g)) lib_spares.
Proof.
  split; cbn [gen_Generate gen_Verify image_Generator].
  - intros g now id answer. apply GVerify_absent.
  - intros g now id answer Hid Ha. unfold GVerify. rewrite !bool_decide_eq_false_2 by done. cbn.
    pose proof (Verify_clears (gstore g) now id answer Hid Ha).
    by destruct (store_Verify now id answer true (gstore g)).
  - intros g now id id' answer Hg. unfold GVerify. destruct (_ || _); [done|].
    pose proof (absent_Verify (gstore g) now id id' answer true Hg).
    by destruct (store_Verify now id' answer true (gstore g)).
  - intros g [lib clock] id Hr Hg. unfold Generate; cbn in *.
    pose proof (run_lib_absent id clock (lib (driver g)) 0 _ (Hr (driver g)) Hg).
    by destruct (run_lib clock 0 (lib (driver g)) (gstore g)).
  - intros g now id answer [->| ->]; unfold GVerify; [done|].
    rewrite (bool_decide_eq_true_2 (""%string = ""%string)) by done. by rewrite orb_true_r.
Qed.

(** C32 (safety): a challenge is single-use over any store that keeps the interface's
    promises: once [Verify] was called for an id with a non-empty answer, right or wrong,
    no later [Verify] of it succeeds, whatever happened in between, unless the id was
    issued again. *)
Theorem generator_single_use (g : ImageGenerator) (now now' : Time)
    (id answer answer' : string) (evs : list (gen_event ((Driver → lib_prog) * (nat → Time)))) :
  id ≠ ""%string → answer ≠ ""%string → Forall (gen_avoids (avoids := lib_spares) id) evs →
  (GVerify now' id answer' (gen_run evs (GVerify now id answer g).2)).1 = false.
Proof. intros Hid Ha Hevs. exact (single_use g now now' id answer answer' evs Hid Ha Hevs). Qed.
End generator.

Arguments ImageGenerator _ _ : clear implicits.
Arguments imageGeneratorConfig _ : clear implicits.

(** ** The generator over the default store *)

Section default_generator.
Context {U : UnicodeTables} {Driver : Type}.

(** What base64Captcha documents of [Generate]: one [Set] of the id and the answer it
    returns. *)
Definition lib_issues (p : lib_prog) (id img answer : string) : Prop :=
  ∃ k, p = LibSet id answer k ∧ k None = LibReturn (Ok (id, img, answer)).

(** Issue and check: a challenge issued over [MemoryStore] is accepted with its answer,
    up to letter case and surrounding white space and for [ttl] from its issue, and
    any other answer is refused. *)
Theorem generate_then_verify (max : Z) (d : Duration)
    (g : ImageGenerator Driver (store string)) (lib : Driver → lib_prog)
    (clock : nat → Time) (now' : Time) (id img value answer : string) :
  TtlStore.inv max d (gstore g) → lib_issues (lib (driver g)) id img value →
  id ≠ ""%string → value ≠ ""%string → answer ≠ ""%string →
  (now' ≤ Add (clock 0%nat) d)%Z →
  let '(r, g') := Generate lib clock g in
  r = Ok (MkChallenge id img) ∧
  (GVerify now' id answer g').1 = EqualFold (TrimSpace value) (TrimSpace answer).
Proof.
  intros Hinv (k & Hlib & Hk) Hid Hv Ha Hnow'. unfold Generate. rewrite Hlib; cbn.
  rewrite Hk; cbn. split; [done|]. unfold GVerify.
  rewrite !bool_decide_eq_false_2 by done. cbn -[Verify].
  pose proof (verify_after_set max d (gstore g) (clock 0%nat) now' id value answer true []
    Hinv Hid Hv Ha eq_refl) as Hsv.
  destruct Hinv as (_ & _ & _ & Hmax & _). cbn -[Verify Set_] in Hsv.
  rewrite <- Hsv by (done || lia). by destruct (Verify now' id answer true _).
Qed.
End default_generator.

(** ** Witnesses *)

#[local] Existing Instance ascii_unicode.

Definition sample_generator : ImageGenerator unit (store string) :=
  MkImageGenerator tt (Set_ 1 "id" "A1" (newMemoryStore 2 10)).
Definition sample_lib (_ : unit) : lib_prog :=
  LibSet "id" "A1" (λ _, LibReturn (Ok ("id", "img", "A1")%string)).

Definition sample_history : list (gen_event ((unit → lib_prog) * (nat → Time))) :=
  [EvVerify 3 "other" "x"].

Lemma generator_single_use_witness :
  (GVerify 2 "id" "a1" sample_generator).1 = true ∧
  (GVerify 4 "id" "A1" (gen_run sample_history (GVerify 2 "id" "a1" sample_generator).2)).1
  = false.
Proof.
  split; [reflexivity|].
  apply (generator_single_use sample_generator 2 4 "id" "a1" "A1" sample_history);
    [discriminate|discriminate|]. repeat constructor.
Defined.

Lemma generate_then_verify_witness :
  let g := MkImageGenerator tt (newMemoryStore 2 10) in
  let '(r, g') := Generate sample_lib (λ _, 5%Z) g in
  r = Ok (MkChallenge "id" "img") ∧
  (GVerify 15 "id" "a1" g').1 = EqualFold (TrimSpace "A1") (TrimSpace "a1").
Proof.
  refine (generate_then_verify 2 10 (MkImageGenerator tt (newMemoryStore 2 10)) sample_lib
            (λ _, 5%Z) 15 "id" "img" "A1" "a1" _ _ _ _ _ _);
    [apply (inv_new 2 10)|by eexists|discriminate|discriminate|discriminate|vm_compute; congruence].
Defined.
