(* ===== verification/CaptchaReply.v ===== *)
(** * CaptchaReply

    The siteverify reply of [captcha/token.go]: [siteverifyResponse], and what decoding a
    reply body into it means. *)

From S2P Require Import Prelude GoRuntime GoStrings GoJson.
Local Open Scope Z_scope.

Record siteverifyResponse : Type := SiteverifyResponse {
  out_Success : bool;
  out_Hostname : string;
  out_ChallengeTS : string;
  out_codes : strings;
}.
Definition out_ErrorCodes (out : siteverifyResponse) : list string := elems (out_codes out).
Definition zero_response : siteverifyResponse := SiteverifyResponse false "" "" nil_strings.

(** The JSON names, in the order of the struct. *)
Definition reply_fields : list string := ["success"; "hostname"; "challenge_ts"; "error-codes"]%string.

Definition assign_reply (field : string) (text : list Z) (v : json) (out : siteverifyResponse)
    : siteverifyResponse * bool :=
  if bool_decide (field = "success"%string) then
    let '(b, e) := decode_bool v (out_Success out) in
    (SiteverifyResponse b (out_Hostname out) (out_ChallengeTS out) (out_codes out), e)
  else if bool_decide (field = "hostname"%string) then
    let '(h, e) := decode_string v (out_Hostname out) in
    (SiteverifyResponse (out_Success out) h (out_ChallengeTS out) (out_codes out), e)
  else if bool_decide (field = "challenge_ts"%string) then
    let '(t, e) := decode_string v (out_ChallengeTS out) in
    (SiteverifyResponse (out_Success out) (out_Hostname out) t (out_codes out), e)
  else
    let '(c, e) := decode_strings v (out_codes out) in
    (SiteverifyResponse (out_Success out) (out_Hostname out) (out_ChallengeTS out) c, e).

(** There is no value (a syntax error, or the body ended or broke off before the value
    did), or it does not fit the struct. *)
Inductive decode_error : Type := NoValue | UnmarshalTypeError.

Section reply.
Context {U : UnicodeTables}.

(** [json.NewDecoder(body).Decode(&out)]. *)
Definition json_Decode {E} (body : reader E) : res decode_error siteverifyResponse :=
  v ← of_option (decoder_value body) NoValue;
  let '(out, e) := decode_struct reply_fields assign_reply v zero_response in
  if (e : bool) then Err UnmarshalTypeError else Ok out.

(** A member that sets [Success]: its name is success up to case folding, its value is not
    null. *)
Definition sets_success (m : list Z * list Z * json) : Prop :=
  find_field reply_fields (unquote m.1.1) = Some "success"%string ∧ m.2 ≠ JNull.

(** The last member that sets [Success] says true. *)
Definition says_true (ms : list (list Z * list Z * json)) : Prop :=
  ∃ before m after, ms = before ++ m :: after ∧ sets_success m ∧ m.2 = JBool true ∧
                    Forall (λ m', ¬ sets_success m') after.

Lemma assign_other field text v out :
  field ≠ "success"%string → out_Success (assign_reply field text v out).1 = out_Success out.
Proof.
  intros Hf. unfold assign_reply. rewrite bool_decide_eq_false_2 by done.
  repeat case_bool_decide; by case_match.
Qed.

Lemma says_true_snoc ms m :
  says_true (ms ++ [m]) ↔ (sets_success m ∧ m.2 = JBool true) ∨ (¬ sets_success m ∧ says_true ms).
Proof.
  split.
  - intros (before & m' & after & Heq & Hm & Hv & Ha).
    destruct after as [|x after _] using rev_ind.
    + apply app_inj_tail in Heq as [_ ->]. by left.
    + right. rewrite app_comm_cons, app_assoc in Heq. apply app_inj_tail in Heq as [-> ->].
      apply Forall_app in Ha as [Ha [Hx _]%Forall_cons]. split; [done|]. by exists before, m', after.
  - intros [[Hm Hv]|[Hn (before & m' & after & -> & Hm & Hv & Ha)]].
    + by exists ms, m, [].
    + exists before, m', (after ++ [m]). split_and!; [by rewrite <- app_assoc|done|done|].
      apply Forall_app. by repeat constructor.
Qed.

Lemma decode_success ms out :
  fold_left (decode_member reply_fields assign_reply) ms (zero_response, false) = (out, false) →
  out_Success out = true ↔ says_true ms.
Proof.
  revert out. induction ms as [|m ms IH] using rev_ind; intros out.
  { cbn. intros [= <-]. split; [done|]. by intros (before & m & after & H%eq_sym%app_eq_nil & _); destruct H. }
  rewrite fold_left_app. cbn [fold_left]. rewrite says_true_snoc.
  destruct (fold_left _ ms _) as [out1 e1] eqn:Hf. destruct m as [[name text] v].
  unfold decode_member, sets_success. cbn [fst snd].
  destruct (find_field reply_fields (unquote name)) as [f|] eqn:Hfield.
  2: { intros [= -> ->]. rewrite IH by done. naive_solver. }
  destruct (assign_reply f text v out1) as [out2 e2] eqn:Ha. intros [= -> [-> ->]%orb_false_iff].
  specialize (IH out1 eq_refl).
  destruct (decide (f = "success"%string)) as [->|Hne].
  2: { pose proof (assign_other f text v out1 Hne) as Ho. rewrite Ha in Ho. cbn in Ho. rewrite Ho, IH. naive_solver. }
  unfold assign_reply in Ha. rewrite bool_decide_eq_true_2 in Ha by done.
  destruct v as [|b| | | |]; cbn in Ha; try done; injection Ha as <-; cbn [out_Success].
  - rewrite IH. naive_solver.
  - destruct b; naive_solver.
Qed.

(** An accepted reply starts with an object whose last word on success is true. *)
Lemma json_Decode_success {E} (body : reader E) out :
  json_Decode body = Ok out → out_Success out = true →
  ∃ ms rest, first_value (bytes (r_bytes body)) = Some (JObject ms, rest) ∧ says_true ms.
Proof.
  unfold json_Decode. intros (v & Hv%of_option_Ok & H)%bind_Ok Hs.
  destruct (decode_struct reply_fields assign_reply v zero_response) as [out' [|]] eqn:Hd; [done|].
  injection H as ->. destruct v as [| | | | |ms]; cbn in Hd; try done; [by injection Hd as <-|].
  apply decoder_value_object in Hv as [rest Hv]. exists ms, rest. split; [done|]. by apply (decode_success ms out).
Qed.
End reply.

(** ** Sample replies: a value at the end of a body that breaks off *)

#[local] Existing Instance ascii_unicode.

Example null_replies :
  json_Decode (E := unit) (Reader "null" None false) = Ok zero_response ∧
  json_Decode (Reader "null" (Some tt) false) = Err NoValue ∧
  json_Decode (Reader "null " (Some tt) false) = Ok zero_response ∧
  json_Decode (Reader "{}" (Some tt) true) = Ok zero_response ∧
  json_Decode (E := unit) (Reader "{" None false) = Err NoValue ∧
  json_Decode (E := unit) (Reader "7" None false) = Err UnmarshalTypeError.
Proof. by vm_compute. Qed.
