(* ===== verification/CaptchaToken.v ===== *)
(** * CaptchaToken

    [captcha/token.go]: [NewTokenVerifier] with its options, and [Verify], the one
    round trip to a provider's siteverify endpoint. The HTTP client is a
    parameter; the requests [Verify] sends are part of its result. *)

From S2P Require Import Prelude GoRuntime GoStrings GoUrl GoJson CaptchaReply.

Definition error : Type := string.

(** ** Providers *)

Definition ProviderTurnstile : string := "turnstile".
Definition ProviderRecaptcha : string := "recaptcha".
Definition ProviderHCaptcha : string := "hcaptcha".

Definition TurnstileEndpoint : string :=
  "https://challenges.cloudflare.com/turnstile/v0/siteverify".
Definition RecaptchaEndpoint : string := "https://www.google.com/recaptcha/api/siteverify".
Definition HCaptchaEndpoint : string := "https://hcaptcha.com/siteverify".

Definition defaultEndpoints : gmap string string :=
  {[ ProviderTurnstile := TurnstileEndpoint; ProviderRecaptcha := RecaptchaEndpoint;
     ProviderHCaptcha := HCaptchaEndpoint ]}.

Definition DefaultTokenTimeout : Duration := 10 * Second.
Definition maxSiteverifyResponseBytes : Z := Z.shiftl 1 20.
Definition StatusOK : Z := 200.

(** ** Data *)

Inductive token_error : Type :=
| ErrRequest (e : error)
| ErrNetwork (e : error)
| ErrBadStatus (code : Z)
| ErrDecodeResponse (e : decode_error).

Inductive new_error : Type :=
| ErrEmptySecret
| ErrUnknownProvider (p : string).

Record Result : Type := MkResult {
  Success : bool;
  Hostname : string;
  ChallengeTS : string;
  ErrorCodes : list string;
  HostnameMismatch : bool;
}.
Definition zero_Result : Result := MkResult false "" "" [] false.

Record request : Type := Request {
  req_url : string; req_contentType : string; req_body : string;
}.
Record response : Type := Response { StatusCode : Z; Body : reader error }.

(** [http.NewRequestWithContext] for a POST of the given body: an empty port is dropped. *)
Definition removeEmptyPort (host : list Z) : list Z :=
  match last host with Some c => if (c =? 58)%Z then removelast host else host | None => host end.

Definition NewRequest (rawURL body : string) : res error request :=
  match url_Parse rawURL with
  | None => Err "invalid URL"%string
  | Some u =>
      let host := of_bytes (removeEmptyPort (bytes (Host u))) in
      Ok (Request (url_String (MkURL (Scheme u) (Opaque u) (User u) host (Path u) (RawPath u) (OmitHost u)
                    (ForceQuery u) (RawQuery u) (Fragment u) (RawFragment u))) "" body)
  end.

Section token.
Context {U : UnicodeTables}.
Context {Client : Type} (mkClient : Duration → Client).
(** [Client.Do] under a context that ends after the given time. *)
Context (Do : Client → Duration → request → res error response).

(** ** Options *)

Record tokenVerifierConfig : Type := TokenVerifierConfig {
  c_httpClient : option Client;
  c_timeout : Duration;
  c_endpoint : string;
  c_allowedHosts : list string;
}.
Definition TokenOption : Type := tokenVerifierConfig → tokenVerifierConfig.

Definition WithHTTPClient (c : option Client) : TokenOption := λ cfg,
  TokenVerifierConfig c (c_timeout cfg) (c_endpoint cfg) (c_allowedHosts cfg).

Definition WithTimeout (d : Duration) : TokenOption := λ cfg,
  if Z.ltb 0 d
  then TokenVerifierConfig (c_httpClient cfg) d (c_endpoint cfg) (c_allowedHosts cfg)
  else cfg.

Definition WithEndpoint (rawURL : string) : TokenOption := λ cfg,
  TokenVerifierConfig (c_httpClient cfg) (c_timeout cfg) (TrimSpace rawURL)
                      (c_allowedHosts cfg).

(** The loop over [hosts]: trimmed, lower-cased, empty ones ignored. *)
Fixpoint append_hosts (hosts acc : list string) : list string :=
  match hosts with
  | [] => acc
  | h :: hosts =>
      let h := ToLower (TrimSpace h) in
      append_hosts hosts (if bool_decide (h = ""%string) then acc else acc ++ [h])
  end.

Definition WithAllowedHostnames (hosts : list string) : TokenOption := λ cfg,
  TokenVerifierConfig (c_httpClient cfg) (c_timeout cfg) (c_endpoint cfg)
                      (append_hosts hosts (c_allowedHosts cfg)).

Definition HostOf (baseURL : string) : string :=
  let b := TrimSpace baseURL in
  if bool_decide (b = ""%string) then ""%string
  else match url_Parse b with
       | None => ""%string
       | Some u => ToLower (GoUrl.Hostname u)
       end.

(** ** TokenVerifier *)

Record TokenVerifier : Type := MkTokenVerifier {
  provider : string;
  endpoint : string;
  secret : string;
  httpClient : Client;
  timeout : Duration;
  allowedHosts : list string;
}.

Definition NewTokenVerifier (provider secret : string) (opts : list TokenOption)
    : res new_error TokenVerifier :=
  let secret := TrimSpace secret in
  if bool_decide (secret = ""%string) then Err ErrEmptySecret
  else
    let cfg := TokenVerifierConfig None DefaultTokenTimeout "" [] in
    let cfg := fold_left (λ c opt, opt c) opts cfg in
    let timeout := if Z.leb (c_timeout cfg) 0 then DefaultTokenTimeout else c_timeout cfg in
    endpoint ← (if bool_decide (c_endpoint cfg = ""%string)
                then of_option (defaultEndpoints !! provider) (ErrUnknownProvider provider)
                else Ok (c_endpoint cfg));
    let httpClient := default (mkClient timeout) (c_httpClient cfg) in
    Ok (MkTokenVerifier provider endpoint secret httpClient timeout (c_allowedHosts cfg)).

Fixpoint hostAllowed (host : string) (allowed : list string) : bool :=
  match allowed with
  | [] => false
  | h :: allowed => if EqualFold h host then true else hostAllowed host allowed
  end.

(** The form, in the key order [Values.Encode] writes it. *)
Definition siteverify_form (v : TokenVerifier) (token remoteIP : string) : string :=
  encode_pairs ((if bool_decide (remoteIP = ""%string) then []
                 else [("remoteip"%string, remoteIP)])
                ++ [("response"%string, token); ("secret"%string, secret v)]).

(** The verdict on a decoded reply: hostname pinning is folded into [Success]. *)
Definition verdict (v : TokenVerifier) (out : siteverifyResponse) : Result :=
  let result := MkResult (out_Success out) (out_Hostname out) (out_ChallengeTS out)
                         (out_ErrorCodes out) false in
  if negb (Success result) then result
  else if Z.ltb 0 (Z.of_nat (length (allowedHosts v)))
          && negb (bool_decide (Hostname result = ""%string)) then
    if negb (hostAllowed (Hostname result) (allowedHosts v))
    then MkResult false (Hostname result) (ChallengeTS result) (ErrorCodes result) true
    else result
  else result.

(** [Verify]: the requests sent, and the result. *)
Definition Verify (v : TokenVerifier) (token remoteIP : string)
    : list request * res token_error Result :=
  if bool_decide (token = ""%string) then ([], Ok zero_Result)
  else
    match NewRequest (endpoint v) (siteverify_form v token remoteIP) with
    | Err e => ([], Err (ErrRequest e))
    | Ok req =>
        let req := Request (req_url req) "application/x-www-form-urlencoded" (req_body req) in
        ([req],
         match Do (httpClient v) (timeout v) req with
         | Err e => Err (ErrNetwork e)
         | Ok resp =>
             if negb (Z.eqb (StatusCode resp) StatusOK)
             then Err (ErrBadStatus (StatusCode resp))
             else match json_Decode (LimitReader (Body resp) maxSiteverifyResponseBytes) with
                  | Err e => Err (ErrDecodeResponse e)
                  | Ok out => Ok (verdict v out)
                  end
         end)
    end.

(** ** Properties *)

Lemma hostAllowed_spec host allowed :
  hostAllowed host allowed = true ↔ ∃ h, h ∈ allowed ∧ EqualFold h host = true.
Proof.
  induction allowed as [|h allowed IH]; cbn.
  - split; [done|]. by intros (h & ?%elem_of_nil & _).
  - destruct (EqualFold h host) eqn:Hh.
    + split; [|done]. intros _. exists h. by split; [left|].
    + rewrite IH. split.
      * intros (h' & ? & ?). exists h'. split; [by right|done].
      * intros (h' & [->|?]%elem_of_cons & ?); [congruence|eauto].
Qed.

(** The hostname the provider reported passes the pinning rule. *)
Definition pinned_ok (v : TokenVerifier) (host : string) : Prop :=
  allowedHosts v = [] ∨ host = ""%string ∨
  ∃ h, h ∈ allowedHosts v ∧ EqualFold h host = true.

Lemma verdict_Success v out :
  Success (verdict v out) = true ↔
  out_Success out = true ∧ pinned_ok v (out_Hostname out).
Proof.
  unfold verdict, pinned_ok; cbn. rewrite <- hostAllowed_spec.
  destruct (out_Success out); cbn; [|naive_solver].
  destruct (allowedHosts v) as [|h hs]; cbn [length]; [cbn; naive_solver|].
  destruct (Z.ltb_spec 0 (Z.of_nat (S (length hs)))); [|lia]. cbn [andb].
  case_bool_decide as Hh; cbn [negb]; [naive_solver|].
  destruct (hostAllowed (out_Hostname out) (h :: hs)); naive_solver.
Qed.

(** What a completed exchange is. *)
Definition exchanged (v : TokenVerifier) (token remoteIP : string)
    (req : request) (out : siteverifyResponse) : Prop :=
  ∃ r resp, NewRequest (endpoint v) (siteverify_form v token remoteIP) = Ok r ∧
    req = Request (req_url r) "application/x-www-form-urlencoded" (req_body r) ∧
    Do (httpClient v) (timeout v) req = Ok resp ∧ StatusCode resp = StatusOK ∧
    json_Decode (LimitReader (Body resp) maxSiteverifyResponseBytes) = Ok out.

Lemma exchanged_sent v token remoteIP req out :
  token ≠ ""%string → exchanged v token remoteIP req out → (Verify v token remoteIP).1 = [req].
Proof.
  intros Ht (q & resp & Hr & -> & _). unfold Verify. by rewrite bool_decide_eq_false_2, Hr by done.
Qed.

(** A verdict comes from no exchange at all, for an empty token, or from a complete one. *)
Lemma Verify_Ok v token remoteIP r :
  (Verify v token remoteIP).2 = Ok r ↔
  (token = ""%string ∧ r = zero_Result) ∨
  (token ≠ ""%string ∧ ∃ req out, exchanged v token remoteIP req out ∧
     (Verify v token remoteIP).1 = [req] ∧ r = verdict v out).
Proof.
  split.
  - unfold Verify, exchanged. case_bool_decide as Ht; [intros [= <-]; by left|]. right. split; [done|].
    destruct (NewRequest _ _) as [q|e] eqn:Hr; [|done]. cbn [fst snd] in *.
    set (req := Request (req_url q) _ _) in *. destruct (Do _ _ req) as [resp|e] eqn:Hd; [|done].
    destruct (Z.eqb_spec (StatusCode resp) StatusOK) as [Hst|Hst]; cbn [negb] in *; [|done].
    destruct (json_Decode _) as [out|e] eqn:Hj; [|done]. injection H as <-.
    exists req, out. split_and!; [|done..]. by exists q, resp.
  - intros [[-> ->]|(Ht & req & out & (q & resp & Hr & -> & Hd & Hst & Hj) & _ & ->)]; [done|].
    unfold Verify. rewrite bool_decide_eq_false_2, Hr by done. cbn [snd].
    by rewrite Hd, Hst, Z.eqb_refl, Hj.
Qed.

(** C30 (functional): a token is accepted exactly when it is non-empty, one round trip
    completed with a 200 reply that decodes, the provider accepted, and the reported
    hostname passes the allow list. There is a verdict at all exactly when the token is
    empty or the round trip completed so: every failure of the exchange is an error, never
    an accepted or rejected verdict. *)
Theorem token_accepted_iff (v : TokenVerifier) (token remoteIP : string) :
  ((∃ r, (Verify v token remoteIP).2 = Ok r ∧ Success r = true) ↔
   token ≠ ""%string ∧
   ∃ req out, exchanged v token remoteIP req out ∧
              (Verify v token remoteIP).1 = [req] ∧
              out_Success out = true ∧ pinned_ok v (out_Hostname out)) ∧
  ((∃ r, (Verify v token remoteIP).2 = Ok r) ↔
   token = ""%string ∨ ∃ req out, exchanged v token remoteIP req out).
Proof.
  split; split.
  - intros (r & [[_ ->]|(Ht & req & out & He & Hreq & ->)]%Verify_Ok & Hs); [done|].
    apply verdict_Success in Hs as [Hs Hp]. split; [done|]. by exists req, out.
  - intros (Ht & req & out & He & Hreq & Hs & Hp). exists (verdict v out).
    split; [|by apply verdict_Success]. apply Verify_Ok. right. split; [done|]. by exists req, out.
  - intros (r & [[-> _]|(_ & req & out & He & _)]%Verify_Ok); [by left|]. right. by exists req, out.
  - destruct (decide (token = ""%string)) as [->|Ht]; [intros _; by exists zero_Result|].
    intros [?|(req & out & He)]; [done|]. exists (verdict v out). apply Verify_Ok. right. split; [done|].
    exists req, out. split_and!; [done| |done]. by apply exchanged_sent in He.
Qed.

(** What the provider reads in the form, its values unchanged whatever bytes they have. *)
Lemma siteverify_form_received v token remoteIP :
  ∃ form, ParseQuery (siteverify_form v token remoteIP) = Some form ∧
    Get form "secret" = secret v ∧ Get form "response" = token ∧ Get form "remoteip" = remoteIP.
Proof.
  unfold siteverify_form. case_bool_decide as Hip; eexists;
    (split; [apply ParseQuery_encode_pairs; cbn; unfold defaultMaxParams; lia|done]).
Qed.

Lemma NewRequest_body u body q : NewRequest u body = Ok q → req_body q = body.
Proof. unfold NewRequest. destruct (url_Parse u); [|done]. by intros [= <-]. Qed.

(** C31 (safety): an accepted token was put to the provider, and rests on the text of its
    reply. The one request that was sent is a form in which the provider reads the secret,
    the token and the address of the visitor as they were given. It was answered with
    status 200 and a body whose first megabyte starts with a JSON object in which the last
    word on success, up to case folding and nulls aside, is the literal true. *)
Theorem accepted_reply_says_true (v : TokenVerifier) (token remoteIP : string) (r : Result) :
  (Verify v token remoteIP).2 = Ok r → Success r = true →
  ∃ req form resp ms rest,
    (Verify v token remoteIP).1 = [req] ∧
    req_contentType req = "application/x-www-form-urlencoded"%string ∧
    ParseQuery (req_body req) = Some form ∧ Get form "secret" = secret v ∧
    Get form "response" = token ∧ Get form "remoteip" = remoteIP ∧
    Do (httpClient v) (timeout v) req = Ok resp ∧ StatusCode resp = StatusOK ∧
    first_value (bytes (r_bytes (LimitReader (Body resp) maxSiteverifyResponseBytes))) =
      Some (JObject ms, rest) ∧
    says_true ms.
Proof.
  intros [[_ ->]|(_ & req & out & (q & resp & Hq & -> & Hd & Hst & Hj) & Hreq & ->)]%Verify_Ok Hs; [done|].
  apply verdict_Success in Hs as [Hs _].
  destruct (json_Decode_success _ _ Hj Hs) as (ms & rest & Hv & Hms).
  apply NewRequest_body in Hq. destruct (siteverify_form_received v token remoteIP) as (form & Hform).
  rewrite <- Hq in Hform. destruct Hform as (? & ? & ? & ?).
  eexists _, form, resp, ms, rest. by split_and!; [exact Hreq|..].
Qed.

(** The options this file exports. *)
Definition package_option (opt : TokenOption) : Prop :=
  (∃ c, opt = WithHTTPClient c) ∨ (∃ d, opt = WithTimeout d) ∨
  (∃ u, opt = WithEndpoint u) ∨ (∃ hs, opt = WithAllowedHostnames hs).

Lemma append_hosts_nonempty hosts acc :
  Forall (λ h, h ≠ ""%string) acc → Forall (λ h, h ≠ ""%string) (append_hosts hosts acc).
Proof.
  revert acc. induction hosts as [|h hosts IH]; intros acc Hacc; cbn; [done|].
  apply IH. case_bool_decide; [done|]. apply Forall_app. by repeat constructor.
Qed.

Lemma options_allowedHosts opts cfg :
  Forall package_option opts → Forall (λ h, h ≠ ""%string) (c_allowedHosts cfg) →
  Forall (λ h, h ≠ ""%string) (c_allowedHosts (fold_left (λ c opt, opt c) opts cfg)).
Proof.
  revert cfg. induction opts as [|o opts IH]; intros cfg; cbn; [done|].
  intros [Ho Hopts]%Forall_cons Hcfg. apply IH; [done|].
  destruct Ho as [[c ->]|[[d ->]|[[u ->]|[hs ->]]]]; cbn; [done| |done|].
  - unfold WithTimeout. by destruct (Z.ltb 0 d).
  - by apply append_hosts_nonempty.
Qed.

Lemma default_endpoint_nonempty p u : defaultEndpoints !! p = Some u → u ≠ ""%string.
Proof.
  unfold defaultEndpoints. intros H.
  apply lookup_insert_Some in H as [[_ <-]|[_ H]]; [done|].
  apply lookup_insert_Some in H as [[_ <-]|[_ H]]; [done|].
  apply lookup_singleton_Some in H as [_ <-]. done.
Qed.

(** [NewTokenVerifier] never builds an unusable verifier: on success the secret and the
    endpoint are non-empty, the timeout is positive, and with options of this package
    every allowed host is a non-empty string. *)
Theorem new_token_verifier_usable (p sec : string)
    (opts : list TokenOption) (v : TokenVerifier) :
  Forall package_option opts → NewTokenVerifier p sec opts = Ok v →
  secret v ≠ ""%string ∧ endpoint v ≠ ""%string ∧ (0 < timeout v)%Z ∧
  Forall (λ h, h ≠ ""%string) (allowedHosts v).
Proof.
  intros Hopts. unfold NewTokenVerifier. case_bool_decide as Hs; [done|].
  set (cfg := fold_left _ _ _). intros (u & Hu & Hv)%bind_Ok. injection Hv as <-. cbn.
  split_and!.
  - done.
  - case_bool_decide as He; [|congruence].
    apply of_option_Ok in Hu. by eapply default_endpoint_nonempty.
  - destruct (Z.leb_spec (c_timeout cfg) 0); [|done]. unfold DefaultTokenTimeout, Second. lia.
  - by apply options_allowedHosts.
Qed.
End token.

(** ** Witnesses *)

#[local] Existing Instance ascii_unicode.

Lemma new_token_verifier_usable_witness :
  ∃ v, NewTokenVerifier (λ _, tt) "turnstile" " s3cret "
         [WithTimeout 5; WithAllowedHostnames [" Example.com"; ""]%string] = Ok v ∧
  secret v ≠ ""%string ∧ endpoint v ≠ ""%string ∧ (0 < timeout v)%Z ∧
  Forall (λ h, h ≠ ""%string) (allowedHosts v).
Proof.
  eexists. split; [vm_compute; reflexivity|].
  eapply (new_token_verifier_usable (λ _, tt) "turnstile" " s3cret "
            [WithTimeout 5; WithAllowedHostnames [" Example.com"; ""]%string]).
  - constructor; [|constructor; [|constructor]].
    + right. left. by exists 5%Z.
    + right. right. right. by eexists.
  - vm_compute; reflexivity.
Defined.

(** A provider that changes its mind in another spelling, with text after the object and a
    connection that breaks off after it. *)
Definition sample_reply : string :=
  of_bytes (bytes "{" ++ [34%Z] ++ bytes "success" ++ [34%Z] ++ bytes ":false," ++
            [34%Z] ++ bytes "Success" ++ [34%Z] ++ bytes ": true} !").
Definition sample_verifier : TokenVerifier :=
  MkTokenVerifier "turnstile" TurnstileEndpoint "s3cret" tt 5 [].
Definition sample_Do (c : unit) (d : Duration) (r : request) : res error response :=
  Ok (Response 200 (Reader sample_reply (Some "reset"%string) true)).

Lemma accepted_reply_says_true_witness :
  ∃ r ms rest,
    (Verify sample_Do sample_verifier "tok" "").2 = Ok r ∧ Success r = true ∧
    first_value (bytes sample_reply) = Some (JObject ms, rest) ∧ says_true ms.
Proof.
  destruct (accepted_reply_says_true sample_Do sample_verifier "tok" ""
              (MkResult true "" "" [] false) ltac:(vm_compute; reflexivity) eq_refl)
    as (req & form & resp & ms & rest & _ & _ & _ & _ & _ & _ & Hd & _ & Hv & Hms).
  exists (MkResult true "" "" [] false), ms, rest. split_and!; [vm_compute; reflexivity|done| |done].
  unfold sample_Do in Hd. injection Hd as <-. rewrite <- Hv. vm_compute. reflexivity.
Defined.
