(* ===== verification/SamlReplay.v ===== *)
(** * SamlReplay

    [saml/replay.go]: the [ReplayCache] interface as the class [ReplayCache], what the
    SAML provider relies on as [ReplayLaws], and [MemoryReplayCache], which keeps both
    the laws and its capacity bound. [SeenOrAdd] runs under the cache's lock, so any
    interleaving of callers is a sequence of calls. *)

From S2P Require Import Prelude GoRuntime.

Inductive replay_error : Type :=
| ErrReplayCacheFull
| ErrStore (e : string).        (* a failure of another implementation's storage *)

(** [SeenOrAdd id expiresAt now]: [Ok true] is seen, [Ok false] recorded. *)
Class ReplayCache (St : Type) : Type :=
  SeenOrAdd : string → Time → Time → St → res replay_error bool * St.

(** [remembers st id e]: the record of [id] is protected until [e]. *)
Class ReplayLaws (St : Type) `{ReplayCache St} (remembers : St → string → Time → Prop)
    : Prop := {
  accepted_remembers st st' id e now :
    id ≠ ""%string → SeenOrAdd id e now st = (Ok false, st') → remembers st' id e;
  remembered_refused st id e e' now :
    remembers st id e → (now < e)%Z → (SeenOrAdd id e' now st).1 ≠ Ok false;
  remembers_step st id id' e e' now :
    remembers st id e → (now < e)%Z → remembers (SeenOrAdd id' e' now st).2 id e;
}.

(** ** A history of calls *)

Record call : Type := Call {
  c_real : Time;         (* when the call runs *)
  c_now : Time;          (* the [now] it was given, read earlier *)
  c_id : string;
  c_expires : Time;
}.

(** The clock reading of a call is not from its future. *)
Definition call_ok (c : call) : Prop := (c_now c ≤ c_real c)%Z.

Section history.
Context {St : Type} `{ReplayCache St}.

Definition do_call (c : call) (st : St) : res replay_error bool * St :=
  SeenOrAdd (c_id c) (c_expires c) (c_now c) st.

Definition run_calls (cs : list call) (st : St) : St :=
  fold_left (λ st c, (do_call c st).2) cs st.

Context {remembers : St → string → Time → Prop} `{!ReplayLaws St remembers}.

Lemma run_calls_remembers cs : ∀ st id e,
  remembers st id e → Forall (λ c, (c_now c < e)%Z) cs →
  remembers (run_calls cs st) id e.
Proof.
  induction cs as [|c cs IH]; intros st id e Hst; cbn; [done|].
  intros [Hc Hcs]%Forall_cons. apply IH; [|done].
  unfold do_call. by apply remembers_step.
Qed.

(** Between two accepted calls of one id the record of the first has lapsed. *)
Lemma accepted_twice st1 st2 st4 c1 mid c2 :
  c_id c1 ≠ ""%string → c_id c2 = c_id c1 →
  do_call c1 st1 = (Ok false, st2) →
  do_call c2 (run_calls mid st2) = (Ok false, st4) →
  Forall (λ c, call_ok c ∧ c_real c ≤ c_real c2)%Z mid → call_ok c2 →
  (c_expires c1 ≤ c_real c2)%Z.
Proof.
  unfold call_ok. intros Hid Heq H1 H2 Hmid Hc2.
  destruct (Z.le_gt_cases (c_expires c1) (c_real c2)) as [|Hlt]; [done|]. exfalso.
  unfold do_call in *. apply accepted_remembers in H1; [|done].
  apply (run_calls_remembers mid) in H1.
  - eapply (remembered_refused _ _ _ (c_expires c2) (c_now c2)) in H1; [|lia].
    rewrite <- Heq, H2 in H1. done.
  - eapply Forall_impl; [exact Hmid|]. cbn. lia.
Qed.
End history.

(** ** MemoryReplayCache *)

Definition DefaultReplayCacheCapacity : Z := 65536.

Record MemoryReplayCache : Type := MkMemoryReplayCache {
  capacity : Z;
  items : gmap string Time;
}.

Definition NewMemoryReplayCache (capacity : Z) : MemoryReplayCache :=
  let capacity := if Z.leb capacity 0 then DefaultReplayCacheCapacity else capacity in
  MkMemoryReplayCache capacity ∅.

Definition Len (c : MemoryReplayCache) : Z := Z.of_nat (size (items c)).

(** [sweepExpired]: only a cache at capacity is swept; what has expired is deleted. *)
Definition sweepExpired (now : Time) (c : MemoryReplayCache) : MemoryReplayCache :=
  if Z.ltb (Len c) (capacity c) then c
  else MkMemoryReplayCache (capacity c)
         (filter (λ kv, Before now kv.2 = true) (items c)).

Definition memory_SeenOrAdd (id : string) (expiresAt now : Time) (c : MemoryReplayCache)
    : res replay_error bool * MemoryReplayCache :=
  if bool_decide (id = ""%string) then (Ok false, c)
  else
    let live := match items c !! id with Some exp => Before now exp | None => false end in
    if live then (Ok true, c)
    else
      let c := sweepExpired now c in
      if Z.leb (capacity c) (Len c) then (Err ErrReplayCacheFull, c)
      else (Ok false, MkMemoryReplayCache (capacity c) (<[id := expiresAt]> (items c))).

#[export] Instance memory_ReplayCache : ReplayCache MemoryReplayCache := memory_SeenOrAdd.

Lemma sweep_keeps now c id e :
  items c !! id = Some e → (now < e)%Z → items (sweepExpired now c) !! id = Some e.
Proof.
  intros Hid He. unfold sweepExpired. destruct (Z.ltb _ _); [done|]. cbn.
  apply map_lookup_filter_Some. split; [done|]. by apply Z.ltb_lt.
Qed.

Lemma sweep_subset now c id e :
  items (sweepExpired now c) !! id = Some e → items c !! id = Some e.
Proof.
  unfold sweepExpired. destruct (Z.ltb _ _); [done|]. cbn.
  by intros [? _]%map_lookup_filter_Some.
Qed.

(** A record is protected while it is in the map: under a non-empty id, as the empty one
    is never recorded. *)
Definition memory_remembers (c : MemoryReplayCache) (id : string) (e : Time) : Prop :=
  id ≠ ""%string ∧ items c !! id = Some e.

#[export] Instance memory_ReplayLaws : ReplayLaws MemoryReplayCache memory_remembers.
Proof.
  split; unfold SeenOrAdd, memory_ReplayCache, memory_SeenOrAdd, memory_remembers.
  - intros c c' id e now Hid. rewrite bool_decide_eq_false_2 by done.
    destruct (match items c !! id with Some _ => _ | None => _ end); [done|].
    destruct (Z.leb _ _); [done|]. intros [= <-]. split; [done|]. apply lookup_insert_eq.
  - intros c id e e' now [Hid He] Hnow. rewrite bool_decide_eq_false_2, He by done.
    unfold Before. by destruct (Z.ltb_spec now e); [|lia].
  - intros c id id' e e' now [Hid He] Hnow. split; [done|].
    case_bool_decide; [done|].
    destruct (match items c !! id' with Some _ => _ | None => _ end) eqn:Hlive; [done|].
    pose proof (sweep_keeps now c id e He Hnow) as Hsw.
    destruct (Z.leb _ _); [done|]. cbn. rewrite lookup_insert_ne; [done|]. intros ->.
    rewrite He in Hlive. unfold Before in Hlive. bool_simp. lia.
Qed.

(** ** Capacity *)

Definition cache_inv (c : MemoryReplayCache) : Prop :=
  (0 < capacity c)%Z ∧ (Len c ≤ capacity c)%Z.

Lemma sweep_Len now c : (Len (sweepExpired now c) ≤ Len c)%Z.
Proof.
  unfold sweepExpired. destruct (Z.ltb _ _); [done|]. unfold Len; cbn.
  apply Nat2Z.inj_le, map_size_filter.
Qed.

Lemma sweep_capacity now c : capacity (sweepExpired now c) = capacity c.
Proof. unfold sweepExpired. by destruct (Z.ltb _ _). Qed.

Lemma cache_inv_new n : cache_inv (NewMemoryReplayCache n).
Proof.
  unfold NewMemoryReplayCache, cache_inv, Len, DefaultReplayCacheCapacity; cbn.
  rewrite map_size_empty. destruct (Z.leb_spec n 0); lia.
Qed.

Lemma insert_Len id e (c : MemoryReplayCache) :
  (Z.of_nat (size (<[id := e]> (items c))) ≤ Len c + 1)%Z.
Proof.
  unfold Len. destruct (items c !! id) eqn:He.
  - rewrite map_size_insert_Some by eauto. lia.
  - rewrite map_size_insert_None by done. lia.
Qed.

Lemma SeenOrAdd_inv id e now c : cache_inv c → cache_inv (memory_SeenOrAdd id e now c).2.
Proof.
  intros [Hpos Hlen]. unfold memory_SeenOrAdd. case_bool_decide; [done|].
  destruct (match items c !! id with Some _ => _ | None => _ end); [done|].
  pose proof (sweep_Len now c). pose proof (sweep_capacity now c) as Hcap.
  set (c' := sweepExpired now c) in *.
  destruct (Z.leb_spec (capacity c') (Len c')); unfold cache_inv; cbn; [lia|].
  pose proof (insert_Len id e c'). unfold Len at 1; cbn. lia.
Qed.

(** The entries of the cache that are still valid at [now]. *)
Definition live (now : Time) (c : MemoryReplayCache) : gmap string Time :=
  filter (λ kv, (now < kv.2)%Z) (items c).

Lemma live_lookup now c id e :
  live now c !! id = Some e ↔ items c !! id = Some e ∧ (now < e)%Z.
Proof. unfold live. apply map_lookup_filter_Some. Qed.

Lemma live_size now c : (Z.of_nat (size (live now c)) ≤ Len c)%Z.
Proof. apply Nat2Z.inj_le, map_size_filter. Qed.

Lemma live_sweep now c :
  (capacity c ≤ Len c)%Z → items (sweepExpired now c) = live now c.
Proof.
  intros Hcap. unfold sweepExpired. destruct (Z.ltb_spec (Len c) (capacity c)); [lia|]. cbn.
  apply map_eq. intros id. apply option_eq. intros e.
  rewrite live_lookup, map_lookup_filter_Some. cbn. unfold Before. by rewrite Z.ltb_lt.
Qed.

(** What is not recorded leaves the cache as it is, except that a cache full of valid
    entries has dropped the others. *)
Lemma memory_refused id e now c r c' :
  id ≠ ""%string → memory_SeenOrAdd id e now c = (r, c') → r ≠ Ok false →
  (r = Ok true ∧ c' = c) ∨
  (r = Err ErrReplayCacheFull ∧ c' = MkMemoryReplayCache (capacity c) (live now c) ∧
   (capacity c ≤ Z.of_nat (size (live now c)))%Z).
Proof.
  intros Hid. unfold memory_SeenOrAdd. rewrite bool_decide_eq_false_2 by done.
  destruct (match items c !! id with Some _ => _ | None => _ end); [intros [= <- <-]; by left|].
  destruct (Z.leb_spec (capacity (sweepExpired now c)) (Len (sweepExpired now c))) as [Hle|];
    [|by intros [= <- <-]].
  intros [= <- <-] _. right. split; [done|]. rewrite sweep_capacity in Hle.
  pose proof (sweep_Len now c). assert (capacity c ≤ Len c)%Z as Hfull by lia.
  pose proof (live_sweep now c Hfull) as Hlive. unfold Len in Hle. rewrite Hlive in Hle.
  split; [|done]. rewrite <- Hlive. unfold sweepExpired. by destruct (Z.ltb _ _); destruct c.
Qed.

(** An id that is not valid any more, or never was, is recorded while there is room. *)
Lemma memory_accepts id e now c :
  id ≠ ""%string → live now c !! id = None → (Z.of_nat (size (live now c)) < capacity c)%Z →
  ∃ c', memory_SeenOrAdd id e now c = (Ok false, c') ∧ items c' !! id = Some e.
Proof.
  intros Hid Hlive Hroom. unfold memory_SeenOrAdd. rewrite bool_decide_eq_false_2 by done.
  assert (match items c !! id with Some exp => Before now exp | None => false end = false) as ->.
  { destruct (items c !! id) as [exp|] eqn:He; [|done]. apply Z.ltb_ge.
    apply Z.nlt_ge. intros Hexp. by rewrite (proj2 (live_lookup now c id exp)) in Hlive. }
  rewrite sweep_capacity. destruct (Z.leb_spec (capacity c) (Len (sweepExpired now c))) as [Hle|_].
  - exfalso. pose proof (sweep_Len now c). assert (capacity c ≤ Len c)%Z as Hfull by lia.
    unfold Len in Hle. rewrite (live_sweep now c Hfull) in Hle. lia.
  - eexists. split; [done|]. apply lookup_insert_eq.
Qed.

(** C15 (functional): what [MemoryReplayCache.SeenOrAdd] decides, in terms of the entries
    valid at [now]: a valid id is seen; otherwise it is recorded with its expiry, unless
    valid entries alone fill the cache, which is the only refusal. No valid entry is ever
    lost, and the capacity bound is kept. *)
Theorem memory_cache_decides (id : string) (e now : Time) (c : MemoryReplayCache) :
  id ≠ ""%string → cache_inv c →
  let '(r, c') := memory_SeenOrAdd id e now c in
  cache_inv c' ∧
  match live now c !! id with
  | Some _ => r = Ok true ∧ c' = c
  | None =>
      if Z.leb (capacity c) (Z.of_nat (size (live now c)))
      then r = Err ErrReplayCacheFull ∧ live now c' = live now c
      else r = Ok false ∧ items c' !! id = Some e ∧
           ∀ id', id' ≠ id → live now c' !! id' = live now c !! id'
  end.
Proof.
  intros Hid Hinv. pose proof (SeenOrAdd_inv id e now c Hinv) as Hinv'. revert Hinv'.
  unfold memory_SeenOrAdd. rewrite bool_decide_eq_false_2 by done.
  destruct (live now c !! id) as [exp|] eqn:Hlive.
  { apply live_lookup in Hlive as [-> Hexp]. unfold Before.
    by destruct (Z.ltb_spec now exp); [|lia]. }
  assert (match items c !! id with Some exp => Before now exp | None => false end = false) as ->.
  { destruct (items c !! id) as [exp|] eqn:He; [|done]. apply Z.ltb_ge.
    apply Z.nlt_ge. intros Hexp. by rewrite (proj2 (live_lookup now c id exp)) in Hlive. }
  pose proof (live_size now c). rewrite sweep_capacity.
  assert (∀ id', live now (sweepExpired now c) !! id' = live now c !! id') as Hsw.
  { intros id'. apply option_eq. intros x. rewrite !live_lookup.
    split; intros [??]; (split; [|done]); [by eapply sweep_subset|by apply sweep_keeps]. }
  assert (Len (sweepExpired now c) = if Z.ltb (Len c) (capacity c) then Len c
          else Z.of_nat (size (live now c))) as ->.
  { destruct (Z.ltb_spec (Len c) (capacity c)).
    - unfold sweepExpired. by destruct (Z.ltb_spec (Len c) (capacity c)); [|lia].
    - unfold Len at 1. by rewrite live_sweep. }
  assert (Z.leb (capacity c) (if Z.ltb (Len c) (capacity c) then Len c
          else Z.of_nat (size (live now c))) = Z.leb (capacity c) (Z.of_nat (size (live now c))))
    as -> by (destruct (Z.ltb_spec (Len c) (capacity c)); lia).
  destruct (Z.leb _ _); intros Hinv'; (split; [done|]).
  - split; [done|]. by apply map_eq.
  - split_and!; [done|apply lookup_insert_eq|]. intros id' Hne. rewrite <- Hsw.
    apply option_eq. intros x. rewrite !live_lookup; cbn. by rewrite lookup_insert_ne.
Qed.

(** A captured response cannot be accepted twice within the life of its record: in any
    interleaving of callers of any cache that keeps the laws, two accepted calls of one
    id are at least the first's expiry apart. Clock readings may be arbitrarily old, so
    the calls need not run in the order of their readings. *)
Theorem replay_window {St} `{ReplayCache St} {remembers} `{!ReplayLaws St remembers}
    (pre mid : list call) (c1 c2 : call) (st : St) :
  c_id c1 ≠ ""%string → c_id c2 = c_id c1 →
  Forall (λ c, call_ok c ∧ c_real c ≤ c_real c2)%Z mid → call_ok c2 →
  (do_call c1 (run_calls pre st)).1 = Ok false →
  (do_call c2 (run_calls mid (do_call c1 (run_calls pre st)).2)).1 = Ok false →
  (c_expires c1 ≤ c_real c2)%Z.
Proof.
  intros Hid Heq Hmid Hc2 H1 H2.
  destruct (do_call c1 (run_calls pre st)) as [r1 st1] eqn:E1; cbn in *. subst.
  destruct (do_call c2 (run_calls mid st1)) as [r2 st2] eqn:E2; cbn in *. subst.
  eapply accepted_twice; eauto.
Qed.

(** ** Witnesses *)

Lemma memory_cache_decides_witness :
  let c := MkMemoryReplayCache 1 {["a"%string := 5%Z]} in
  let '(r, c') := memory_SeenOrAdd "b" 9 5 c in
  cache_inv c' ∧ r = Ok false ∧ items c' !! "b"%string = Some 9%Z.
Proof.
  pose proof (memory_cache_decides "b" 9 5 (MkMemoryReplayCache 1 {["a"%string := 5%Z]})) as H.
  cbn zeta. destruct (memory_SeenOrAdd "b" 9 5 (MkMemoryReplayCache 1 {["a"%string := 5%Z]}))
    as [r c'] eqn:He.
  assert (r = Ok false ∧ items c' !! "b"%string = Some 9%Z) as Hr.
  { vm_compute in He. injection He as <- <-. split; reflexivity. }
  destruct H as [H _]; [discriminate|split; vm_compute; congruence|].
  split; [exact H|exact Hr].
Defined.

Lemma replay_window_witness :
  let c1 := Call 1 1 "a" 10 in
  let c2 := Call 12 11 "a" 20 in
  (c_expires c1 ≤ c_real c2)%Z.
Proof.
  refine (replay_window (St := MemoryReplayCache) (remembers := memory_remembers)
            [] [Call 5 4 "b" 9] (Call 1 1 "a" 10) (Call 12 11 "a" 20) (NewMemoryReplayCache 4)
            _ _ _ _ _ _); try reflexivity; [discriminate| |]; unfold call_ok; cbn.
  - repeat constructor; cbn; lia.
  - lia.
Defined.
