(* ===== verification/SamlXml.v ===== *)
(** * SamlXml

    The namespaces of SAML, and a sample response as the scanners of the [saml] package
    see it. *)

From S2P Require Import Prelude GoXml GoXmlLex.

Definition samlAssertionNS : string := "urn:oasis:names:tc:SAML:2.0:assertion".
Definition samlProtocolNS : string := "urn:oasis:names:tc:SAML:2.0:protocol".

(** A response with one assertion, as an identity provider sends it: raw names with their
    prefixes, and the declarations that give them their meaning. *)
Definition plain (local : string) : Name := MkName "" local.
Definition sample_assertion : node :=
  NElem (plain "Assertion") [MkAttr (plain "xmlns") samlAssertionNS]
    [NElem (plain "Issuer") [] [NText "https://idp?a&b"];
     NElem (MkName "ds" "Signature") [MkAttr (MkName "xmlns" "ds") "http://www.w3.org/2000/09/xmldsig#"]
       [NElem (MkName "ds" "SignatureMethod") [MkAttr (plain "Algorithm") "rsa-sha256"] []];
     NElem (plain "Subject") [] [NElem (plain "NameID") [] [NText "alice"]]].
Definition sample_nodes : list node :=
  [NElem (MkName "samlp" "Response")
        [MkAttr (MkName "xmlns" "samlp") samlProtocolNS; MkAttr (plain "Destination") "https://sp/acs"]
        [NComment " sample "; sample_assertion]].
Definition sample_raw_assertion : tree := tree_of sample_assertion.
Definition sample_document : list tree := tree_of <$> sample_nodes.
Definition sample_xml : string := print_forest sample_nodes.
Definition sample_response : list tree := resolve ∅ <$> sample_document.

(** The prefixes are gone, and out of scope again after the assertion. *)
Example sample_names :
  (λ t, match t with StartElement n _ | EndElement n => Space n | OtherToken => ""%string end)
    <$> tokens (decode (document [Elem (plain "a") [] [sample_raw_assertion; Elem (plain "b") [] []]]))
  = [""; samlAssertionNS; samlAssertionNS; ""; samlAssertionNS; "http://www.w3.org/2000/09/xmldsig#";
     "http://www.w3.org/2000/09/xmldsig#"; "http://www.w3.org/2000/09/xmldsig#";
     "http://www.w3.org/2000/09/xmldsig#"; samlAssertionNS; samlAssertionNS; ""; samlAssertionNS;
     samlAssertionNS; samlAssertionNS; ""; ""; ""]%string.
Proof. reflexivity. Qed.

(** Names of ASCII letters. *)
Definition ascii_names : XmlNames := {| wide_first := λ _, false; wide_second := λ _, false |}.

(** The document as text, and its tokens. *)
Example sample_xml_text : (50 <? String.length sample_xml)%nat = true ∧
  rawTokens (W := ascii_names) sample_xml = document sample_document.
Proof. by vm_compute. Qed.
