(* ===== verification/SamlRawXml.v ===== *)
(** * SamlRawXml

    [saml/rawxml.go]: the scanners that look at the raw response before any signature
    is checked. goxmldsig's tag names and algorithm identifiers are the fields of the
    class [Dsig]. *)

From S2P Require Import Prelude GoXml SamlXml.

(** The goxmldsig constants the code names. *)
Class Dsig : Type := {
  SignatureMethodTag : string;
  DigestMethodTag : string;
  AlgorithmAttr : string;
  RSASHA256SignatureMethod : string;
  RSASHA384SignatureMethod : string;
  RSASHA512SignatureMethod : string;
  ECDSASHA256SignatureMethod : string;
  ECDSASHA384SignatureMethod : string;
  ECDSASHA512SignatureMethod : string;
}.

(** ** Shape of the response *)

Inductive shape_error : Type :=
| RootNotResponse (local : string)
| NoRoot.

Record responseShape : Type := ResponseShape {
  rootIsResponse : bool;
  destination : string;
  hasDestinationAttr : bool;
  assertionCount : Z;
  hasEncryptedAssertion : bool;
}.
Definition zero_shape : responseShape := ResponseShape false "" false 0 false.

(** The loop over the root's attributes: the last Destination wins. *)
Definition scan_attr (sh : responseShape) (a : Attr) : responseShape :=
  if bool_decide (Local (a_Name a) = "Destination"%string)
  then ResponseShape (rootIsResponse sh) (Value a) true (assertionCount sh)
                     (hasEncryptedAssertion sh)
  else sh.

Definition is_encrypted_name (n : Name) : bool :=
  bool_decide (Local n = "EncryptedAssertion"%string).

(** A counted child of the root. *)
Definition is_assertion_name (n : Name) : bool :=
  bool_decide (Space n = samlAssertionNS) &&
  (bool_decide (Local n = "Assertion"%string) || is_encrypted_name n).

Definition count_child (sh : responseShape) (n : Name) : responseShape :=
  if is_assertion_name n
  then ResponseShape (rootIsResponse sh) (destination sh) (hasDestinationAttr sh)
         (assertionCount sh + 1)
         (if is_encrypted_name n then true else hasEncryptedAssertion sh)
  else sh.

Definition enter_root (attrs : list Attr) (sh : responseShape) : responseShape :=
  fold_left scan_attr attrs
    (ResponseShape true (destination sh) (hasDestinationAttr sh) (assertionCount sh)
                   (hasEncryptedAssertion sh)).

(** The token loop; any error of the decoder ends it like the end of input. *)
Fixpoint shape_loop (ts : list Token) (depth : Z) (sh : responseShape)
    : res shape_error responseShape :=
  match ts with
  | [] => Ok sh
  | StartElement n attrs :: ts =>
      let depth := (depth + 1)%Z in
      if Z.eqb depth 1 && negb (bool_decide (Local n = "Response"%string))
      then Err (RootNotResponse (Local n))
      else
        let sh := if Z.eqb depth 1 then enter_root attrs sh else sh in
        let sh := if Z.eqb depth 2 then count_child sh n else sh in
        shape_loop ts depth sh
  | EndElement _ :: ts => shape_loop ts (depth - 1)%Z sh
  | OtherToken :: ts => shape_loop ts depth sh
  end.

Definition scanResponseShape (s : token_stream) : res shape_error responseShape :=
  sh ← shape_loop (tokens s) 0 zero_shape;
  if rootIsResponse sh then Ok sh else Err NoRoot.

(** ** What it computes, on trees *)

(** The children of the root elements that count. *)
Definition counted (f : list tree) : list Name :=
  filter (λ n, is_assertion_name n = true) (elems f ≫= λ e, elem_names e.2).

(** The Destination attributes of the root elements, in document order. *)
Definition destinations (f : list tree) : list string :=
  Value <$> filter (λ a, Local (a_Name a) = "Destination"%string) (elems f ≫= λ e, e.1.2).

Definition forest_shape (f : list tree) : responseShape :=
  ResponseShape true (default ""%string (last (destinations f)))
    (bool_decide (destinations f ≠ []))
    (Z.of_nat (length (counted f)))
    (existsb is_encrypted_name (counted f)).

(** Below the children of the root nothing changes. *)
Lemma shape_loop_deep t : ∀ rest depth sh,
  (2 ≤ depth)%Z → shape_loop (flatten t ++ rest) depth sh = shape_loop rest depth sh.
Proof.
  induction t as [|n a ch IH] using tree_ind'; intros rest depth sh Hd; [done|].
  cbn [flatten app shape_loop].
  destruct (Z.eqb_spec (depth + 1) 1); [lia|]. destruct (Z.eqb_spec (depth + 1) 2); [lia|].
  cbn [andb]. rewrite <- app_assoc. cbn [app].
  assert (∀ rest, shape_loop (flat_map flatten ch ++ rest) (depth + 1) sh
                  = shape_loop rest (depth + 1) sh) as ->.
  { clear rest. induction IH as [|t ch Ht _ IHch]; intros rest; [done|]. cbn [flat_map].
    rewrite <- app_assoc, Ht by lia. apply IHch. }
  cbn. f_equal. lia.
Qed.

(** A child of the root is counted by its name. *)
Lemma shape_loop_child t rest sh :
  shape_loop (flatten t ++ rest) 1 sh =
  shape_loop rest 1 (fold_left count_child (elem_names [t]) sh).
Proof.
  destruct t as [n a ch|]; [|done]. cbn [flatten app shape_loop Z.add Pos.add Z.eqb Pos.eqb andb].
  rewrite <- app_assoc. cbn [app].
  assert (∀ rest sh, shape_loop (flat_map flatten ch ++ rest) 2 sh = shape_loop rest 2 sh) as ->.
  { clear. induction ch as [|t ch IH]; intros rest sh; [done|]. cbn [flat_map].
    rewrite <- app_assoc, shape_loop_deep by lia. apply IH. }
  done.
Qed.

Lemma elem_names_cons t f : elem_names (t :: f) = elem_names [t] ++ elem_names f.
Proof. unfold elem_names, elems. by destruct t. Qed.

Lemma shape_loop_children ch : ∀ rest sh,
  shape_loop (flat_map flatten ch ++ rest) 1 sh =
  shape_loop rest 1 (fold_left count_child (elem_names ch) sh).
Proof.
  induction ch as [|t ch IH]; intros rest sh; [done|]. cbn [flat_map].
  rewrite <- app_assoc, shape_loop_child, IH, (elem_names_cons t ch), fold_left_app. done.
Qed.

(** The shape after a root element. *)
Definition add_root (sh : responseShape) (e : Name * list Attr * list tree) : responseShape :=
  fold_left count_child (elem_names e.2) (enter_root e.1.2 sh).

Lemma shape_loop_forest f : ∀ sh,
  shape_loop (flatten_forest f) 0 sh =
  match find (λ n, negb (bool_decide (Local n = "Response"%string))) (elem_names f) with
  | Some n => Err (RootNotResponse (Local n))
  | None => Ok (fold_left add_root (elems f) sh)
  end.
Proof.
  induction f as [|[n a ch|] f IH]; intros sh; [done| |apply IH].
  unfold flatten_forest. cbn [flat_map flatten app shape_loop Z.add Z.eqb Pos.eqb andb].
  cbn [elem_names elems elem_of_tree omap list_omap fmap list_fmap find fst snd].
  destruct (bool_decide (Local n = "Response"%string)); cbn [negb]; [|done].
  rewrite <- app_assoc, shape_loop_children. cbn [app shape_loop Z.sub Z.add Z.opp Z.pos_sub].
  by rewrite IH.
Qed.

(** The last of a non-empty list does not depend on the default. *)
Lemma default_last_cons {A} (x y : A) l : default y (last (x :: l)) = default x (last l).
Proof.
  revert x y. induction l as [|z l IH]; intros x y; [done|].
  change (last (x :: z :: l)) with (last (z :: l)). by rewrite (IH z y), (IH z x).
Qed.

Lemma fold_scan_attr attrs : ∀ sh,
  fold_left scan_attr attrs sh =
  let ds := Value <$> filter (λ a, Local (a_Name a) = "Destination"%string) attrs in
  ResponseShape (rootIsResponse sh) (default (destination sh) (last ds))
    (hasDestinationAttr sh || bool_decide (ds ≠ [])) (assertionCount sh)
    (hasEncryptedAssertion sh).
Proof.
  induction attrs as [|a attrs IH]; intros sh; cbn [fold_left].
  - destruct sh; cbn. by rewrite orb_false_r.
  - rewrite IH, filter_cons. unfold scan_attr. case_bool_decide as Ha.
    + rewrite decide_True by done. cbn [fmap list_fmap].
      set (ds := Value <$> filter _ attrs). cbn. rewrite orb_true_r.
      by rewrite default_last_cons.
    + by rewrite decide_False.
Qed.

Lemma fold_count_child ns : ∀ sh,
  fold_left count_child ns sh =
  let cs := filter (λ n, is_assertion_name n = true) ns in
  ResponseShape (rootIsResponse sh) (destination sh) (hasDestinationAttr sh)
    (assertionCount sh + Z.of_nat (length cs))
    (hasEncryptedAssertion sh || existsb is_encrypted_name cs).
Proof.
  induction ns as [|n ns IH]; intros sh; cbn [fold_left].
  - destruct sh; cbn. by rewrite orb_false_r, Z.add_0_r.
  - rewrite IH, filter_cons. unfold count_child. destruct (is_assertion_name n).
    + rewrite decide_True by done. cbn. f_equal; [lia|].
      by destruct (is_encrypted_name n), (hasEncryptedAssertion sh).
    + by rewrite decide_False.
Qed.

Lemma last_app_default {A} (l k : list A) x :
  default x (last (l ++ k)) = default (default x (last l)) (last k).
Proof.
  destruct (last k) as [y|] eqn:Hk; rewrite last_app, Hk; [done|]. by destruct (last l).
Qed.

Lemma bool_decide_app_nil (l k : list string) :
  bool_decide (l ++ k ≠ []) = bool_decide (l ≠ []) || bool_decide (k ≠ []).
Proof. destruct l, k; repeat case_bool_decide; naive_solver. Qed.

(** The shape over a list of root elements, from the fields already set. *)
Lemma fold_add_root es : ∀ sh,
  fold_left add_root es sh =
  let ds := Value <$> filter (λ a, Local (a_Name a) = "Destination"%string)
                             (es ≫= λ e, e.1.2) in
  let cs := filter (λ n, is_assertion_name n = true) (es ≫= λ e, elem_names e.2) in
  ResponseShape (rootIsResponse sh || bool_decide (es ≠ []))
    (default (destination sh) (last ds))
    (hasDestinationAttr sh || bool_decide (ds ≠ []))
    (assertionCount sh + Z.of_nat (length cs))
    (hasEncryptedAssertion sh || existsb is_encrypted_name cs).
Proof.
  induction es as [|e es IH]; intros sh; cbn [fold_left].
  - destruct sh; cbn. by rewrite !orb_false_r, Z.add_0_r.
  - rewrite IH. unfold add_root, enter_root. rewrite fold_count_child, fold_scan_attr.
    rewrite !bind_cons. cbn [rootIsResponse destination hasDestinationAttr assertionCount
         hasEncryptedAssertion].
    rewrite !filter_app, fmap_app, length_app, existsb_app, last_app_default,
      bool_decide_app_nil, !orb_assoc.
    f_equal; [by rewrite orb_true_r|lia].
Qed.

(** What the scan reports on a document. *)
Definition document_shape (f : list tree) : res shape_error responseShape :=
  match find (λ n, negb (bool_decide (Local n = "Response"%string))) (elem_names f) with
  | Some n => Err (RootNotResponse (Local n))
  | None => if bool_decide (elem_names f = []) then Err NoRoot else Ok (forest_shape f)
  end.

Lemma response_shape_scan f e :
  scanResponseShape (TokenStream (flatten_forest f) e) = document_shape f.
Proof.
  unfold scanResponseShape, document_shape. cbn [tokens]. rewrite shape_loop_forest.
  destruct (find _ _) as [n|]; [done|]. cbn [mbind res_bind].
  rewrite fold_add_root. unfold forest_shape, destinations, counted, elem_names.
  destruct (elems f) as [|e0 es]; done.
Qed.

(** A document that the decoder reads to its end is a sequence of raw
    trees, and the scan sees it with every name resolved. It fails when some root element
    is not a Response, or when there is none; otherwise it reports the last Destination
    attribute of the roots, whether there is one, the number of Assertion and
    EncryptedAssertion children (in the assertion namespace) of the roots, and whether one
    of them is encrypted. Nothing deeper than the children of a root is looked at. *)
Theorem response_shape_of_document raw (He : ended (decode raw) = EOF) :
  ∃ f, raw = document f ∧ scanResponseShape (decode raw) = document_shape (resolve ∅ <$> f).
Proof.
  destruct (proj1 (decode_EOF raw _) (conj eq_refl He)) as (f & Hf & Hd). exists f. split; [done|].
  rewrite Hd. apply response_shape_scan.
Qed.

(** ** Signature algorithms *)

Section algorithms.
Context {D : Dsig}.

Definition allowedSignatureMethods : list string :=
  [RSASHA256SignatureMethod; RSASHA384SignatureMethod; RSASHA512SignatureMethod;
   ECDSASHA256SignatureMethod; ECDSASHA384SignatureMethod; ECDSASHA512SignatureMethod].

Definition allowedDigestMethods : list string :=
  ["http://www.w3.org/2001/04/xmlenc#sha256"; "http://www.w3.org/2001/04/xmldsig-more#sha384";
   "http://www.w3.org/2001/04/xmlenc#sha512"]%string.

(** The switch over the element's local name. *)
Definition algorithm_table (local : string) : option (list string) :=
  if bool_decide (local = SignatureMethodTag) then Some allowedSignatureMethods
  else if bool_decide (local = DigestMethodTag) then Some allowedDigestMethods
  else None.

Fixpoint first_disallowed (allowed : list string) (attrs : list Attr) : option string :=
  match attrs with
  | [] => None
  | a :: attrs =>
      if bool_decide (Local (a_Name a) = AlgorithmAttr) &&
         negb (bool_decide (Value a ∈ allowed))
      then Some (Value a) else first_disallowed allowed attrs
  end.

Fixpoint weak_loop (ts : list Token) : string * string :=
  match ts with
  | [] => (""%string, ""%string)
  | StartElement n attrs :: ts =>
      match algorithm_table (Local n) with
      | Some allowed =>
          match first_disallowed allowed attrs with
          | Some v => (Local n, v)
          | None => weak_loop ts
          end
      | None => weak_loop ts
      end
  | _ :: ts => weak_loop ts
  end.
Definition scanWeakSignatureAlgorithms (s : token_stream) : string * string :=
  weak_loop (tokens s).

(** The policy, apart from the code: which algorithms are strong, for a signature and for a
    digest, and what an element of a document has to keep to. *)
Definition strong_signature (alg : string) : Prop :=
  (alg = RSASHA256SignatureMethod ∨ alg = RSASHA384SignatureMethod ∨ alg = RSASHA512SignatureMethod) ∨
  (alg = ECDSASHA256SignatureMethod ∨ alg = ECDSASHA384SignatureMethod ∨ alg = ECDSASHA512SignatureMethod).
Definition strong_digest (alg : string) : Prop :=
  alg = "http://www.w3.org/2001/04/xmlenc#sha256"%string ∨
  alg = "http://www.w3.org/2001/04/xmldsig-more#sha384"%string ∨
  alg = "http://www.w3.org/2001/04/xmlenc#sha512"%string.

Definition attr_strong (n : Name) (a : Attr) : Prop :=
  Local (a_Name a) = AlgorithmAttr →
  if decide (Local n = SignatureMethodTag) then strong_signature (Value a)
  else if decide (Local n = DigestMethodTag) then strong_digest (Value a)
  else True.

Definition element_strong (n : Name) (attrs : list Attr) : Prop := Forall (attr_strong n) attrs.

Definition token_strong (t : Token) : Prop :=
  match t with StartElement n attrs => element_strong n attrs | _ => True end.

Lemma allowedSignatureMethods_spec alg : alg ∈ allowedSignatureMethods ↔ strong_signature alg.
Proof. unfold allowedSignatureMethods, strong_signature. rewrite !elem_of_cons, elem_of_nil. tauto. Qed.

Lemma allowedDigestMethods_spec alg : alg ∈ allowedDigestMethods ↔ strong_digest alg.
Proof. unfold allowedDigestMethods, strong_digest. rewrite !elem_of_cons, elem_of_nil. tauto. Qed.

(** What the switch of the scan means for an attribute. *)
Lemma attr_strong_iff n a :
  attr_strong n a ↔
  match algorithm_table (Local n) with
  | Some allowed => Local (a_Name a) = AlgorithmAttr → Value a ∈ allowed
  | None => True
  end.
Proof.
  unfold attr_strong, algorithm_table. rewrite !if_bool_decide.
  repeat case_decide; [by rewrite allowedSignatureMethods_spec|by rewrite allowedDigestMethods_spec|tauto].
Qed.

Lemma first_disallowed_None allowed attrs :
  first_disallowed allowed attrs = None ↔
  Forall (λ a, Local (a_Name a) = AlgorithmAttr → Value a ∈ allowed) attrs.
Proof.
  induction attrs as [|a attrs IH]; cbn; [by split; [constructor|]|]. rewrite Forall_cons, <- IH.
  case_bool_decide; case_bool_decide; cbn; naive_solver.
Qed.

Lemma first_disallowed_Some allowed attrs alg :
  first_disallowed allowed attrs = Some alg →
  ∃ before a after, attrs = before ++ a :: after ∧
    Forall (λ a, Local (a_Name a) = AlgorithmAttr → Value a ∈ allowed) before ∧
    Local (a_Name a) = AlgorithmAttr ∧ Value a ∉ allowed ∧ alg = Value a.
Proof.
  induction attrs as [|a attrs IH]; cbn; [done|]. intros H.
  destruct (bool_decide (Local (a_Name a) = AlgorithmAttr) && negb (bool_decide (Value a ∈ allowed))) eqn:E.
  - injection H as <-. bool_simp. by exists [], a, attrs.
  - destruct (IH H) as (before & a' & after & -> & Hb & Ha). exists (a :: before), a', after.
    split_and!; [done| |naive_solver..]. constructor; [|done]. intros Hn.
    rewrite (bool_decide_eq_true_2 _ Hn) in E. cbn [andb] in E. by bool_simp.
Qed.

Lemma element_strong_iff n attrs :
  element_strong n attrs ↔
  match algorithm_table (Local n) with
  | Some allowed => first_disallowed allowed attrs = None
  | None => True
  end.
Proof.
  unfold element_strong. rewrite (Forall_iff _ _ _ (attr_strong_iff n)).
  destruct (algorithm_table (Local n)) as [allowed|]; [by rewrite first_disallowed_None|].
  split; [done|]. intros _. by apply Forall_true.
Qed.

(** The first weak attribute of an element: those before it are strong. *)
Definition first_weak (n : Name) (attrs : list Attr) (alg : string) : Prop :=
  ∃ before a after, attrs = before ++ a :: after ∧ Forall (attr_strong n) before ∧
                    ¬ attr_strong n a ∧ alg = Value a.

Lemma first_disallowed_weak n allowed attrs alg :
  algorithm_table (Local n) = Some allowed → first_disallowed allowed attrs = Some alg →
  first_weak n attrs alg.
Proof.
  intros Ht (before & a & after & -> & Hb & Hn & Hv & ->)%first_disallowed_Some.
  exists before, a, after. rewrite (Forall_iff _ _ _ (attr_strong_iff n)), attr_strong_iff, Ht.
  split_and!; [done|done|auto|done].
Qed.

Lemma algorithm_table_named n allowed :
  SignatureMethodTag ≠ ""%string → DigestMethodTag ≠ ""%string →
  algorithm_table (Local n) = Some allowed → Local n ≠ ""%string.
Proof. unfold algorithm_table. repeat case_bool_decide; congruence. Qed.

Lemma weak_scan_strong s :
  SignatureMethodTag ≠ ""%string → DigestMethodTag ≠ ""%string →
  (scanWeakSignatureAlgorithms s).1 = ""%string ↔ Forall token_strong (tokens s).
Proof.
  intros Hs Hd. unfold scanWeakSignatureAlgorithms. induction (tokens s) as [|[n attrs|n|] ts IH];
    cbn [weak_loop]; rewrite ?Forall_cons, <- ?IH; cbn [token_strong]; [|..|tauto|tauto].
  { split; [constructor|done]. }
  rewrite element_strong_iff.
  destruct (algorithm_table (Local n)) as [allowed|] eqn:Ha; [|tauto].
  destruct (first_disallowed allowed attrs) eqn:Hf; [|tauto]. cbn.
  split; [|by intros [??]]. intros Hn. by apply algorithm_table_named in Ha.
Qed.

Lemma weak_loop_first ts el alg :
  weak_loop ts = (el, alg) → el ≠ ""%string →
  ∃ pre n attrs post, ts = pre ++ StartElement n attrs :: post ∧
    Forall token_strong pre ∧ el = Local n ∧ first_weak n attrs alg.
Proof.
  induction ts as [|t ts IH]; cbn [weak_loop]; [intros [= <- <-]; done|]. intros Hw Hel.
  assert ((weak_loop ts = (el, alg) ∧ token_strong t) ∨
          ∃ n attrs, t = StartElement n attrs ∧ el = Local n ∧ first_weak n attrs alg)
    as [[Ht Hstrong]|(n & attrs & -> & -> & Hf)].
  { destruct t as [n attrs|n|]; [|by left..].
    destruct (algorithm_table (Local n)) as [allowed|] eqn:Ha.
    - destruct (first_disallowed allowed attrs) as [v|] eqn:Hf.
      + injection Hw as <- <-. right. exists n, attrs. split_and!; [done..|]. by eapply first_disallowed_weak.
      + left. split; [done|]. apply element_strong_iff. by rewrite Ha.
    - left. split; [done|]. apply element_strong_iff. by rewrite Ha. }
  - destruct (IH Ht Hel) as (pre & n & attrs & post & -> & Hpre & H).
    exists (t :: pre), n, attrs, post. split; [done|]. split; [by constructor|done].
  - exists [], n, attrs, ts. by split_and!.
Qed.

(** C34 (safety): the scan reports nothing exactly when, of every SignatureMethod and every
    DigestMethod at any depth, each Algorithm attribute is strong: one of six RSA and ECDSA
    methods with SHA-256, -384 or -512 for a signature, one of the three digests for a
    DigestMethod. Otherwise it reports the first element that has a weak one, with the
    first weak one it has. *)
Theorem weak_scan_complete s
  (Hs : SignatureMethodTag ≠ ""%string) (Hd : DigestMethodTag ≠ ""%string) :
  let '(el, alg) := scanWeakSignatureAlgorithms s in
  if decide (el = ""%string) then Forall token_strong (tokens s)
  else ∃ pre n attrs post, tokens s = pre ++ StartElement n attrs :: post ∧
         Forall token_strong pre ∧ el = Local n ∧ first_weak n attrs alg.
Proof.
  destruct (scanWeakSignatureAlgorithms s) as [el alg] eqn:Hw. case_decide as He.
  - apply weak_scan_strong; [done..|]. by rewrite Hw.
  - by apply weak_loop_first.
Qed.
End algorithms.

(** ** Witnesses *)

Definition sample_dsig : Dsig := {|
  SignatureMethodTag := "SignatureMethod"; DigestMethodTag := "DigestMethod";
  AlgorithmAttr := "Algorithm"; RSASHA256SignatureMethod := "rsa-sha256";
  RSASHA384SignatureMethod := "rsa-sha384"; RSASHA512SignatureMethod := "rsa-sha512";
  ECDSASHA256SignatureMethod := "ecdsa-sha256"; ECDSASHA384SignatureMethod := "ecdsa-sha384";
  ECDSASHA512SignatureMethod := "ecdsa-sha512";
|}.

Lemma response_shape_of_document_witness :
  ended (decode (document sample_document)) = EOF ∧
  (∃ f, document sample_document = document f ∧
        scanResponseShape (decode (document sample_document)) = document_shape (resolve ∅ <$> f)) ∧
  scanResponseShape (decode (document sample_document))
    = Ok (ResponseShape true "https://sp/acs" true 1 false).
Proof.
  split; [reflexivity|]. split; [|reflexivity].
  apply (response_shape_of_document (document sample_document)). reflexivity.
Defined.

(** A strong signature with a digest that is not: the digest is reported. *)
Lemma weak_scan_complete_witness :
  let s := TokenStream [StartElement (MkName "" "SignatureMethod")
                          [MkAttr (MkName "" "Algorithm") "rsa-sha256"];
                        StartElement (MkName "" "DigestMethod")
                          [MkAttr (MkName "" "Id") "d"; MkAttr (MkName "" "Algorithm") "sha1"]] EOF in
  scanWeakSignatureAlgorithms (D := sample_dsig) s = ("DigestMethod", "sha1")%string ∧
  ∃ pre n attrs post, tokens s = pre ++ StartElement n attrs :: post ∧
    Forall (token_strong (D := sample_dsig)) pre ∧ "DigestMethod"%string = Local n ∧
    first_weak (D := sample_dsig) n attrs "sha1".
Proof.
  split; [reflexivity|].
  apply (weak_scan_complete (D := sample_dsig)
           (TokenStream [StartElement (MkName "" "SignatureMethod")
                           [MkAttr (MkName "" "Algorithm") "rsa-sha256"];
                         StartElement (MkName "" "DigestMethod")
                           [MkAttr (MkName "" "Id") "d"; MkAttr (MkName "" "Algorithm") "sha1"]] EOF));
    discriminate.
Defined.
