(* ===== verification/SamlIdentityShape.v ===== *)
(** * SamlIdentityShape

    [saml/identity_shape.go]: the check of the plaintext identity elements, and what
    documents it lets through. *)

From S2P Require Import Prelude GoXml SamlXml.
Local Open Scope Z_scope.

Inductive identity_error : Type :=
| NotDecodable
| IssuerShape
| SubjectShape
| NameIDShape
| IssuerRequired
| Panics.  (* stack[:len(stack)-1] on an empty stack *)

Definition assertion_name : Name := MkName samlAssertionNS "Assertion".

Record counters : Type := Counters { issuers : Z; subjects : Z; names : Z }.

(** [n++; if element.Name.Space != samlAssertionNS || n != 1 { return ... }], for the
    elements of the given local name. *)
Definition count_named (local : string) (e : identity_error) (c : Z) (n : Name)
    : res identity_error Z :=
  if bool_decide (Local n = local)
  then
    let c := c + 1 in
    if negb (bool_decide (Space n = samlAssertionNS)) || negb (Z.eqb c 1) then Err e else Ok c
  else Ok c.

Definition count_issuer (st : counters) (n : Name) : res identity_error counters :=
  i ← count_named "Issuer" IssuerShape (issuers st) n;
  Ok (Counters i (subjects st) (names st)).
Definition count_subject (st : counters) (n : Name) : res identity_error counters :=
  s ← count_named "Subject" SubjectShape (subjects st) n;
  Ok (Counters (issuers st) s (names st)).
Definition count_nameid (st : counters) (n : Name) : res identity_error counters :=
  m ← count_named "NameID" NameIDShape (names st) n;
  Ok (Counters (issuers st) (subjects st) m).

(** [stack[1] == (xml.Name{Space: samlAssertionNS, Local: "Assertion"})] *)
Definition in_assertion (stack : list Name) : bool :=
  bool_decide (stack !! 1%nat = Some assertion_name).
Definition in_subject (stack : list Name) : bool :=
  match stack !! 2%nat with Some n => bool_decide (Local n = "Subject"%string) | None => false end.

(** The [xml.StartElement] case; the stack is [stack[0]] first and holds the element. *)
Definition on_start (stack : list Name) (n : Name) (st : counters)
    : res identity_error counters :=
  let depth := Z.of_nat (length stack) in
  let st := if (depth =? 2) && bool_decide (n = assertion_name) then Counters 0 0 0 else st in
  if (depth <? 3) || negb (in_assertion stack) then Ok st
  else
    st ← (if depth =? 3 then count_issuer st n else Ok st);
    st ← (if depth =? 3 then count_subject st n else Ok st);
    if (depth =? 4) && in_subject stack then count_nameid st n else Ok st.

(** The check of the [xml.EndElement] case. *)
Definition on_end (stack : list Name) (st : counters) : res identity_error unit :=
  check (negb ((Z.of_nat (length stack) =? 2) && in_assertion stack &&
               negb (issuers st =? 1))) IssuerRequired.

Fixpoint identity_loop (ts : list Token) (e : stream_end) (stack : list Name) (st : counters)
    : res identity_error unit :=
  match ts with
  | [] => match e with EOF => Ok tt | SyntaxError => Err NotDecodable end
  | StartElement n _ :: ts =>
      let stack := stack ++ [n] in
      st ← on_start stack n st;
      identity_loop ts e stack st
  | EndElement _ :: ts =>
      _ ← on_end stack st;
      match stack with
      | [] => Err Panics
      | _ => identity_loop ts e (take (length stack - 1) stack) st
      end
  | OtherToken :: ts => identity_loop ts e stack st
  end.

Definition validatePlaintextIdentityShape (s : token_stream) : res identity_error unit :=
  identity_loop (tokens s) (ended s) [] (Counters 0 0 0).

(** ** What it accepts *)

Definition with_local (local : string) (ns : list Name) : list Name :=
  filter (λ n, Local n = local) ns.

(** At most one element of the local name, in the assertion namespace. *)
Definition at_most_one (local : string) (ns : list Name) : Prop :=
  with_local local ns = [] ∨ with_local local ns = [MkName samlAssertionNS local].

(** The children of the Subject children. *)
Definition subject_children (ch : list tree) : list Name :=
  filter (λ e, Local e.1.1 = "Subject"%string) (elems ch) ≫= λ e, elem_names e.2.

Definition assertion_identity_ok (ch : list tree) : Prop :=
  with_local "Issuer" (elem_names ch) = [MkName samlAssertionNS "Issuer"] ∧
  at_most_one "Subject" (elem_names ch) ∧
  at_most_one "NameID" (subject_children ch).

Definition root_identity_ok (ch : list tree) : Prop :=
  ∀ e, e ∈ elems ch → e.1.1 = assertion_name → assertion_identity_ok e.2.

Definition forest_identity_ok (f : list tree) : Prop :=
  ∀ e, e ∈ elems f → root_identity_ok e.2.

(** ** The loop on trees *)

Lemma take_snoc {A} (l : list A) x : take (length (l ++ [x]) - 1) (l ++ [x]) = l.
Proof. rewrite length_app. cbn. by rewrite Nat.add_sub, take_app_length. Qed.

Lemma identity_loop_end n ts e stack st m :
  identity_loop (EndElement m :: ts) e (stack ++ [n]) st =
  (on_end (stack ++ [n]) st ≫= λ _, identity_loop ts e stack st).
Proof. cbn. rewrite take_snoc. by destruct stack. Qed.

(** The work of one element, given that of the elements inside it. *)
Definition elem_work (work : list Name → counters → list tree → res identity_error counters)
    (stack : list Name) (st : counters) (t : tree) : res identity_error counters :=
  match t with
  | Other => Ok st
  | Elem n _ ch =>
      st ← on_start (stack ++ [n]) n st;
      st ← work (stack ++ [n]) st ch;
      _ ← on_end (stack ++ [n]) st;
      Ok st
  end.

(** [work d]: elements nested [d] deep; nothing happens below the fourth level. *)
Fixpoint work (d : nat) (stack : list Name) (st : counters) (f : list tree)
    : res identity_error counters :=
  match d with
  | O => Ok st
  | S d => fold_res (elem_work (work d) stack) f st
  end.

Lemma on_start_deep stack n st : (5 ≤ length stack)%nat → on_start stack n st = Ok st.
Proof.
  intros Hl. unfold on_start.
  destruct (Z.eqb_spec (Z.of_nat (length stack)) 2); [lia|].
  destruct (Z.eqb_spec (Z.of_nat (length stack)) 3); [lia|].
  destruct (Z.eqb_spec (Z.of_nat (length stack)) 4); [lia|].
  by destruct (_ || _).
Qed.

Lemma on_end_deep stack st : (3 ≤ length stack)%nat → on_end stack st = Ok tt.
Proof.
  intros Hl. unfold on_end. by destruct (Z.eqb_spec (Z.of_nat (length stack)) 2); [lia|].
Qed.

Lemma loop_deep t : ∀ rest e stack st,
  (4 ≤ length stack)%nat →
  identity_loop (flatten t ++ rest) e stack st = identity_loop rest e stack st.
Proof.
  induction t as [|n a ch IH] using tree_ind'; intros rest e stack st Hl; [done|].
  cbn [flatten app identity_loop].
  rewrite on_start_deep by (rewrite length_app; cbn; lia). cbn [mbind res_bind].
  rewrite <- app_assoc. cbn [app].
  assert (∀ rest, identity_loop (flat_map flatten ch ++ rest) e (stack ++ [n]) st
                  = identity_loop rest e (stack ++ [n]) st) as ->.
  { clear rest. induction IH as [|t ch Ht _ IHch]; intros rest; [done|]. cbn [flat_map].
    rewrite <- app_assoc, Ht by (rewrite length_app; cbn; lia). apply IHch. }
  rewrite identity_loop_end, on_end_deep by (rewrite length_app; cbn; lia). done.
Qed.

Lemma loop_work d : ∀ f rest e stack st,
  (length stack + d = 4)%nat →
  identity_loop (flatten_forest f ++ rest) e stack st =
  (work d stack st f ≫= λ st, identity_loop rest e stack st).
Proof.
  induction d as [|d IH]; intros f rest e stack st Hl; cbn [work].
  - cbn [mbind res_bind]. induction f as [|t f IHf]; [done|]. unfold flatten_forest in *.
    cbn [flat_map]. by rewrite <- app_assoc, loop_deep by lia.
  - revert st. induction f as [|t f IHf]; intros st; [done|].
    unfold flatten_forest in IHf |- *. cbn [flat_map fold_res]. rewrite <- app_assoc.
    destruct t as [n a ch|]; cbn [flatten app identity_loop elem_work].
    + rewrite !res_bind_assoc. destruct (on_start _ n st) as [st1|]; [|done].
      cbn [mbind res_bind]. rewrite <- app_assoc. cbn [app].
      change (flat_map flatten ch) with (flatten_forest ch).
      rewrite IH by (rewrite length_app; cbn; lia).
      rewrite !res_bind_assoc. destruct (work d _ st1 ch) as [st2|]; [|done].
      cbn [mbind res_bind]. rewrite identity_loop_end.
      destruct (on_end _ st2); [|done]. apply IHf.
    + apply IHf.
Qed.

(** ** Counting *)

Definition fold_named (local : string) (e : identity_error) (c : Z) (ns : list Name)
    : res identity_error Z :=
  fold_res (count_named local e) ns c.

Lemma count_named_Ok local e c n c' :
  count_named local e c n = Ok c' ↔
  (Local n ≠ local ∧ c' = c) ∨ (c = 0 ∧ c' = 1 ∧ n = MkName samlAssertionNS local).
Proof.
  unfold count_named. case_bool_decide as Hl; [|naive_solver].
  destruct n as [sp lo]; cbn in *. case_bool_decide as Hs; cbn.
  - destruct (Z.eqb_spec (c + 1) 1) as [Hc|Hc]; cbn; split.
    + intros [= <-]. right. by subst; split_and!; [lia..|].
    + intros [[??]|(-> & -> & _)]; done.
    + done.
    + intros [[??]|(-> & _)]; [done|lia].
  - split; [done|]. intros [[??]|(_ & _ & [=])]; congruence.
Qed.

Lemma with_local_cons local n ns :
  with_local local (n :: ns) =
  if decide (Local n = local) then n :: with_local local ns else with_local local ns.
Proof. unfold with_local. by rewrite filter_cons. Qed.

Lemma fold_named_Ok local e ns : ∀ c c',
  fold_named local e c ns = Ok c' ↔
  (with_local local ns = [] ∧ c' = c) ∨
  (c = 0 ∧ c' = 1 ∧ with_local local ns = [MkName samlAssertionNS local]).
Proof.
  unfold fold_named. induction ns as [|n ns IH]; intros c c'; cbn [fold_res].
  { split; [intros [= ->]; by left|]. intros [[_ ->]|(_ & _ & H)]; [done|discriminate H]. }
  rewrite bind_Ok. setoid_rewrite count_named_Ok. setoid_rewrite IH.
  rewrite with_local_cons. split.
  - intros (c1 & [(Hn & ->)|(-> & -> & ->)] & H).
    + by rewrite decide_False.
    + rewrite decide_True by done. right. destruct H as [[-> ->]|[H _]]; [done|lia].
  - case_decide as Hn.
    + intros [[H _]|(-> & -> & H)]; [discriminate H|]. injection H as -> H.
      exists 1. split; [by right|]. by left.
    + intros H. exists c. split; [by left|done].
Qed.

Lemma fold_named_app local e c ns ms :
  fold_named local e c (ns ++ ms) = fold_named local e c ns ≫= λ c, fold_named local e c ms.
Proof. apply fold_res_app. Qed.

(** ** The four levels *)

Lemma work_S d stack st f : work (S d) stack st f = fold_res (elem_work (work d) stack) f st.
Proof. done. Qed.

Lemma work_S_cons d stack st t f :
  work (S d) stack st (t :: f) =
  (elem_work (work d) stack st t ≫= λ st, work (S d) stack st f).
Proof. done. Qed.

Lemma work_foreign d : ∀ r n st stack f,
  n ≠ assertion_name → work d (r :: n :: stack) st f = Ok st.
Proof.
  induction d as [|d IH]; intros r n st stack f Hn; [done|]. cbn [work].
  induction f as [|t f IHf]; [done|]. cbn [fold_res].
  assert (elem_work (work d) (r :: n :: stack) st t = Ok st) as ->; [|done].
  destruct t as [m a ch|]; [|done]. cbn [elem_work app].
  assert (in_assertion (r :: n :: stack ++ [m]) = false) as Ha.
  { unfold in_assertion. cbn. apply bool_decide_eq_false. congruence. }
  assert (Z.of_nat (length (r :: n :: stack ++ [m])) =? 2 = false) as Hl.
  { apply Z.eqb_neq. cbn [length]. rewrite length_app. cbn. lia. }
  unfold on_start, on_end. rewrite Ha, Hl. cbn [andb negb]. rewrite orb_true_r.
  cbn [mbind res_bind]. by rewrite IH.
Qed.

Definition subject_names (n : Name) (ch : list tree) : list Name :=
  if decide (Local n = "Subject"%string) then elem_names ch else [].

Lemma elem_work_deep stack d st n a ch :
  (2 ≤ length stack)%nat →
  elem_work (work d) stack st (Elem n a ch) =
  (on_start (stack ++ [n]) n st ≫= λ st, work d (stack ++ [n]) st ch).
Proof.
  intros Hl. cbn [elem_work]. destruct (on_start _ n st) as [st1|]; [|done].
  cbn [mbind res_bind]. destruct (work d _ st1 ch) as [st2|]; [|done].
  cbn [mbind res_bind]. by rewrite on_end_deep by (rewrite length_app; cbn; lia).
Qed.

(** Evaluates the depth tests of [on_start] under an assertion. *)
Ltac at_depth d :=
  unfold on_start, in_assertion;
  repeat match goal with
  | |- context [Z.of_nat (length ?l)] => change (Z.of_nat (length l)) with d
  | |- context [d <? ?k] => let b := eval compute in (d <? k) in change (d <? k) with b
  | |- context [d =? ?k] => let b := eval compute in (d =? k) in change (d =? k) with b
  end;
  rewrite bool_decide_eq_true_2 by done; cbn [andb orb negb].

Lemma on_start_4 r n m st :
  on_start [r; assertion_name; n; m] m st =
  if decide (Local n = "Subject"%string) then count_nameid st m else Ok st.
Proof.
  at_depth 4. unfold in_subject. cbn [lookup list_lookup mbind res_bind].
  case_decide as Hn; [by rewrite (bool_decide_eq_true_2 _ Hn)|by rewrite (bool_decide_eq_false_2 _ Hn)].
Qed.

Lemma work_1 r n ch : ∀ st,
  work 1 [r; assertion_name; n] st ch = fold_res count_nameid (subject_names n ch) st.
Proof.
  unfold subject_names. induction ch as [|t ch IH]; intros st; [by case_decide|].
  rewrite work_S_cons. destruct t as [m a ch'|]; [|apply IH].
  rewrite elem_work_deep by (cbn; lia). cbn [app]. rewrite on_start_4.
  unfold elem_names, elems in IH |- *. cbn [omap list_omap elem_of_tree].
  case_decide; [|apply IH]. cbn [fmap list_fmap fold_res fst snd work].
  destruct (count_nameid st m) as [st1|]; [apply IH|done].
Qed.

Lemma fold_nameid ns : ∀ st,
  fold_res count_nameid ns st =
  (m ← fold_named "NameID" NameIDShape (names st) ns;
   Ok (Counters (issuers st) (subjects st) m)).
Proof.
  unfold fold_named. induction ns as [|n ns IH]; intros st; [by destruct st|].
  cbn [fold_res]. unfold count_nameid at 2.
  destruct (count_named "NameID" NameIDShape (names st) n) as [m|]; [|done].
  cbn [mbind res_bind]. apply IH.
Qed.

Lemma on_start_3 r n st :
  on_start [r; assertion_name; n] n st =
  (i ← count_named "Issuer" IssuerShape (issuers st) n;
   s ← count_named "Subject" SubjectShape (subjects st) n;
   Ok (Counters i s (names st))).
Proof.
  at_depth 3. unfold count_issuer, count_subject.
  destruct (count_named "Issuer" _ _ n) as [i|]; [|done]. cbn [mbind res_bind issuers subjects names].
  by destruct (count_named "Subject" _ _ n).
Qed.

(** The children of an assertion: three independent counts. *)
Lemma work_2 r ch : ∀ st st',
  work 2 [r; assertion_name] st ch = Ok st' ↔
  fold_named "Issuer" IssuerShape (issuers st) (elem_names ch) = Ok (issuers st') ∧
  fold_named "Subject" SubjectShape (subjects st) (elem_names ch) = Ok (subjects st') ∧
  fold_named "NameID" NameIDShape (names st) (subject_children ch) = Ok (names st').
Proof.
  induction ch as [|t ch IH]; intros st st'.
  { cbn. split; [by intros [= ->]|]. destruct st, st'; cbn. naive_solver. }
  rewrite work_S_cons. destruct t as [n a ch'|]; [|apply IH].
  rewrite elem_work_deep by (cbn; lia). cbn [app]. rewrite on_start_3.
  unfold elem_names, elems, subject_children, elems. cbn [omap list_omap elem_of_tree].
  fold (elems ch). cbn [fmap list_fmap fst snd]. fold (elem_names ch).
  unfold fold_named at 1 2. cbn [fold_res]. rewrite !res_bind_assoc.
  destruct (count_named "Issuer" _ _ n) as [i|]; [|cbn; naive_solver].
  cbn [mbind res_bind].
  destruct (count_named "Subject" _ _ n) as [s|]; [|cbn; naive_solver].
  cbn [mbind res_bind]. rewrite work_1, fold_nameid. cbn [names issuers subjects].
  rewrite filter_cons. cbn [fst]. unfold subject_names. case_decide.
  - rewrite bind_cons, fold_named_app. cbn [snd].
    destruct (fold_named "NameID" _ _ (elem_names ch')) as [m|]; cbn [mbind res_bind]; [|naive_solver].
    rewrite IH. cbn [issuers subjects names]. done.
  - unfold fold_named at 1. cbn [fold_res mbind res_bind]. by rewrite IH.
Qed.

(** A child of a root: an assertion is let through when its identity elements are as
    they must be, anything else always. *)
Lemma child_work_Ok r st t :
  is_ok (elem_work (work 2) [r] st t) = true ↔
  ∀ e, elem_of_tree t = Some e → e.1.1 = assertion_name → assertion_identity_ok e.2.
Proof.
  destruct t as [n a ch|]; [|cbn; naive_solver]. cbn [elem_work app elem_of_tree].
  destruct (decide (n = assertion_name)) as [->|Hn].
  - assert (on_start [r; assertion_name] assertion_name st = Ok (Counters 0 0 0)) as ->
      by done.
    cbn [mbind res_bind]. split.
    + intros Hok e [= <-] _. cbn [snd].
      destruct (work 2 _ _ ch) as [st'|] eqn:Hw; [|done]. cbn [mbind res_bind] in Hok.
      destruct (on_end _ st') eqn:He; [|done].
      apply work_2 in Hw as (Hi & Hs & Hm). apply check_Ok in He. bool_simp.
      assert (issuers st' = 1) as Hi1.
      { unfold in_assertion in He. cbn in He.
        destruct (Z.eqb_spec (issuers st') 1); [done|]. by rewrite bool_decide_eq_true_2 in He. }
      apply fold_named_Ok in Hi, Hs, Hm. cbn [issuers subjects names] in Hi, Hs, Hm.
      unfold assertion_identity_ok, at_most_one. split_and!; [|naive_solver..].
      destruct Hi as [[_ H]|(_ & _ & H)]; [lia|done].
    + intros H. destruct (H _ eq_refl eq_refl) as (Hi & Hs & Hm). cbn [snd] in *.
      assert (work 2 [r; assertion_name] (Counters 0 0 0) ch =
              Ok (Counters 1 (if decide (with_local "Subject" (elem_names ch) = []) then 0 else 1)
                    (if decide (with_local "NameID" (subject_children ch) = []) then 0 else 1)))
        as ->.
      { apply work_2. rewrite !fold_named_Ok. cbn [issuers subjects names].
        split_and!; [by right|destruct Hs|destruct Hm]; case_decide; naive_solver. }
      done.
  - split; [naive_solver|]. intros _.
    assert (on_start [r; n] n st = Ok st) as ->.
    { unfold on_start. change (Z.of_nat (length [r; n])) with 2. cbn [Z.eqb Pos.eqb andb].
      by rewrite bool_decide_eq_false_2. }
    cbn [mbind res_bind]. rewrite work_foreign by done. cbn [mbind res_bind].
    assert (in_assertion [r; n] = false) as Ha.
    { apply bool_decide_eq_false. cbn. congruence. }
    unfold on_end. rewrite Ha, andb_false_r. done.
Qed.

Lemma fold_res_ok {E S A} (f : S → A → res E S) (P : A → Prop) l :
  (∀ x s, is_ok (f s x) = true ↔ P x) → ∀ s, is_ok (fold_res f l s) = true ↔ Forall P l.
Proof.
  intros Hf. induction l as [|x l IH]; intros s; cbn; [split; auto|].
  rewrite Forall_cons, <- (Hf x s). destruct (f s x) as [s'|]; cbn; [|naive_solver].
  rewrite IH. naive_solver.
Qed.

Lemma Forall_elems P f :
  Forall (λ t, ∀ e, elem_of_tree t = Some e → P e) f ↔ ∀ e, e ∈ elems f → P e.
Proof.
  rewrite Forall_forall. unfold elems. setoid_rewrite list_elem_of_omap. naive_solver.
Qed.

Lemma root_work_Ok st t :
  is_ok (elem_work (work 3) [] st t) = true ↔
  ∀ e, elem_of_tree t = Some e → root_identity_ok e.2.
Proof.
  destruct t as [n a ch|]; [|cbn; naive_solver]. cbn [elem_work app elem_of_tree].
  assert (on_start [n] n st = Ok st) as -> by done. cbn [mbind res_bind].
  rewrite work_S. trans (is_ok (fold_res (elem_work (work 2) [n]) ch st) = true).
  { by destruct (fold_res _ ch st). }
  rewrite (fold_res_ok _ _ _ (λ t st, child_work_Ok n st t)).
  rewrite (Forall_elems (λ e, e.1.1 = assertion_name → assertion_identity_ok e.2)).
  unfold root_identity_ok. naive_solver.
Qed.

Lemma identity_shape_accepts f :
  validatePlaintextIdentityShape (TokenStream (flatten_forest f) EOF) = Ok tt ↔
  forest_identity_ok f.
Proof.
  unfold validatePlaintextIdentityShape. cbn [tokens ended].
  rewrite <- (app_nil_r (flatten_forest f)), (loop_work 4) by done. rewrite work_S.
  trans (is_ok (fold_res (elem_work (work 3) []) f (Counters 0 0 0)) = true).
  { by destruct (fold_res _ f _). }
  rewrite (fold_res_ok _ _ _ (λ t st, root_work_Ok st t)). apply Forall_elems.
Qed.

Lemma count_named_Err local e c n e' : count_named local e c n = Err e' → e' = e.
Proof. unfold count_named. repeat case_match; congruence. Qed.

Lemma on_start_no_panic stack n st : on_start stack n st ≠ Err Panics.
Proof.
  unfold on_start, count_issuer, count_subject, count_nameid. intros H.
  destruct (_ || _); [done|].
  apply bind_Err in H as [H|(? & _ & H)]; [destruct (_ =? 3); [|done]|].
  - by apply bind_Err in H as [H%count_named_Err|(? & _ & ?)].
  - apply bind_Err in H as [H|(? & _ & H)]; [destruct (_ =? 3); [|done]|].
    + by apply bind_Err in H as [H%count_named_Err|(? & _ & ?)].
    + destruct (_ && _); [|done].
      by apply bind_Err in H as [H%count_named_Err|(? & _ & ?)].
Qed.

Lemma identity_loop_no_panic ts e : ∀ stack st open,
  length stack = length open → is_Some (nest open ts) →
  identity_loop ts e stack st ≠ Err Panics.
Proof.
  induction ts as [|[n a|n|] ts IH]; intros stack st open Hl Hn; cbn [identity_loop nest] in *.
  - by destruct e.
  - destruct (on_start _ n st) as [st1|err] eqn:Hs.
    + eapply IH; [|done]. rewrite length_app. cbn. lia.
    + intros [= ->]. by eapply on_start_no_panic.
  - unfold on_end, check. destruct (negb _); [|done]. cbn [mbind res_bind].
    destruct open as [|m open]; [by destruct Hn|]. destruct stack as [|s stack]; [done|].
    destruct (decide (m = n)); [|by destruct Hn].
    eapply IH; [|done]. rewrite length_take. cbn in *. lia.
  - by eapply IH.
Qed.

Lemma identity_syntax_error s :
  ended s = SyntaxError → validatePlaintextIdentityShape s ≠ Ok tt.
Proof.
  intros He. unfold validatePlaintextIdentityShape. rewrite He. generalize (@nil Name).
  generalize (Counters 0 0 0). induction (tokens s) as [|[n a|n|] ts IH]; intros st stack;
    cbn [identity_loop]; [done| | |apply IH].
  - destruct (on_start _ n st); [apply IH|done].
  - destruct (on_end stack st); [|done]. cbn [mbind res_bind]. destruct stack; [done|apply IH].
Qed.

(** C33 (safety): a response gets through exactly when the decoder reads all of it and, its
    names resolved, each assertion under a root element has one Issuer child, at most one
    Subject child and at most one NameID grandchild under its Subjects, each of them in
    the assertion namespace. Whatever the raw tokens are, the check never slices an empty
    stack. *)
Theorem identity_shape_of_document raw :
  validatePlaintextIdentityShape (decode raw) ≠ Err Panics ∧
  (validatePlaintextIdentityShape (decode raw) = Ok tt ↔
   ∃ f, raw = document f ∧ forest_identity_ok (resolve ∅ <$> f)).
Proof.
  split.
  { destruct (decode_stream_ok raw) as (stack & Hn & _).
    by eapply (identity_loop_no_panic _ _ [] _ []); [|eauto]. }
  split.
  - intros Hv. destruct (ended (decode raw)) eqn:He; [|by apply identity_syntax_error in He].
    destruct (proj1 (decode_EOF raw _) (conj eq_refl He)) as (f & Hf & Hd). exists f. split; [done|].
    rewrite Hd in Hv. by apply identity_shape_accepts in Hv.
  - intros (f & -> & Hok). rewrite decode_forest. by apply identity_shape_accepts.
Qed.
