(* ===== verification/SamlAssertion.v ===== *)
(** * SamlAssertion

    [saml/assertion.go]: the neutral view of a validated assertion. crewjam's
    [Assertion] is the record [crewjam_Assertion] of the fields this package reads. *)

From S2P Require Import Prelude GoRuntime GoStrings.
Local Open Scope Z_scope.

(** ** crewjam's assertion *)

Record crewjam_NameID : Type := CrewjamNameID {
  nid_Value : string; nid_Format : string;
  nid_NameQualifier : string; nid_SPNameQualifier : string; nid_SPProvidedID : string;
}.

(** The [NotOnOrAfter] of each confirmation's data, where it has data. *)
Record crewjam_Subject : Type := CrewjamSubject {
  cs_NameID : option crewjam_NameID;
  cs_SubjectConfirmations : list (option Time);
}.

Record crewjam_Conditions : Type := CrewjamConditions {
  cc_NotBefore : Time; cc_NotOnOrAfter : Time;
}.

Record crewjam_Attribute : Type := CrewjamAttribute {
  attr_Name : string; attr_FriendlyName : string; attr_Values : list string;
}.

Record crewjam_Assertion : Type := CrewjamAssertion {
  ca_ID : string;
  ca_IssueInstant : Time;
  ca_Issuer : string;
  ca_Subject : option crewjam_Subject;
  ca_Conditions : option crewjam_Conditions;
  ca_AuthnStatements : list string;  (* their SessionIndex *)
  ca_AttributeStatements : list (list crewjam_Attribute);
}.

(** ** Assertion *)

Record Assertion : Type := MkAssertion {
  ID : string;
  IssueInstant : Time;
  Issuer : string;
  NameID : string;
  NameIDFormat : string;
  NameQualifier : string;
  SPNameQualifier : string;
  SPProvidedID : string;
  SessionIndex : string;
  NotBefore : Time;
  NotOnOrAfter : Time;
  Attributes : gmap string (list string);
  AttributesByName : gmap string (list string);
}.

(** [None] is the nil receiver. *)
Definition Attribute (a : option Assertion) (name : string) : string :=
  match a with
  | None => ""
  | Some a =>
      match Attributes a !! name with
      | Some (v :: _) => v
      | _ => ""
      end
  end.

Definition IsTransient (a : option Assertion) : bool :=
  match a with
  | None => false
  | Some a => Contains (NameIDFormat a) "transient"
  end.

Fixpoint dedupe_loop (seen : gset string) (keys : list string) : list string :=
  match keys with
  | [] => []
  | k :: keys =>
      if bool_decide (k = ""%string) || bool_decide (k ∈ seen) then dedupe_loop seen keys
      else k :: dedupe_loop ({[k]} ∪ seen) keys
  end.
Definition dedupeKeys (keys : list string) : list string := dedupe_loop ∅ keys.

(** [m[key] = append(m[key], vals...)] *)
Definition append_at (m : gmap string (list string)) (key : string) (vals : list string)
    : gmap string (list string) :=
  <[key := default [] (m !! key) ++ vals]> m.

Inductive attribute_error : Type := ErrDuplicateAttribute.

Record index_state : Type := IndexState {
  by_key : gmap string (list string);
  by_name : gmap string (list string);
  seen_keys : gset string;
}.

(** The body of the loop over [keys]. *)
Definition index_key (strictAttributes : bool) (vals : list string) (st : index_state)
    (key : string) : res attribute_error index_state :=
  if strictAttributes && bool_decide (key ∈ seen_keys st) then Err ErrDuplicateAttribute
  else Ok (IndexState (append_at (by_key st) key vals) (by_name st)
             (if strictAttributes then {[key]} ∪ seen_keys st else seen_keys st)).

(** The body of the loop over a statement's attributes. *)
Definition index_attribute (strictAttributes : bool) (st : index_state)
    (attr : crewjam_Attribute) : res attribute_error index_state :=
  let vals := attr_Values attr in
  let st := if bool_decide (attr_Name attr ≠ ""%string)
            then IndexState (by_key st) (append_at (by_name st) (attr_Name attr) vals)
                            (seen_keys st)
            else st in
  fold_res (index_key strictAttributes vals)
           (dedupeKeys [attr_Name attr; attr_FriendlyName attr]) st.

Fixpoint first_session (l : list string) : string :=
  match l with
  | [] => ""
  | s :: l => if bool_decide (s ≠ ""%string) then s else first_session l
  end.

Definition assertionFromCrewjam (a : crewjam_Assertion) (strictAttributes : bool)
    : res attribute_error Assertion :=
  let nid : option crewjam_NameID := ca_Subject a ≫= cs_NameID in
  st ← fold_res (λ st attrs, fold_res (index_attribute strictAttributes) attrs st)
                (ca_AttributeStatements a) (IndexState ∅ ∅ ∅);
  Ok {| ID := ca_ID a;
        IssueInstant := ca_IssueInstant a;
        Issuer := ca_Issuer a;
        NameID := from_option nid_Value ""%string nid;
        NameIDFormat := from_option nid_Format ""%string nid;
        NameQualifier := from_option nid_NameQualifier ""%string nid;
        SPNameQualifier := from_option nid_SPNameQualifier ""%string nid;
        SPProvidedID := from_option nid_SPProvidedID ""%string nid;
        SessionIndex := first_session (ca_AuthnStatements a);
        NotBefore := from_option cc_NotBefore zero_time (ca_Conditions a);
        NotOnOrAfter := from_option cc_NotOnOrAfter zero_time (ca_Conditions a);
        Attributes := by_key st;
        AttributesByName := by_name st |}.

(** ** Specification *)

(** The names an attribute is indexed under in each map. *)
Definition attr_keys (attr : crewjam_Attribute) : list string :=
  filter (.≠ ""%string)
    (if decide (attr_Name attr = attr_FriendlyName attr) then [attr_Name attr]
     else [attr_Name attr; attr_FriendlyName attr]).
Definition attr_names (attr : crewjam_Attribute) : list string :=
  filter (.≠ ""%string) [attr_Name attr].

(** The values under one key: those of every attribute that has the key, in document
    order; no entry when none has it. *)
Definition values_under (keys : crewjam_Attribute → list string)
    (attrs : list crewjam_Attribute) (k : string) : option (list string) :=
  match filter (λ a, k ∈ keys a) attrs with
  | [] => None
  | l => Some (l ≫= attr_Values)
  end.

Definition all_attributes (a : crewjam_Assertion) : list crewjam_Attribute :=
  concat (ca_AttributeStatements a).
Definition all_keys (attrs : list crewjam_Attribute) : list string := attrs ≫= attr_keys.

(** ** Proofs *)

Lemma dedupeKeys_two attr :
  dedupeKeys [attr_Name attr; attr_FriendlyName attr] = attr_keys attr.
Proof.
  unfold dedupeKeys, attr_keys. destruct attr as [n f vs]; cbn [attr_Name attr_FriendlyName].
  cbn [dedupe_loop]. rewrite (bool_decide_eq_false_2 (n ∈ ∅)) by set_solver.
  rewrite orb_false_r. repeat (case_bool_decide || case_decide); cbn [orb];
    subst; cbn; repeat case_decide; try congruence; try set_solver.
Qed.

Lemma attr_keys_NoDup attr : NoDup (attr_keys attr).
Proof.
  unfold attr_keys. apply NoDup_filter. case_decide; [apply NoDup_singleton|].
  apply NoDup_cons. split; [|apply NoDup_singleton]. by rewrite list_elem_of_singleton.
Qed.

Lemma fold_res_concat {E S A} (f : S → A → res E S) ls : ∀ s,
  fold_res (λ s l, fold_res f l s) ls s = fold_res f (concat ls) s.
Proof. induction ls as [|l ls IH]; intros s; cbn; [done|]. rewrite fold_res_app.
  destruct (fold_res f l s); cbn; auto. Qed.

(** What the map of [values_under] becomes with one more attribute at the end. *)
Lemma values_under_snoc keys attrs a k :
  values_under keys (attrs ++ [a]) k =
  if decide (k ∈ keys a) then Some (default [] (values_under keys attrs k) ++ attr_Values a)
  else values_under keys attrs k.
Proof.
  unfold values_under. rewrite filter_app, filter_cons, filter_nil.
  case_decide; [|by rewrite app_nil_r].
  destruct (filter _ attrs) as [|b l]; cbn [app]; [cbn; by rewrite app_nil_r|].
  cbn [default from_option]. rewrite app_comm_cons, bind_app. cbn. by rewrite app_nil_r.
Qed.

(** One attribute's loop over its keys. *)
Lemma index_keys strict vals ks : ∀ st,
  NoDup ks →
  match fold_res (index_key strict vals) ks st with
  | Err _ => strict = true ∧ ∃ k, k ∈ ks ∧ k ∈ seen_keys st
  | Ok st' =>
      (strict = true → (∀ k, k ∈ ks → k ∉ seen_keys st) ∧
                       seen_keys st' = list_to_set ks ∪ seen_keys st) ∧
      (strict = false → seen_keys st' = seen_keys st) ∧
      by_name st' = by_name st ∧
      ∀ k, by_key st' !! k =
           if decide (k ∈ ks) then Some (default [] (by_key st !! k) ++ vals)
           else by_key st !! k
  end.
Proof.
  induction ks as [|k ks IH]; intros st Hnd; cbn [fold_res].
  { split_and!; [|done..|]; [intros _; split; [set_solver|cbn; set_solver]|].
    intros k. by rewrite decide_False by apply not_elem_of_nil. }
  apply NoDup_cons in Hnd as [Hk Hnd]. unfold index_key at 2.
  destruct strict; cbn [andb].
  - case_bool_decide as Hs; cbn [mbind res_bind]; [set_solver|].
    match goal with |- context [fold_res _ ks ?s] => specialize (IH s Hnd) end.
    destruct (fold_res _ ks _) as [st'|]; cbn [seen_keys by_key by_name] in IH.
    + destruct IH as (Hst & _ & Hn & Hm). destruct (Hst eq_refl) as [Hd Hseen].
      split_and!; [|done|done|].
      * intros _. split; [set_solver|]. rewrite Hseen. set_solver.
      * intros j. rewrite Hm. unfold append_at.
        destruct (decide (j = k)) as [->|Hj].
        -- rewrite decide_False by done. by rewrite lookup_insert_eq, decide_True by (by left).
        -- rewrite lookup_insert_ne by done. repeat case_decide; set_solver.
    + destruct IH as (_ & j & Hj & Hj'). split; [done|]. exists j. set_solver.
  - cbn [mbind res_bind].
    match goal with |- context [fold_res _ ks ?s] => specialize (IH s Hnd) end.
    destruct (fold_res _ ks _) as [st'|]; cbn [seen_keys by_key by_name] in IH; [|naive_solver].
    destruct IH as (_ & Hseen & Hn & Hm). split_and!; [done|by auto|done|].
    intros j. rewrite Hm. unfold append_at. destruct (decide (j = k)) as [->|Hj].
    + rewrite decide_False by done. by rewrite lookup_insert_eq, decide_True by (by left).
    + rewrite lookup_insert_ne by done. repeat case_decide; set_solver.
Qed.

(** The state after the attributes [done]. *)
Definition indexed (strict : bool) (done : list crewjam_Attribute) (st : index_state) : Prop :=
  (∀ k, by_key st !! k = values_under attr_keys done k) ∧
  (∀ k, by_name st !! k = values_under attr_names done k) ∧
  (strict = true → NoDup (all_keys done) ∧ seen_keys st = list_to_set (all_keys done)).

Lemma attr_names_elem k attr : k ∈ attr_names attr ↔ attr_Name attr ≠ ""%string ∧ k = attr_Name attr.
Proof.
  unfold attr_names. rewrite list_elem_of_filter, list_elem_of_singleton. naive_solver.
Qed.

Lemma index_attribute_step strict attrs st a :
  indexed strict attrs st →
  match index_attribute strict st a with
  | Err _ => strict = true ∧ ¬ NoDup (all_keys (attrs ++ [a]))
  | Ok st' => indexed strict (attrs ++ [a]) st'
  end.
Proof.
  intros (Hkey & Hname & Hstrict). unfold index_attribute. rewrite dedupeKeys_two.
  set (st1 := if bool_decide _ then _ else st).
  assert (by_key st1 = by_key st ∧ seen_keys st1 = seen_keys st) as [Hk1 Hs1]
    by (unfold st1; by case_bool_decide).
  assert (∀ k, by_name st1 !! k = values_under attr_names (attrs ++ [a]) k) as Hn1.
  { intros k. rewrite values_under_snoc. unfold st1. case_bool_decide as Hne; cbn [by_name].
    - unfold append_at. destruct (decide (k = attr_Name a)) as [->|Hk].
      + rewrite lookup_insert_eq, decide_True by (by apply attr_names_elem). by rewrite Hname.
      + rewrite lookup_insert_ne by done. rewrite decide_False, Hname; [done|].
        rewrite attr_names_elem. naive_solver.
    - rewrite decide_False, Hname; [done|]. rewrite attr_names_elem. naive_solver. }
  assert (all_keys (attrs ++ [a]) = all_keys attrs ++ attr_keys a) as Hall.
  { unfold all_keys. rewrite bind_app. cbn. by rewrite app_nil_r. }
  pose proof (index_keys strict (attr_Values a) (attr_keys a) st1 (attr_keys_NoDup a)) as H.
  destruct (fold_res _ _ _) as [st'|].
  - destruct H as (Hst & _ & Hn & Hm). unfold indexed. rewrite Hn. split_and!; [|done|].
    + intros k. rewrite Hm, Hk1, values_under_snoc. by rewrite !Hkey.
    + intros Hs. destruct (Hst Hs) as [Hd Hseen]. destruct (Hstrict Hs) as [Hnd Hset].
      rewrite Hall, Hseen, Hs1, Hset. split; [|by rewrite list_to_set_app_L; set_solver].
      apply NoDup_app. split_and!; [done| |apply attr_keys_NoDup].
      intros k Hk Hk'. apply (Hd k Hk'). rewrite Hs1, Hset. by apply elem_of_list_to_set.
  - destruct H as (-> & k & Hk & Hk'). split; [done|]. destruct (Hstrict eq_refl) as [Hnd Hset].
    rewrite Hall. intros (_ & Hd & _)%NoDup_app. apply (Hd k); [|done].
    rewrite Hs1, Hset in Hk'. by apply elem_of_list_to_set in Hk'.
Qed.

Lemma index_all strict attrs2 : ∀ attrs st,
  indexed strict attrs st →
  match fold_res (index_attribute strict) attrs2 st with
  | Err _ => strict = true ∧ ¬ NoDup (all_keys (attrs ++ attrs2))
  | Ok st' => indexed strict (attrs ++ attrs2) st'
  end.
Proof.
  induction attrs2 as [|a attrs2 IH]; intros attrs st Hi; cbn [fold_res].
  { by rewrite app_nil_r. }
  pose proof (index_attribute_step strict attrs st a Hi) as H.
  destruct (index_attribute strict st a) as [st'|]; cbn [mbind res_bind].
  - specialize (IH (attrs ++ [a]) st' H). by rewrite <- app_assoc in IH.
  - destruct H as [-> Hn]. split; [done|]. intros Hnd. apply Hn.
    rewrite cons_middle, app_assoc in Hnd. unfold all_keys in Hnd at 1.
    rewrite bind_app in Hnd. by apply NoDup_app in Hnd as (Hnd & _).
Qed.

Lemma assertionFromCrewjam_fails a e :
  assertionFromCrewjam a true = Err e → ¬ NoDup (all_keys (all_attributes a)).
Proof.
  unfold assertionFromCrewjam. rewrite fold_res_concat.
  pose proof (index_all true (all_attributes a) [] (IndexState ∅ ∅ ∅)) as H.
  unfold all_attributes in H |- *. destruct (fold_res _ _ _); [done|]. intros _.
  apply H. split_and!; [done..|]. intros _. split; [constructor|done].
Qed.

(** C35 (functional): the conversion is refused exactly when [StrictAttributes] is set
    and two Attribute elements share a Name or FriendlyName; otherwise, under every key,
    [Attributes] has the values of all the elements with that Name or FriendlyName and
    [AttributesByName] those of the elements with that Name, each element once and in
    document order, and nothing is indexed under the empty string. *)
Theorem attributes_indexed a strictAttributes :
  match assertionFromCrewjam a strictAttributes with
  | Err _ => strictAttributes = true ∧ ¬ NoDup (all_keys (all_attributes a))
  | Ok out =>
      (strictAttributes = true → NoDup (all_keys (all_attributes a))) ∧
      (∀ k, Attributes out !! k = values_under attr_keys (all_attributes a) k) ∧
      (∀ k, AttributesByName out !! k = values_under attr_names (all_attributes a) k) ∧
      Attributes out !! ""%string = None ∧ AttributesByName out !! ""%string = None
  end.
Proof.
  unfold assertionFromCrewjam. rewrite fold_res_concat.
  pose proof (index_all strictAttributes (all_attributes a) [] (IndexState ∅ ∅ ∅)) as H.
  unfold all_attributes in H |- *.
  assert (∀ keys attrs, (∀ b, ""%string ∉ keys b) → values_under keys attrs "" = None) as He.
  { intros keys attrs Hk. unfold values_under. destruct (filter _ attrs) as [|b l] eqn:Hf; [done|].
    assert (b ∈ filter (λ a, ""%string ∈ keys a) attrs) as Hb by (rewrite Hf; by left).
    apply list_elem_of_filter in Hb as [Hb _]. by apply Hk in Hb. }
  destruct (fold_res _ _ _) as [st|]; cbn [mbind res_bind Attributes AttributesByName].
  - destruct H as (Hk & Hn & Hs).
    { split_and!; [done..|]. intros _. split; [constructor|done]. }
    split_and!; [naive_solver|done|done| |].
    + rewrite Hk. apply He. intros b Hb. apply list_elem_of_filter in Hb as [Hb _]. done.
    + rewrite Hn. apply He. intros b Hb. apply list_elem_of_filter in Hb as [Hb _]. done.
  - apply H. split_and!; [done..|]. intros _. split; [constructor|done].
Qed.

(** [Attribute] gives the first of the values, under a Name or a FriendlyName. *)
Lemma Attribute_first a out name :
  assertionFromCrewjam a false = Ok out →
  Attribute (Some out) name =
  default ""%string (head (default [] (values_under attr_keys (all_attributes a) name))).
Proof.
  intros Ho. pose proof (index_all false (all_attributes a) [] (IndexState ∅ ∅ ∅)) as H.
  unfold assertionFromCrewjam in Ho. rewrite fold_res_concat in Ho.
  unfold all_attributes in H |- *. destruct (fold_res _ _ _) as [st|]; [|done].
  injection Ho as <-. destruct H as (Hk & _); [by split_and!|].
  cbn [Attribute Attributes]. rewrite Hk. by destruct (values_under _ _ _) as [[]|].
Qed.
