(* ===== verification/SamlConfig.v ===== *)
(** * SamlConfig

    [saml/provider.go] and the signing policy of [saml/authn_request.go]: [Config] with
    its defaults, [authnSigningMethod], [New] and the accessors of [Provider]. crewjam's
    metadata and [crypto/x509]'s certificate functions are the fields of the classes
    [Metadata] and [X509]. *)

From S2P Require Import Prelude GoRuntime GoStrings GoUrl SamlRawXml SamlReplay.
Local Open Scope Z_scope.

Definition error : Type := string.

(** ** Keys *)

(** The fields of [*rsa.PrivateKey] and [*ecdsa.PrivateKey] the code looks at; a nil
    [*big.Int] is [None]. *)
Record rsa_PrivateKey : Type := RsaPrivateKey {
  rsa_N : option Z; rsa_D : option Z; rsa_E : Z; rsa_Primes : list Z;
}.
Record Curve : Type := MkCurve {
  Params_BitSize : Z; Params_N : Z; IsOnCurve : Z → Z → bool;
}.
Record ecdsa_PrivateKey : Type := EcdsaPrivateKey {
  ec_Curve : option Curve; ec_D : option Z; ec_X : option Z; ec_Y : option Z;
}.

(** A [crypto.Signer] by its dynamic type; a typed nil pointer is [None]. *)
Inductive Signer : Type :=
| RsaKey (key : option rsa_PrivateKey)
| EcdsaKey (key : option ecdsa_PrivateKey)
| OtherSigner (name : string).

Class X509 : Type := {
  PublicKey : Type;
  Public : Signer → PublicKey;
  rsa_Validate : rsa_PrivateKey → bool;       (* key.Validate() == nil *)
  ParseCertificate : string → option PublicKey;  (* the PublicKey of the certificate *)
  MarshalPKIXPublicKey : PublicKey → option string;
}.

Class Metadata : Type := {
  EntityDescriptor : Type;
  (** [WantAuthnRequestsSigned] of each of its IDPSSODescriptors. *)
  WantAuthnRequestsSigned : EntityDescriptor → list (option bool);
  UnspecifiedNameIDFormat : string;
  MaxClockSkew : Duration;
}.

(** ** Config *)

Definition DefaultMaxResponseBytes : Z := Z.shiftl 1 20.
Definition DefaultMaxInflatedBytes : Z := Z.shiftl 1 20.
Definition DefaultReplayExpiryMargin : Duration := Minute.

Section config.
Context {M : Metadata} {D : Dsig} {X : X509}.
(** The values of type [ReplayCache] other than [*MemoryReplayCache]. *)
Context {St : Type}.

(** [Clock] is the reading of the caller's clock at each instant. *)
Record Config : Type := MkConfig {
  EntityID : string;
  ACSURL : string;
  Key : option Signer;
  Certificate : option string;       (* Certificate.Raw *)
  SignAuthnRequests : bool;
  IDPMetadata : option EntityDescriptor;
  AllowIDPInitiated : bool;
  NameIDFormat : string;
  c_ReplayCache : option (MemoryReplayCache + St);
  ReplayExpiryMargin : Duration;
  MaxResponseBytes : Z;
  MaxInflatedBytes : Z;
  RequireDestination : option bool;
  RejectWeakSignatures : option bool;
  AllowEncryptedAssertions : bool;
  StrictAttributes : bool;
  Clock : option (Time → Time);
}.

(** [now] at an instant; [time.Now] is right. *)
Definition now (c : Config) (instant : Time) : Time :=
  match Clock c with Some clock => clock instant | None => instant end.

Definition maxResponseBytes (c : Config) : Z :=
  if Z.ltb 0 (MaxResponseBytes c) then MaxResponseBytes c else DefaultMaxResponseBytes.
Definition maxInflatedBytes (c : Config) : Z :=
  if Z.ltb 0 (MaxInflatedBytes c) then MaxInflatedBytes c else DefaultMaxInflatedBytes.
Definition replayExpiryMargin (c : Config) : Duration :=
  if Z.ltb 0 (ReplayExpiryMargin c) then ReplayExpiryMargin c else DefaultReplayExpiryMargin.
Definition requireDestination (c : Config) : bool := default true (RequireDestination c).
Definition rejectWeakSignatures (c : Config) : bool := default true (RejectWeakSignatures c).

(** [Bool] *)
Definition Bool (b : bool) : option bool := Some b.

Lemma maxResponseBytes_pos c : 0 < maxResponseBytes c.
Proof. unfold maxResponseBytes. by destruct (Z.ltb_spec 0 (MaxResponseBytes c)). Qed.

Lemma maxInflatedBytes_pos c : 0 < maxInflatedBytes c.
Proof. unfold maxInflatedBytes. by destruct (Z.ltb_spec 0 (MaxInflatedBytes c)). Qed.

Lemma replayExpiryMargin_pos c : 0 < replayExpiryMargin c.
Proof. unfold replayExpiryMargin. by destruct (Z.ltb_spec 0 (ReplayExpiryMargin c)). Qed.

(** ** Signing policy *)

Inductive config_error : Type :=
| EntityIDRequired
| ACSURLRequired
| IDPMetadataRequired
| ParseACSURL
| KeyCertificateTogether
| InvalidSigningKey.

Definition rsa_key_ok (key : option rsa_PrivateKey) : bool :=
  match key with
  | None => false
  | Some key =>
      match rsa_N key, rsa_D key with
      | Some n, Some _ =>
          negb ((rsa_E key <? 3) || (Z.of_nat (length (rsa_Primes key)) <? 2)
                || (BitLen n <? 2048) || negb (rsa_Validate key))
      | _, _ => false
      end
  end.

Definition ecdsa_key_ok (key : option ecdsa_PrivateKey) : bool :=
  match key with
  | None => false
  | Some key =>
      match ec_Curve key, ec_D key, ec_X key, ec_Y key with
      | Some curve, Some d, Some x, Some y =>
          negb ((Params_BitSize curve <? 256) || (Z.sgn d <=? 0)
                || (Params_N curve <=? d) || negb (IsOnCurve curve x y))
      | _, _, _, _ => false
      end
  end.

(** [required], after the loop over the descriptors. *)
Definition signing_required (c : Config) (md : EntityDescriptor) : bool :=
  fold_left (λ required want, required || default false want)
            (WantAuthnRequestsSigned md) (SignAuthnRequests c).

Definition authnSigningMethod (c : Config) (md : EntityDescriptor) : res config_error string :=
  if negb (signing_required c md) then Ok ""%string
  else
    match Key c, Certificate c with
    | Some key, Some raw =>
        method ← (match key with
                  | RsaKey k =>
                      if rsa_key_ok k then Ok RSASHA256SignatureMethod else Err InvalidSigningKey
                  | EcdsaKey k =>
                      if ecdsa_key_ok k then Ok ECDSASHA256SignatureMethod
                      else Err InvalidSigningKey
                  | OtherSigner _ => Err InvalidSigningKey
                  end);
        certificate ← of_option (ParseCertificate raw) InvalidSigningKey;
        keyPublic ← of_option (MarshalPKIXPublicKey (Public key)) InvalidSigningKey;
        certPublic ← of_option (MarshalPKIXPublicKey certificate) InvalidSigningKey;
        _ ← check (bool_decide (keyPublic = certPublic)) InvalidSigningKey;
        Ok method
    | _, _ => Err InvalidSigningKey
    end.

(** ** Provider *)

(** The fields [New] sets of crewjam's [ServiceProvider]. *)
Record ServiceProvider : Type := MkServiceProvider {
  sp_EntityID : string;
  sp_AcsURL : URL;
  sp_Key : option Signer;
  sp_Certificate : option string;
  sp_IDPMetadata : option EntityDescriptor;
  sp_AllowIDPInitiated : bool;
  sp_AuthnNameIDFormat : string;
  sp_SignatureMethod : string;
}.

(** The cache is the state threaded beside the provider. *)
Record Provider : Type := MkProvider { cfg : Config; sp : option ServiceProvider }.

Definition New (cfg : Config) : res config_error (Provider * (MemoryReplayCache + St)) :=
  _ ← check (bool_decide (EntityID cfg ≠ ""%string)) EntityIDRequired;
  _ ← check (bool_decide (ACSURL cfg ≠ ""%string)) ACSURLRequired;
  md ← of_option (IDPMetadata cfg) IDPMetadataRequired;
  acsURL ← of_option (url_Parse (ACSURL cfg)) ParseACSURL;
  _ ← check (eqb (bool_decide (Key cfg = None)) (bool_decide (Certificate cfg = None)))
            KeyCertificateTogether;
  signatureMethod ← authnSigningMethod cfg md;
  let nameIDFormat := if bool_decide (NameIDFormat cfg = ""%string)
                      then UnspecifiedNameIDFormat else NameIDFormat cfg in
  let sp := {| sp_EntityID := EntityID cfg; sp_AcsURL := acsURL; sp_Key := Key cfg;
               sp_Certificate := Certificate cfg; sp_IDPMetadata := IDPMetadata cfg;
               sp_AllowIDPInitiated := AllowIDPInitiated cfg;
               sp_AuthnNameIDFormat := nameIDFormat;
               sp_SignatureMethod := signatureMethod |} in
  let cache := default (inl (NewMemoryReplayCache DefaultReplayCacheCapacity))
                       (c_ReplayCache cfg) in
  Ok (MkProvider cfg (Some sp), cache).

Definition Provider_EntityID (p : Provider) : string := EntityID (cfg p).
Definition Provider_ACSURL (p : Provider) : string := ACSURL (cfg p).

(** [Provider.Metadata]: crewjam's [ServiceProvider.Metadata]; [None] is the panic on a nil
    service provider. [MetadataXML] marshals it with two spaces of indentation. *)
Definition Provider_Metadata {Meta} (sp_Metadata : ServiceProvider → Meta) (p : Provider) : option Meta :=
  sp_Metadata <$> sp p.
Definition MetadataXML {Meta} (sp_Metadata : ServiceProvider → Meta)
    (xml_MarshalIndent : Meta → string → string → res error string) (p : Provider)
    : option (res error string) :=
  (λ m, xml_MarshalIndent m "" "  ") <$> Provider_Metadata sp_Metadata p.

(** ** Properties *)

(** A strong RSA key: complete and consistent, of at least two primes, with an
    exponent from 3 on and a modulus of at least 2048 bits. *)
Definition strong_rsa (key : option rsa_PrivateKey) : Prop :=
  ∃ k n d, key = Some k ∧ rsa_N k = Some n ∧ rsa_D k = Some d ∧ 2 ^ 2047 ≤ Z.abs n ∧
    3 ≤ rsa_E k ∧ (2 ≤ length (rsa_Primes k))%nat ∧ rsa_Validate k = true.

(** A strong ECDSA key: a curve of at least 256 bits, a secret between 0 and the curve's
    order, a public point on the curve. *)
Definition strong_ecdsa (key : option ecdsa_PrivateKey) : Prop :=
  ∃ k curve d x y, key = Some k ∧ ec_Curve k = Some curve ∧ ec_D k = Some d ∧
    ec_X k = Some x ∧ ec_Y k = Some y ∧ 256 ≤ Params_BitSize curve ∧
    0 < d < Params_N curve ∧ IsOnCurve curve x y = true.

Lemma rsa_key_ok_iff key : rsa_key_ok key = true ↔ strong_rsa key.
Proof.
  unfold rsa_key_ok, strong_rsa. destruct key as [k|]; [|split; [done|naive_solver]].
  destruct (rsa_N k) as [n|] eqn:Hn; [|split; [done|naive_solver]].
  destruct (rsa_D k) as [d|] eqn:Hd; [|split; [done|naive_solver]].
  rewrite negb_true_iff, !orb_false_iff, !Z.ltb_ge, negb_false_iff, (BitLen_at_least n 2048) by lia.
  change (2048 - 1) with 2047. split.
  - intros [[[? ?] ?] ?]. exists k, n, d. split_and!; [done..|lia|done].
  - intros (? & ? & ? & [= <-] & ? & ? & ? & ? & ? & ?). simplify_eq. split_and!; [lia..|done].
Qed.

Lemma ecdsa_key_ok_iff key : ecdsa_key_ok key = true ↔ strong_ecdsa key.
Proof.
  unfold ecdsa_key_ok, strong_ecdsa. destruct key as [k|]; [|split; [done|naive_solver]].
  destruct (ec_Curve k) as [curve|] eqn:Hc; [|split; [done|naive_solver]].
  destruct (ec_D k) as [d|] eqn:Hd; [|split; [done|naive_solver]].
  destruct (ec_X k) as [x|] eqn:Hx; [|split; [done|naive_solver]].
  destruct (ec_Y k) as [y|] eqn:Hy; [|split; [done|naive_solver]].
  rewrite negb_true_iff, !orb_false_iff, Z.ltb_ge, !Z.leb_gt, negb_false_iff.
  assert (0 < Z.sgn d ↔ 0 < d) as -> by (destruct (Z.sgn_spec d); lia). split.
  - intros [[[? ?] ?] ?]. exists k, curve, d, x, y. by split_and!.
  - intros (? & ? & ? & ? & ? & [= <-] & ? & ? & ? & ? & ? & [? ?] & ?). simplify_eq. by split_and!.
Qed.

(** A key that signs: one of the two kinds, strong enough, the one of the certificate. *)
Definition signing_key_ok (key : Signer) (raw : string) (method : string) : Prop :=
  ((∃ k, key = RsaKey k ∧ strong_rsa k ∧ method = RSASHA256SignatureMethod) ∨
   (∃ k, key = EcdsaKey k ∧ strong_ecdsa k ∧ method = ECDSASHA256SignatureMethod)) ∧
  ∃ certificate public, ParseCertificate raw = Some certificate ∧
    MarshalPKIXPublicKey certificate = Some public ∧
    MarshalPKIXPublicKey (Public key) = Some public.

Lemma signing_required_iff c md :
  signing_required c md = true ↔
  SignAuthnRequests c = true ∨ Some true ∈ WantAuthnRequestsSigned md.
Proof.
  unfold signing_required. generalize (SignAuthnRequests c).
  induction (WantAuthnRequestsSigned md) as [|w ws IH]; intros b; cbn [fold_left].
  - split; [by left|]. by intros [?|?%elem_of_nil].
  - rewrite IH, elem_of_cons, orb_true_iff. destruct w as [[]|]; cbn; naive_solver.
Qed.

Lemma authnSigningMethod_Ok c md method :
  authnSigningMethod c md = Ok method ↔
  if signing_required c md
  then ∃ key raw, Key c = Some key ∧ Certificate c = Some raw ∧ signing_key_ok key raw method
  else method = ""%string.
Proof.
  unfold authnSigningMethod, signing_key_ok.
  destruct (signing_required c md); cbn [negb]; [|naive_solver].
  destruct (Key c) as [key|]; [|naive_solver].
  destruct (Certificate c) as [raw|]; [|naive_solver]. split.
  - intros H. res_inv. bool_simp. exists key, raw. split_and!; [done..| |naive_solver].
    destruct key as [k|k|]; repeat case_match; simplify_eq; [left|right]; exists k.
    + by rewrite <- rsa_key_ok_iff.
    + by rewrite <- ecdsa_key_ok_iff.
  - intros (? & ? & [= <-] & [= <-] & Hm & cert & pub & -> & Hcert & Hkey).
    destruct Hm as [(k & -> & ->%rsa_key_ok_iff & ->)|(k & -> & ->%ecdsa_key_ok_iff & ->)];
      cbn [of_option mbind res_bind];
      rewrite Hcert, Hkey; cbn [of_option mbind res_bind];
      by rewrite bool_decide_eq_true_2.
Qed.

(** C38 (functional): [New] succeeds exactly on a complete configuration: identity, ACS
    URL and metadata given, the URL parses, key and certificate given together, and, when
    the caller or the metadata wants signed requests, a key that is the one of the
    certificate and strong: RSA with a modulus of at least 2048 bits, an exponent from 3 on
    and at least two primes, valid by [Validate], or ECDSA on a curve of at least 256 bits
    with a secret below the order and a point on the curve. The service provider then signs exactly when that is
    wanted, and the replay cache is the caller's, or an empty one of the default
    capacity. *)
Theorem new_provider_iff c p cache :
  New c = Ok (p, cache) ↔
  EntityID c ≠ ""%string ∧ ACSURL c ≠ ""%string ∧
  (Key c = None ↔ Certificate c = None) ∧
  ∃ md acs method,
    IDPMetadata c = Some md ∧ url_Parse (ACSURL c) = Some acs ∧
    (if decide (SignAuthnRequests c = true ∨ Some true ∈ WantAuthnRequestsSigned md)
     then ∃ key raw, Key c = Some key ∧ Certificate c = Some raw ∧
                     signing_key_ok key raw method
     else method = ""%string) ∧
    p = MkProvider c (Some (MkServiceProvider (EntityID c) acs (Key c) (Certificate c)
          (Some md) (AllowIDPInitiated c)
          (if decide (NameIDFormat c = ""%string) then UnspecifiedNameIDFormat
           else NameIDFormat c) method)) ∧
    cache = match c_ReplayCache c with
            | Some cache => cache
            | None => inl (MkMemoryReplayCache DefaultReplayCacheCapacity ∅)
            end.
Proof.
  assert (∀ md method, authnSigningMethod c md = Ok method ↔
    if decide (SignAuthnRequests c = true ∨ Some true ∈ WantAuthnRequestsSigned md)
    then ∃ key raw, Key c = Some key ∧ Certificate c = Some raw ∧ signing_key_ok key raw method
    else method = ""%string) as Hm.
  { intros md method. rewrite authnSigningMethod_Ok. pose proof (signing_required_iff c md).
    destruct (signing_required c md); case_decide; naive_solver. }
  assert (eqb (bool_decide (Key c = None)) (bool_decide (Certificate c = None)) = true ↔
          (Key c = None ↔ Certificate c = None)) as Hkc.
  { repeat case_bool_decide; cbn; naive_solver. }
  unfold New. split.
  - intros H. res_inv. bool_simp.
    match goal with H : eqb _ _ = true |- _ => apply Hkc in H end.
    match goal with H : authnSigningMethod _ _ = _ |- _ => apply Hm in H end.
    split_and!; [done..|]. do 3 eexists. split_and!; [done|done|done| |].
    + repeat f_equal; [done|]. apply if_bool_decide.
    + by destruct (c_ReplayCache c).
  - intros (He & Ha & Hk & md & acs & method & Hmd & Hacs & Hmethod & -> & ->).
    apply Hm in Hmethod. apply Hkc in Hk.
    rewrite (bool_decide_eq_true_2 _ He), (bool_decide_eq_true_2 _ Ha), Hk, Hmd, Hacs.
    cbn [check of_option mbind res_bind].
    rewrite Hmethod. cbn [mbind res_bind].
    destruct (c_ReplayCache c); repeat f_equal; first [done|apply if_bool_decide].
Qed.
End config.
Arguments Config {_} _.
Arguments Provider {_} _.

(** ** Sample parameters, to evaluate the definitions with *)

Definition sample_metadata : Metadata := {|
  EntityDescriptor := list (option bool);
  WantAuthnRequestsSigned := id;
  UnspecifiedNameIDFormat := "unspecified";
  MaxClockSkew := 180 * Second;
|}.

Definition sample_x509 : X509 := {|
  PublicKey := string;
  Public := λ _, "key"%string;
  rsa_Validate := λ _, true;
  ParseCertificate := Some;
  MarshalPKIXPublicKey := Some;
|}.

Definition sample_url : URL := default blank_URL (url_Parse "https://idp").

(** The defaults for everything but the identity, the ACS URL and the metadata. *)
Definition sample_config {St} : Config (M := sample_metadata) St := MkConfig
  (M := sample_metadata) "sp" "https://sp/acs" None None false (Some [None]) false "" None 0 0 0
  None None false false None.
Definition sample_sp : ServiceProvider (M := sample_metadata) := MkServiceProvider
  (M := sample_metadata) "sp" sample_url None None (Some [None]) false "unspecified" "".
