(* ===== verification/SamlInflate.v ===== *)
(** * SamlInflate

    [saml/inflate.go]: DEFLATE decompression under a hard cap, and the messages of the
    redirect binding. *)

From S2P Require Import Prelude GoRuntime GoStrings GoBase64 GoFlate GoDeflate SamlConfig.
Local Open Scope Z_scope.

Inductive inflate_error : Type :=
| InflateFailed (e : flate_error)
| InflatedTooLarge (limit : Z)     (* wraps ErrResponseTooLarge *)
| DecodeBase64.

(** The cap in force. *)
Definition inflate_limit (maxBytes : Z) : Z :=
  if Z.leb maxBytes 0 then DefaultMaxInflatedBytes else maxBytes.

Definition InflateLimited (data : string) (maxBytes : Z) : res inflate_error string :=
  let maxBytes := inflate_limit maxBytes in
  let fr := flate_NewReader data in
  out ← wrap InflateFailed (ReadAll (LimitReader fr (int64 (maxBytes + 1))));
  if Z.ltb maxBytes (len out) then Err (InflatedTooLarge maxBytes) else Ok out.

Definition DecodeRedirectMessage (raw : string) (maxBytes : Z) : res inflate_error string :=
  compressed ← of_option (DecodeString StdEncoding raw) DecodeBase64;
  InflateLimited compressed maxBytes.

Lemma inflate_limit_range maxBytes :
  maxBytes < MaxInt64 → 0 < inflate_limit maxBytes < MaxInt64.
Proof.
  unfold inflate_limit, DefaultMaxInflatedBytes, MaxInt64.
  destruct (Z.leb_spec maxBytes 0); intros; [done|lia].
Qed.

Lemma InflateLimited_Ok data maxBytes out :
  maxBytes < MaxInt64 →
  InflateLimited data maxBytes = Ok out ↔
  r_err (flate_NewReader data) = None ∧ out = r_bytes (flate_NewReader data) ∧
  len out ≤ inflate_limit maxBytes.
Proof.
  intros Hmax.  pose proof (inflate_limit_range maxBytes Hmax) as Hl. unfold InflateLimited.
  set (n := inflate_limit maxBytes) in *. unfold MaxInt64 in Hl.
  rewrite int64_id by lia.
  transitivity (ReadAll (LimitReader (flate_NewReader data) (n + 1)) = Ok out ∧ len out ≤ n).
  - destruct (ReadAll _) as [o|e]; cbn [wrap mbind res_bind]; [|naive_solver].
    destruct (Z.ltb_spec n (len o)); naive_solver lia.
  - unfold len. rewrite ReadAll_limited by lia. naive_solver.
Qed.

(** With the largest int64 as the cap the limit wraps around to a negative number, nothing
    is read, and every input inflates to nothing without an error. *)
Theorem inflate_limit_wraps data : InflateLimited data MaxInt64 = Ok ""%string.
Proof. done. Qed.

(** C37 (bounds): exactly which redirect messages are decoded, and to what. Under any cap
    but the largest int64 they are those that are base64 of a stream that decompresses
    without error to at most the cap, and the result is all of that output; every other
    message fails. With the largest int64 as the cap, the one more byte that the code
    reads for wraps around: every base64 text, of whatever stream, is decoded to nothing. *)
Theorem redirect_message_iff raw maxBytes out (Hmax : maxBytes ≤ MaxInt64) :
  DecodeRedirectMessage raw maxBytes = Ok out ↔
  ∃ compressed, DecodeString StdEncoding raw = Some compressed ∧
    if decide (maxBytes = MaxInt64) then out = ""%string
    else r_err (flate_NewReader compressed) = None ∧
         r_bytes (flate_NewReader compressed) = out ∧ len out ≤ inflate_limit maxBytes.
Proof.
  unfold DecodeRedirectMessage. destruct (DecodeString StdEncoding raw) as [z|]; cbn [of_option mbind res_bind].
  - case_decide as Hm.
    + subst maxBytes. rewrite inflate_limit_wraps. naive_solver.
    + rewrite InflateLimited_Ok by lia. naive_solver.
  - naive_solver.
Qed.

(** ** Witnesses *)

(** A stored block with some bytes after it: three bytes of output. *)
Definition sample_stream : list Z := deflate [Stored (bytes "abc")] ++ [1; 2].
Definition sample_redirect : string := EncodeToString StdEncoding (of_bytes sample_stream).

Lemma redirect_message_iff_witness :
  DecodeRedirectMessage sample_redirect 3 = Ok "abc"%string ∧
  ¬ DecodeRedirectMessage sample_redirect 2 = Ok "abc"%string ∧
  DecodeRedirectMessage sample_redirect MaxInt64 = Ok ""%string.
Proof.
  split_and!.
  - apply (redirect_message_iff sample_redirect 3 "abc"); [vm_compute; congruence|].
    exists (of_bytes sample_stream). split; [vm_compute; reflexivity|].
    rewrite decide_False by done. split_and!; vm_compute; congruence.
  - intros H. apply (redirect_message_iff sample_redirect 2 "abc") in H
      as (? & _ & H); [|vm_compute; congruence]. rewrite decide_False in H by done.
    destruct H as (_ & _ & H). by vm_compute in H.
  - apply (redirect_message_iff sample_redirect MaxInt64 ""); [vm_compute; congruence|].
    exists (of_bytes sample_stream). split; [vm_compute; reflexivity|]. by rewrite decide_True.
Defined.
