(* ===== verification/SamlValidate.v ===== *)
(** * SamlValidate

    [saml/validate.go]: the checks around crewjam's parser, the expiry handed to the
    replay cache, and the three entry points. The XML decoder is that of GoXmlLex and GoXml,
    the posted form that of GoForm; crewjam's [ParseXMLResponse] is a parameter. *)

From S2P Require Import Prelude GoRuntime GoStrings GoUrl GoForm GoBase64 GoFlate GoDeflate SamlReplay GoXml GoXmlLex.
From S2P Require Import SamlXml SamlRawXml.
From S2P Require Import SamlIdentityShape SamlAssertion SamlConfig SamlInflate.
Local Open Scope Z_scope.

Inductive validate_error : Type :=
| ErrNotConfigured
| ErrParseForm (e : form_error)
| ErrNoSAMLResponse
| ErrDecodeBase64
| ErrInflate (e : inflate_error)
| ErrResponseTooLarge (n : Z)
| ErrShape (e : shape_error)
| ErrNoAssertion
| ErrTooManyAssertions
| ErrMissingDestination
| ErrDestinationMismatch (got want : string)
| ErrWeakSignatureAlgorithm (element algorithm : string)
| ErrEncryptedAssertionNotAllowed
| ErrIdentityShape (e : identity_error)
| ErrCrewjam (e : error)
| ErrMissingAssertionID
| ErrAttributes (e : attribute_error)
| ErrReplayCache (e : replay_error)
| ErrReplayed.

(** The instants at which one validation reads a clock and calls the cache: crewjam's
    own time check, [expiryFor], the [now] handed to the cache, and the call itself,
    which runs when the cache's lock is free. *)
Record instants : Type := Instants {
  at_parse : Time; at_expiry : Time; at_now : Time; at_call : Time;
}.

(** Either cache of a [Provider]. *)
#[export] Instance sum_ReplayCache {A B} `{ReplayCache A, ReplayCache B} : ReplayCache (A + B) :=
  λ id e now st,
    match st with
    | inl a => let '(r, a) := SeenOrAdd id e now a in (r, inl a)
    | inr b => let '(r, b) := SeenOrAdd id e now b in (r, inr b)
    end.

Definition sum_remembers {A B} (P : A → string → Time → Prop) (Q : B → string → Time → Prop)
    (st : A + B) : string → Time → Prop :=
  match st with inl a => P a | inr b => Q b end.

#[export] Instance sum_ReplayLaws {A B} `{ReplayCache A, ReplayCache B} P Q
    `{!ReplayLaws A P, !ReplayLaws B Q} : ReplayLaws (A + B) (sum_remembers P Q).
Proof.
  split; unfold SeenOrAdd, sum_ReplayCache.
  - intros [a|b] st' id e t Hid; cbn; [destruct (SeenOrAdd id e t a) as [r a'] eqn:Hs
      |destruct (SeenOrAdd id e t b) as [r b'] eqn:Hs]; intros [= -> <-]; cbn;
      by eapply accepted_remembers.
  - intros [a|b] id e e' t; cbn; intros Hr Ht;
      pose proof (remembered_refused _ _ _ e' t Hr Ht) as Hl; by destruct (SeenOrAdd _ _ _ _).
  - intros [a|b] id id' e e' t; cbn; intros Hr Ht;
      pose proof (remembers_step _ _ id' _ e' t Hr Ht) as Hl; by destruct (SeenOrAdd _ _ _ _).
Qed.

Section validate.
Context {W : XmlNames} {U : UnicodeTables} {M : Metadata} {D : Dsig} {X : X509} {St : Type} {RC : ReplayCache St}.
(** [sp.ParseXMLResponse(decoded, possibleRequestIDs, currentURL)], with the instant of
    its time check. *)
Context (ParseXMLResponse : ServiceProvider → string → list string → URL → Time
                            → res error crewjam_Assertion).

(** The tokens [xml.NewDecoder(bytes.NewReader(raw))] returns. *)
Definition xml_tokens (raw : string) : token_stream := decode (rawTokens raw).

(** ** Expiry *)

(** [if !noa.IsZero() && noa.After(latest) { latest = noa }] *)
Definition later (latest noa : Time) : Time :=
  if negb (IsZero noa) && After noa latest then noa else latest.

Definition expiryFor (c : Config St) (instant : Time) (a : crewjam_Assertion) : Time :=
  let latest := Add (now c instant) (5 * Minute) in
  let latest := match ca_Conditions a with
                | Some cond => later latest (cc_NotOnOrAfter cond)
                | None => latest
                end in
  let latest := match ca_Subject a with
                | Some s => fold_left (λ latest sc, from_option (later latest) latest sc)
                                      (cs_SubjectConfirmations s) latest
                | None => latest
                end in
  Add (Add latest MaxClockSkew) (replayExpiryMargin c).

(** ** validate *)

(** The checks before crewjam is called. *)
Definition prechecks (c : Config St) (decoded : string) : res validate_error unit :=
  _ ← check (negb (Z.ltb (maxResponseBytes c) (len decoded))) (ErrResponseTooLarge (len decoded));
  shape ← wrap ErrShape (scanResponseShape (xml_tokens decoded));
  _ ← check (negb (Z.eqb (assertionCount shape) 0)) ErrNoAssertion;
  _ ← check (negb (Z.ltb 1 (assertionCount shape))) ErrTooManyAssertions;
  _ ← (if requireDestination c then
         _ ← check (negb (negb (hasDestinationAttr shape) ||
                          bool_decide (destination shape = ""%string))) ErrMissingDestination;
         check (bool_decide (destination shape = ACSURL c))
               (ErrDestinationMismatch (destination shape) (ACSURL c))
       else
         check (negb (hasDestinationAttr shape && bool_decide (destination shape ≠ ""%string)
                      && bool_decide (destination shape ≠ ACSURL c)))
               (ErrDestinationMismatch (destination shape) (ACSURL c)));
  _ ← (if rejectWeakSignatures c then
         let '(el, alg) := scanWeakSignatureAlgorithms (xml_tokens decoded) in
         check (bool_decide (el = ""%string)) (ErrWeakSignatureAlgorithm el alg)
       else Ok tt);
  _ ← check (negb (negb (AllowEncryptedAssertions c) && hasEncryptedAssertion shape))
            ErrEncryptedAssertionNotAllowed;
  wrap ErrIdentityShape (validatePlaintextIdentityShape (xml_tokens decoded)).

(** The rest: crewjam, the conversion, the replay cache. *)
Definition validate (c : Config St) (sp : ServiceProvider) (t : instants) (decoded : string)
    (currentURL : URL) (possibleRequestIDs : list string) (cache : MemoryReplayCache + St)
    : res validate_error Assertion * (MemoryReplayCache + St) :=
  match
    (_ ← prechecks c decoded;
     assertion ← wrap ErrCrewjam (ParseXMLResponse sp decoded possibleRequestIDs currentURL
                                                   (at_parse t));
     _ ← check (bool_decide (ca_ID assertion ≠ ""%string)) ErrMissingAssertionID;
     out ← wrap ErrAttributes (assertionFromCrewjam assertion (StrictAttributes c));
     Ok (assertion, out))
  with
  | Err e => (Err e, cache)
  | Ok (assertion, out) =>
      let expiresAt := expiryFor c (at_expiry t) assertion in
      let now := now c (at_now t) in
      let '(r, cache) := SeenOrAdd (ID out) expiresAt now cache in
      (match r with
       | Err e => Err (ErrReplayCache e)
       | Ok true => Err ErrReplayed
       | Ok false => Ok out
       end, cache)
  end.

(** ** Entry points *)

Definition stripBase64Whitespace (s : string) : string :=
  strings_Map (λ r, if (r =? 32) || (r =? 10) || (r =? 13) || (r =? 9) then -1 else r) s.

(** [r.PostForm.Get("SAMLResponse")] after [ParseForm], decoded. *)
Definition decode_post (r : http_Request) : res validate_error string :=
  let '(err, r) := ParseForm r in
  match err with
  | Some e => Err (ErrParseForm e)
  | None =>
      let raw := Get (default [] (r_PostForm r)) "SAMLResponse" in
      _ ← check (bool_decide (raw ≠ ""%string)) ErrNoSAMLResponse;
      of_option (DecodeString StdEncoding (stripBase64Whitespace raw)) ErrDecodeBase64
  end.

(** A nil provider is [None]. *)
Definition with_provider {A} (p : option (Provider St)) (cache : MemoryReplayCache + St)
    (k : Config St → ServiceProvider → res validate_error A * (MemoryReplayCache + St))
    : res validate_error A * (MemoryReplayCache + St) :=
  match p with
  | Some (MkProvider c (Some sp)) => k c sp
  | _ => (Err ErrNotConfigured, cache)
  end.

Definition ValidateResponse (p : option (Provider St)) (t : instants) (r : http_Request)
    (possibleRequestIDs : list string) (cache : MemoryReplayCache + St) :=
  with_provider p cache (λ c sp,
    match decode_post r with
    | Err e => (Err e, cache)
    | Ok decoded => validate c sp t decoded (r_URL r) possibleRequestIDs cache
    end).

Definition ValidateResponseXML (p : option (Provider St)) (t : instants) (decoded : string)
    (currentURL : URL) (possibleRequestIDs : list string) (cache : MemoryReplayCache + St) :=
  with_provider p cache (λ c sp,
    validate c sp t decoded currentURL possibleRequestIDs cache).

Definition ValidateRedirectResponse (p : option (Provider St)) (t : instants)
    (rawQueryParam : string) (currentURL : URL) (possibleRequestIDs : list string)
    (cache : MemoryReplayCache + St) :=
  with_provider p cache (λ c sp,
    match wrap ErrInflate (DecodeRedirectMessage rawQueryParam (maxInflatedBytes c)) with
    | Err e => (Err e, cache)
    | Ok decoded => validate c sp t decoded currentURL possibleRequestIDs cache
    end).

(** The three ways a response comes in. *)
Inductive attempt : Type :=
| Posted (r : http_Request)
| Document (decoded : string) (currentURL : URL)
| Redirected (rawQueryParam : string) (currentURL : URL).

Definition attempt_run (p : option (Provider St)) (t : instants)
    (a : attempt) (possibleRequestIDs : list string) (cache : MemoryReplayCache + St) :=
  match a with
  | Posted r => ValidateResponse p t r possibleRequestIDs cache
  | Document decoded u => ValidateResponseXML p t decoded u possibleRequestIDs cache
  | Redirected raw u => ValidateRedirectResponse p t raw u possibleRequestIDs cache
  end.

(** ** What the checks before crewjam let through *)

Definition destination_ok (c : Config St) (f : list tree) : Prop :=
  if requireDestination c
  then ACSURL c ≠ ""%string ∧ last (destinations f) = Some (ACSURL c)
  else default ""%string (last (destinations f)) ∈ [""%string; ACSURL c].

(** A document: its roots are all Responses, and among their children there is one
    assertion, plaintext unless encryption is allowed. *)
Definition document_ok (c : Config St) (f : list tree) : Prop :=
  elem_names f ≠ [] ∧ Forall (λ n, Local n = "Response"%string) (elem_names f) ∧
  (∃ n, counted f = [n] ∧ (is_encrypted_name n = true → AllowEncryptedAssertions c = true)) ∧
  destination_ok c f ∧
  (rejectWeakSignatures c = true → Forall token_strong (flatten_forest f)) ∧
  forest_identity_ok f.

Lemma destination_check (c : Config St) shape f :
  shape = forest_shape f →
  (if requireDestination c then
     _ ← check (negb (negb (hasDestinationAttr shape) ||
                      bool_decide (destination shape = ""%string))) ErrMissingDestination;
     check (bool_decide (destination shape = ACSURL c))
           (ErrDestinationMismatch (destination shape) (ACSURL c))
   else
     check (negb (hasDestinationAttr shape && bool_decide (destination shape ≠ ""%string)
                  && bool_decide (destination shape ≠ ACSURL c)))
           (ErrDestinationMismatch (destination shape) (ACSURL c))) = Ok tt
  ↔ destination_ok c f.
Proof.
  intros ->. unfold destination_ok, forest_shape; cbn [hasDestinationAttr destination].
  assert (last (destinations f) = None ↔ destinations f = []) as Hn by apply last_None.
  destruct (requireDestination c).
  - destruct (last (destinations f)) as [d|]; cbn [default from_option].
    + rewrite (bool_decide_eq_true_2 (destinations f ≠ [])) by (intros Hx; by apply Hn in Hx). cbn [negb orb].
      repeat case_bool_decide; cbn; naive_solver.
    + rewrite (bool_decide_eq_false_2 (destinations f ≠ [])) by (intros Hx; by apply Hx, Hn). cbn. naive_solver.
  - destruct (last (destinations f)) as [d|]; cbn [default from_option].
    + rewrite (bool_decide_eq_true_2 (destinations f ≠ [])) by (intros Hx; by apply Hn in Hx). cbn [andb]. set_unfold.
      repeat case_bool_decide; cbn; naive_solver.
    + rewrite (bool_decide_eq_false_2 (destinations f ≠ [])) by (intros Hx; by apply Hx, Hn). cbn. set_solver.
Qed.

Lemma find_None_Forall {A} (P : A → bool) l :
  find P l = None ↔ Forall (λ x, P x = false) l.
Proof.
  induction l as [|x l IH]; cbn; [split; constructor|]. rewrite Forall_cons, <- IH.
  destruct (P x); naive_solver.
Qed.

Lemma shape_Ok f e shape :
  scanResponseShape (TokenStream (flatten_forest f) e) = Ok shape ↔
  elem_names f ≠ [] ∧ Forall (λ n, Local n = "Response"%string) (elem_names f) ∧
  shape = forest_shape f.
Proof.
  rewrite response_shape_scan. unfold document_shape.
  assert (Forall (λ n, Local n = "Response"%string) (elem_names f) ↔
          find (λ n, negb (bool_decide (Local n = "Response"%string))) (elem_names f) = None)
    as ->.
  { rewrite find_None_Forall. apply Forall_iff. intros n. case_bool_decide; naive_solver. }
  destruct (find _ _); [naive_solver|]. case_bool_decide; naive_solver.
Qed.

Lemma counted_check (c : Config St) f :
  (assertionCount (forest_shape f) ≠ 0 ∧ ¬ 1 < assertionCount (forest_shape f)) ∧
  negb (negb (AllowEncryptedAssertions c) && hasEncryptedAssertion (forest_shape f)) = true ↔
  ∃ n, counted f = [n] ∧ (is_encrypted_name n = true → AllowEncryptedAssertions c = true).
Proof.
  unfold forest_shape; cbn [assertionCount hasEncryptedAssertion].
  destruct (counted f) as [|n [|m l]]; cbn [length existsb].
  - split; [lia|]. by intros (n & ? & _).
  - rewrite orb_false_r. split.
    + intros [_ Henc]. exists n. split; [done|]. intros Hn. rewrite Hn in Henc.
      by destruct (AllowEncryptedAssertions c).
    + intros (n' & [= <-] & Henc). split; [cbn; lia|].
      destruct (AllowEncryptedAssertions c), (is_encrypted_name n); naive_solver.
  - split; [lia|]. by intros (n' & ? & _).
Qed.

Lemma tokens_of s : s = TokenStream (tokens s) (ended s).
Proof. by destruct s. Qed.

(** The tags of goxmldsig are not empty strings. *)
Definition tags_named : Prop := SignatureMethodTag ≠ ""%string ∧ DigestMethodTag ≠ ""%string.

Lemma weak_check (c : Config St) s :
  tags_named →
  (if rejectWeakSignatures c then
     let '(el, alg) := scanWeakSignatureAlgorithms s in
     check (bool_decide (el = ""%string)) (ErrWeakSignatureAlgorithm el alg)
   else Ok tt) = Ok tt ↔
  (rejectWeakSignatures c = true → Forall token_strong (tokens s)).
Proof.
  intros [Hs Hd]. rewrite <- (weak_scan_strong s Hs Hd).
  destruct (rejectWeakSignatures c); [|naive_solver].
  destruct (scanWeakSignatureAlgorithms s) as [el alg]. rewrite check_Ok, bool_decide_eq_true.
  cbn. naive_solver.
Qed.

Lemma prechecks_document (c : Config St) decoded f :
  tags_named → xml_tokens decoded = TokenStream (flatten_forest f) EOF →
  prechecks c decoded = Ok tt ↔ len decoded ≤ maxResponseBytes c ∧ document_ok c f.
Proof.
  intros Htags Hx. unfold prechecks, document_ok. rewrite Hx.
  rewrite <- (weak_check c (TokenStream (flatten_forest f) EOF) Htags).
  rewrite <- identity_shape_accepts, <- (counted_check c f).
  rewrite <- (destination_check c _ f eq_refl).
  split.
  - intros Hp. apply bind_Ok in Hp as (? & Hlen%check_Ok & Hp).
    apply bind_Ok in Hp as (shape & Hshape%wrap_Ok & Hp).
    apply shape_Ok in Hshape as (Hne & Hall & ->).
    apply bind_Ok in Hp as (? & H0%check_Ok & Hp).
    apply bind_Ok in Hp as (? & H1%check_Ok & Hp).
    apply bind_Ok in Hp as ([] & Hdest & Hp).
    apply bind_Ok in Hp as ([] & Hweak & Hp).
    apply bind_Ok in Hp as (? & Henc%check_Ok & Hid%wrap_Ok).
    apply negb_true_iff in Hlen, H0, H1. apply Z.eqb_neq in H0.
    split_and!; [lia|done|done|done|lia|done|done|done|done].
  - intros (Hlen & Hne & Hall & [[H0 H1] Henc] & Hdest & Hweak & Hid).
    apply bind_Ok. exists tt. split; [apply check_Ok, negb_true_iff; lia|].
    apply bind_Ok. exists (forest_shape f). split; [by apply wrap_Ok, shape_Ok|].
    apply bind_Ok. exists tt. split; [apply check_Ok, negb_true_iff; lia|].
    apply bind_Ok. exists tt. split; [apply check_Ok, negb_true_iff; lia|].
    apply bind_Ok. exists tt. split; [done|].
    apply bind_Ok. exists tt. split; [done|].
    apply bind_Ok. exists tt. split; [by apply check_Ok|by apply wrap_Ok].
Qed.

(** A response that passes the checks is a complete document. *)
Lemma prechecks_iff (c : Config St) decoded :
  tags_named →
  prechecks c decoded = Ok tt ↔
  len decoded ≤ maxResponseBytes c ∧
  ∃ f, rawTokens decoded = document f ∧ document_ok c (resolve ∅ <$> f).
Proof.
  intros Htags. split.
  - intros Hp. assert (ended (xml_tokens decoded) = EOF) as He.
    { destruct (ended (xml_tokens decoded)) eqn:He; [done|].
      apply identity_syntax_error in He. unfold prechecks in Hp.
      do 7 (apply bind_Ok in Hp as (? & _ & Hp)). by apply wrap_Ok in Hp. }
    destruct (proj1 (decode_EOF _ _) (conj eq_refl He)) as (f & Hf & Hd).
    apply (prechecks_document c decoded (resolve ∅ <$> f)) in Hp as [Hlen Hok]; [|done|exact Hd].
    split; [done|]. by exists f.
  - intros (Hlen & f & Hx & Hok). apply (prechecks_document c decoded (resolve ∅ <$> f)); [done| |done].
    unfold xml_tokens. by rewrite Hx, decode_forest.
Qed.

(** ** Acceptance *)

(** What crewjam and the conversion make of an accepted response. *)
Definition parsed (c : Config St) (sp : ServiceProvider) (t : instants) (decoded : string)
    (currentURL : URL) (ids : list string) (a : crewjam_Assertion) (out : Assertion) : Prop :=
  ParseXMLResponse sp decoded ids currentURL (at_parse t) = Ok a ∧
  ca_ID a ≠ ""%string ∧ assertionFromCrewjam a (StrictAttributes c) = Ok out.

Lemma assertionFromCrewjam_ID a strict out : assertionFromCrewjam a strict = Ok out → ID out = ca_ID a.
Proof. unfold assertionFromCrewjam. intros H. by res_inv. Qed.

(** The cache call of one validation. *)
Definition cache_call (c : Config St) (t : instants) (a : crewjam_Assertion) : call :=
  Call (at_call t) (now c (at_now t)) (ca_ID a) (expiryFor c (at_expiry t) a).

Lemma validate_cases c sp t decoded u ids cache :
  (∃ e, validate c sp t decoded u ids cache = (Err e, cache) ∧
        ¬ (prechecks c decoded = Ok tt ∧ ∃ a out, parsed c sp t decoded u ids a out)) ∨
  (prechecks c decoded = Ok tt ∧ ∃ a out, parsed c sp t decoded u ids a out ∧
     validate c sp t decoded u ids cache =
     (match (do_call (cache_call c t a) cache).1 with
      | Err e => Err (ErrReplayCache e)
      | Ok true => Err ErrReplayed
      | Ok false => Ok out
      end, (do_call (cache_call c t a) cache).2)).
Proof.
  unfold validate. destruct (prechecks c decoded) as [[]|e] eqn:Hp; cbn [mbind res_bind].
  2: { left. exists e. split; [done|]. by intros [? _]. }
  unfold parsed. destruct (ParseXMLResponse sp decoded ids u (at_parse t)) as [a|e]; cbn [wrap mbind res_bind].
  2: { left. exists (ErrCrewjam e). split; [done|]. by intros (_ & a & out & ? & _). }
  case_bool_decide as Hid; cbn [check mbind res_bind].
  2: { left. exists ErrMissingAssertionID. split; [done|].
       by intros (_ & a' & out & [= <-] & ? & _). }
  destruct (assertionFromCrewjam a (StrictAttributes c)) as [out|e] eqn:Ha; cbn [wrap mbind res_bind].
  2: { left. exists (ErrAttributes e). split; [done|].
       intros (_ & a' & out & [= <-] & _ & ?). congruence. }
  right. split; [done|]. exists a, out. split; [done|].
  rewrite (assertionFromCrewjam_ID _ _ _ Ha). unfold do_call, cache_call; cbn.
  by destruct (SeenOrAdd _ _ _ cache).
Qed.

Lemma validate_accepts c sp t decoded u ids cache cache' out :
  validate c sp t decoded u ids cache = (Ok out, cache') ↔
  prechecks c decoded = Ok tt ∧
  ∃ a, parsed c sp t decoded u ids a out ∧ do_call (cache_call c t a) cache = (Ok false, cache').
Proof.
  destruct (validate_cases c sp t decoded u ids cache)
    as [(e & -> & Hno)|(Hp & a & out' & Hparsed & ->)].
  { split; [done|]. intros (? & a & ? & _). exfalso. eauto. }
  destruct (do_call (cache_call c t a) cache) as [r cache1] eqn:Hcall; cbn [fst snd]. split.
  - destruct r as [[]|]; intros [= <- <-]. split; [done|]. by exists a.
  - intros (_ & a' & (Ha' & _ & Ho') & Hc'). destruct Hparsed as (Ha & _ & Ho).
    rewrite Ha in Ha'. injection Ha' as <-. rewrite Ho in Ho'. injection Ho' as <-.
    rewrite Hcall in Hc'. by injection Hc' as -> ->.
Qed.

(** C1 (safety): a response is accepted exactly when it is within the size limit, it is a
    complete XML document whose roots, names resolved, are Responses with exactly one
    assertion among their children (encrypted only if allowed), its Destination is the
    ACS URL as the configuration demands, every signature and digest algorithm anywhere
    in it is on the allow list unless that check is off, the assertion's Issuer, Subject
    and NameID are well placed, crewjam accepts it, the assertion has an ID, the
    attribute policy holds, and the replay cache records the ID as new. *)
Theorem response_accepted_iff c sp t decoded u ids cache cache' out
  (Htags : tags_named) :
  validate c sp t decoded u ids cache = (Ok out, cache') ↔
  len decoded ≤ maxResponseBytes c ∧
  (∃ f, rawTokens decoded = document f ∧ document_ok c (resolve ∅ <$> f)) ∧
  ∃ a, ParseXMLResponse sp decoded ids u (at_parse t) = Ok a ∧
       ca_ID a ≠ ""%string ∧ assertionFromCrewjam a (StrictAttributes c) = Ok out ∧
       SeenOrAdd (ca_ID a) (expiryFor c (at_expiry t) a) (now c (at_now t)) cache
       = (Ok false, cache').
Proof.
  rewrite validate_accepts, (prechecks_iff c decoded Htags). unfold parsed, do_call, cache_call.
  cbn [c_id c_expires c_now]. split.
  - intros ([Hlen Hf] & a & (? & ? & ?) & ?). split_and!; [done|done|]. by exists a.
  - intros (Hlen & Hf & a & ? & ? & ? & ?). split; [done|]. by exists a.
Qed.

(** ** Refusal *)

Lemma attempt_cases p t a ids cache :
  (∃ e, attempt_run p t a ids cache = (Err e, cache)) ∨
  (∃ c sp decoded u, p = Some (MkProvider c (Some sp)) ∧
     attempt_run p t a ids cache = validate c sp t decoded u ids cache).
Proof.
  destruct p as [[c [sp|]]|]; [|left; destruct a; by eexists..].
  destruct a as [r|decoded u|raw u]; cbn [attempt_run].
  - unfold ValidateResponse; cbn [with_provider].
    destruct (decode_post r) as [decoded|e]; [right|left; by exists e]. by exists c, sp, decoded, (r_URL r).
  - right. by exists c, sp, decoded, u.
  - unfold ValidateRedirectResponse; cbn [with_provider].
    destruct (wrap _ _) as [decoded|e]; [right|left; by exists e]. by exists c, sp, decoded, u.
Qed.

(** C3 (error): a refused response leaves no trace. Posted, redirected or handed over as
    XML, whatever is wrong with it, the replay cache is what it was before. The one
    exception is the cache's own refusal when entries that are still valid fill it: it has
    then dropped those that are not, and nothing else. So no stream of bad responses can
    use up the cache's capacity or mark an assertion as seen. *)
Theorem refused_response_spares_cache p t a ids mc e cache'
  (Hrefused : attempt_run p t a ids (inl mc) = (Err e, cache')) :
  cache' = inl mc ∨
  e = ErrReplayCache ErrReplayCacheFull ∧
  ∃ c sp, p = Some (MkProvider c (Some sp)) ∧
    let valid := live (now c (at_now t)) mc in
    capacity mc ≤ Z.of_nat (size valid) ∧ cache' = inl (MkMemoryReplayCache (capacity mc) valid).
Proof.
  destruct (attempt_cases p t a ids (inl mc)) as [[e' H]|(c & sp & decoded & u & Hp & H)];
    rewrite H in Hrefused; [injection Hrefused as <- <-; by left|].
  destruct (validate_cases c sp t decoded u ids (inl mc)) as [(e' & Hv & _)|(_ & as_ & out & (_ & Hid & _) & Hv)];
    rewrite Hv in Hrefused; [injection Hrefused as <- <-; by left|].
  set (call := cache_call c t as_) in *.
  destruct (memory_SeenOrAdd (c_id call) (c_expires call) (c_now call) mc) as [r mc'] eqn:Hr.
  assert (do_call call (inl mc) = (r, inl mc')) as Hcall
    by (unfold do_call, SeenOrAdd, sum_ReplayCache, SeenOrAdd, memory_ReplayCache; by rewrite Hr).
  rewrite Hcall in Hrefused. cbn [fst snd] in Hrefused.
  apply memory_refused in Hr; [|exact Hid|by intros ->].
  destruct Hr as [[-> ->]|(-> & -> & Hfull)]; injection Hrefused as <- <-; [by left|right].
  split; [done|]. by exists c, sp.
Qed.

(** ** Replay *)

(** The times an assertion says it is valid until. *)
Definition expiries (a : crewjam_Assertion) : list Time :=
  filter (.≠ zero_time)
    (from_option (λ cond, [cc_NotOnOrAfter cond]) [] (ca_Conditions a) ++
     from_option (λ s, omap id (cs_SubjectConfirmations s)) [] (ca_Subject a)).

Lemma later_spec latest noa :
  later latest noa = if decide (noa = zero_time) then latest else Z.max latest noa.
Proof.
  unfold later, IsZero, After. case_decide as Hz.
  - by subst.
  - destruct (Z.eqb_spec noa zero_time); [done|]. cbn. destruct (Z.ltb_spec latest noa); lia.
Qed.

Lemma fold_later ts latest :
  fold_left later ts latest = foldr Z.max latest (filter (.≠ zero_time) ts).
Proof.
  revert latest. induction ts as [|t ts IH]; intros latest; cbn [fold_left]; [done|].
  rewrite filter_cons, later_spec. destruct (decide (t = zero_time)) as [Hz|Hz].
  - rewrite decide_False by tauto. apply IH.
  - rewrite decide_True by done. cbn [foldr]. rewrite IH. clear.
    induction (filter _ ts) as [|x l IHl]; cbn; lia.
Qed.

Lemma fold_later_option (l : list (option Time)) latest :
  fold_left (λ latest sc, from_option (later latest) latest sc) l latest =
  fold_left later (omap id l) latest.
Proof. revert latest. induction l as [|[t|] l IH]; intros latest; cbn; auto. Qed.

(** [expiryFor]: the latest of the floor and the expiries, plus skew and margin. *)
Lemma expiryFor_max c t a :
  expiryFor c t a =
  foldr Z.max (now c t + 5 * Minute) (expiries a) + MaxClockSkew + replayExpiryMargin c.
Proof.
  unfold expiryFor, expiries, Add. do 2 f_equal.
  rewrite <- fold_later, fold_left_app.
  destruct (ca_Conditions a), (ca_Subject a); cbn [from_option fold_left];
    by rewrite ?fold_later_option.
Qed.

Lemma foldr_max_le (l : list Z) b x : x ∈ l → x ≤ foldr Z.max b l.
Proof.
  induction l as [|y l IH]; cbn; [by intros ?%elem_of_nil|].
  intros [->|Hx]%elem_of_cons; [lia|]. specialize (IH Hx). lia.
Qed.

Lemma expiryFor_covers c t a noa :
  noa ∈ expiries a → noa + MaxClockSkew + replayExpiryMargin c ≤ expiryFor c t a.
Proof.
  intros Hn. rewrite expiryFor_max.
  pose proof (foldr_max_le _ (now c t + 5 * Minute) _ Hn). lia.
Qed.

Context {remembers : St → string → Time → Prop} `{!ReplayLaws St remembers}.

(** crewjam takes an assertion only until each of its expiries plus the skew. *)
Definition crewjam_checks_time : Prop :=
  ∀ sp decoded ids u t a, ParseXMLResponse sp decoded ids u t = Ok a →
    ∀ noa, noa ∈ expiries a → t ≤ noa + MaxClockSkew.

(** A clock is never ahead of the instant it is read at. *)
Definition clock_ok (c : Config St) : Prop := ∀ t, now c t ≤ t.

(** C2 (safety): replay protection from end to end. Take two accepted validations that
    yield one assertion with at least one expiry, by any providers that share the cache,
    with any calls of other validations between them and any delays within each. Then the
    second one's cache call came at least the replay margin after crewjam's time check:
    a validation that goes from crewjam's check to the cache in less than the margin
    never accepts an assertion again, however long after the first. *)
Theorem response_single_use c1 c2 sp1 sp2 t1 t2 d1 d2 u1 u2 ids1 ids2 st0 st1 st3 out1 out2
    (mid : list call) a noa
  (Htime : crewjam_checks_time) (Hclock : clock_ok c2)
  (Hmargin : replayExpiryMargin c2 ≤ replayExpiryMargin c1)
  (H1 : validate c1 sp1 t1 d1 u1 ids1 st0 = (Ok out1, st1))
  (Hmid : Forall (λ c, call_ok c ∧ c_real c ≤ at_call t2) mid)
  (H2 : validate c2 sp2 t2 d2 u2 ids2 (run_calls mid st1) = (Ok out2, st3))
  (Ha1 : ParseXMLResponse sp1 d1 ids1 u1 (at_parse t1) = Ok a)
  (Ha2 : ParseXMLResponse sp2 d2 ids2 u2 (at_parse t2) = Ok a)
  (Hnoa : noa ∈ expiries a) (Horder : at_now t2 ≤ at_call t2) :
  replayExpiryMargin c2 ≤ at_call t2 - at_parse t2.
Proof.
  apply validate_accepts in H1 as (_ & a1 & (Hp1 & Hid & _) & Hcall1).
  apply validate_accepts in H2 as (_ & a2 & (Hp2 & _) & Hcall2).
  rewrite Hp1 in Ha1. injection Ha1 as ->. rewrite Hp2 in Ha2. injection Ha2 as ->.
  pose proof (Htime _ _ _ _ _ _ Hp2 _ Hnoa) as Hcheck.
  pose proof (expiryFor_covers c1 (at_expiry t1) a noa Hnoa) as Hcover.
  assert (c_expires (cache_call c1 t1 a) ≤ c_real (cache_call c2 t2 a)) as Hw.
  { refine (accepted_twice (remembers := sum_remembers memory_remembers remembers)
              _ _ _ (cache_call c1 t1 a) mid (cache_call c2 t2 a) Hid _ Hcall1 Hcall2 Hmid _);
      [done|].
    unfold call_ok; cbn. specialize (Hclock (at_now t2)). lia. }
  cbn in Hw. lia.
Qed.

(** ** Entry points *)

Definition is_base64_space (b : Z) : bool := (b =? 32) || (b =? 10) || (b =? 13) || (b =? 9).

(** A document posted in a form as base64, broken with spaces, tabs and line ends at any
    places; with any other values beside it. *)
Definition posts (r : http_Request) (doc : string) : Prop :=
  ∃ form, carries r form ∧
    let raw := bytes (Get form "SAMLResponse") in
    Forall (λ b, 0 <= b < 128) raw ∧
    filter (λ b, is_base64_space b = false) raw = bytes (EncodeToString StdEncoding doc).

(** A document compressed and encoded for a redirect, in blocks of any kind under any
    Huffman codes, with any bytes after the last one. *)
Definition redirects (raw doc : string) : Prop :=
  ∃ bs junk, raw = EncodeToString StdEncoding (of_bytes (deflate bs ++ junk)) ∧
    bs ≠ [] ∧ blocks_ok [] bs ∧ Forall is_byte junk ∧ doc = of_bytes (expand bs).

(** The ways a document reaches a provider. *)
Definition delivers (c : Config St) (a : attempt) (doc : string) (u : URL) : Prop :=
  match a with
  | Posted r => posts r doc ∧ doc ≠ ""%string ∧ r_URL r = u
  | Document decoded u' => decoded = doc ∧ u' = u
  | Redirected raw u' => redirects raw doc ∧ len doc ≤ maxInflatedBytes c ∧ u' = u
  end.

Lemma decode_posted r doc : posts r doc → doc ≠ ""%string → decode_post r = Ok doc.
Proof using.
  intros (form & (r' & Hr & Hform & _)%ParseForm_carries & Hascii & Hdoc) Hne.
  unfold decode_post. rewrite Hr, Hform. cbn [default from_option id].
  set (raw := Get form "SAMLResponse") in *.
  assert (stripBase64Whitespace raw = EncodeToString StdEncoding doc) as Hstrip.
  { unfold stripBase64Whitespace.
    rewrite (strings_Map_filter is_base64_space) by done. by rewrite Hdoc, of_bytes_bytes. }
  rewrite bool_decide_eq_true_2; cbn [check mbind res_bind].
  - by rewrite Hstrip, DecodeString_EncodeToString.
  - intros Hraw. apply Hne. rewrite Hraw in Hdoc. cbn in Hdoc.
    apply (EncodeToString_inj StdEncoding), bytes_inj. by rewrite <- Hdoc.
Qed.

(** A caller that parsed the form before, without an error, changes nothing. *)
Lemma decode_parsed r r' : ParseForm r = (None, r') → decode_post r' = decode_post r.
Proof using.
  intros Hr. pose proof (ParseForm_again r) as Hagain. rewrite Hr in Hagain. cbn [snd] in Hagain.
  unfold decode_post. by rewrite Hr, Hagain.
Qed.

(** The response is the first value of the body: a request without a body, or with another
    method, has none, whatever its URL says. *)
Lemma decode_post_body r doc :
  r_PostForm r = None → decode_post r = Ok doc →
  r_Method r ∈ ["POST"; "PUT"; "PATCH"]%string ∧
  ∃ body b form, r_Body r = Some body ∧ read_form r body = Ok b ∧ ParseQuery b = Some form ∧
    DecodeString StdEncoding (stripBase64Whitespace (Get form "SAMLResponse")) = Some doc ∧
    (r_MaxBytes r = false → len b ≤ maxFormSize).
Proof using.
  intros Hnew. unfold decode_post. destruct (ParseForm r) as [[e|] r'] eqn:Hparse; [done|].
  intros (u & Hraw%check_Ok & Hdoc%of_option_Ok)%bind_Ok. bool_simp.
  destruct (ParseForm_body r r' Hnew Hparse) as (Hm & body & b & Hb & Hread & Hq & Hlen).
  - intros Hnil. rewrite Hnil in Hraw. by apply Hraw.
  - split; [done|]. destruct (ParseQuery b) as [form|] eqn:Hform.
    + exists body, b, form. by rewrite Hq in Hdoc.
    + rewrite Hq in Hraw. by destruct Hraw.
Qed.

Lemma maxInflatedBytes_int64 (c : Config St) : MaxInflatedBytes c < MaxInt64 → maxInflatedBytes c < MaxInt64.
Proof using.
  unfold maxInflatedBytes. by destruct (Z.ltb_spec 0 (MaxInflatedBytes c)).
Qed.

Lemma decode_redirected (c : Config St) raw doc :
  MaxInflatedBytes c < MaxInt64 → redirects raw doc → len doc ≤ maxInflatedBytes c →
  DecodeRedirectMessage raw (maxInflatedBytes c) = Ok doc.
Proof using.
  intros Hlimit (bs & junk & -> & Hne & Hok & Hjunk & ->) Hlen.
  unfold DecodeRedirectMessage. rewrite DecodeString_EncodeToString. cbn [of_option mbind res_bind].
  destruct (flate_deflate bs junk Hne Hok Hjunk) as [Hbytes Herr].
  apply InflateLimited_Ok; [by apply maxInflatedBytes_int64|]. split_and!; [done|done|].
  unfold inflate_limit. pose proof (maxInflatedBytes_pos c).
  by destruct (Z.leb_spec (maxInflatedBytes c) 0); [lia|].
Qed.

Lemma delivered_validated c sp t a doc u ids cache :
  MaxInflatedBytes c < MaxInt64 → delivers c a doc u →
  attempt_run (Some (MkProvider c (Some sp))) t a ids cache = validate c sp t doc u ids cache.
Proof using.
  intros Hlimit. destruct a as [r|d u'|raw u']; cbn [delivers attempt_run].
  - intros (Hp & Hne & <-). unfold ValidateResponse. cbn [with_provider]. by rewrite (decode_posted r doc).
  - by intros [-> ->].
  - intros (Hr & Hlen & ->). unfold ValidateRedirectResponse. cbn [with_provider].
    by rewrite (decode_redirected c raw doc).
Qed.

(** C6 (roundtrip): however a document is delivered, it is validated as it was written:
    posted as base64 with white space anywhere, handed over as it is, or compressed with
    DEFLATE and encoded for a redirect, as long as it is within the inflation limit. The
    three entry points differ in nothing else. *)
Theorem delivered_document_validated c sp t a a' doc u ids cache
  (Hlimit : MaxInflatedBytes c < MaxInt64)
  (Ha : delivers c a doc u) (Ha' : delivers c a' doc u) :
  attempt_run (Some (MkProvider c (Some sp))) t a ids cache =
    validate c sp t doc u ids cache ∧
  attempt_run (Some (MkProvider c (Some sp))) t a ids cache =
    attempt_run (Some (MkProvider c (Some sp))) t a' ids cache.
Proof. by rewrite !(delivered_validated c sp t _ doc u). Qed.

(** ** Documents as they are written *)

Lemma xml_tokens_printed f :
  forest_ok f = true → xml_tokens (print_forest f) = document (resolve ∅ <$> (tree_of <$> f)).
Proof using. intros Hf. unfold xml_tokens. by rewrite (rawTokens_print f Hf), decode_forest. Qed.

(** C5 (equivalence): on the text of a document, with any names, attributes, texts and
    comments, escaped as [xml.EscapeText] does, the checks before crewjam are exactly the
    bound on its length and the conditions on its tree with the names resolved: lexing,
    namespaces and nesting lose nothing and let nothing else through. *)
Theorem printed_document_checked (c : Config St) f
  (Htags : tags_named) (Hf : forest_ok f = true) :
  prechecks c (print_forest f) = Ok tt ↔
  len (print_forest f) ≤ maxResponseBytes c ∧ document_ok c (resolve ∅ <$> (tree_of <$> f)).
Proof. apply prechecks_document; [done|]. by apply xml_tokens_printed. Qed.

(** C4 (liveness): a response of an honest identity provider is accepted, by post, as a
    document or by redirect. Its text is that of a document with the right structure,
    within the limits; crewjam accepts it; its assertion has an ID that is not on record
    as valid, and the memory cache has room besides its valid entries. The ID is then on
    record until the expiry of the assertion. *)
Theorem honest_response_accepted c sp t a f u ids mc as_ out
  (Htags : tags_named) (Hlimit : MaxInflatedBytes c < MaxInt64)
  (Hf : forest_ok f = true) (Hlen : len (print_forest f) ≤ maxResponseBytes c)
  (Hdoc : document_ok c (resolve ∅ <$> (tree_of <$> f)))
  (Hdelivers : delivers c a (print_forest f) u)
  (Hparse : ParseXMLResponse sp (print_forest f) ids u (at_parse t) = Ok as_)
  (Hid : ca_ID as_ ≠ ""%string)
  (Hout : assertionFromCrewjam as_ (StrictAttributes c) = Ok out)
  (Hnew : live (now c (at_now t)) mc !! ca_ID as_ = None)
  (Hroom : Z.of_nat (size (live (now c (at_now t)) mc)) < capacity mc) :
  ∃ mc', attempt_run (Some (MkProvider c (Some sp))) t a ids (inl mc) = (Ok out, inl mc') ∧
         items mc' !! ca_ID as_ = Some (expiryFor c (at_expiry t) as_).
Proof.
  destruct (memory_accepts (ca_ID as_) (expiryFor c (at_expiry t) as_) (now c (at_now t)) mc Hid Hnew Hroom)
    as (mc' & Hcall & Hitem).
  exists mc'. split; [|done]. rewrite (delivered_validated c sp t a _ u ids _ Hlimit Hdelivers).
  apply validate_accepts. split.
  { eapply prechecks_document; [done|by apply xml_tokens_printed|done]. }
  exists as_. split; [done|].
  unfold do_call, cache_call, SeenOrAdd, sum_ReplayCache, SeenOrAdd, memory_ReplayCache.
  cbn [c_id c_expires c_now]. by rewrite Hcall.
Qed.

(** Where the document of an accepted response was: [attempt_URL] is the URL it came to. *)
Definition attempt_URL (a : attempt) : URL :=
  match a with Posted r => r_URL r | Document _ u | Redirected _ u => u end.

Definition comes_from (c : Config St) (a : attempt) (doc : string) : Prop :=
  match a with
  | Posted r =>
      r_PostForm r = None →
      r_Method r ∈ ["POST"; "PUT"; "PATCH"]%string ∧
      ∃ body b form, r_Body r = Some body ∧ read_form r body = Ok b ∧ ParseQuery b = Some form ∧
        DecodeString StdEncoding (stripBase64Whitespace (Get form "SAMLResponse")) = Some doc ∧
        (r_MaxBytes r = false → len b ≤ maxFormSize)
  | Document decoded _ => decoded = doc
  | Redirected raw _ =>
      ∃ compressed, DecodeString StdEncoding raw = Some compressed ∧
        r_err (flate_NewReader compressed) = None ∧
        r_bytes (flate_NewReader compressed) = doc ∧ len doc ≤ maxInflatedBytes c
  end.

Lemma redirect_decoded (c : Config St) raw doc :
  MaxInflatedBytes c < MaxInt64 →
  DecodeRedirectMessage raw (maxInflatedBytes c) = Ok doc →
  comes_from c (Redirected raw blank_URL) doc.
Proof using.
  intros Hlimit. unfold DecodeRedirectMessage.
  intros (z & Hz%of_option_Ok & Hi)%bind_Ok.
  apply InflateLimited_Ok in Hi as (He & -> & Hlen); [|by apply maxInflatedBytes_int64].
  exists z. split_and!; [done..|]. unfold inflate_limit in Hlen.
  pose proof (maxInflatedBytes_pos c). by destruct (Z.leb_spec (maxInflatedBytes c) 0); [lia|].
Qed.

(** C7 (safety): what an accepted response was read from, and within which bounds. A posted
    one is the first SAMLResponse value of the body of a POST, PUT or PATCH request, of at
    most ten megabytes unless the caller set a bound of its own: the URL of the request is
    never looked at for it. A redirect one is all that a DEFLATE stream without errors
    decompresses to, within the inflation limit. The document is no longer than
    [MaxResponseBytes], and it is validated as it was read. *)
Theorem accepted_response_origin c sp t a ids cache cache' out
  (Hlimit : MaxInflatedBytes c < MaxInt64)
  (Ha : attempt_run (Some (MkProvider c (Some sp))) t a ids cache = (Ok out, cache')) :
  ∃ doc, comes_from c a doc ∧ len doc ≤ maxResponseBytes c ∧
    validate c sp t doc (attempt_URL a) ids cache = (Ok out, cache').
Proof.
  assert (∃ doc, comes_from c a doc ∧ validate c sp t doc (attempt_URL a) ids cache = (Ok out, cache'))
    as (doc & Hfrom & Hv).
  { destruct a as [r|d u|raw u]; cbn [attempt_run attempt_URL] in Ha |- *;
      unfold ValidateResponse, ValidateResponseXML, ValidateRedirectResponse in Ha; cbn [with_provider] in Ha.
    - destruct (decode_post r) as [doc|] eqn:Hd; [|done]. exists doc. split; [|done].
      intros Hnew. by apply decode_post_body.
    - by exists d.
    - destruct (DecodeRedirectMessage _ _) as [doc|] eqn:Hd; [|done]. exists doc. split; [|done].
      by apply (redirect_decoded c raw doc). }
  exists doc. split_and!; [done| |done]. apply validate_accepts in Hv as [Hpre _].
  unfold prechecks in Hpre. apply bind_Ok in Hpre as (u & Hu%check_Ok & _). bool_simp. lia.
Qed.
End validate.

(** ** Witnesses *)

#[local] Existing Instance ascii_unicode.

(** A cache type without values beside [MemoryReplayCache]. *)
#[local] Instance no_other_cache : ReplayCache Empty_set := λ _ _ _ st, match st with end.
#[local] Instance no_other_laws : ReplayLaws Empty_set (λ _ _ _, True).
Proof. split; intros []. Qed.

Definition sample_parsed : crewjam_Assertion :=
  CrewjamAssertion "id1" 1 "idp" None (Some (CrewjamConditions 0 1)) [] [].

(** Accepts until the assertion's expiry plus the skew. *)
Definition sample_parse (_ : ServiceProvider (M := sample_metadata)) (_ : string) (_ : list string)
    (_ : URL) (t : Time) : res error crewjam_Assertion :=
  if Z.leb t (1 + 180 * Second) then Ok sample_parsed else Err "expired"%string.

Definition sample_cache : MemoryReplayCache + Empty_set := inl (NewMemoryReplayCache 4).

Definition sample_validate :=
  validate (W := ascii_names) (M := sample_metadata) (D := sample_dsig) (RC := no_other_cache)
           sample_parse sample_config sample_sp.

Definition sample_first : instants := Instants 1 2 2 3.
Definition sample_late : instants := Instants 4 (10 * Minute) (10 * Minute) (10 * Minute).

Definition sample_after_first : MemoryReplayCache + Empty_set :=
  (sample_validate sample_first sample_xml sample_url [] sample_cache).2.

Lemma response_accepted_iff_witness :
  ∃ out cache', sample_validate sample_first sample_xml sample_url [] sample_cache = (Ok out, cache') ∧
  len sample_xml ≤ maxResponseBytes (sample_config (St := Empty_set)) ∧
  (∃ f, rawTokens (W := ascii_names) sample_xml = document f ∧
        document_ok (M := sample_metadata) (D := sample_dsig) (sample_config (St := Empty_set))
          (resolve ∅ <$> f)).
Proof.
  destruct (sample_validate sample_first sample_xml sample_url [] sample_cache)
    as [[out|e] cache'] eqn:Hv; [|exfalso; vm_compute in Hv; discriminate Hv].
  exists out, cache'. split; [reflexivity|].
  apply (response_accepted_iff (W := ascii_names) (M := sample_metadata) (D := sample_dsig) (RC := no_other_cache)
           sample_parse sample_config sample_sp sample_first sample_xml
           sample_url [] sample_cache) in Hv as (H1 & H2 & _).
  - split; assumption.
  - split; discriminate.
Defined.

Lemma response_single_use_witness :
  (∃ out st, sample_validate sample_late sample_xml sample_url [] sample_after_first = (Ok out, st)) ∧
  replayExpiryMargin (sample_config (St := Empty_set)) ≤ at_call sample_late - at_parse sample_late.
Proof.
  split; [eexists _, _; vm_compute; reflexivity|].
  refine (response_single_use (W := ascii_names) (M := sample_metadata) (D := sample_dsig) (RC := no_other_cache)
    (remembers := λ _ _ _, True) sample_parse sample_config sample_config
    sample_sp sample_sp sample_first sample_late sample_xml sample_xml sample_url sample_url
    [] [] sample_cache sample_after_first _ _ _ [] sample_parsed 1 _ _ _ _ _ _ _ _ _ _).
  - intros sp decoded ids u t a. unfold sample_parse.
    destruct (Z.leb_spec t (1 + 180 * Second)) as [Ht|]; [|discriminate].
    intros [= <-] noa Hnoa. vm_compute in Hnoa. apply list_elem_of_singleton in Hnoa as ->. exact Ht.
  - intros t. reflexivity.
  - reflexivity.
  - vm_compute; reflexivity.
  - constructor.
  - vm_compute; reflexivity.
  - reflexivity.
  - reflexivity.
  - vm_compute. left.
  - reflexivity.
Defined.

(** The sample posted with white space in it, and in a redirect. *)
Definition sample_request : http_Request :=
  HttpRequest "POST" {["Content-Type"%string := ["application/x-www-form-urlencoded"%string]]}
    (Some (Reader (encode_pairs [("RelayState"%string, "a&b");
             ("SAMLResponse"%string, " " +:+ EncodeToString StdEncoding sample_xml +:+ " ")])
           None true)) false sample_url None None.
Definition sample_posted : attempt := Posted sample_request.
Definition sample_blocks : list block :=
  [Stored (take 200 (bytes sample_xml));
   Dynamic sample_header (Lit <$> take 100 (drop 200 (bytes sample_xml)));
   Fixed (Lit <$> drop 300 (bytes sample_xml))].
Definition sample_redirected : attempt :=
  Redirected (EncodeToString StdEncoding (of_bytes (deflate sample_blocks ++ [7]))) sample_url.

Lemma sample_delivered (a : attempt) :
  a = sample_posted ∨ a = Document sample_xml sample_url ∨ a = sample_redirected →
  delivers (sample_config (St := Empty_set)) a sample_xml sample_url.
Proof.
  intros [->|[->| ->]]; cbn [delivers sample_posted sample_redirected].
  - split; [|done]. eexists. split; [|split].
    + split_and!; [done|reflexivity| |by eexists|by vm_compute|by vm_compute|by vm_compute; eexists].
      eexists. split_and!; [reflexivity|done|by vm_compute].
    + apply (Forall_bool _ (λ b, (0 <=? b) && (b <? 128))); [intros b; lia|by vm_compute].
    + by vm_compute.
  - done.
  - split; [|by vm_compute]. exists sample_blocks, [7].
    split_and!; [reflexivity|done| |by repeat constructor|by vm_compute].
    vm_compute. repeat split; try congruence; repeat constructor; congruence.
Qed.

Lemma delivered_document_validated_witness :
  let run a := attempt_run (W := ascii_names) (M := sample_metadata) (D := sample_dsig) (RC := no_other_cache)
                 sample_parse (Some (MkProvider sample_config (Some sample_sp))) sample_first a [] sample_cache in
  run sample_redirected = sample_validate sample_first sample_xml sample_url [] sample_cache ∧
  run sample_redirected = run sample_posted.
Proof.
  refine (delivered_document_validated (W := ascii_names) (M := sample_metadata) (D := sample_dsig)
            (RC := no_other_cache) sample_parse sample_config sample_sp sample_first
            sample_redirected sample_posted sample_xml sample_url [] sample_cache _ _ _).
  - reflexivity.
  - apply sample_delivered. right; right; reflexivity.
  - apply sample_delivered. left; reflexivity.
Defined.

Lemma accepted_response_origin_witness :
  ∃ doc, comes_from (sample_config (St := Empty_set)) sample_posted doc ∧ len doc ≤ 1048576 ∧
    (sample_validate sample_first doc sample_url [] sample_cache).2 = sample_after_first.
Proof.
  destruct (attempt_run (W := ascii_names) (M := sample_metadata) (D := sample_dsig) (RC := no_other_cache)
              sample_parse (Some (MkProvider sample_config (Some sample_sp))) sample_first sample_posted []
              sample_cache) as [[out|e] cache'] eqn:Hrun; [|exfalso; vm_compute in Hrun; discriminate Hrun].
  destruct (accepted_response_origin (W := ascii_names) (M := sample_metadata) (D := sample_dsig)
              (RC := no_other_cache) sample_parse sample_config sample_sp sample_first sample_posted []
              sample_cache cache' out ltac:(reflexivity) Hrun) as (doc & Hfrom & Hlen & Hv).
  exists doc. split; [exact Hfrom|]. split; [exact Hlen|].
  unfold sample_validate. cbn [attempt_URL sample_posted sample_request r_URL] in Hv. rewrite Hv.
  apply (f_equal snd) in Hrun. cbn [snd] in Hrun |- *. rewrite <- Hrun. vm_compute. reflexivity.
Defined.

Lemma printed_document_checked_witness :
  let doc f := document_ok (M := sample_metadata) (D := sample_dsig) (sample_config (St := Empty_set))
                 (resolve ∅ <$> (tree_of <$> f)) in
  doc sample_nodes ∧ ¬ doc [NElem (plain "Response") [] [NText "no assertion"]].
Proof.
  split.
  - apply (printed_document_checked (W := ascii_names) (M := sample_metadata) (D := sample_dsig)
             sample_config sample_nodes).
    + split; discriminate.
    + vm_compute; reflexivity.
    + vm_compute; reflexivity.
  - intros H.
    assert (prechecks (W := ascii_names) (M := sample_metadata) (D := sample_dsig)
              (sample_config (St := Empty_set))
              (print_forest [NElem (plain "Response") [] [NText "no assertion"]]) = Ok tt) as Hp.
    { apply (printed_document_checked (W := ascii_names) (M := sample_metadata) (D := sample_dsig)).
      - split; discriminate.
      - vm_compute; reflexivity.
      - split; [vm_compute; congruence|exact H]. }
    vm_compute in Hp. discriminate Hp.
Defined.

Lemma honest_response_accepted_witness :
  ∃ out mc',
    attempt_run (W := ascii_names) (M := sample_metadata) (D := sample_dsig) (RC := no_other_cache)
      sample_parse (Some (MkProvider sample_config (Some sample_sp))) sample_first sample_redirected []
      (inl (NewMemoryReplayCache 4)) = (Ok out, inl mc') ∧
    items mc' !! "id1"%string = Some (expiryFor (sample_config (St := Empty_set)) 2 sample_parsed).
Proof.
  destruct (assertionFromCrewjam sample_parsed (StrictAttributes (sample_config (St := Empty_set))))
    as [out|e] eqn:Hout; [|exfalso; vm_compute in Hout; discriminate Hout].
  exists out.
  refine (honest_response_accepted (W := ascii_names) (M := sample_metadata) (D := sample_dsig)
            (RC := no_other_cache) sample_parse sample_config sample_sp sample_first sample_redirected
            sample_nodes sample_url [] (NewMemoryReplayCache 4) sample_parsed out _ _ _ _ _ _ _ _ _ _ _).
  - split; discriminate.
  - reflexivity.
  - vm_compute; reflexivity.
  - vm_compute; congruence.
  - apply (prechecks_document (W := ascii_names) (M := sample_metadata) (D := sample_dsig)
             sample_config sample_xml); [split; discriminate|vm_compute; reflexivity..].
  - apply sample_delivered. right; right; reflexivity.
  - reflexivity.
  - discriminate.
  - exact Hout.
  - vm_compute; reflexivity.
  - reflexivity.
Defined.

(** A cache with room for one assertion: another one is refused while the first is valid,
    and the cache stays as it was. *)
Definition sample_full : MemoryReplayCache := MkMemoryReplayCache 1 {["other"%string := 10]}.

Lemma refused_response_spares_cache_witness :
  let run := attempt_run (W := ascii_names) (M := sample_metadata) (D := sample_dsig) (RC := no_other_cache)
               sample_parse
               (Some (MkProvider sample_config (Some sample_sp))) sample_first
               (Document sample_xml sample_url) [] (inl sample_full) in
  run.1 = Err (ErrReplayCache ErrReplayCacheFull) ∧
  (run.2 = inl sample_full ∨ 1 ≤ Z.of_nat (size (live 2 sample_full))).
Proof.
  cbn zeta. destruct (attempt_run _ _ _ _ _ _) as [[out|e] cache'] eqn:H;
    [exfalso; vm_compute in H; discriminate H|].
  assert (e = ErrReplayCache ErrReplayCacheFull) as ->.
  { apply (f_equal fst) in H. vm_compute in H. by injection H as <-. }
  split; [done|].
  destruct (refused_response_spares_cache (W := ascii_names) (M := sample_metadata) (D := sample_dsig) (RC := no_other_cache)
              sample_parse _ _ _ _ _ _ _ H) as [->|(_ & c & sp & [= <- <-] & Hfull & _)].
  - by left.
  - right. exact Hfull.
Defined.
