(* ===== verification/SamlAuthn.v ===== *)
(** * SamlAuthn

    [saml/authn_request.go] and [Provider.NewAuthnRequest]: the endpoint check, the signed
    redirect and the fixed-width ECDSA signature. crewjam's request builder and signing
    context are parameters. *)

From S2P Require Import Prelude GoRuntime GoStrings GoUrl GoBase64 GoAsn1 SamlRawXml SamlConfig.
Local Open Scope Z_scope.

Inductive authn_error : Type :=
| NotConfigured
| NoRedirectBinding
| InvalidEndpoint
| InvalidEndpointQuery
| ReservedParameter
| MakeRequest (e : error)
| BuildRedirect (e : error)
| SigningContext (e : error)
| SignFailed (e : error)
| InvalidECDSAResult
| NilKeyPanic.        (* a nil dereference *)

(** ** The endpoint *)

Definition reserved_parameters : list string :=
  ["SAMLRequest"; "SAMLResponse"; "RelayState"; "SigAlg"; "Signature"]%string.

(** [_, exists := query[name]] for some reserved name. *)
Definition has_reserved (query : list (string * string)) : bool :=
  existsb (λ name, bool_decide (name ∈ query.*1)) reserved_parameters.

(** ** Width of a curve's order *)

(** [(order.BitLen() + 7) / 8] *)
Definition order_width (order : Z) : nat := Z.to_nat ((BitLen order + 7) / 8).

(** A number below the order fits. *)
Lemma order_width_fits order v : 0 < v < order → 0 ≤ v < 256 ^ Z.of_nat (order_width order).
Proof.
  intros Hv. unfold order_width, BitLen. destruct (Z.eqb_spec order 0); [lia|].
  rewrite Z.abs_eq by lia. pose proof (Z.log2_nonneg order).
  pose proof (Z.log2_spec order ltac:(lia)) as [_ Hlog].
  set (b := Z.log2 order) in *.
  rewrite Z2Nat.id by (apply Z.div_pos; lia). change 256 with (2 ^ 8).
  rewrite <- Z.pow_mul_r by (try apply Z.div_pos; lia).
  assert (2 ^ Z.succ b ≤ 2 ^ (8 * ((b + 1 + 7) / 8))) by (apply Z.pow_le_mono_r; [lia|zdiv]).
  lia.
Qed.

(** The least number of bytes that hold the order of a curve. *)
Definition is_width (order : Z) (w : nat) : Prop := 256 ^ (Z.of_nat w - 1) ≤ order < 256 ^ Z.of_nat w.

Lemma order_width_least order : 0 < order → is_width order (order_width order).
Proof.
  intros Ho. destruct (BitLen_spec order Ho) as (Hb & Hlo & Hhi). unfold is_width, order_width.
  set (b := BitLen order) in *. assert (1 ≤ (b + 7) / 8) as Hw by zdiv.
  rewrite Z2Nat.id by lia. change 256 with (2 ^ 8). rewrite <- !Z.pow_mul_r by lia. split.
  - eapply Z.le_trans; [|exact Hlo]. apply Z.pow_le_mono_r; [done|zdiv].
  - eapply Z.lt_le_trans; [exact Hhi|]. apply Z.pow_le_mono_r; [done|zdiv].
Qed.

Section authn.
Context {M : Metadata} {D : Dsig} {X : X509} {St : Type}.

Definition authnEndpoint (raw relay : string) : res authn_error URL :=
  endpoint ← of_option (url_Parse raw) InvalidEndpoint;
  _ ← check (negb ((negb (bool_decide (Scheme endpoint = "https"%string)) &&
                    negb (bool_decide (Scheme endpoint = "http"%string)))
                   || bool_decide (Host endpoint = ""%string) || negb (bool_decide (User endpoint = None))
                   || negb (bool_decide (Fragment endpoint = ""%string))
                   || (80 <? len relay))) InvalidEndpoint;
  query ← of_option (ParseQuery (RawQuery endpoint)) InvalidEndpointQuery;
  _ ← check (negb (has_reserved query)) ReservedParameter;
  Ok endpoint.

(** crewjam's request, its ID and its redirect for the given service provider. *)
Context {AuthnReq : Type} (req_ID : AuthnReq → string).
Context (Redirect : AuthnReq → string → ServiceProvider → res error URL).
Context (MakeAuthenticationRequest : ServiceProvider → string → res error AuthnReq).
Context (GetSSOBindingLocation : ServiceProvider → string).
(** crewjam's signing context and goxmldsig's [SignString]. *)
Context {SignCtx : Type} (GetSigningContext : ServiceProvider → res error SignCtx).
Context (SignString : SignCtx → string → res error string).

(** ASN.1 to [r || s]. *)
Definition ecdsa_raw (order : Z) (signature : string) : res authn_error string :=
  match asn1_Unmarshal signature with
  | Some (rest, Some r, Some s) =>
      if negb (len rest =? 0) || (Z.sgn r <=? 0) || (Z.sgn s <=? 0) || (order <=? r)
         || (order <=? s)
      then Err InvalidECDSAResult
      else let width := order_width order in
           Ok (of_bytes (FillBytes width r ++ FillBytes width s))
  | _ => Err InvalidECDSAResult
  end.

Definition set_RawQuery (u : URL) (q : string) : URL :=
  MkURL (Scheme u) (Opaque u) (User u) (Host u) (Path u) (RawPath u) (OmitHost u) (ForceQuery u) q
        (Fragment u) (RawFragment u).

Definition set_SignatureMethod (sp : ServiceProvider) (m : string) : ServiceProvider :=
  MkServiceProvider (sp_EntityID sp) (sp_AcsURL sp) (sp_Key sp) (sp_Certificate sp)
    (sp_IDPMetadata sp) (sp_AllowIDPInitiated sp) (sp_AuthnNameIDFormat sp) m.

(** The octets that are signed. *)
Definition signed_query (message relay method : string) : string :=
  let query := "SAMLRequest=" +:+ QueryEscape message in
  let query := if bool_decide (relay = ""%string) then query
               else query +:+ "&RelayState=" +:+ QueryEscape relay in
  query +:+ "&SigAlg=" +:+ QueryEscape method.

Definition authnRedirect (request : AuthnReq) (sp : ServiceProvider) (endpoint : URL)
    (relay : string) : res authn_error URL :=
  let unsigned := set_SignatureMethod sp "" in
  redirect ← wrap BuildRedirect (Redirect request (QueryEscape relay) unsigned);
  if bool_decide (sp_SignatureMethod sp = ""%string) then Ok redirect
  else
    let query := signed_query (Get (url_Query redirect) "SAMLRequest") relay
                              (sp_SignatureMethod sp) in
    signing ← wrap SigningContext (GetSigningContext sp);
    signature ← wrap SignFailed (SignString signing query);
    signature ← (match sp_Key sp with
                 | Some (EcdsaKey key) =>
                     match key ≫= ec_Curve with
                     | Some curve => ecdsa_raw (Params_N curve) signature
                     | None => Err NilKeyPanic
                     end
                 | _ => Ok signature
                 end);
    let query := query +:+ "&Signature=" +:+ QueryEscape (EncodeToString StdEncoding signature) in
    let query := if bool_decide (RawQuery endpoint = ""%string) then query
                 else RawQuery endpoint +:+ "&" +:+ query in
    Ok (set_RawQuery redirect query).

Record AuthnRequest : Type := MkAuthnRequest { AR_ID : string; AR_RedirectURL : string }.

Definition NewAuthnRequest (p : option (Provider St)) (relayState : string)
    : res authn_error AuthnRequest :=
  match p with
  | Some (MkProvider _ (Some sp)) =>
      match sp_IDPMetadata sp with
      | None => Err NotConfigured
      | Some _ =>
          let idpURL := GetSSOBindingLocation sp in
          _ ← check (bool_decide (idpURL ≠ ""%string)) NoRedirectBinding;
          endpoint ← authnEndpoint idpURL relayState;
          req ← wrap MakeRequest (MakeAuthenticationRequest sp idpURL);
          redirectURL ← authnRedirect req sp endpoint relayState;
          Ok (MkAuthnRequest (req_ID req) (url_String redirectURL))
      end
  | _ => Err NotConfigured
  end.

(** ** The signed query *)

Definition signed_pairs (message relay method : string) : list (string * string) :=
  [("SAMLRequest"%string, message)] ++
  (if decide (relay = ""%string) then [] else [("RelayState"%string, relay)]) ++
  [("SigAlg"%string, method)].

Lemma pair_prefix k v : QueryEscape k = k → k +:+ "=" +:+ QueryEscape v = encode_pair (k, v).
Proof. unfold encode_pair; cbn [fst snd]. by intros ->. Qed.

(** The octets are the encoded pairs, joined. *)
Lemma parse_pairs_signed message relay method :
  parse_pairs (signed_query message relay method) = Some (signed_pairs message relay method).
Proof.
  unfold signed_query, signed_pairs.
  change ("&SigAlg=" +:+ QueryEscape method)
    with ("&" +:+ "SigAlg" +:+ "=" +:+ QueryEscape method).
  change ("&RelayState=" +:+ QueryEscape relay)
    with ("&" +:+ "RelayState" +:+ "=" +:+ QueryEscape relay).
  change ("SAMLRequest=" +:+ QueryEscape message)
    with ("SAMLRequest" +:+ "=" +:+ QueryEscape message).
  rewrite !pair_prefix by done. rewrite if_bool_decide. case_decide.
  - by rewrite parse_pairs_amp, !parse_pairs_pair.
  - by rewrite !parse_pairs_amp, !parse_pairs_pair.
Qed.

Lemma signed_query_encodes message relay method :
  signed_query message relay method = encode_pairs (signed_pairs message relay method).
Proof.
  unfold signed_query, signed_pairs. rewrite if_bool_decide. case_decide; cbn [app].
  - rewrite !encode_pairs_cons, <- !pair_prefix by done. cbn. by rewrite <- !(assoc_L String.append).
  - rewrite !encode_pairs_cons, <- !pair_prefix by done. cbn. by rewrite <- !(assoc_L String.append).
Qed.

Lemma with_signature query pairs sig :
  parse_pairs query = Some pairs →
  parse_pairs (query +:+ "&Signature=" +:+ QueryEscape sig) =
  Some (pairs ++ [("Signature"%string, sig)]).
Proof.
  intros Hq. change ("&Signature=" +:+ QueryEscape sig)
    with ("&" +:+ "Signature" +:+ "=" +:+ QueryEscape sig).
  rewrite pair_prefix by done. by rewrite parse_pairs_amp, Hq, parse_pairs_pair.
Qed.

Lemma has_reserved_false query name :
  has_reserved query = false → name ∈ reserved_parameters → name ∉ query.*1.
Proof.
  unfold has_reserved. intros He Hn Hin.
  assert (existsb (λ name, bool_decide (name ∈ query.*1)) reserved_parameters = true) as Ht.
  { apply existsb_exists. exists name. split; [by apply list_elem_of_In|].
    by apply bool_decide_eq_true. }
  congruence.
Qed.

Lemma authnEndpoint_Ok raw relay u :
  authnEndpoint raw relay = Ok u →
  url_Parse raw = Some u ∧ (Scheme u = "https"%string ∨ Scheme u = "http"%string) ∧
  Host u ≠ ""%string ∧ User u = None ∧ Fragment u = ""%string ∧ len relay ≤ 80 ∧
  ∃ q, ParseQuery (RawQuery u) = Some q ∧ Forall (λ name, name ∉ q.*1) reserved_parameters.
Proof.
  unfold authnEndpoint. intros H. res_inv. bool_simp.
  split_and!; try done.
  - match goal with H : _ && _ = false |- _ => apply andb_false_iff in H as [H|H] end;
      bool_simp; auto.
  - eexists. split; [done|]. apply Forall_forall. intros name. by apply has_reserved_false.
Qed.

(** The ECDSA conversion is lossless, of fixed width, and only of numbers in range. *)
Lemma ecdsa_raw_Ok order der sig :
  ecdsa_raw order der = Ok sig →
  ∃ r s, asn1_Unmarshal der = Some (""%string, Some r, Some s) ∧ 0 < r < order ∧ 0 < s < order ∧
    let width := order_width order in
    length (bytes sig) = (2 * width)%nat ∧
    SetBytes (take width (bytes sig)) = r ∧ SetBytes (drop width (bytes sig)) = s.
Proof.
  unfold ecdsa_raw. destruct (asn1_Unmarshal der) as [[[rest [r|]] [s|]]|]; try done.
  destruct (_ || _) eqn:Hc; [done|]. bool_simp. intros [= <-].
  assert (rest = ""%string) as ->.
  { unfold len in *. destruct rest; [done|]. cbn in *. lia. }
  assert (0 < r < order) by (destruct (Z.sgn_spec r); lia).
  assert (0 < s < order) by (destruct (Z.sgn_spec s); lia).
  exists r, s. split_and!; [done|lia..| | |]; cbn zeta;
    rewrite bytes_of_bytes by are_bytes.
  - rewrite length_app, !length_FillBytes. lia.
  - rewrite take_app_length' by (by rewrite length_FillBytes).
    by apply SetBytes_FillBytes, order_width_fits.
  - rewrite drop_app_length' by (by rewrite length_FillBytes).
    by apply SetBytes_FillBytes, order_width_fits.
Qed.

(** C12 (roundtrip): the DER signature of two positive numbers, as Go's signers write it,
    becomes the XML signature form exactly when nothing follows it and both numbers are
    below the order: the two numbers at the width of the order, from which both are read
    back. *)
Theorem ecdsa_signature_converted order r s extra sig
  (Hr : 0 < r) (Hs : 0 < s) (Br : BitLen r ≤ 80000) (Bs : BitLen s ≤ 80000) :
  let width := order_width order in
  ecdsa_raw order (der_signature r s +:+ extra) = Ok sig ↔
  extra = ""%string ∧ r < order ∧ s < order ∧
  length (bytes sig) = (2 * width)%nat ∧
  SetBytes (take width (bytes sig)) = r ∧ SetBytes (drop width (bytes sig)) = s ∧
  Forall is_byte (bytes sig).
Proof.
  cbn zeta. split.
  - intros H. pose proof H as (r' & s' & Hu & ? & ? & Hlen & Hsr & Hss)%ecdsa_raw_Ok.
    rewrite asn1_Unmarshal_der in Hu by done. injection Hu as -> <- <-.
    split_and!; [done|lia|lia|done|done|done|apply bytes_are_bytes].
  - intros (-> & ? & ? & Hlen & Hsr & Hss & Hb). unfold ecdsa_raw. rewrite asn1_Unmarshal_der by done.
    rewrite !Z.sgn_pos by done. destruct (Z.leb_spec order r); [lia|]. destruct (Z.leb_spec order s); [lia|].
    cbn [orb negb]. f_equal. apply bytes_inj.
    rewrite bytes_of_bytes by are_bytes.
    set (w := order_width order) in *. rewrite <- (take_drop w (bytes sig)). f_equal.
    + apply SetBytes_inj; [rewrite length_FillBytes, length_take; lia|apply FillBytes_are_bytes|by apply Forall_take|].
      rewrite SetBytes_FillBytes by (by apply order_width_fits). done.
    + apply SetBytes_inj; [rewrite length_FillBytes, length_drop; lia|apply FillBytes_are_bytes|by apply Forall_drop|].
      rewrite SetBytes_FillBytes by (by apply order_width_fits). done.
Qed.

(** The query of a signed redirect, behind the query of the endpoint. *)
Lemma signed_query_parses built endpoint q message relay method sig :
  parse_pairs (RawQuery endpoint) = Some q →
  let query := signed_query message relay method +:+ "&Signature=" +:+ QueryEscape sig in
  parse_pairs (RawQuery (set_RawQuery built
    (if decide (RawQuery endpoint = ""%string) then query
     else RawQuery endpoint +:+ "&" +:+ query))) =
  Some (q ++ signed_pairs message relay method ++ [("Signature"%string, sig)]).
Proof.
  intros Hq query. cbn [set_RawQuery RawQuery].
  pose proof (with_signature _ _ sig (parse_pairs_signed message relay method)) as Hw.
  case_decide as Hraw.
  - rewrite Hraw in Hq. cbn in Hq. injection Hq as <-. by unfold query; rewrite Hw.
  - unfold query. by rewrite parse_pairs_amp, Hq, Hw.
Qed.

(** [sig] is the signature over [octets]: as the signer returned it, or for an ECDSA key
    its two numbers, below the order of the key's own curve and at the width of that. *)
Definition signature_over (sp : ServiceProvider) (octets sig : string) : Prop :=
  ∃ ctx signed, GetSigningContext sp = Ok ctx ∧ SignString ctx octets = Ok signed ∧
    match sp_Key sp with
    | Some (EcdsaKey key) =>
        ∃ k curve width r s, key = Some k ∧ ec_Curve k = Some curve ∧ is_width (Params_N curve) width ∧
          asn1_Unmarshal signed = Some (""%string, Some r, Some s) ∧
          0 < r < Params_N curve ∧ 0 < s < Params_N curve ∧
          length (bytes sig) = (2 * width)%nat ∧
          SetBytes (take width (bytes sig)) = r ∧ SetBytes (drop width (bytes sig)) = s
    | _ => sig = signed
    end.

Lemma authnRedirect_signed request sp endpoint relay redirect :
  sp_SignatureMethod sp ≠ ""%string → authnRedirect request sp endpoint relay = Ok redirect →
  ∃ built sig,
    Redirect request (QueryEscape relay) (set_SignatureMethod sp "") = Ok built ∧
    let octets := signed_query (Get (url_Query built) "SAMLRequest") relay
                               (sp_SignatureMethod sp) in
    let query := octets +:+ "&Signature=" +:+ QueryEscape (EncodeToString StdEncoding sig) in
    signature_over sp octets sig ∧
    redirect = set_RawQuery built (if decide (RawQuery endpoint = ""%string) then query
                                   else RawQuery endpoint +:+ "&" +:+ query).
Proof.
  intros Hm. unfold authnRedirect. intros (built & Hb%wrap_Ok & H)%bind_Ok.
  rewrite bool_decide_eq_false_2 in H by done.
  apply bind_Ok in H as (ctx & Hctx%wrap_Ok & H). apply bind_Ok in H as (der & Hder%wrap_Ok & H).
  apply bind_Ok in H as (sig & Hsig & H). injection H as <-. rewrite if_bool_decide.
  exists built, sig. split; [done|]. split; [|done]. exists ctx, der. split_and!; [done..|].
  destruct (sp_Key sp) as [[k|[k|]|n]|]; try (by injection Hsig as <-); [|done].
  cbn [mbind option_bind] in Hsig. destruct (ec_Curve k) as [curve|] eqn:Hcurve; [|done].
  apply ecdsa_raw_Ok in Hsig as (r & s & Hu & Hr & Hs & Hsig).
  exists k, curve, (order_width (Params_N curve)), r, s. split_and!; [done|done| |done|lia..|by apply Hsig|by apply Hsig|by apply Hsig].
  apply order_width_least. lia.
Qed.

(** A redirect of more parameters than the limit of GoUrl has no query for the code: the
    request it signs and sends is empty, without an error. *)
Lemma oversized_redirect_signed request sp endpoint relay built redirect q :
  sp_SignatureMethod sp ≠ ""%string → parse_pairs (RawQuery endpoint) = Some q →
  Redirect request (QueryEscape relay) (set_SignatureMethod sp "") = Ok built →
  params_within_max (RawQuery built) = false →
  authnRedirect request sp endpoint relay = Ok redirect →
  ∃ sig, signature_over sp (signed_query "" relay (sp_SignatureMethod sp)) sig ∧
    parse_pairs (RawQuery redirect) =
    Some (q ++ signed_pairs "" relay (sp_SignatureMethod sp) ++
          [("Signature"%string, EncodeToString StdEncoding sig)]).
Proof.
  intros Hm Hq Hbuilt Hmax (built' & sig & Hb' & Hsig & ->)%authnRedirect_signed; [|done].
  rewrite Hbuilt in Hb'. injection Hb' as <-. rewrite (oversized_query _ _ Hmax) in Hsig |- *.
  exists sig. split; [exact Hsig|]. by apply signed_query_parses.
Qed.

(** C11 (safety): a signed login redirect. The endpoint was an http(s) URL with a host and
    no credentials or fragment, whose query has no parameter of the binding. The message is
    the one crewjam put into the redirect it built for the unsigned request. What is signed
    are exactly the octets that the query of the redirect has between the endpoint's own
    parameters and the Signature: SAMLRequest with the message, RelayState if there is one,
    SigAlg with the method, escaped and in this order. The signature that follows is the
    signer's; with an ECDSA key it is the two numbers that the signer's ASN.1 holds, below
    the order of that key's curve, each at the width of that order. The query stands in the
    URL that is returned as it is, and is read back as these parameters, each reserved one
    at most once. *)
Theorem signed_redirect c sp relay r
  (Hmethod : sp_SignatureMethod sp ≠ ""%string)
  (Hr : NewAuthnRequest (Some (MkProvider c (Some sp))) relay = Ok r) :
  ∃ endpoint q req built sig query,
    authnEndpoint (GetSSOBindingLocation sp) relay = Ok endpoint ∧
    (Scheme endpoint = "https"%string ∨ Scheme endpoint = "http"%string) ∧
    Host endpoint ≠ ""%string ∧ User endpoint = None ∧ Fragment endpoint = ""%string ∧
    ParseQuery (RawQuery endpoint) = Some q ∧
    Forall (λ name, name ∉ q.*1) reserved_parameters ∧
    MakeAuthenticationRequest sp (GetSSOBindingLocation sp) = Ok req ∧ AR_ID r = req_ID req ∧
    Redirect req (QueryEscape relay) (set_SignatureMethod sp "") = Ok built ∧
    let pairs := signed_pairs (Get (url_Query built) "SAMLRequest") relay (sp_SignatureMethod sp) in
    let octets := encode_pairs pairs in
    let signature := EncodeToString StdEncoding sig in
    signature_over sp octets sig ∧
    query = (if decide (RawQuery endpoint = ""%string) then "" else RawQuery endpoint +:+ "&") +:+
            octets +:+ "&Signature=" +:+ QueryEscape signature ∧
    parse_pairs query = Some (q ++ pairs ++ [("Signature"%string, signature)]) ∧
    ∃ before after, AR_RedirectURL r = before +:+ "?" +:+ query +:+ after ∧
      (after = ""%string ∨ ∃ fragment, after = "#" +:+ fragment).
Proof.
  unfold NewAuthnRequest in Hr. destruct (sp_IDPMetadata sp); [|done].
  apply bind_Ok in Hr as (_ & _ & Hr). apply bind_Ok in Hr as (endpoint & He & Hr).
  apply bind_Ok in Hr as (req & Hreq%wrap_Ok & Hr). apply bind_Ok in Hr as (redirect & Hred & Hr).
  injection Hr as <-. apply authnRedirect_signed in Hred as (built & sig & Hbuilt & Hsig & Hquery); [|done].
  pose proof (authnEndpoint_Ok _ _ _ He) as (_ & Hs & Hh & Hu & Hf & _ & q & Hq & Hres).
  exists endpoint, q, req, built, sig, (RawQuery redirect). split_and!; [done..|]. cbn zeta.
  rewrite <- signed_query_encodes. split; [exact Hsig|]. split.
  { rewrite Hquery. cbn [set_RawQuery RawQuery]. case_decide; [done|]. by rewrite <- (assoc_L String.append). }
  split; [rewrite Hquery; by apply signed_query_parses, ParseQuery_pairs|].
  apply url_String_query. rewrite Hquery. cbn [set_RawQuery RawQuery]. unfold signed_query.
  case_decide; [|by destruct (RawQuery endpoint)]. by case_bool_decide.
Qed.
End authn.

(** ** Witnesses *)

Definition sample_redirect : URL :=
  default blank_URL (url_Parse "https://idp/sso?t=1&SAMLRequest=abc").

Definition sample_curve : Curve := MkCurve 256 257 (λ _ _, true).
Definition sample_signing_sp : ServiceProvider (M := sample_metadata) := MkServiceProvider
  (M := sample_metadata) "sp" sample_url
  (Some (EcdsaKey (Some (EcdsaPrivateKey (Some sample_curve) (Some 1) (Some 1) (Some 1)))))
  (Some "key"%string) (Some [None]) false "unspecified" "ecdsa-sha256".

(** An endpoint within the limit, whose redirect is past it. *)
Example oversized_endpoint :
  let raw := "https://idp/sso?" +:+ of_bytes (repeat 38 9999) in
  match authnEndpoint raw "" with
  | Ok u => params_within_max (RawQuery u +:+ "&SAMLRequest=abc") = false
  | Err _ => False
  end.
Proof. by vm_compute. Qed.

Lemma signed_redirect_witness :
  ∃ r, NewAuthnRequest (M := sample_metadata) (St := Empty_set) 
         (AuthnReq := unit) (λ _, "req1"%string) (λ _ _ _, Ok sample_redirect) (λ _ _, Ok tt)
         (λ _, "https://idp/sso?t=1"%string) (SignCtx := unit) (λ _, Ok tt) (λ _ _, Ok (der_signature 5 256))
         (Some (MkProvider sample_config (Some sample_signing_sp))) "relay" = Ok r ∧
  AR_RedirectURL r = "https://idp/sso?t=1&SAMLRequest=abc&RelayState=relay&SigAlg=ecdsa-sha256&Signature=AAUBAA%3D%3D"%string ∧
  ∃ query sig before after, AR_RedirectURL r = before +:+ "?" +:+ query +:+ after ∧
    parse_pairs query =
    Some ([("t", "1"); ("SAMLRequest", "abc"); ("RelayState", "relay"); ("SigAlg", "ecdsa-sha256");
           ("Signature", EncodeToString StdEncoding sig)]%string).
Proof.
  eexists. split; [vm_compute; reflexivity|]. split; [reflexivity|].
  edestruct (signed_redirect (M := sample_metadata) (St := Empty_set) 
         (AuthnReq := unit) (λ _, "req1"%string) (λ _ _ _, Ok sample_redirect) (λ _ _, Ok tt)
         (λ _, "https://idp/sso?t=1"%string) (SignCtx := unit) (λ _, Ok tt) (λ _ _, Ok (der_signature 5 256))
         sample_config sample_signing_sp "relay")
    as (endpoint & q & req & built & sig & query & He & _ & _ & _ & _ & Hq & _ & _ & _ & Hb & _ & _ & Hp & before & after & Hu & _).
  - discriminate.
  - vm_compute; reflexivity.
  - exists query, sig, before, after. split; [exact Hu|]. rewrite Hp. injection Hb as <-.
    vm_compute in He. injection He as <-. vm_compute in Hq. by injection Hq as <-.
Defined.

(** A number with its top bit set, and one shorter than the order. *)
Lemma ecdsa_signature_converted_witness :
  ecdsa_raw 257 (der_signature 200 5) = Ok (of_bytes [0; 200; 0; 5]) ∧ 200 < 257.
Proof.
  split; [vm_compute; reflexivity|].
  destruct (ecdsa_signature_converted 257 200 5 "" (of_bytes [0; 200; 0; 5]))
    as [H _]; [done|done|vm_compute; congruence|vm_compute; congruence|].
  apply H. vm_compute. reflexivity.
Defined.
