(* ===== verification/PasskeySessions.v ===== *)
(** * PasskeySessions

    [passkey/session_store.go]: [SessionStore] as the class [SessionStore] with its laws,
    and [MemoryStore], its in-process implementation on [TtlStore]. [Put] reads the clock
    before it takes the lock, so the readings of a sequence of calls come in any order;
    what [rand.Read] returns is an argument of [Put]. *)

From S2P Require Import Prelude GoRuntime GoStrings GoBase64 TtlStore.

Definition error : Type := string.

(** ** The interface *)

(** [Put] is given what the random source returns and the clock reading. *)
Class SessionStore (V St : Type) : Type := {
  store_Put : res error string → Time → V → St → res error string * St;
  store_Take : Time → string → St → option V * St;
}.

(** [absent id st]: no session is held under [id]. *)
Class SessionLaws (V St : Type) `{SessionStore V St} (absent : string → St → Prop) : Prop := {
  Take_removes st now id : absent id (store_Take (V := V) now id st).2;
  Take_absent st now id : absent id st → (store_Take (V := V) now id st).1 = None;
  absent_Take st now id id' : absent id st → absent id (store_Take (V := V) now id' st).2;
  absent_Put st rand now v id :
    absent id st → (store_Put rand now v st).1 ≠ Ok id →
    absent id (store_Put rand now v st).2;
}.

(** ** MemoryStore *)

Definition DefaultSessionTTL : Duration := 5 * Minute.
Definition DefaultSessionCapacity : Z := 10000.

Section sessions.
Context {V : Type}.
Implicit Types s : store V.

Definition newMemoryStore (maxItems : Z) (ttl : Duration) : store V :=
  let maxItems := if Z.leb maxItems 0 then DefaultSessionCapacity else maxItems in
  let ttl := if Z.leb ttl 0 then DefaultSessionTTL else ttl in
  new_store maxItems ttl.

Definition DefaultMemoryStore : store V :=
  newMemoryStore DefaultSessionCapacity DefaultSessionTTL.

Definition purgeExpiredLocked (now : Time) s : store V := purge_expired now s.

(** The id made of the random bytes. *)
Definition session_id (idBytes : string) : string := EncodeToString RawURLEncoding idBytes.

Definition Put (rand : res error string) (now : Time) (data : V) s : res error string * store V :=
  match rand with
  | Err e => (Err e, s)
  | Ok idBytes =>
      let id := session_id idBytes in
      let s := purgeExpiredLocked now s in
      let s := evict_to_capacity s in
      (Ok id, push_entry id data (Add now (ttl s)) s)
  end.

Definition Take (now : Time) (id : string) s : option V * store V :=
  if bool_decide (id = ""%string) then (None, s)
  else match items s !! id with
       | None => (None, s)
       | Some e =>
           (if After now (e_expires e) then None else Some (e_value e),
            drop_entry id (e_elem e) s)
       end.

Definition Len s : Z := store_Len s.

(** ** The specification: a bounded queue *)

Definition spec_Put (max : Z) (ttl : Duration) (now : Time) (id : string) (data : V)
    (q : list (string * (V * Time))) : list (string * (V * Time)) :=
  q_make_room max (q_purge now q) ++ [(id, (data, Add now ttl))].

Definition spec_Take (now : Time) (id : string) (q : list (string * (V * Time)))
    : option V * list (string * (V * Time)) :=
  match q_find id q with
  | None => (None, q)
  | Some (v, expires) => (if After now expires then None else Some v, q_delete id q)
  end.

(** ** Operations *)

Inductive op : Type :=
| OpPut (rand : res error string) (now : Time) (data : V)
| OpTake (now : Time) (id : string)
| OpLen.

Inductive out : Type :=
| OutPut (r : res error string)
| OutTake (r : option V)
| OutLen (n : Z).

Definition step (o : op) s : out * store V :=
  match o with
  | OpPut rand now data => let '(r, s) := Put rand now data s in (OutPut r, s)
  | OpTake now id => let '(r, s) := Take now id s in (OutTake r, s)
  | OpLen => (OutLen (Len s), s)
  end.

Definition spec_step (max : Z) (ttl : Duration) (o : op) (q : list (string * (V * Time)))
    : out * list (string * (V * Time)) :=
  match o with
  | OpPut (Err e) _ _ => (OutPut (Err e), q)
  | OpPut (Ok idBytes) now data =>
      (OutPut (Ok (session_id idBytes)), spec_Put max ttl now (session_id idBytes) data q)
  | OpTake now id => let '(r, q) := spec_Take now id q in (OutTake r, q)
  | OpLen => (OutLen (Z.of_nat (length q)), q)
  end.

Fixpoint run {S} (stp : op → S → out * S) (ops : list op) (s : S) : list out * S :=
  match ops with
  | [] => ([], s)
  | o :: ops => let '(y, s) := stp o s in let '(ys, s) := run stp ops s in (y :: ys, s)
  end.

(** The random bytes the operations use. *)
Definition op_rand (o : op) : option string :=
  match o with OpPut (Ok idBytes) _ _ => Some idBytes | _ => None end.

(** ** Simulation *)

Lemma session_id_inj a b : session_id a = session_id b → a = b.
Proof. apply EncodeToString_inj. Qed.

Lemma session_id_nonempty a : a ≠ ""%string → session_id a ≠ ""%string.
Proof. intros Ha He. apply Ha. by apply session_id_inj. Qed.

Lemma Put_spec max d idBytes now v s :
  inv max d s → items s !! session_id idBytes = None →
  inv max d (Put (Ok idBytes) now v s).2 ∧
  abs (Put (Ok idBytes) now v s).2 = spec_Put max d now (session_id idBytes) v (abs s).
Proof.
  intros (Hwf & Hmax & Hd & Hpos & _) Hn. cbn [Put snd]. unfold spec_Put, purgeExpiredLocked.
  set (id := session_id idBytes) in *.
  destruct (purge_expired_spec now s Hwf) as (H1 & A1 & T1 & M1).
  destruct (evict_to_capacity_spec _ H1) as (H2 & A2 & T2 & M2); [congruence|].
  assert (items (evict_to_capacity (purge_expired now s)) !! id = None) as N2.
  { apply evict_loop_None. by apply purge_loop_None. }
  destruct (push_entry_spec id v (Add now (ttl (evict_to_capacity (purge_expired now s)))) _ H2 N2)
    as (H3 & A3 & T3 & M3).
  assert (maxItems (purge_expired now s) = max) as Hm by congruence.
  rewrite Hm, A1 in A2. split.
  - split_and!; [done|congruence|congruence|done|].
    rewrite abs_Len, A3, length_app by done. cbn [length]. rewrite A2.
    pose proof (q_make_room_length max (q_purge now (abs s)) Hpos). lia.
  - rewrite A3, A2. do 4 f_equal. congruence.
Qed.

(** No entry is held under the empty id. *)
Definition named s : Prop := items s !! ""%string = None.

Lemma Take_spec max d now id s :
  inv max d s → named s →
  let '(r, s') := Take now id s in
  inv max d s' ∧ spec_Take now id (abs s) = (r, abs s').
Proof.
  intros Hinv Hname. pose proof Hinv as (Hwf & _). unfold Take, spec_Take.
  rewrite abs_find by done. case_bool_decide as Hid; [subst; by rewrite Hname|].
  destruct (items s !! id) as [e|] eqn:He; [|done]. cbn.
  rewrite <- (abs_drop s id e) by done. split; [by apply inv_drop|done].
Qed.

(** The ids of the store are among those issued. *)
Definition issued (ids : list string) s : Prop :=
  ∀ id, id ∉ ids → items s !! id = None.

Lemma Take_None now id id' s : items s !! id = None → items (Take now id' s).2 !! id = None.
Proof.
  intros Hid. unfold Take. case_bool_decide; [done|]. destruct (items s !! id'); [|done].
  apply lookup_delete_None. auto.
Qed.

Lemma Put_None rand now v id s :
  items s !! id = None → (Put rand now v s).1 ≠ Ok id → items (Put rand now v s).2 !! id = None.
Proof.
  intros Hid. destruct rand as [idBytes|]; cbn; [|done]. intros Hne.
  rewrite lookup_insert_ne by congruence. apply evict_loop_None. by apply purge_loop_None.
Qed.

Lemma Take_removed now id s :
  named s → items (Take now id s).2 !! id = None.
Proof.
  intros Hn. unfold Take. case_bool_decide; [by subst|].
  destruct (items s !! id) eqn:He; [apply lookup_delete_eq|done].
Qed.

(** A [Take] right after the [Put], within the lifetime. *)
Lemma Put_Take max d b now now' data s :
  inv max d s → items s !! session_id b = None → b ≠ ""%string → (now' ≤ Add now d)%Z →
  ∃ s2, Take now' (session_id b) (Put (Ok b) now data s).2 = (Some data, s2) ∧ inv max d s2 ∧
        ∀ id, items s !! id = None → items s2 !! id = None.
Proof.
  intros Hinv Hn Hb Hnow'. destruct (Put_spec max d b now data s Hinv Hn) as [Hinv1 _].
  assert (∃ e, items (Put (Ok b) now data s).2 !! session_id b = Some e ∧
               e_value e = data ∧ e_expires e = Add now d) as (e & He & Hv & Ht).
  { cbn [Put snd]. eexists. split; [apply lookup_insert_eq|]. split; [done|]. cbn. f_equal.
    destruct Hinv as (Hwf & Hmax & Hd & Hpos & _). unfold purgeExpiredLocked.
    destruct (purge_expired_spec now s Hwf) as (H1 & _ & T1 & M1).
    destruct (evict_to_capacity_spec _ H1) as (_ & _ & T2 & _); congruence. }
  unfold Take. rewrite bool_decide_eq_false_2 by (by apply session_id_nonempty). rewrite He, Hv, Ht.
  unfold After. destruct (Z.ltb_spec (Add now d) now'); [lia|].
  eexists. split; [done|]. split; [by apply inv_drop|]. intros id Hid.
  destruct (decide (id = session_id b)) as [->|Hne]; [apply lookup_delete_eq|].
  pose proof (Put_None (Ok b) now data id s Hid) as Hput. cbn [drop_entry items].
  rewrite lookup_delete_ne by done. apply Hput. cbn. congruence.
Qed.

(** Random bytes that are not empty and were not used before. *)
Definition fresh (used : list string) (o : op) : Prop :=
  ∀ b, op_rand o = Some b → b ≠ ""%string ∧ b ∉ used.

Lemma session_step_spec max d used o s :
  inv max d s → issued (session_id <$> used) s → ""%string ∉ used → fresh used o →
  let '(y, s') := step o s in
  inv max d s' ∧ issued (session_id <$> (used ++ option_list (op_rand o))) s' ∧
  spec_step max d o (abs s) = (y, abs s').
Proof.
  intros Hinv Hiss Hne Hfresh.
  assert (named s) as Hname.
  { apply Hiss. intros (b & Hb & Hu)%list_elem_of_fmap. symmetry in Hb.
    by apply (session_id_nonempty b); [intros ->|]. }
  destruct o as [rand now v|now id|]; cbn [step spec_step op_rand option_list].
  - destruct rand as [b|e]; cbn [op_rand option_list]; [|by rewrite app_nil_r].
    destruct (Hfresh b eq_refl) as [Hb Hu].
    assert (items s !! session_id b = None) as Hn.
    { apply Hiss. intros (b' & Hb' & Hu')%list_elem_of_fmap.
      apply session_id_inj in Hb' as ->. done. }
    destruct (Put_spec max d b now v s Hinv Hn) as [Hinv' Habs].
    cbn [Put] in Hinv', Habs |- *. split_and!; [done| |by rewrite <- Habs].
    intros id Hid. rewrite fmap_app in Hid. cbn in Hid.
    apply (Put_None (Ok b) now v); [apply Hiss|cbn]; set_solver.
  - pose proof (Take_spec max d now id s Hinv Hname) as Ht.
    pose proof (λ i Hi, Take_None now i id s (Hiss i Hi)) as Hn.
    destruct (Take now id s) as [r s']. destruct Ht as [Ht ->]. rewrite app_nil_r.
    by split_and!.
  - rewrite app_nil_r. split_and!; [done..|]. unfold Len. by rewrite abs_Len by apply Hinv.
Qed.

Lemma session_run_spec max d ops : ∀ used s,
  inv max d s → issued (session_id <$> used) s →
  ""%string ∉ used ++ omap op_rand ops → NoDup (used ++ omap op_rand ops) →
  let '(ys, s') := run step ops s in
  inv max d s' ∧ issued (session_id <$> (used ++ omap op_rand ops)) s' ∧
  run (spec_step max d) ops (abs s) = (ys, abs s').
Proof.
  induction ops as [|o ops IH]; intros used s Hinv Hiss Hne Hnd; cbn [run].
  { cbn. by rewrite app_nil_r. }
  assert (used ++ omap op_rand (o :: ops) =
          (used ++ option_list (op_rand o)) ++ omap op_rand ops) as Heq.
  { cbn. destruct (op_rand o); cbn; by rewrite <- app_assoc. }
  rewrite Heq in Hne, Hnd |- *.
  pose proof (session_step_spec max d used o s Hinv Hiss) as Hs.
  destruct (step o s) as [y s1].
  destruct Hs as (Hinv1 & Hiss1 & ->).
  { intros H. apply Hne. set_solver. }
  { intros b Hb. rewrite Hb in Hne, Hnd. cbn in Hne, Hnd. split; [intros ->; set_solver|].
    apply NoDup_app in Hnd as (Hnd & _ & _). apply NoDup_app in Hnd as (_ & Hd & _).
    intros Hu. apply (Hd b Hu). by left. }
  specialize (IH _ s1 Hinv1 Hiss1 Hne Hnd). destruct (run step ops s1) as [ys s2].
  by destruct IH as (? & ? & ->).
Qed.

Lemma session_inv_new max d :
  inv (if Z.leb max 0 then DefaultSessionCapacity else max)
      (if Z.leb d 0 then DefaultSessionTTL else d) (newMemoryStore max d).
Proof.
  apply inv_new_store. destruct (Z.leb_spec max 0); [done|lia].
Qed.

(** ** Survival in the queue *)

Definition is_put (o : op) : bool := match op_rand o with Some _ => true | None => false end.
Fixpoint puts (ops : list op) : nat :=
  match ops with [] => 0 | o :: ops => (if is_put o then 1 else 0) + puts ops end.

(** The operation leaves the session of [id] alone: a [Take] of another id, a [Put] whose
    clock has not passed [limit]. *)
Definition spares (id : string) (limit : Time) (o : op) : bool :=
  match o with
  | OpPut _ now _ => Z.leb now limit
  | OpTake _ id' => bool_decide (id' ≠ id)
  | OpLen => true
  end.

Lemma session_spec_step_behind max d o k x (q : list (string * (V * Time))) :
  behind k x q → spares x.1 x.2.2 o = true →
  (Z.of_nat k + 1 < max)%Z ∨ puts [o] = 0 →
  behind (k + puts [o]) x (spec_step max d o q).2.
Proof.
  intros Hx Hsp Hk. destruct o as [[b|e] now v|now id|]; cbn in Hsp, Hk |- *;
    rewrite ?Nat.add_0_r; [|done| |done].
  - bool_simp. rewrite Nat.add_comm; cbn. apply behind_snoc, behind_make_room.
    { by destruct Hk. }
    apply behind_purge; [|done]. unfold q_expired, After. apply Z.ltb_ge. lia.
  - bool_simp. unfold spec_Take. destruct (q_find id q) as [[v t]|]; [|done].
    by apply behind_delete.
Qed.

Lemma session_run_behind max d ops : ∀ k x used s,
  inv max d s → issued (session_id <$> used) s →
  ""%string ∉ used ++ omap op_rand ops → NoDup (used ++ omap op_rand ops) →
  behind k x (abs s) → forallb (spares x.1 x.2.2) ops = true →
  (Z.of_nat (k + puts ops) < max)%Z →
  behind (k + puts ops) x (abs (run step ops s).2).
Proof.
  intros k x used s Hinv Hiss Hne Hnd Hx Hsp Hk.
  pose proof (session_run_spec max d ops used s Hinv Hiss Hne Hnd) as Hr.
  destruct (run step ops s) as [ys s']. destruct Hr as (_ & _ & Hr); cbn [snd].
  assert (abs s' = (run (spec_step max d) ops (abs s)).2) as -> by by rewrite Hr.
  clear -Hx Hsp Hk. revert k Hx Hk. generalize (abs s).
  induction ops as [|o ops IH]; intros q k Hx Hk; cbn [run puts] in *.
  { by rewrite Nat.add_0_r. }
  cbn in Hsp. bool_simp.
  pose proof (session_spec_step_behind max d o k x q Hx) as Hb.
  assert (puts [o] = if is_put o then 1 else 0) as Hp by (cbn; by rewrite Nat.add_0_r).
  destruct (spec_step max d o q) as [y q1]. rewrite Hp in Hb. cbn [snd] in Hb.
  specialize (IH ltac:(done) q1 (k + (if is_put o then 1 else 0))).
  destruct (run (spec_step max d) ops q1) as [ys' q2]; cbn [snd] in *.
  rewrite Nat.add_assoc. apply IH; [|lia]. apply Hb; [done|].
  destruct (is_put o); [left; lia|by right].
Qed.

(** C13 (refinement): [MemoryStore] implements the bounded queue. Whatever sequence of
    operations is run on a fresh store, with clock readings in any order, every result is
    the one the queue specification gives, as long as the random source never repeats
    itself; the capacity bound holds throughout. *)
Theorem sessions_refine_queue (max : Z) (d : Duration) (ops : list op)
  (Hne : ""%string ∉ omap op_rand ops) (Hnd : NoDup (omap op_rand ops)) :
  let max' := if Z.leb max 0 then DefaultSessionCapacity else max in
  let d' := if Z.leb d 0 then DefaultSessionTTL else d in
  let '(ys, s) := run step ops (newMemoryStore max d) in
  run (spec_step max' d') ops [] = (ys, abs s) ∧ (Len s ≤ max')%Z ∧ wf s.
Proof.
  intros max' d'. pose proof (session_run_spec max' d' ops [] _ (session_inv_new max d)) as H.
  destruct (run step ops (newMemoryStore max d)) as [ys s].
  destruct H as [(Hwf & _ & _ & _ & Hlen) [_ H]]; [done..|]. by split_and!.
Qed.

(** A ceremony can be finished. On a store that has been through any
    operations, after [Put] at [now] and then [Take]s of other ids and fewer than the
    capacity further [Put]s with readings up to [now] plus the lifetime, a [Take] of the
    id no later than that returns exactly the session data that was put. *)
Theorem put_then_take (max : Z) (d : Duration) (before after : list op) (b : string)
    (now now' : Time) (data : V) :
  let max' := if Z.leb max 0 then DefaultSessionCapacity else max in
  let d' := if Z.leb d 0 then DefaultSessionTTL else d in
  let all := before ++ OpPut (Ok b) now data :: after in
  ""%string ∉ omap op_rand all → NoDup (omap op_rand all) →
  forallb (spares (session_id b) (Add now d')) after = true →
  (Z.of_nat (puts after) < max')%Z → (now' ≤ Add now d')%Z →
  let s := (run step before (newMemoryStore max d)).2 in
  let '(r, s) := Put (Ok b) now data s in
  r = Ok (session_id b) ∧ (Take now' (session_id b) (run step after s).2).1 = Some data.
Proof.
  intros max' d' all Hne Hnd Hsp Hputs Hnow'. cbn zeta.
  unfold all in Hne, Hnd. rewrite omap_app in Hne, Hnd.
  change (omap op_rand (OpPut (Ok b) now data :: after)) with (b :: omap op_rand after) in Hne, Hnd.
  pose proof (session_run_spec max' d' before [] _ (session_inv_new max d)) as Hb.
  destruct (run step before (newMemoryStore max d)) as [ys s]. cbn [snd].
  destruct Hb as (Hinv & Hiss & _); [done|set_solver|by apply NoDup_app in Hnd as (? & _)|].
  cbn [app] in Hiss. set (used := omap op_rand before) in *.
  assert (b ∉ used ∧ b ≠ ""%string) as [Hu Hbne].
  { split; [|intros ->; set_solver]. intros Hu. apply NoDup_app in Hnd as (_ & Hd & _).
    apply (Hd b Hu). by left. }
  assert (items s !! session_id b = None) as Hn.
  { apply Hiss. intros (b' & Hb' & Hu')%list_elem_of_fmap. by apply session_id_inj in Hb' as ->. }
  destruct (Put_spec max' d' b now data s Hinv Hn) as [Hinv1 Habs].
  assert (issued (session_id <$> (used ++ [b])) (Put (Ok b) now data s).2) as Hiss1.
  { intros id Hid. rewrite fmap_app in Hid. apply Put_None; [apply Hiss; set_solver|cbn].
    intros [= <-]. apply Hid. set_solver. }
  cbn [Put snd] in Hinv1, Habs, Hiss1 |- *. split; [done|].
  match goal with |- context [run step after ?s1] => set (s1' := s1) in * end.
  replace (used ++ b :: omap op_rand after) with ((used ++ [b]) ++ omap op_rand after)
    in Hne, Hnd by by rewrite <- app_assoc.
  assert (behind (puts after) (session_id b, (data, Add now d')) (abs (run step after s1').2)) as Hbeh.
  { apply (session_run_behind max' d' after 0 _ (used ++ [b])); [done..| |done|done].
    rewrite Habs. apply behind_last. }
  pose proof (session_run_spec max' d' after (used ++ [b]) s1' Hinv1 Hiss1 Hne Hnd) as Hr.
  destruct (run step after s1') as [ys2 s2]; cbn [snd] in *. destruct Hr as (Hinv2 & _ & _).
  destruct (behind_find _ _ _ _ _ (proj1 Hinv2) Hbeh) as (e & He & Hev & Het).
  unfold Take. rewrite bool_decide_eq_false_2 by by apply session_id_nonempty.
  rewrite He; cbn. rewrite Hev, Het. unfold After. by destruct (Z.ltb_spec (Add now d') now'); [lia|].
Qed.

(** The list does not stay ordered by expiry. A [Put] that read its
    clock at [t2] but got the lock after one that read [t1 > t2] leaves its session
    behind the longer-lived one; a later [Put] at a time between the two expiries purges
    nothing, and the expired session is still held (a [Take] of it fails all the same). *)
Theorem purge_stops_early (max : Z) (d : Duration) (b1 b2 b3 : string) (t1 t2 now : Time)
    (v1 v2 v3 : V)
  (Hmax : (3 ≤ max)%Z) (Hd : (0 < d)%Z) (Hb : NoDup [b1; b2; b3])
  (Hne : ""%string ∉ [b1; b2; b3])
  (Ht : (Add t2 d < now ≤ Add t1 d)%Z) :
  let s := (run step [OpPut (Ok b1) t1 v1; OpPut (Ok b2) t2 v2; OpPut (Ok b3) now v3]
                (newMemoryStore max d)).2 in
  (∃ e, items s !! session_id b2 = Some e ∧ After now (e_expires e) = true) ∧
  Len s = 3%Z ∧ (Take now (session_id b2) s).1 = None.
Proof.
  set (ops := [_; _; _]). cbn zeta.
  pose proof (session_run_spec max d ops [] (newMemoryStore max d)) as H.
  pose proof (session_inv_new max d) as Hinv. revert Hinv H.
  destruct (Z.leb_spec max 0); [lia|]. destruct (Z.leb_spec d 0); [lia|]. intros Hinv Hspec.
  specialize (Hspec Hinv). destruct (run step ops (newMemoryStore max d)) as [ys s]; cbn [snd].
  destruct Hspec as (Hinv' & _ & Hrun); [done..|]. clear Hinv.
  assert (abs s = [(session_id b1, (v1, Add t1 d)); (session_id b2, (v2, Add t2 d));
                   (session_id b3, (v3, Add now d))]) as Habs.
  { assert (∀ q : list (string * (V * Time)), (length q < 3)%nat → q_make_room max q = q) as Hroom.
    { intros q Hq. unfold q_make_room.
      replace (length q - (Z.to_nat max - 1)) with 0 by lia. done. }
    assert (∀ now' (q : list (string * (V * Time))), q_purge now' ((session_id b1, (v1, Add t1 d)) :: q)
              = if After now' (Add t1 d) then q_purge now' q
                else (session_id b1, (v1, Add t1 d)) :: q) as Hpurge by done.
    unfold ops in Hrun. cbn [run spec_step snd] in Hrun. unfold spec_Put in Hrun.
    change (abs (newMemoryStore max d)) with (@nil (string * (V * Time))) in Hrun.
    change (q_purge t1 []) with (@nil (string * (V * Time))) in Hrun.
    rewrite (Hroom []) in Hrun by (cbn; lia). cbn [app] in Hrun.
    rewrite Hpurge in Hrun. unfold Add, After in *.
    destruct (Z.ltb_spec (t1 + d) t2); [lia|].
    rewrite (Hroom [_]) in Hrun by (cbn; lia).
    cbn [app] in Hrun. rewrite Hpurge in Hrun.
    destruct (Z.ltb_spec (t1 + d) now); [lia|].
    rewrite (Hroom [_; _]) in Hrun by (cbn; lia).
    by injection Hrun as _ <-. }
  assert (∃ e, items s !! session_id b2 = Some e ∧ e_value e = v2 ∧ e_expires e = Add t2 d)
    as (e & He & _ & Het).
  { apply abs_elem_of; [apply Hinv'|]. rewrite Habs. set_solver. }
  assert (After now (e_expires e) = true) as Hexp.
  { rewrite Het. apply Z.ltb_lt. lia. }
  split_and!; [eauto| |].
  - unfold Len. rewrite abs_Len, Habs by apply Hinv'. done.
  - unfold Take. rewrite bool_decide_eq_false_2.
    + rewrite He. cbn. by rewrite Hexp.
    + apply session_id_nonempty. intros ->. apply Hne. set_solver.
Qed.

(** ** The interface *)

#[export] Instance memory_SessionStore : SessionStore V (store V) :=
  { store_Put := Put; store_Take := Take }.

(** The empty id is never taken. *)
Definition memory_absent (id : string) s : Prop := id = ""%string ∨ items s !! id = None.

#[export] Instance memory_SessionLaws : SessionLaws V (store V) memory_absent.
Proof.
  split; unfold memory_absent; cbn.
  - intros s now id. destruct (decide (id = ""%string)) as [|Hid]; [by left|right].
    unfold Take. rewrite bool_decide_eq_false_2 by done.
    destruct (items s !! id) eqn:He; [apply lookup_delete_eq|done].
  - intros s now id [->|Hid]; unfold Take; [by rewrite bool_decide_eq_true_2|].
    rewrite Hid. by case_bool_decide.
  - intros s now id id' [?|Hid]; [by left|right]. by apply Take_None.
  - intros s rand now v id [?|Hid] Hne; [by left|right]. by apply Put_None.
Qed.
End sessions.
Arguments op _ : clear implicits.

(** ** Witnesses *)

Lemma sessions_refine_queue_witness :
  let ops := [OpPut (Ok "r1"%string) 5 1%Z; OpPut (Ok "r2"%string) 3 2%Z; OpTake 4 (session_id "r1");
              OpTake 5 (session_id "r1"); OpLen] in
  let '(ys, s) := run step ops (newMemoryStore 2 10) in
  run (spec_step 2 10) ops [] = (ys, abs s) ∧ (Len s ≤ 2)%Z ∧ wf s.
Proof.
  refine (sessions_refine_queue 2 10
            [OpPut (Ok "r1"%string) 5 1%Z; OpPut (Ok "r2"%string) 3 2%Z; OpTake 4 (session_id "r1");
             OpTake 5 (session_id "r1"); OpLen] _ _).
  - change (""%string ∉ ["r1"; "r2"]%string). set_solver.
  - change (NoDup ["r1"; "r2"]%string). apply (bool_decide_unpack _). reflexivity.
Defined.

Lemma put_then_take_witness :
  let s := (run step [OpPut (Ok "r1"%string) 5 1%Z] (newMemoryStore 2 10)).2 in
  let '(r, s) := Put (Ok "r2"%string) 6 2%Z s in
  r = Ok (session_id "r2") ∧
  (Take 16 (session_id "r2") (run step [OpPut (Ok "r3"%string) 4 3%Z; OpLen] s).2).1 = Some 2%Z.
Proof.
  refine (put_then_take 2 10 [OpPut (Ok "r1"%string) 5 1%Z] [OpPut (Ok "r3"%string) 4 3%Z; OpLen]
            "r2" 6 16 2%Z _ _ _ _ _).
  - change (""%string ∉ ["r1"; "r2"; "r3"]%string). set_solver.
  - change (NoDup ["r1"; "r2"; "r3"]%string). apply (bool_decide_unpack _). reflexivity.
  - reflexivity.
  - vm_compute; congruence.
  - vm_compute; congruence.
Defined.

Lemma purge_stops_early_witness :
  let s := (run step [OpPut (Ok "r1"%string) 9 1%Z; OpPut (Ok "r2"%string) 3 2%Z;
                      OpPut (Ok "r3"%string) 15 3%Z] (newMemoryStore 3 10)).2 in
  (∃ e, items s !! session_id "r2" = Some e ∧ After 15 (e_expires e) = true) ∧
  Len s = 3%Z ∧ (Take 15 (session_id "r2") s).1 = None.
Proof.
  refine (purge_stops_early 3 10 "r1" "r2" "r3" 9 3 15 1%Z 2%Z 3%Z _ _ _ _ _).
  - lia.
  - lia.
  - apply (bool_decide_unpack _). reflexivity.
  - set_solver.
  - vm_compute. split; congruence.
Defined.
