(* ===== verification/PasskeyCredentials.v ===== *)
(** * PasskeyCredentials

    [passkey/credential_store.go]: [CredentialStore] as a class of operations, and
    [MemoryCredentialStore]. go-webauthn's [Credential] is a field of the class
    [CredentialData]. *)

From S2P Require Import Prelude GoRuntime.

(** go-webauthn's credential record: its ID, and the descriptor it makes of itself. *)
Class CredentialData : Type := {
  Credential : Type;
  Credential_ID : Credential → string;
  CredentialDescriptor : Type;
  Descriptor : Credential → CredentialDescriptor;
}.

Inductive cred_error : Type :=
| ErrCredentialNotFound
| AlreadyRegistered
| StoreFailure (e : string).     (* another implementation's own error *)

Record StoredCredential `{CredentialData} : Type := MkStoredCredential {
  sc_UserHandle : string;
  sc_Credential : Credential;
}.

Arguments MkStoredCredential {_} _ _.

(** [CredentialStore]; reads leave the store as it is. *)
Class CredentialStore `{CredentialData} (St : Type) : Type := {
  FindByID : string → St → res cred_error StoredCredential;
  FindByUserHandle : string → St → res cred_error (list StoredCredential);
  Save : StoredCredential → St → res cred_error unit * St;
  UpdateSignCount : string → Credential → Time → St → res cred_error unit * St;
}.

(** ** MemoryCredentialStore *)

Section memory.
Context `{CredentialData}.

Abbreviation MemoryCredentialStore := (gmap string StoredCredential).
Implicit Types m : MemoryCredentialStore.

Definition NewMemoryCredentialStore : MemoryCredentialStore := ∅.

Definition memory_FindByID (credentialID : string) m : res cred_error StoredCredential :=
  of_option (m !! credentialID) ErrCredentialNotFound.

(** The order in which [range] visits the map. *)
Context (iteration : MemoryCredentialStore → list (string * StoredCredential)).

Fixpoint with_handle (handle : string) (l : list (string * StoredCredential))
    : list StoredCredential :=
  match l with
  | [] => []
  | (_, sc) :: l =>
      if bool_decide (sc_UserHandle sc = handle) then sc :: with_handle handle l
      else with_handle handle l
  end.

Definition memory_FindByUserHandle (handle : string) m : res cred_error (list StoredCredential) :=
  Ok (with_handle handle (iteration m)).

Definition memory_Save (cred : StoredCredential) m : res cred_error unit * MemoryCredentialStore :=
  let key := Credential_ID (sc_Credential cred) in
  match m !! key with
  | Some _ => (Err AlreadyRegistered, m)
  | None => (Ok tt, <[key := cred]> m)
  end.

Definition memory_UpdateSignCount (credentialID : string) (cred : Credential) (_ : Time) m
    : res cred_error unit * MemoryCredentialStore :=
  match m !! credentialID with
  | None => (Err ErrCredentialNotFound, m)
  | Some sc => (Ok tt, <[credentialID := MkStoredCredential (sc_UserHandle sc) cred]> m)
  end.

#[export] Instance memory_CredentialStore : CredentialStore MemoryCredentialStore := {
  FindByID := memory_FindByID;
  FindByUserHandle := memory_FindByUserHandle;
  Save := memory_Save;
  UpdateSignCount := memory_UpdateSignCount;
}.

(** ** Writes *)

Inductive write : Type :=
| WSave (cred : StoredCredential)
| WUpdate (credentialID : string) (cred : Credential) (usedAt : Time).

Definition do_write (w : write) m : res cred_error unit * MemoryCredentialStore :=
  match w with
  | WSave cred => memory_Save cred m
  | WUpdate id cred t => memory_UpdateSignCount id cred t m
  end.

Definition do_writes (ws : list write) m : MemoryCredentialStore :=
  fold_left (λ m w, (do_write w m).2) ws m.

(** Credentials are filed under their own ID. *)
Definition filed m : Prop := ∀ k sc, m !! k = Some sc → Credential_ID (sc_Credential sc) = k.

(** The write-backs the service makes: under the ID of the credential written. *)
Definition filed_write (w : write) : Prop :=
  match w with WSave _ => True | WUpdate id cred _ => Credential_ID cred = id end.

Lemma do_write_filed w m : filed_write w → filed m → filed (do_write w m).2.
Proof.
  intros Hw Hm. destruct w as [cred|id cred t]; cbn [do_write]; unfold memory_Save, memory_UpdateSignCount.
  - destruct (m !! _); [done|]. intros k sc Hk. cbn [snd] in Hk.
    apply lookup_insert_Some in Hk as [[<- <-]|[_ Hk]]; [done|by apply Hm].
  - destruct (m !! id) as [sc|]; [|done]. intros k sc' Hk. cbn [snd] in Hk.
    apply lookup_insert_Some in Hk as [[<- <-]|[_ Hk]]; [done|by apply Hm].
Qed.

Lemma do_write_owner w m k sc :
  m !! k = Some sc →
  ∃ sc', (do_write w m).2 !! k = Some sc' ∧ sc_UserHandle sc' = sc_UserHandle sc.
Proof.
  intros Hk. destruct w as [cred|id cred t]; cbn [do_write]; unfold memory_Save, memory_UpdateSignCount.
  - destruct (m !! Credential_ID _) eqn:He; [by eauto|]. cbn [snd].
    rewrite lookup_insert_ne by congruence. eauto.
  - destruct (m !! id) as [sc0|] eqn:He; [|by eauto]. cbn [snd].
    destruct (decide (id = k)) as [->|Hne].
    + rewrite lookup_insert_eq. eexists. split; [done|]. cbn [sc_UserHandle]. congruence.
    + rewrite lookup_insert_ne by done. eauto.
Qed.

Lemma do_writes_owner ws : ∀ m k sc,
  m !! k = Some sc →
  ∃ sc', do_writes ws m !! k = Some sc' ∧ sc_UserHandle sc' = sc_UserHandle sc.
Proof.
  induction ws as [|w ws IH]; intros m k sc Hk; cbn; [by eauto|].
  destruct (do_write_owner w m k sc Hk) as (sc1 & H1 & E1).
  destruct (IH _ _ _ H1) as (sc2 & H2 & E2). exists sc2. split; [done|congruence].
Qed.

Lemma do_writes_filed ws : ∀ m, Forall filed_write ws → filed m → filed (do_writes ws m).
Proof.
  induction ws as [|w ws IH]; intros m; cbn; [done|]. intros [Hw Hws]%Forall_cons Hm.
  apply IH; [done|]. by apply do_write_filed.
Qed.

Lemma with_handle_elem handle l sc :
  sc ∈ with_handle handle l ↔ sc_UserHandle sc = handle ∧ ∃ k, (k, sc) ∈ l.
Proof.
  induction l as [|[k sc'] l IH]; cbn.
  { split; [by intros ?%elem_of_nil|by intros (_ & k & ?%elem_of_nil)]. }
  case_bool_decide as Hh; rewrite ?elem_of_cons, IH; split.
  - intros [->|(Hs & k' & Hk')]; [split; [done|]; exists k; by left|].
    split; [done|]. exists k'. by right.
  - intros (Hs & k' & [[= -> ->]|Hk']%elem_of_cons); [by left|right]. eauto.
  - intros (Hs & k' & Hk'). split; [done|]. exists k'. by right.
  - intros (Hs & k' & [[= -> ->]|Hk']%elem_of_cons); [done|]. eauto.
Qed.

(** C36 (invariant): a credential never changes hands and is never lost. Take a store reached
    by any writes, and any further ones, the write-backs made under the credential's own
    ID as the service makes them: a credential found in the first by its ID is found in
    the second by the same ID and under the same handle, is listed for that handle and
    for no other, and saving its ID again is refused with the store left as it was. *)
Theorem credential_owner_fixed (ws1 ws2 : list write) (id handle : string) (sc : StoredCredential)
  (Hiter : ∀ m, iteration m ≡ₚ map_to_list m)
  (Hws : Forall filed_write (ws1 ++ ws2)) :
  let m1 := do_writes ws1 NewMemoryCredentialStore in
  let m2 := do_writes ws2 m1 in
  FindByID id m1 = Ok sc →
  ∃ sc', FindByID id m2 = Ok sc' ∧ sc_UserHandle sc' = sc_UserHandle sc ∧
    Credential_ID (sc_Credential sc') = id ∧
    (∃ l, FindByUserHandle handle m2 = Ok l ∧ (sc' ∈ l ↔ handle = sc_UserHandle sc) ∧
          ∀ sc0, sc0 ∈ l → Credential_ID (sc_Credential sc0) = id → sc0 = sc') ∧
    ∀ cred, Credential_ID (sc_Credential cred) = id → Save cred m2 = (Err AlreadyRegistered, m2).
Proof.
  intros m1 m2 Hfind. cbn in Hfind. apply of_option_Ok in Hfind.
  destruct (do_writes_owner ws2 m1 id sc Hfind) as (sc' & Hm2 & Howner). fold m2 in Hm2.
  apply Forall_app in Hws as [Hws1 Hws2].
  assert (filed m2) as Hfiled.
  { apply do_writes_filed; [done|]. apply do_writes_filed; [done|].
    intros k x Hx. unfold NewMemoryCredentialStore in Hx. by rewrite lookup_empty in Hx. }
  exists sc'. cbn [FindByID memory_CredentialStore]. unfold memory_FindByID. rewrite Hm2.
  split_and!; [done|done|by apply Hfiled| |].
  - eexists. split; [done|]. split.
    + rewrite with_handle_elem, Howner. setoid_rewrite Hiter. setoid_rewrite elem_of_map_to_list.
      naive_solver.
    + intros sc0 (_ & k & Hk)%with_handle_elem Hid. rewrite Hiter in Hk.
      apply elem_of_map_to_list in Hk. pose proof (Hfiled _ _ Hk). congruence.
  - intros cred <-. cbn [Save memory_CredentialStore]. unfold memory_Save. by rewrite Hm2.
Qed.
End memory.

(** ** Witnesses *)

(** Credentials that are their ID and a counter. *)
Definition sample_data : CredentialData := {|
  Credential := string * Z;
  Credential_ID := fst;
  CredentialDescriptor := string;
  Descriptor := fst;
|}.

Definition sample_stored : StoredCredential (H := sample_data) :=
  MkStoredCredential (H := sample_data) "alice" ("c1"%string, 1%Z).

Lemma credential_owner_fixed_witness :
  let m := do_writes (H := sample_data)
             [WUpdate (H := sample_data) "c1" ("c1"%string, 2%Z) 7]
             (do_writes (H := sample_data) [WSave sample_stored] NewMemoryCredentialStore) in
  ∃ sc', memory_FindByID "c1" m = Ok sc' ∧ sc_UserHandle sc' = "alice"%string.
Proof.
  destruct (credential_owner_fixed (H := sample_data) map_to_list [WSave sample_stored]
              [WUpdate (H := sample_data) "c1" ("c1"%string, 2%Z) 7] "c1" "alice" sample_stored)
    as (sc' & H1 & H2 & _).
  - intros m. reflexivity.
  - repeat constructor.
  - vm_compute; reflexivity.
  - exists sc'. split; [exact H1|exact H2].
Defined.
