(* ===== verification/PasskeyService.v ===== *)
(** * PasskeyService

    [passkey/passkey.go], [registration.go], [authentication.go], [discoverable.go] and
    [identity.go]: the ceremonies. A method of [Service] is a program over the calls it
    makes on the two stores and on the clock, so that the calls of concurrent requests can
    interleave; go-webauthn is the class [WebAuthn]. *)

From S2P Require Import Prelude GoRuntime GoStrings TtlStore PasskeySessions PasskeyCredentials.

(** [identity], which adapts a handle and its credentials to [webauthn.User]. *)
Record identity `{CredentialData} : Type := Identity {
  WebAuthnID : string;
  WebAuthnName : string;
  WebAuthnDisplayName : string;
  WebAuthnCredentials : list Credential;
}.
Arguments Identity {_} _ _ _ _.

(** A run of [FinishDiscoverableLogin]: it may ask the handler for the user of a raw id. *)
Inductive disc_prog `{CredentialData} : Type :=
| DiscReturn (r : res error Credential)
| DiscAsk (rawID userHandle : string) (k : res cred_error identity → disc_prog).

(** What is used of go-webauthn; a [Begin] call also draws randomness. *)
Class WebAuthn `{CredentialData} : Type := {
  WA : Type;
  SessionData : Type;
  Request : Type;
  CredentialCreation : Type;
  CredentialAssertion : Type;
  RegistrationOption : Type;
  LoginOption : Type;
  AuthenticatorSelection : Type;
  as_UserVerification : AuthenticatorSelection → string;
  set_UserVerification : string → AuthenticatorSelection → AuthenticatorSelection;
  VerificationPreferred : string;
  PreferNoAttestation : string;
  webauthn_New : string → string → list string → AuthenticatorSelection → string
                 → res error WA;
  WithExclusions : list CredentialDescriptor → RegistrationOption;
  WithUserVerification : string → LoginOption;
  wa_BeginRegistration : WA → N → identity → list RegistrationOption
                         → res error (CredentialCreation * SessionData);
  wa_FinishRegistration : WA → identity → SessionData → Request → res error Credential;
  wa_BeginLogin : WA → N → identity → list LoginOption
                  → res error (CredentialAssertion * SessionData);
  wa_FinishLogin : WA → identity → SessionData → Request → res error Credential;
  wa_BeginDiscoverableLogin : WA → N → list LoginOption
                              → res error (CredentialAssertion * SessionData);
  wa_FinishDiscoverableLogin : WA → SessionData → Request → disc_prog;
}.

(** ** Programs over the stores *)

Section programs.
Context `{CredentialData} {W : WebAuthn}.

Inductive prog (A : Type) : Type :=
| Ret (a : A)
| CPut (data : SessionData) (k : res error string → prog A)
| CTake (id : string) (k : option SessionData → prog A)
| CFindByID (id : string) (k : res cred_error StoredCredential → prog A)
| CFindByUserHandle (handle : string) (k : res cred_error (list StoredCredential) → prog A)
| CSave (cred : StoredCredential) (k : res cred_error unit → prog A)
| CNow (k : Time → prog A)
| CUpdateSignCount (id : string) (cred : Credential) (usedAt : Time)
    (k : res cred_error unit → prog A).

(** What the world answers at one call. *)
Record env : Type := Env { e_rand : res error string; e_now : Time }.

Context {SS : Type} `{SessionStore SessionData SS} {CS : Type} `{!CredentialStore CS}.

Record state : Type := State { sessions : SS; creds : CS }.

(** One call. *)
Definition call {A} (e : env) (p : prog A) (st : state) : prog A * state :=
  match p with
  | Ret _ a => (Ret _ a, st)
  | CPut _ data k =>
      let '(r, ss) := store_Put (e_rand e) (e_now e) data (sessions st) in
      (k r, State ss (creds st))
  | CTake _ id k =>
      let '(r, ss) := store_Take (e_now e) id (sessions st) in (k r, State ss (creds st))
  | CFindByID _ id k => (k (FindByID id (creds st)), st)
  | CFindByUserHandle _ handle k => (k (FindByUserHandle handle (creds st)), st)
  | CSave _ cred k => let '(r, cs) := Save cred (creds st) in (k r, State (sessions st) cs)
  | CNow _ k => (k (e_now e), st)
  | CUpdateSignCount _ id cred t k =>
      let '(r, cs) := UpdateSignCount id cred t (creds st) in (k r, State (sessions st) cs)
  end.

(** A program run to its end with nothing in between. *)
Fixpoint exec {A} (envs : nat → env) (n : nat) (p : prog A) (st : state) : A * state :=
  match p with
  | Ret _ a => (a, st)
  | CPut _ data k =>
      let '(r, ss) := store_Put (e_rand (envs n)) (e_now (envs n)) data (sessions st) in
      exec envs (S n) (k r) (State ss (creds st))
  | CTake _ id k =>
      let '(r, ss) := store_Take (e_now (envs n)) id (sessions st) in
      exec envs (S n) (k r) (State ss (creds st))
  | CFindByID _ id k => exec envs (S n) (k (FindByID id (creds st))) st
  | CFindByUserHandle _ handle k => exec envs (S n) (k (FindByUserHandle handle (creds st))) st
  | CSave _ cred k =>
      let '(r, cs) := Save cred (creds st) in exec envs (S n) (k r) (State (sessions st) cs)
  | CNow _ k => exec envs (S n) (k (e_now (envs n))) st
  | CUpdateSignCount _ id cred t k =>
      let '(r, cs) := UpdateSignCount id cred t (creds st) in
      exec envs (S n) (k r) (State (sessions st) cs)
  end.
End programs.
Arguments Ret {_ _ _} _.
Arguments CPut {_ _ _} _ _.
Arguments CTake {_ _ _} _ _.
Arguments CFindByID {_ _ _} _ _.
Arguments CFindByUserHandle {_ _ _} _ _.
Arguments CSave {_ _ _} _ _.
Arguments CNow {_ _ _} _.
Arguments CUpdateSignCount {_ _ _} _ _ _ _.
Arguments state _ _ : clear implicits.
Arguments State {_ _} _ _.

(** ** Service *)

Section service.
Context `{CredentialData} {W : WebAuthn}.

Inductive svc_error : Type :=
| ErrSessionNotFound
| ErrNoCredentials
| LoadingCredentials (e : cred_error)
| SavingCredential (e : cred_error)
| PersistingSignCount (e : cred_error)
| LibraryError (e : error)
| SessionPutError (e : error).

Record LoginResult : Type := MkLoginResult { UserHandle : string; lr_Credential : Credential }.

Inductive result : Type :=
| RegistrationBegun (creation : CredentialCreation) (sessionID : string)
| LoginBegun (assertion : CredentialAssertion) (sessionID : string)
| Registered (cred : Credential)
| LoggedIn (r : LoginResult).

Definition outcome : Type := res svc_error result.

Record Service : Type := MkService { wa : WA; defaultLoginUV : string }.

Inductive new_error : Type :=
| CredentialsRequired
| RPDisplayNameRequired
| WebAuthnConfig (e : error).

Record Config (SS CS : Type) : Type := MkConfig {
  RPID : string;
  RPDisplayName : string;
  RPOrigins : list string;
  c_AuthenticatorSelection : AuthenticatorSelection;
  AttestationPreference : string;
  UserVerification : string;
  Sessions : option SS;
  Credentials : option CS;
}.
Arguments RPID {_ _} _.
Arguments RPDisplayName {_ _} _.
Arguments RPOrigins {_ _} _.
Arguments c_AuthenticatorSelection {_ _} _.
Arguments AttestationPreference {_ _} _.
Arguments UserVerification {_ _} _.
Arguments Sessions {_ _} _.
Arguments Credentials {_ _} _.

(** [New]: the service, and the stores it works on. *)
Definition New {SS CS : Type} (cfg : Config SS CS)
    : res new_error (Service * state (store SessionData + SS) CS) :=
  creds ← of_option (Credentials cfg) CredentialsRequired;
  _ ← check (bool_decide (RPDisplayName cfg ≠ ""%string)) RPDisplayNameRequired;
  let uv := if bool_decide (UserVerification cfg = ""%string) then VerificationPreferred
            else UserVerification cfg in
  let authSel := c_AuthenticatorSelection cfg in
  let authSel := if bool_decide (as_UserVerification authSel = ""%string)
                 then set_UserVerification uv authSel else authSel in
  let attestation := if bool_decide (AttestationPreference cfg = ""%string)
                     then PreferNoAttestation else AttestationPreference cfg in
  wa ← wrap WebAuthnConfig (webauthn_New (RPID cfg) (RPDisplayName cfg) (RPOrigins cfg)
                                         authSel attestation);
  let sessions := match Sessions cfg with
                  | Some s => inr s
                  | None => inl DefaultMemoryStore
                  end in
  Ok (MkService wa uv, State sessions creds).

Definition withDefaultUV (s : Service) (opts : list LoginOption) : list LoginOption :=
  [WithUserVerification (defaultLoginUV s)] ++ opts.

Definition descriptorsOf (stored : list StoredCredential) : list CredentialDescriptor :=
  (λ sc, Descriptor (sc_Credential sc)) <$> stored.

Definition credentialsOf (stored : list StoredCredential) : list Credential :=
  sc_Credential <$> stored.

(** [id, err := s.sessions.Put(ctx, session)] and the return after it. *)
Definition put_session (session : SessionData) (done : string → result) : prog outcome :=
  CPut session (λ r, Ret (match r with Err e => Err (SessionPutError e) | Ok id => Ok (done id) end)).

Definition BeginRegistration (s : Service) (draw : N) (handle name displayName : string)
    (opts : list RegistrationOption) : prog outcome :=
  CFindByUserHandle handle (λ r,
    match r with
    | Err e => Ret (Err (LoadingCredentials e))
    | Ok existing =>
        let full := [WithExclusions (descriptorsOf existing)] ++ opts in
        let u := Identity handle name displayName (credentialsOf existing) in
        match wa_BeginRegistration (wa s) draw u full with
        | Err e => Ret (Err (LibraryError e))
        | Ok (creation, session) => put_session session (RegistrationBegun creation)
        end
    end).

Definition FinishRegistration (s : Service) (handle sessionID : string) (r : Request)
    : prog outcome :=
  CTake sessionID (λ session,
    match session with
    | None => Ret (Err ErrSessionNotFound)
    | Some session =>
        let u := Identity handle "" "" [] in
        match wa_FinishRegistration (wa s) u session r with
        | Err e => Ret (Err (LibraryError e))
        | Ok cred =>
            CSave (MkStoredCredential handle cred) (λ r,
              Ret (match r with
                   | Err e => Err (SavingCredential e)
                   | Ok _ => Ok (Registered cred)
                   end))
        end
    end).

Definition BeginLogin (s : Service) (draw : N) (handle : string) (opts : list LoginOption)
    : prog outcome :=
  CFindByUserHandle handle (λ r,
    match r with
    | Err e => Ret (Err (LoadingCredentials e))
    | Ok [] => Ret (Err ErrNoCredentials)
    | Ok stored =>
        let u := Identity handle "" "" (credentialsOf stored) in
        match wa_BeginLogin (wa s) draw u (withDefaultUV s opts) with
        | Err e => Ret (Err (LibraryError e))
        | Ok (assertion, session) => put_session session (LoginBegun assertion)
        end
    end).

(** The end of both login ceremonies: the write-back decides. *)
Definition write_back (handle : string) (cred : Credential) : prog outcome :=
  CNow (λ now,
    CUpdateSignCount (Credential_ID cred) cred now (λ r,
      Ret (match r with
           | Err e => Err (PersistingSignCount e)
           | Ok _ => Ok (LoggedIn (MkLoginResult handle cred))
           end))).

Definition FinishLogin (s : Service) (handle sessionID : string) (r : Request) : prog outcome :=
  CTake sessionID (λ session,
    match session with
    | None => Ret (Err ErrSessionNotFound)
    | Some session =>
        CFindByUserHandle handle (λ stored,
          match stored with
          | Err e => Ret (Err (LoadingCredentials e))
          | Ok stored =>
              let u := Identity handle "" "" (credentialsOf stored) in
              match wa_FinishLogin (wa s) u session r with
              | Err e => Ret (Err (LibraryError e))
              | Ok cred => write_back handle cred
              end
          end)
    end).

Definition BeginDiscoverableLogin (s : Service) (draw : N) (opts : list LoginOption)
    : prog outcome :=
  match wa_BeginDiscoverableLogin (wa s) draw (withDefaultUV s opts) with
  | Err e => Ret (Err (LibraryError e))
  | Ok (assertion, session) => put_session session (LoginBegun assertion)
  end.

(** The library run with the handler closure, which assigns [resolvedHandle]. *)
Fixpoint run_disc (p : disc_prog) (resolvedHandle : string)
    (k : res error Credential → string → prog outcome) : prog outcome :=
  match p with
  | DiscReturn r => k r resolvedHandle
  | DiscAsk rawID _ c =>
      CFindByID rawID (λ r,
        match r with
        | Err e => run_disc (c (Err e)) resolvedHandle k
        | Ok stored =>
            run_disc (c (Ok (Identity (sc_UserHandle stored) "" "" [sc_Credential stored])))
                     (sc_UserHandle stored) k
        end)
  end.

Definition FinishDiscoverableLogin (s : Service) (sessionID : string) (r : Request)
    : prog outcome :=
  CTake sessionID (λ session,
    match session with
    | None => Ret (Err ErrSessionNotFound)
    | Some session =>
        run_disc (wa_FinishDiscoverableLogin (wa s) session r) "" (λ cred resolvedHandle,
          match cred with
          | Err e => Ret (Err (LibraryError e))
          | Ok cred => write_back resolvedHandle cred
          end)
    end).

(** ** Concurrent requests *)

Context {SS : Type} `{!SessionStore SessionData SS} {CS : Type} `{!CredentialStore CS}.
Context {absent : string → SS → Prop} `{!SessionLaws SessionData SS absent}.

(** Requests in flight, each at some point of its program, on the shared stores. *)
Record pool : Type := Pool { requests : list (prog outcome); shared : state SS CS }.

(** The scheduler lets request [i] make its next call. *)
Definition pool_step (x : nat * env) (p : pool) : pool :=
  match requests p !! x.1 with
  | None => p
  | Some q =>
      let '(q', st) := call x.2 q (shared p) in
      Pool (<[x.1 := q']> (requests p)) st
  end.

Definition run_pool (sched : list (nat * env)) (p : pool) : pool :=
  fold_left (λ p x, pool_step x p) sched p.

(** One step of [exec] is one [call]. *)
Lemma exec_call {A} envs n (p : prog A) st :
  exec envs n p st =
    match p with
    | Ret a => (a, st)
    | _ => exec envs (S n) (call (envs n) p st).1 (call (envs n) p st).2
    end.
Proof.
  destruct p as [a|data k|id k|id k|h k|cred k|k|id cred t k]; cbn; try done.
  - by destruct (store_Put _ _ data (sessions st)).
  - by destruct (store_Take _ id (sessions st)).
  - by destruct (Save cred (creds st)).
  - by destruct (UpdateSignCount id cred t (creds st)).
Qed.

(** A request that is alone ends as [exec] says, so that what holds of one request run to
    its end holds of a scheduled one that nothing interrupts. *)
Lemma run_alone envs (p : prog outcome) : ∀ n st, ∃ m,
  run_pool ((λ i, (0%nat, envs i)) <$> seq n m) (Pool [p] st) =
  Pool [Ret (exec envs n p st).1] (exec envs n p st).2.
Proof.
  assert (∀ n (q : prog outcome) st,
    (∃ m, run_pool ((λ i, (0%nat, envs i)) <$> seq (S n) m)
            (Pool [(call (envs n) q st).1] (call (envs n) q st).2) =
          Pool [Ret (exec envs n q st).1] (exec envs n q st).2) →
    ∃ m, run_pool ((λ i, (0%nat, envs i)) <$> seq n m) (Pool [q] st) =
         Pool [Ret (exec envs n q st).1] (exec envs n q st).2) as Hstep.
  { intros n q st [m Hm]. exists (S m). rewrite <- Hm. cbn. unfold pool_step. cbn.
    by destruct (call (envs n) q st). }
  induction p as [a|data k IH|id k IH|id k IH|h k IH|cred k IH|k IH|id cred t k IH]; intros n st;
    [by exists 0%nat|..]; apply Hstep; rewrite exec_call; cbn [call].
  - destruct (store_Put _ _ data (sessions st)). apply IH.
  - destruct (store_Take _ id (sessions st)). apply IH.
  - apply IH.
  - apply IH.
  - destruct (Save cred (creds st)). apply IH.
  - apply IH.
  - destruct (UpdateSignCount id cred t (creds st)). apply IH.
Qed.

(** A request that finishes a ceremony. *)
Inductive finishes (id : string) : prog outcome → Prop :=
| finishes_registration s handle r : finishes id (FinishRegistration s handle id r)
| finishes_login s handle r : finishes id (FinishLogin s handle id r)
| finishes_discoverable s r : finishes id (FinishDiscoverableLogin s id r).

(** The random source never makes the id at this call. *)
Definition avoids (id : string) (e : env) : Prop :=
  ∀ data ss, (store_Put (V := SessionData) (e_rand e) (e_now e) data ss).1 ≠ Ok id.

Lemma call_absent {A} id e (p : prog A) st :
  avoids id e → absent id (sessions st) → absent id (sessions (call e p st).2).
Proof.
  intros Ha Hst. destruct p as [a|data k|id' k|id' k|h k|cred k|k|id' cred t k]; cbn; try done.
  - specialize (Ha data (sessions st)).
    pose proof (absent_Put (sessions st) (e_rand e) (e_now e) data id Hst Ha).
    by destruct (store_Put _ _ data (sessions st)).
  - pose proof (absent_Take (sessions st) (e_now e) id id' Hst).
    by destruct (store_Take (e_now e) id' (sessions st)).
  - by destruct (Save cred (creds st)).
  - by destruct (UpdateSignCount id' cred t (creds st)).
Qed.

Lemma call_finish id e p st :
  finishes id p →
  absent id (sessions (call e p st).2) ∧
  (absent id (sessions st) → (call e p st).1 = Ret (Err ErrSessionNotFound)).
Proof.
  intros Hp. pose proof (Take_removes (sessions st) (e_now e) id) as Hr.
  pose proof (Take_absent (sessions st) (e_now e) id) as Hn.
  destruct Hp; cbn; destruct (store_Take (e_now e) id (sessions st)) as [o ss]; cbn in *;
    (split; [done|]; intros Hst; by rewrite Hn).
Qed.

(** A request that has not taken its session, or found it gone. *)
Definition idle (id : string) (q : prog outcome) : Prop :=
  finishes id q ∨ q = Ret (Err ErrSessionNotFound).

Lemma call_idle id e q st :
  idle id q → absent id (sessions st) → idle id (call e q st).1.
Proof.
  intros [Hq| ->] Hst; right; [|done].
  by apply (call_finish id e q st Hq).
Qed.

(** Until one of the two requests has made its first call, both are at their start; from
    then on the session is gone and one of them is idle. *)
Definition one_wins (id : string) (i j : nat) (p : pool) : Prop :=
  ∃ qi qj, requests p !! i = Some qi ∧ requests p !! j = Some qj ∧
    ((finishes id qi ∧ finishes id qj) ∨
     (absent id (sessions (shared p)) ∧ (idle id qi ∨ idle id qj))).

Lemma pool_step_wins id i j x p :
  i ≠ j → avoids id x.2 → one_wins id i j p → one_wins id i j (pool_step x p).
Proof.
  intros Hij Ha (qi & qj & Hi & Hj & Hw). unfold pool_step.
  destruct (requests p !! x.1) as [q|] eqn:Hq; [|by exists qi, qj].
  destruct (call x.2 q (shared p)) as [q' st'] eqn:Hc.
  assert (absent id (sessions (shared p)) → absent id (sessions st')) as Habs.
  { intros Hst. pose proof (call_absent id x.2 q (shared p) Ha Hst) as H'. by rewrite Hc in H'. }
  assert (finishes id q → absent id (sessions st')) as Hfin.
  { intros Hf. pose proof (call_finish id x.2 q (shared p) Hf) as [H' _]. by rewrite Hc in H'. }
  assert (idle id q → absent id (sessions (shared p)) → idle id q') as Hidle.
  { intros Hf Hst. pose proof (call_idle id x.2 q (shared p) Hf Hst) as H'. by rewrite Hc in H'. }
  unfold one_wins; cbn [requests shared].
  destruct (decide (x.1 = i)) as [Hx|Hx]; [|destruct (decide (x.1 = j)) as [Hy|Hy]].
  - exists q', qj. rewrite Hx in Hq |- *. assert (q = qi) as -> by congruence.
    rewrite list_lookup_insert_eq by (by eapply lookup_lt_Some).
    rewrite list_lookup_insert_ne by done. split_and!; [done..|].
    destruct Hw as [[Hfi Hfj]|[Hst Hw]]; [right; split; [auto|]; right; by left|].
    right. split; [auto|]. destruct Hw; auto.
  - exists qi, q'. rewrite Hy in Hq |- *. assert (q = qj) as -> by congruence.
    rewrite list_lookup_insert_eq by (by eapply lookup_lt_Some).
    rewrite list_lookup_insert_ne by done. split_and!; [done..|].
    destruct Hw as [[Hfi Hfj]|[Hst Hw]]; [right; split; [auto|]; left; by left|].
    right. split; [auto|]. destruct Hw; auto.
  - exists qi, qj. rewrite !list_lookup_insert_ne by done. split_and!; [done..|].
    destruct Hw as [Hw|[Hst Hw]]; [by left|right]. auto.
Qed.

Lemma run_pool_wins id i j sched : ∀ p,
  i ≠ j → Forall (λ x, avoids id x.2) sched → one_wins id i j p →
  one_wins id i j (run_pool sched p).
Proof.
  induction sched as [|x sched IH]; intros p Hij; cbn; [done|].
  intros [Hx Hs]%Forall_cons Hp. apply IH; [done..|]. by apply pool_step_wins.
Qed.

Lemma finishes_not_Ret id o : ¬ finishes id (Ret o).
Proof. intros Hf. inversion Hf. Qed.

(** C8 (safety): a ceremony is finished at most once, under any interleaving. Let any
    requests run concurrently over stores that keep their promises, two of them finishing
    (registration, login or discoverable login, in any combination) with one session id
    that is not issued again. Whenever both have returned, one of them returned
    [ErrSessionNotFound]. *)
Theorem ceremony_single_use (id : string) (i j : nat) (p : pool) (sched : list (nat * env))
    (qi qj : prog outcome) (oi oj : outcome)
  (Hij : i ≠ j) (Hi : requests p !! i = Some qi) (Hj : requests p !! j = Some qj)
  (Hqi : finishes id qi) (Hqj : finishes id qj)
  (Hav : Forall (λ x, avoids id x.2) sched)
  (Hoi : requests (run_pool sched p) !! i = Some (Ret oi))
  (Hoj : requests (run_pool sched p) !! j = Some (Ret oj)) :
  oi = Err ErrSessionNotFound ∨ oj = Err ErrSessionNotFound.
Proof.
  destruct (run_pool_wins id i j sched p Hij Hav) as (qi' & qj' & Hi' & Hj' & Hw).
  { exists qi, qj. split_and!; [done..|]. by left. }
  rewrite Hoi in Hi'. injection Hi' as <-. rewrite Hoj in Hj'. injection Hj' as <-.
  destruct Hw as [[Hf _]|[_ [[Hf|[= Hf]]|[Hf|[= Hf]]]]];
    [by apply finishes_not_Ret in Hf|by apply finishes_not_Ret in Hf|by left
    |by apply finishes_not_Ret in Hf|by right].
Qed.

(** ** One request *)

(** A login succeeds exactly when its session was still there, the
    credentials of the handle could be loaded, the library accepts the response for that
    handle and those credentials, and the store accepts the write-back of the credential
    under its own ID; it then returns the handle and that credential. A store that
    refuses the write-back makes the login fail, whatever else was right. *)
Theorem login_accepted_iff (s : Service) (handle sessionID : string) (r : Request)
    (envs : nat → env) (st st' : state SS CS) (x : result) :
  exec envs 0 (FinishLogin s handle sessionID r) st = (Ok x, st') ↔
  ∃ session ss stored cred cs u,
    store_Take (e_now (envs 0%nat)) sessionID (sessions st) = (Some session, ss) ∧
    FindByUserHandle handle (creds st) = Ok stored ∧
    wa_FinishLogin (wa s) (Identity handle "" "" (sc_Credential <$> stored)) session r = Ok cred ∧
    UpdateSignCount (Credential_ID cred) cred (e_now (envs 2%nat)) (creds st) = (Ok u, cs) ∧
    x = LoggedIn (MkLoginResult handle cred) ∧ st' = State ss cs.
Proof.
  cbn [FinishLogin exec]. destruct (store_Take _ sessionID (sessions st)) as [[session|] ss]; cbn.
  2: { split; [done|]. by intros (? & ? & ? & ? & ? & ? & ? & _). }
  destruct (FindByUserHandle handle (creds st)) as [stored|e]; cbn.
  2: { split; [done|]. by intros (? & ? & ? & ? & ? & ? & ? & ? & _). }
  unfold credentialsOf. destruct (wa_FinishLogin _ _ session r) as [cred|e] eqn:Hf; cbn.
  2: { split; [done|]. intros (? & ? & ? & ? & ? & ? & [= <- <-] & [= <-] & Hf' & _). congruence. }
  destruct (UpdateSignCount _ cred _ (creds st)) as [[u|e] cs] eqn:Hu; cbn; split.
  - intros [= <- <-]. by exists session, ss, stored, cred, cs, u.
  - intros (? & ? & ? & ? & ? & ? & [= <- <-] & [= <-] & Hf' & Hu' & -> & ->).
    rewrite Hf in Hf'. injection Hf' as <-. rewrite Hu in Hu'. by injection Hu' as <- <-.
  - done.
  - intros (? & ? & ? & ? & ? & ? & [= <- <-] & [= <-] & Hf' & Hu' & _).
    rewrite Hf in Hf'. injection Hf' as <-. congruence.
Qed.

Lemma exec_absent {A} id (p : prog A) : ∀ envs n st,
  (∀ n, avoids id (envs n)) → absent id (sessions st) →
  absent id (sessions (exec envs n p st).2).
Proof.
  induction p as [a|data k IH|id' k IH|id' k IH|h k IH|cred k IH|k IH|id' cred t k IH];
    intros envs n st Ha Hst; cbn; auto.
  - pose proof (absent_Put (sessions st) (e_rand (envs n)) (e_now (envs n)) data id Hst
                  (Ha n data (sessions st))).
    destruct (store_Put _ _ data (sessions st)); auto.
  - pose proof (absent_Take (sessions st) (e_now (envs n)) id id' Hst).
    destruct (store_Take _ id' (sessions st)); auto.
  - destruct (Save cred (creds st)); auto.
  - destruct (UpdateSignCount id' cred t (creds st)); auto.
Qed.

(** A session is consumed whatever the outcome: after a finish call, the
    id is gone and finishing with it again fails with [ErrSessionNotFound] without
    touching the credentials. *)
Theorem finish_consumes_session (id : string) (p q : prog outcome) (envs envs' : nat → env)
    (st : state SS CS)
  (Hp : finishes id p) (Hq : finishes id q) (Ha : ∀ n, avoids id (envs n)) :
  let st1 := (exec envs 0 p st).2 in
  (exec envs' 0 q st1).1 = Err ErrSessionNotFound ∧
  creds (exec envs' 0 q st1).2 = creds st1.
Proof.
  assert (absent id (sessions (exec envs 0 p st).2)) as Hab.
  { pose proof (Take_removes (sessions st) (e_now (envs 0)) id) as Hr.
    destruct Hp; cbn [FinishRegistration FinishLogin FinishDiscoverableLogin exec];
      destruct (store_Take (e_now (envs 0)) id (sessions st)) as [o ss]; by apply exec_absent. }
  cbn zeta. pose proof (Take_absent (sessions (exec envs 0 p st).2) (e_now (envs' 0)) id Hab) as Hn.
  destruct Hq; cbn [FinishRegistration FinishLogin FinishDiscoverableLogin exec];
    destruct (store_Take (e_now (envs' 0)) id (sessions (exec envs 0 p st).2)) as [o ss];
    cbn in Hn; by subst o.
Qed.
End service.
Arguments Config {_ _} _ _.

(** ** The sessions of a service: the caller's store or the default one *)

#[export] Instance sum_SessionStore {V A B} `{SessionStore V A, SessionStore V B}
    : SessionStore V (A + B) := {
  store_Put rand now v st :=
    match st with
    | inl a => let '(r, a) := store_Put rand now v a in (r, inl a)
    | inr b => let '(r, b) := store_Put rand now v b in (r, inr b)
    end;
  store_Take now id st :=
    match st with
    | inl a => let '(r, a) := store_Take now id a in (r, inl a)
    | inr b => let '(r, b) := store_Take now id b in (r, inr b)
    end;
}.

Definition sum_absent {A B} (P : string → A → Prop) (Q : string → B → Prop)
    (id : string) (st : A + B) : Prop :=
  match st with inl a => P id a | inr b => Q id b end.

#[export] Instance sum_SessionLaws {V A B} `{SessionStore V A, SessionStore V B} P Q
    `{!SessionLaws V A P, !SessionLaws V B Q} : SessionLaws V (A + B) (sum_absent P Q).
Proof.
  split; cbn.
  - intros [a|b] now id; [pose proof (Take_removes a now id)|pose proof (Take_removes b now id)];
      by destruct (store_Take now id _).
  - intros [a|b] now id Hab; cbn in Hab;
      [pose proof (Take_absent a now id Hab)|pose proof (Take_absent b now id Hab)];
      by destruct (store_Take now id _).
  - intros [a|b] now id id' Hab; cbn in Hab;
      [pose proof (absent_Take a now id id' Hab)|pose proof (absent_Take b now id id' Hab)];
      by destruct (store_Take now id' _).
  - intros [a|b] rand now v id Hab; cbn in Hab;
      [pose proof (absent_Put a rand now v id Hab)|pose proof (absent_Put b rand now v id Hab)];
      destruct (store_Put rand now v _); auto.
Qed.

(** ** Whose login a discoverable ceremony is *)

Section discoverable.
Context `{CredentialData} {W : WebAuthn}.
Context {SS : Type} `{!SessionStore SessionData SS}.
Context (iteration : gmap string StoredCredential → list (string * StoredCredential)).
#[local] Instance creds_CredentialStore : CredentialStore (gmap string StoredCredential) :=
  memory_CredentialStore iteration.

(** go-webauthn returns a credential only after the handler answered, and then the one
    whose raw id it asked for last, of the user it was given. *)
Fixpoint disc_sound (last : option string) (p : disc_prog) : Prop :=
  match p with
  | DiscReturn (Ok cred) => last = Some (Credential_ID cred)
  | DiscReturn (Err _) => True
  | DiscAsk rawID _ k =>
      (∀ u, Forall (λ c, Credential_ID c = rawID) (WebAuthnCredentials u) →
            disc_sound (Some rawID) (k (Ok u))) ∧
      ∀ e, disc_sound None (k (Err e))
  end.

(** The last id asked for is on file under the handle resolved. *)
Definition resolved (last : option string) (handle : string)
    (m : gmap string StoredCredential) : Prop :=
  ∀ rawID, last = Some rawID → ∃ sc, m !! rawID = Some sc ∧ sc_UserHandle sc = handle.

Lemma exec_write_back handle cred envs n (st : state SS (gmap string StoredCredential)) x st' :
  exec envs n (write_back handle cred) st = (Ok x, st') →
  ∃ sc, creds st !! Credential_ID cred = Some sc ∧
    x = LoggedIn (MkLoginResult handle cred) ∧ sessions st' = sessions st ∧
    creds st' = <[Credential_ID cred := MkStoredCredential (sc_UserHandle sc) cred]> (creds st).
Proof.
  unfold write_back. cbn [exec UpdateSignCount creds_CredentialStore memory_CredentialStore].
  unfold memory_UpdateSignCount. destruct (creds st !! Credential_ID cred) as [sc|]; [|done].
  intros [= <- <-]. by exists sc.
Qed.

Lemma exec_run_disc p : ∀ last handle envs n (st : state SS (gmap string StoredCredential)) x st',
  filed (creds st) → disc_sound last p → resolved last handle (creds st) →
  exec envs n
    (run_disc p handle (λ cred resolvedHandle,
       match cred with
       | Err e => Ret (Err (LibraryError e))
       | Ok cred => write_back resolvedHandle cred
       end)) st = (Ok x, st') →
  ∃ cred sc, creds st !! Credential_ID cred = Some sc ∧
    x = LoggedIn (MkLoginResult (sc_UserHandle sc) cred) ∧ sessions st' = sessions st ∧
    creds st' = <[Credential_ID cred := MkStoredCredential (sc_UserHandle sc) cred]> (creds st).
Proof.
  induction p as [r|rawID uh k IH]; intros last handle envs n st x st' Hfiled Hs Hr; cbn [run_disc].
  - destruct r as [cred|e]; [|done]. intros (sc & Hsc & -> & Hss & Hcs)%exec_write_back.
    destruct (Hr _ Hs) as (sc' & Hsc' & <-). assert (sc' = sc) as -> by congruence.
    by exists cred, sc.
  - cbn [exec FindByID creds_CredentialStore memory_CredentialStore]. unfold memory_FindByID.
    destruct Hs as [Hok Herr]. destruct (creds st !! rawID) as [sc|] eqn:Hsc; cbn [of_option].
    + intros Hx. eapply (IH _ (Some rawID)) in Hx; [done|done| |].
      * apply Hok. cbn. repeat constructor. by apply Hfiled.
      * intros ? [= <-]. by exists sc.
    + intros Hx. eapply (IH _ None) in Hx; [done|done|apply Herr|done].
Qed.

(** C14 (safety): a discoverable login is resolved to the right account. Over
    [MemoryCredentialStore], in which credentials are filed under their own IDs, a
    successful login returns the handle that the credential used is on file for, and the
    only change to the store is that credential, under the same handle. *)
Theorem discoverable_login_owner (s : Service) (sessionID : string) (r : Request)
    (envs : nat → env) (st st' : state SS (gmap string StoredCredential)) (x : result)
  (Hlib : ∀ session, disc_sound None (wa_FinishDiscoverableLogin (wa s) session r))
  (Hfiled : filed (creds st))
  (Hx : exec envs 0 (FinishDiscoverableLogin s sessionID r) st = (Ok x, st')) :
  ∃ cred sc, x = LoggedIn (MkLoginResult (sc_UserHandle sc) cred) ∧
    creds st !! Credential_ID cred = Some sc ∧
    creds st' = <[Credential_ID cred := MkStoredCredential (sc_UserHandle sc) cred]> (creds st) ∧
    filed (creds st').
Proof.
  unfold FinishDiscoverableLogin in Hx. cbn [exec] in Hx.
  destruct (store_Take _ sessionID (sessions st)) as [[session|] ss]; [|done].
  eapply (exec_run_disc _ None) in Hx as (cred & sc & Hsc & -> & _ & Hcs); [|done|apply Hlib|done].
  exists cred, sc. split_and!; [done..|]. rewrite Hcs.
  intros k sc' Hk. apply lookup_insert_Some in Hk as [[<- <-]|[_ Hk]]; [done|by apply Hfiled].
Qed.
End discoverable.

(** ** Witnesses *)

(** A library that accepts the response "ok". *)
Definition sample_webauthn : WebAuthn (H := sample_data) :=
  Build_WebAuthn sample_data unit string string string string unit string string
    id (λ s _, s) "preferred" "none" (λ _ _ _ _ _, Ok tt) (λ _, tt) id
    (λ _ _ _ _, Ok ("creation"%string, "session"%string))
    (λ _ _ _ r, if bool_decide (r = "ok"%string) then Ok ("c1"%string, 1%Z) else Err "bad"%string)
    (λ _ _ _ _, Ok ("assertion"%string, "session"%string))
    (λ _ _ _ r, if bool_decide (r = "ok"%string) then Ok ("c1"%string, 2%Z) else Err "bad"%string)
    (λ _ _ _, Ok ("assertion"%string, "session"%string))
    (λ _ _ r, DiscAsk (H := sample_data) r "" (λ u,
       DiscReturn (H := sample_data)
         match u with
         | Ok u => match WebAuthnCredentials (H := sample_data) u with
                   | c :: _ => if bool_decide (c.1 = r) then Ok c else Err "bad"%string
                   | [] => Err "bad"%string
                   end
         | Err _ => Err "bad"%string
         end)).

#[local] Existing Instance sample_data.
#[local] Existing Instance sample_webauthn.
#[local] Instance sample_creds : CredentialStore (gmap string StoredCredential) :=
  memory_CredentialStore map_to_list.

Definition sample_service : Service := MkService (tt : WA) "preferred".
Definition sample_env : env := Env (Err "no randomness"%string) 3.
Definition sample_state : state (store string) (gmap string StoredCredential) :=
  State (Put (Ok "r1"%string) 1 "session"%string (PasskeySessions.newMemoryStore 2 10)).2
        {["c1"%string := sample_stored]}.
Definition sample_session : string := session_id "r1".

Lemma sample_avoids : avoids (SS := store string) sample_session sample_env.
Proof. intros data ss. discriminate. Qed.

Definition sample_pool : pool :=
  Pool [FinishLogin sample_service "alice" sample_session "ok"%string;
        FinishDiscoverableLogin sample_service sample_session "c1"%string] sample_state.
Definition sample_sched : list (nat * env) :=
  (λ i, (i, sample_env)) <$> [1; 0; 1; 1; 1]%nat.

Lemma ceremony_single_use_witness :
  (∃ r, requests (run_pool sample_sched sample_pool) !! 1%nat = Some (Ret (Ok r))) ∧
  ∃ oi oj, requests (run_pool sample_sched sample_pool) !! 0%nat = Some (Ret oi) ∧
           requests (run_pool sample_sched sample_pool) !! 1%nat = Some (Ret oj) ∧
           (oi = Err ErrSessionNotFound ∨ oj = Err ErrSessionNotFound).
Proof.
  split; [eexists; vm_compute; reflexivity|].
  eexists _, _. split; [vm_compute; reflexivity|]. split; [vm_compute; reflexivity|].
  refine (ceremony_single_use (absent := memory_absent) sample_session 0 1 sample_pool sample_sched
            _ _ _ _ _ _ _ _ _ _ _ _).
  - discriminate.
  - reflexivity.
  - reflexivity.
  - constructor.
  - constructor.
  - repeat constructor; apply sample_avoids.
  - vm_compute; reflexivity.
  - vm_compute; reflexivity.
Defined.

Lemma finish_consumes_session_witness :
  let p := FinishLogin sample_service "alice" sample_session "wrong"%string in
  let q := FinishLogin sample_service "alice" sample_session "ok"%string in
  let st1 := (exec (λ _, sample_env) 0 p sample_state).2 in
  (exec (λ _, sample_env) 0 q st1).1 = Err ErrSessionNotFound ∧
  creds (exec (λ _, sample_env) 0 q st1).2 = creds st1.
Proof.
  refine (finish_consumes_session (absent := memory_absent) sample_session
            (FinishLogin sample_service "alice" sample_session "wrong"%string)
            (FinishLogin sample_service "alice" sample_session "ok"%string)
            (λ _, sample_env) (λ _, sample_env) sample_state _ _ _).
  - constructor.
  - constructor.
  - intros n. apply sample_avoids.
Defined.

Lemma discoverable_login_owner_witness :
  ∃ x st', exec (λ _, sample_env) 0 (FinishDiscoverableLogin sample_service sample_session "c1"%string)
             sample_state = (Ok x, st') ∧
  ∃ cred sc, x = LoggedIn (MkLoginResult (sc_UserHandle sc) cred) ∧
    creds sample_state !! Credential_ID cred = Some sc.
Proof.
  destruct (exec (λ _, sample_env) 0
              (FinishDiscoverableLogin sample_service sample_session "c1"%string) sample_state)
    as [[x|e] st'] eqn:Hx; [|exfalso; vm_compute in Hx; discriminate Hx].
  exists x, st'. split; [reflexivity|].
  destruct (discoverable_login_owner map_to_list sample_service sample_session "c1"%string
              (λ _, sample_env) sample_state st' x) as (cred & sc & H1 & H2 & _).
  - intros session. cbn. split; [|done]. intros u Hu. destruct (WebAuthnCredentials u); [done|].
    case_bool_decide; [congruence|done].
  - intros k sc Hk. cbn in Hk. apply lookup_singleton_Some in Hk as [<- <-]. reflexivity.
  - exact Hx.
  - exists cred, sc. split; [exact H1|exact H2].
Defined.
