(* ===== verification/PasskeyJourney.v ===== *)
(** * PasskeyJourney

    The ceremonies of [passkey/registration.go], [authentication.go] and [discoverable.go]
    put together on [MemoryStore] and [MemoryCredentialStore]: a client that registers a
    passkey and then logs in with it, by handle or by what the authenticator knows. *)

From S2P Require Import Prelude GoRuntime GoStrings TtlStore PasskeySessions PasskeyCredentials PasskeyService.

Section journey.
Context `{CredentialData} {W : WebAuthn}.
Context (iteration : gmap string StoredCredential → list (string * StoredCredential)).
#[local] Instance journey_creds : CredentialStore (gmap string StoredCredential) :=
  memory_CredentialStore iteration.

Abbreviation stores := (state (store SessionData) (gmap string StoredCredential)).

(** The authenticator: what it answers to the two kinds of challenge. *)
Context (create : CredentialCreation → Request) (get : CredentialAssertion → Request).

(** One call of the service at one instant. *)
Definition at_time (rand : res error string) (now : Time) (p : prog outcome) (st : stores)
    : outcome * stores := exec (λ _, Env rand now) 0 p st.

(** When the four calls are made, and what the random source gives the two that begin. *)
Record schedule : Type := MkSchedule {
  t_begin_reg : Time; t_finish_reg : Time; t_begin_login : Time; t_finish_login : Time;
  rand_reg : string; rand_login : string;
}.

(** The two login ceremonies. *)
Inductive login_way : Type := ByHandle | Discoverable.

Definition begin_login (way : login_way) (s : Service) (draw : N) (handle : string)
    (opts : list LoginOption) : prog outcome :=
  match way with
  | ByHandle => BeginLogin s draw handle opts
  | Discoverable => BeginDiscoverableLogin s draw opts
  end.

Definition finish_login (way : login_way) (s : Service) (handle sessionID : string) (r : Request)
    : prog outcome :=
  match way with
  | ByHandle => FinishLogin s handle sessionID r
  | Discoverable => FinishDiscoverableLogin s sessionID r
  end.

(** Registration and then login, as a client drives them. *)
Definition journey (way : login_way) (s : Service) (x : schedule) (draw1 draw2 : N) (handle name displayName : string)
    (ropts : list RegistrationOption) (lopts : list LoginOption) (st : stores) : outcome * stores :=
  match at_time (Ok (rand_reg x)) (t_begin_reg x)
          (BeginRegistration s draw1 handle name displayName ropts) st with
  | (Ok (RegistrationBegun creation sid), st) =>
      match at_time (Err ""%string) (t_finish_reg x)
              (FinishRegistration s handle sid (create creation)) st with
      | (Ok (Registered _), st) =>
          match at_time (Ok (rand_login x)) (t_begin_login x) (begin_login way s draw2 handle lopts) st with
          | (Ok (LoginBegun assertion sid), st) =>
              at_time (Err ""%string) (t_finish_login x) (finish_login way s handle sid (get assertion)) st
          | r => r
          end
      | r => r
      end
  | r => r
  end.

(** The library with an honest authenticator: a registration challenge for the user, who does
    not have the passkey yet, is answered with the passkey [cid]; a login challenge for the
    user, who has it, is answered with it. To a login challenge for nobody the answer names
    the passkey and the user; it stands if the handler gives the library that user. *)
Record honest (w : WA) (handle cid : string) : Prop := Honest {
  honest_registration draw u opts :
    WebAuthnID u = handle → (∀ c, c ∈ WebAuthnCredentials u → Credential_ID c ≠ cid) →
    ∃ creation session, wa_BeginRegistration w draw u opts = Ok (creation, session) ∧
      ∀ u', WebAuthnID u' = handle →
        ∃ cred, wa_FinishRegistration w u' session (create creation) = Ok cred ∧ Credential_ID cred = cid;
  honest_login draw u opts :
    WebAuthnID u = handle → (∃ c, c ∈ WebAuthnCredentials u ∧ Credential_ID c = cid) →
    ∃ assertion session, wa_BeginLogin w draw u opts = Ok (assertion, session) ∧
      ∀ u', WebAuthnID u' = handle → WebAuthnCredentials u' = WebAuthnCredentials u →
        ∃ cred, wa_FinishLogin w u' session (get assertion) = Ok cred ∧ Credential_ID cred = cid;
  honest_discoverable draw opts :
    ∃ assertion session, wa_BeginDiscoverableLogin w draw opts = Ok (assertion, session) ∧
      ∃ k, wa_FinishDiscoverableLogin w session (get assertion) = DiscAsk cid handle k ∧
        ∀ u, WebAuthnID u = handle → (∃ c, c ∈ WebAuthnCredentials u ∧ Credential_ID c = cid) →
          ∃ cred, k (Ok u) = DiscReturn (Ok cred) ∧ Credential_ID cred = cid;
}.

(** Each ceremony is finished within the lifetime of its session, and the random source
    gives new ids. *)
Record timely (x : schedule) (d : Duration) (ss : store SessionData) : Prop := Timely {
  timely_reg : (t_finish_reg x ≤ Add (t_begin_reg x) d)%Z;
  timely_login : (t_finish_login x ≤ Add (t_begin_login x) d)%Z;
  fresh_reg : rand_reg x ≠ ""%string ∧ items ss !! session_id (rand_reg x) = None;
  fresh_login : rand_login x ≠ ""%string ∧ items ss !! session_id (rand_login x) = None;
}.

Lemma listed_credential handle (m : gmap string StoredCredential) c :
  (∀ m, iteration m ≡ₚ map_to_list m) →
  c ∈ credentialsOf (with_handle handle (iteration m)) ↔
  ∃ k, m !! k = Some (MkStoredCredential handle c).
Proof.
  intros Hiter. unfold credentialsOf. rewrite list_elem_of_fmap. setoid_rewrite with_handle_elem.
  setoid_rewrite Hiter. setoid_rewrite elem_of_map_to_list. split.
  - intros ([h c'] & -> & Hh & k & Hk). cbn in *. subst. by exists k.
  - intros (k & Hk). exists (MkStoredCredential handle c). split_and!; [done|done|]. by exists k.
Qed.

(** A session put and then taken, each by a program of the service. *)
Lemma put_then_finish max d b t t' session ss (cs : gmap string StoredCredential) done_ :
  TtlStore.inv max d ss → items ss !! session_id b = None → b ≠ ""%string → (t' ≤ Add t d)%Z →
  ∃ ss1 ss2, at_time (Ok b) t (put_session session done_) (State ss cs)
               = (Ok (done_ (session_id b)), State ss1 cs) ∧
    Take t' (session_id b) ss1 = (Some session, ss2) ∧ TtlStore.inv max d ss2 ∧
    ∀ id, items ss !! id = None → items ss2 !! id = None.
Proof.
  intros Hinv Hn Hb Ht. destruct (Put_Take max d b t t' session ss Hinv Hn Hb Ht) as (ss2 & H1 & H2 & H3).
  by exists (Put (Ok b) t session ss).2, ss2.
Qed.

Lemma registration_succeeds s cid max d t t' b draw handle name displayName opts ss
    (cs : gmap string StoredCredential)
  (Hiter : ∀ m, iteration m ≡ₚ map_to_list m) (Hhonest : honest (wa s) handle cid)
  (Hss : TtlStore.inv max d ss) (Hn : items ss !! session_id b = None) (Hb : b ≠ ""%string)
  (Ht : (t' ≤ Add t d)%Z) (Hfiled : filed cs) (Hnew : cs !! cid = None) :
  ∃ creation ss1 cred ss2,
    at_time (Ok b) t (BeginRegistration s draw handle name displayName opts) (State ss cs)
      = (Ok (RegistrationBegun creation (session_id b)), State ss1 cs) ∧
    at_time (Err ""%string) t' (FinishRegistration s handle (session_id b) (create creation)) (State ss1 cs)
      = (Ok (Registered cred), State ss2 (<[cid := MkStoredCredential handle cred]> cs)) ∧
    Credential_ID cred = cid ∧ TtlStore.inv max d ss2 ∧
    ∀ id, items ss !! id = None → items ss2 !! id = None.
Proof.
  unfold at_time at 1, BeginRegistration. cbn [exec FindByUserHandle journey_creds memory_CredentialStore creds].
  unfold memory_FindByUserHandle.
  match goal with |- context [wa_BeginRegistration _ _ ?u ?o] =>
    destruct (honest_registration _ _ _ Hhonest draw u o) as (creation & session & -> & Hreg) end.
  { done. }
  { cbn. intros c (k & Hk)%listed_credential; [|done]. specialize (Hfiled _ _ Hk). cbn in Hfiled. congruence. }
  destruct (put_then_finish max d b t t' session ss cs (RegistrationBegun creation) Hss Hn Hb Ht)
    as (ss1 & ss2 & Hput & Htake & Hss2 & Hnone).
  destruct (Hreg (Identity handle "" "" []) eq_refl) as (cred & Hfin & Hid).
  exists creation, ss1, cred, ss2. split; [exact Hput|]. split_and!; [|done..].
  unfold at_time, FinishRegistration. cbn [exec store_Take memory_SessionStore sessions creds e_now].
  rewrite Htake, Hfin. cbn [exec Save journey_creds memory_CredentialStore sessions creds].
  unfold memory_Save. cbn [sc_Credential]. by rewrite Hid, Hnew.
Qed.

(** A login that goes through: begun at [t] and finished at [t'] it leaves the passkey on
    file as the login returns it. *)
Definition logs_in (way : login_way) (s : Service) draw handle opts b t t' ss
    (cs : gmap string StoredCredential) cid : Prop :=
  ∃ assertion ss1 cred ss2,
    at_time (Ok b) t (begin_login way s draw handle opts) (State ss cs)
      = (Ok (LoginBegun assertion (session_id b)), State ss1 cs) ∧
    at_time (Err ""%string) t' (finish_login way s handle (session_id b) (get assertion)) (State ss1 cs)
      = (Ok (LoggedIn (MkLoginResult handle cred)),
         State ss2 (<[cid := MkStoredCredential handle cred]> cs)) ∧
    Credential_ID cred = cid ∧ ∀ id, items ss !! id = None → items ss2 !! id = None.

Section login.
Context (s : Service) (cid handle : string) (cred0 : Credential) (max : Z) (d : Duration) (t t' : Time).
Context (b : string) (draw : N) (opts : list LoginOption) (ss : store SessionData).
Context (cs : gmap string StoredCredential).
Context (Hhonest : honest (wa s) handle cid) (Hss : TtlStore.inv max d ss).
Context (Hn : items ss !! session_id b = None) (Hb : b ≠ ""%string) (Ht : (t' ≤ Add t d)%Z).
Context (Hcid : Credential_ID cred0 = cid) (Hcred : cs !! cid = Some (MkStoredCredential handle cred0)).

(** The write-back at the end of both ceremonies. *)
Lemma write_back_succeeds e n ss2 cred :
  Credential_ID cred = cid →
  exec (λ _, e) n (write_back handle cred) (State ss2 cs)
  = (Ok (LoggedIn (MkLoginResult handle cred)), State ss2 (<[cid := MkStoredCredential handle cred]> cs)).
Proof using Hcred.
  intros Hid. unfold write_back.
  cbn [exec UpdateSignCount journey_creds memory_CredentialStore sessions creds e_now].
  unfold memory_UpdateSignCount. by rewrite Hid, Hcred.
Qed.

Lemma handle_login_succeeds (Hiter : ∀ m, iteration m ≡ₚ map_to_list m) :
  logs_in ByHandle s draw handle opts b t t' ss cs cid.
Proof using All.
  assert (cred0 ∈ credentialsOf (with_handle handle (iteration cs))) as Hin
    by (apply listed_credential; [done|]; by exists cid).
  unfold logs_in, at_time at 1. cbn [begin_login finish_login]. unfold BeginLogin.
  cbn [exec FindByUserHandle journey_creds memory_CredentialStore creds]. unfold memory_FindByUserHandle.
  destruct (with_handle handle (iteration cs)) as [|sc0 scs] eqn:Hl; [by apply elem_of_nil in Hin|].
  match goal with |- context [wa_BeginLogin _ _ ?u ?o] =>
    destruct (honest_login _ _ _ Hhonest draw u o) as (assertion & session & -> & Hlog) end;
    [done|by exists cred0|].
  destruct (put_then_finish max d b t t' session ss cs (LoginBegun assertion) Hss Hn Hb Ht)
    as (ss1 & ss2 & Hput & Htake & _ & Hnone).
  destruct (Hlog (Identity handle "" "" (credentialsOf (with_handle handle (iteration cs)))))
    as (cred & Hfin & Hid); [done|by rewrite Hl|].
  exists assertion, ss1, cred, ss2. split; [exact Hput|]. split_and!; [|done..].
  unfold at_time, FinishLogin. cbn [exec store_Take memory_SessionStore sessions creds e_now].
  rewrite Htake. cbn [exec FindByUserHandle journey_creds memory_CredentialStore creds].
  unfold memory_FindByUserHandle. rewrite Hfin. by apply write_back_succeeds.
Qed.

Lemma discoverable_login_succeeds : logs_in Discoverable s draw handle opts b t t' ss cs cid.
Proof using All.
  unfold logs_in, at_time at 1. cbn [begin_login finish_login]. unfold BeginDiscoverableLogin.
  destruct (honest_discoverable _ _ _ Hhonest draw (withDefaultUV s opts))
    as (assertion & session & -> & k & Hask & Hk).
  destruct (put_then_finish max d b t t' session ss cs (LoginBegun assertion) Hss Hn Hb Ht)
    as (ss1 & ss2 & Hput & Htake & _ & Hnone).
  destruct (Hk (Identity handle "" "" [cred0])) as (cred & Hfin & Hid);
    [done|exists cred0; split; [by left|done]|].
  exists assertion, ss1, cred, ss2. split; [exact Hput|]. split_and!; [|done..].
  unfold at_time, FinishDiscoverableLogin. cbn [exec store_Take memory_SessionStore sessions creds e_now].
  rewrite Htake, Hask. cbn [run_disc exec FindByID journey_creds memory_CredentialStore creds].
  unfold memory_FindByID. rewrite Hcred. cbn [of_option sc_UserHandle sc_Credential]. rewrite Hfin.
  cbn [run_disc]. by apply write_back_succeeds.
Qed.
End login.

(** C9 (liveness): the ceremonies fit together. With an honest authenticator, on session
    and credential stores in any state they can be in, a user who begins a registration,
    finishes it, begins a login and finishes it, each within the session's lifetime, is
    logged in, whether the login names the handle or leaves it to the authenticator: the
    result names the user's handle and the new passkey, the credential store has gained
    exactly that passkey, as the login left it, and both sessions are used up. *)
Theorem register_then_login (way : login_way) (s : Service) (x : schedule) draw1 draw2
    handle name displayName ropts lopts max d (st : stores) cid
  (Hiter : ∀ m, iteration m ≡ₚ map_to_list m) (Hhonest : honest (wa s) handle cid)
  (Hss : TtlStore.inv max d (sessions st)) (Hx : timely x d (sessions st))
  (Hfiled : filed (creds st)) (Hnew : creds st !! cid = None) :
  ∃ cred st', journey way s x draw1 draw2 handle name displayName ropts lopts st =
                (Ok (LoggedIn (MkLoginResult handle cred)), st') ∧
    Credential_ID cred = cid ∧ creds st' = <[cid := MkStoredCredential handle cred]> (creds st) ∧
    ∀ id, items (sessions st) !! id = None → items (sessions st') !! id = None.
Proof.
  destruct st as [ss cs], Hx as [Ht1 Ht2 [Hb1 Hn1] [Hb2 Hn2]]. cbn [sessions creds] in *.
  destruct (registration_succeeds s cid max d _ _ _ draw1 handle name displayName ropts ss cs
              Hiter Hhonest Hss Hn1 Hb1 Ht1 Hfiled Hnew)
    as (creation & ss1 & cred1 & ss2 & Hbegin & Hfinish & Hid1 & Hss2 & Hnone).
  set (cs1 := <[cid := MkStoredCredential handle cred1]> cs) in *.
  assert (logs_in way s draw2 handle lopts (rand_login x) (t_begin_login x) (t_finish_login x) ss2 cs1 cid)
    as (assertion & ss3 & cred & ss4 & Hbegin2 & Hfinish2 & Hid & Hnone2).
  { pose proof (lookup_insert_eq cs cid (MkStoredCredential handle cred1) : cs1 !! cid = _) as Hcred.
    destruct way; [by eapply handle_login_succeeds; eauto|by eapply discoverable_login_succeeds; eauto]. }
  exists cred, (State ss4 (<[cid := MkStoredCredential handle cred]> cs1)).
  unfold journey. rewrite Hbegin, Hfinish, Hbegin2, Hfinish2. split_and!; [done|done| |by auto].
  unfold cs1. by rewrite insert_insert_eq.
Qed.
End journey.

(** ** Witness *)

#[local] Existing Instance sample_data.

(** A library whose challenges name the ceremony and whose authenticator answers with the
    challenge; the login of "c2" counts one up. *)
Definition honest_webauthn : WebAuthn (H := sample_data) :=
  Build_WebAuthn sample_data unit string string string string unit string string
    id (λ s _, s) "preferred" "none" (λ _ _ _ _ _, Ok tt) (λ _, tt) id
    (λ _ _ _ _, Ok ("create"%string, "session"%string))
    (λ _ _ _ r, if bool_decide (r = "create"%string) then Ok ("c2"%string, 1%Z) else Err "bad"%string)
    (λ _ _ _ _, Ok ("get"%string, "session"%string))
    (λ _ _ _ r, if bool_decide (r = "get"%string) then Ok ("c2"%string, 2%Z) else Err "bad"%string)
    (λ _ _ _, Ok ("get"%string, "session"%string))
    (λ _ _ r, DiscAsk (H := sample_data) "c2" "bob" (λ u,
       DiscReturn (H := sample_data)
         match u with
         | Ok u => if bool_decide (WebAuthnID (H := sample_data) u = "bob"%string ∧ r = "get"%string)
                   then Ok ("c2"%string, 2%Z) else Err "bad"%string
         | Err _ => Err "bad"%string
         end)).
#[local] Existing Instance honest_webauthn.

Definition echo (challenge : string) : string := challenge.
Definition journey_service : Service := MkService (tt : WA) "preferred".
Definition journey_state : state (store SessionData) (gmap string StoredCredential) :=
  State (Put (Ok "r1"%string) 1 "session"%string (PasskeySessions.newMemoryStore 2 10)).2
        {["c1"%string := sample_stored]}.
Definition journey_schedule : schedule := MkSchedule 5 15 40 50 "r2" "r3".

Lemma register_then_login_witness :
  let r way := journey (W := honest_webauthn) map_to_list echo echo way journey_service journey_schedule 0 0
                 "bob" "Bob" "Bob" [] [] journey_state in
  ((r ByHandle).1 = Ok (LoggedIn (MkLoginResult "bob" ("c2"%string, 2%Z))) ∧
   (r Discoverable).1 = Ok (LoggedIn (MkLoginResult "bob" ("c2"%string, 2%Z)))) ∧
  creds (r Discoverable).2 !! "c2"%string = Some (MkStoredCredential "bob" ("c2"%string, 2%Z)).
Proof.
  cbn zeta. split; [split; vm_compute; reflexivity|].
  destruct (register_then_login (W := honest_webauthn) map_to_list echo echo Discoverable journey_service
              journey_schedule 0 0 "bob" "Bob" "Bob" [] [] 2 10 journey_state "c2")
    as (cred & st' & Hj & Hid & Hcs & _).
  - done.
  - split.
    + intros draw u opts _ _. exists "create"%string, "session"%string. split; [done|]. intros u' _.
      by exists ("c2"%string, 1%Z).
    + intros draw u opts _ _. exists "get"%string, "session"%string. split; [done|]. intros u' _ _.
      by exists ("c2"%string, 2%Z).
    + intros draw opts. exists "get"%string, "session"%string. split; [done|]. eexists. split; [done|].
      intros u Hu _. exists ("c2"%string, 2%Z). split; [|done].
      cbn beta iota zeta. by rewrite bool_decide_eq_true_2.
  - apply Put_spec; [apply (session_inv_new 2 10)|reflexivity].
  - split; [vm_compute; congruence|vm_compute; congruence|split; [done|vm_compute; reflexivity]..].
  - intros k sc Hk. cbn in Hk. apply lookup_singleton_Some in Hk as [<- <-]. reflexivity.
  - reflexivity.
  - rewrite Hj. cbn [snd]. rewrite Hcs, lookup_insert_eq. apply (f_equal fst) in Hj.
    vm_compute in Hj. by injection Hj as <-.
Defined.
