(* ===== verification/OidcUrl.v ===== *)
(** * OidcUrl

    [httpsURL] of [oidc/provider.go], and exactly which texts it accepts. *)

From S2P Require Import Prelude GoStrings GoNet GoUrl.
Local Open Scope Z_scope.

Definition httpsURL (value : string) (query : bool) : bool :=
  if (len value =? 0) || (8192 <? len value) || negb (ValidString value) then false
  else match url_Parse value with
       | None => false
       | Some parsed =>
           bool_decide (Scheme parsed = "https"%string) &&
           negb (bool_decide (Hostname parsed = ""%string)) && bool_decide (User parsed = None) &&
           bool_decide (Fragment parsed = ""%string) &&
           (query || bool_decide (RawQuery parsed = ""%string))
       end.

Lemma httpsURL_len value query : httpsURL value query = true → len value ≤ 8192.
Proof.
  unfold httpsURL. destruct (Z.ltb_spec 8192 (len value)); [|done]. by rewrite orb_true_r.
Qed.

(** ** The grammar *)

Definition https : list Z := bytes "https".
Definition slash : Z := 47.
Definition question : Z := 63.
Definition hash : Z := 35.
Definition at_sign : Z := 64.

(** A URL without a fragment, in its parts. *)
Record https_parts (scheme authority path query : list Z) : Prop := HttpsParts {
  hp_scheme : lower_byte <$> scheme = https;
  hp_authority : Forall (λ c, c ≠ slash ∧ c ≠ question ∧ c ≠ hash ∧ c ≠ at_sign) authority;
  hp_path : path = [] ∨ head path = Some slash;
  hp_path_clean : Forall (λ c, c ≠ question ∧ c ≠ hash) path;
  hp_path_escapes : is_Some (unescape_component EncodePath path);
  hp_query : query = [] ∨ ∃ q, query = question :: q ∧ hash ∉ q;
  hp_host : ∃ host, parseHost https authority = Some host ∧
                    Hostname (MkURL "" "" None (of_bytes host) "" "" false false "" "" "") ≠ ""%string;
  hp_no_ctl : has_ctl (scheme ++ [58; 47; 47] ++ authority ++ path ++ query) = false;
}.

(** ** Cutting *)

Lemma cut_None sep l a : cut sep l = (a, None) → a = l ∧ sep ∉ l.
Proof.
  revert a. induction l as [|c l IH]; intros a; cbn; [by intros [= <-]; split; [|apply not_elem_of_nil]|].
  destruct (Z.eqb_spec c sep); [done|]. destruct (cut sep l) as [a' [r|]]; [done|].
  intros [= <-]. destruct (IH a' eq_refl) as [-> Hn]. split; [done|]. apply not_elem_of_cons. auto.
Qed.

Lemma cut_Some sep l a b : cut sep l = (a, Some b) → l = a ++ sep :: b ∧ sep ∉ a.
Proof.
  revert a. induction l as [|c l IH]; intros a; cbn; [done|].
  destruct (Z.eqb_spec c sep) as [->|Hc].
  - intros [= <- <-]. split; [done|]. apply not_elem_of_nil.
  - destruct (cut sep l) as [a' [r|]]; [|done]. intros [= <- ->].
    destruct (IH a' eq_refl) as [-> Hn]. split; [done|]. apply not_elem_of_cons. auto.
Qed.

Lemma cut_absent sep l : sep ∉ l → cut sep l = (l, None).
Proof.
  induction l as [|c l IH]; [done|]. intros [Hc Hl]%not_elem_of_cons. cbn.
  destruct (Z.eqb_spec c sep); [congruence|]. by rewrite IH.
Qed.

Lemma cut_last_None sep l : cut_last sep l = None ↔ sep ∉ l.
Proof.
  unfold cut_last. destruct (cut sep (reverse l)) as [b [a|]] eqn:Hc.
  - apply cut_Some in Hc as [Hc _]. split; [done|]. intros Hn. destruct Hn.
    rewrite <- elem_of_reverse, Hc. set_solver.
  - apply cut_None in Hc as [_ Hn]. by rewrite elem_of_reverse in Hn.
Qed.

(** ** The scheme *)

Definition letter (c : Z) : bool := between 97 c 122 || between 65 c 90.

Lemma getScheme_loop_Some whole l : ∀ acc s r,
  getScheme_loop whole l acc = Some (s, r) → s ≠ [] → s ++ 58 :: r = reverse acc ++ l.
Proof.
  induction l as [|c l IH]; intros acc s r; cbn [getScheme_loop]; [by intros [= <- <-]|].
  destruct (between 97 c 122 || between 65 c 90).
  { intros H Hs. apply IH in H; [|done]. by rewrite reverse_cons, <- app_assoc in H. }
  destruct (between 48 c 57 || is_in c "+-.").
  { destruct acc as [|x acc]; [by intros [= <- <-]|]. intros H Hs. apply IH in H; [|done].
    by rewrite reverse_cons, <- app_assoc in H. }
  destruct (Z.eqb_spec c 58) as [->|]; [|by intros [= <- <-]].
  destruct acc as [|x acc]; [done|]. by intros [= <- <-].
Qed.

Lemma getScheme_Some l s r : getScheme l = Some (s, r) → s ≠ [] → l = s ++ 58 :: r.
Proof. intros H Hs. by apply getScheme_loop_Some in H as ->. Qed.

Lemma getScheme_letters s r :
  s ≠ [] → forallb letter s = true → getScheme (s ++ 58 :: r) = Some (s, r).
Proof.
  unfold getScheme. intros Hs Hl.
  assert (∀ whole l acc, forallb letter l = true → l ≠ [] ∨ acc ≠ [] →
    getScheme_loop whole (l ++ 58 :: r) acc = Some (reverse acc ++ l, r)) as H.
  { clear s Hs Hl. intros whole l. induction l as [|c l IH]; intros acc Hl Hn.
    - cbn. destruct acc; [by destruct Hn|]. by rewrite app_nil_r.
    - cbn in Hl. apply andb_true_iff in Hl as [Hc Hl]. cbn [app getScheme_loop].
      unfold letter in Hc. rewrite Hc. rewrite IH by (done || by right).
      by rewrite reverse_cons, <- app_assoc. }
  rewrite H by auto. done.
Qed.

Lemma https_letters s : lower_byte <$> s = https → forallb letter s = true ∧ s ≠ [].
Proof.
  intros H. split; [|by intros ->]. apply forallb_forall. intros c Hc%list_elem_of_In.
  assert (lower_byte c ∈ https) as Hin by (rewrite <- H; by apply list_elem_of_fmap_2).
  unfold https in Hin. change (bytes "https") with [104; 116; 116; 112; 115] in Hin.
  unfold lower_byte, letter in *. destruct (between 65 c 90) eqn:E; [by rewrite orb_true_r|].
  rewrite orb_false_r. unfold between. rewrite !elem_of_cons in Hin.
  assert (c = 104 ∨ c = 116 ∨ c = 112 ∨ c = 115) as Hcc by (destruct Hin as [|[|[|[|[|[]%elem_of_nil]]]]]; auto).
  destruct Hcc as [->|[->|[->| ->]]]; done.
Qed.

Lemma of_bytes_lower_https s :
  Forall is_byte s → of_bytes (lower_byte <$> s) = "https"%string ↔ lower_byte <$> s = https.
Proof.
  intros Hs. split; [|by intros ->]. intros H. rewrite <- (bytes_of_bytes (lower_byte <$> s)), H; [done|].
  apply Forall_fmap. eapply Forall_impl; [exact Hs|]. intros c Hc. unfold lower_byte, is_byte in *. cbn.
  unfold between. destruct (_ && _) eqn:E; lia.
Qed.

(** ** The parser on https URLs *)

Lemma split_query_spec rest force a q :
  split_query rest = (force, a, q) →
  ∃ qpart, rest = a ++ qpart ∧ question ∉ a ∧
    ((qpart = [] ∧ q = []) ∨ qpart = question :: q).
Proof.
  unfold split_query. destruct (cut 63 rest) as [x [[|c r]|]] eqn:Hc; intros [= <- <- <-].
  - apply cut_Some in Hc as [-> Hn]. exists [question]. split_and!; [done|done|by right].
  - apply cut_Some in Hc as [-> Hn]. exists (question :: c :: r). split_and!; [done|done|by right].
  - apply cut_None in Hc as [-> Hn]. exists []. rewrite app_nil_r. split_and!; [done|done|by left].
Qed.

Lemma split_query_parts a qpart :
  question ∉ a → qpart = [] ∨ (∃ q, qpart = question :: q) →
  ∃ force, split_query (a ++ qpart) = (force, a, tail qpart).
Proof.
  intros Ha [->|[q ->]]; unfold split_query.
  - rewrite app_nil_r, cut_absent by done. by exists false.
  - change 63 with question. rewrite cut_clean by done. destruct q; by eexists.
Qed.

(** A text in parts is parsed into them. *)
Lemma parse_parts scheme authority path query :
  https_parts scheme authority path query →
  ∃ host force p rp, parseHost https authority = Some host ∧ splitHostPort (of_bytes host) ≠ ""%string ∧
    parse (scheme ++ [58; 47; 47] ++ authority ++ path ++ query) =
    Some (MkURL "https" "" None (of_bytes host) p rp false force (of_bytes (tail query)) "" "").
Proof.
  intros [Hs Ha Hp Hpc [pe Hpe] Hq (host & Hhost & Hname) Hctl]. unfold parse. rewrite Hctl.
  destruct (https_letters scheme Hs) as [Hl Hne].
  rewrite bool_decide_eq_false_2 by (destruct scheme as [|? [|? ?]]; [done|discriminate..]).
  cbn [app]. rewrite getScheme_letters by done. cbn [mbind option_bind]. rewrite Hs.
  assert (question ∉ 47 :: 47 :: authority ++ path) as Hclean.
  { rewrite !not_elem_of_cons, not_elem_of_app. split_and!; [done|done| |].
    - intros Hin. rewrite Forall_forall in Ha. by apply Ha in Hin as (_ & ? & _).
    - intros Hin. rewrite Forall_forall in Hpc. by apply Hpc in Hin as [? _]. }
  destruct (split_query_parts (47 :: 47 :: authority ++ path) query Hclean) as [force Hsq].
  { destruct Hq as [|(q & ? & _)]; eauto. }
  replace (47 :: 47 :: authority ++ path ++ query) with ((47 :: 47 :: authority ++ path) ++ query)
    by (cbn; by rewrite <- app_assoc).
  rewrite Hsq. cbn [head negb andb]. rewrite bool_decide_eq_true_2 by done. cbn [negb andb].
  unfold take_authority. rewrite (bool_decide_eq_false_2 (https = [])) by done.
  change (drop 2 (47 :: 47 :: authority ++ path)) with (authority ++ path).
  rewrite bool_decide_eq_true_2 by done. cbn [negb andb orb].
  assert (cut 47 (authority ++ path) = match path with [] => (authority, None) | _ :: p => (authority, Some p) end) as Hcut.
  { assert (slash ∉ authority) as Hsl.
    { intros Hin. rewrite Forall_forall in Ha. by apply Ha in Hin as (? & _). }
    destruct path as [|c path]; [rewrite app_nil_r; by apply cut_absent|].
    destruct Hp as [|[= ->]]; [done|]. by apply cut_clean. }
  rewrite Hcut.
  assert ((match (match path with [] => (authority, None) | _ :: p => (authority, Some p) end) with
           | (a, Some p) => (a, 47 :: p) | (a, None) => (a, []) end) = (authority, path)) as ->.
  { destruct path as [|c path]; [done|]. by destruct Hp as [|[= ->]]. }
  unfold parseAuthority. rewrite (proj2 (cut_last_None 64 authority)).
  2: { intros Hin. rewrite Forall_forall in Ha. by apply Ha in Hin as (_ & _ & _ & ?). }
  rewrite Hhost. cbn [mbind option_bind]. unfold set_component. rewrite Hpe. cbn [mbind option_bind].
  exists host, force. do 2 eexists. split_and!; [done|done|reflexivity].
Qed.

Lemma parseAuthority_None scheme authority host :
  parseAuthority scheme authority = Some (None, host) →
  at_sign ∉ authority ∧ parseHost scheme authority = Some host.
Proof.
  unfold parseAuthority. destruct (cut_last 64 authority) as [[userinfo h]|] eqn:Hc.
  - intros H. exfalso. apply bind_Some in H as (h' & _ & H). destruct (negb _); [done|].
    destruct (cut 58 userinfo) as [name [pw|]].
    + apply bind_Some in H as (n & _ & H). by apply bind_Some in H as (? & _ & ?).
    + by apply bind_Some in H as (n & _ & ?).
  - apply cut_last_None in Hc. intros (h & Hh & [= <-])%bind_Some. done.
Qed.

Lemma parts_no_hash scheme authority path q :
  https_parts scheme authority path q → hash ∉ scheme ++ [58; 47; 47] ++ authority ++ path ++ q.
Proof.
  intros [Hs Ha _ Hp _ Hq _ _]. rewrite !not_elem_of_app. split_and!.
  - intros Hin. destruct (https_letters _ Hs) as [Hl _]. rewrite forallb_forall in Hl.
    by apply list_elem_of_In, Hl in Hin.
  - set_solver.
  - intros Hin. rewrite Forall_forall in Ha. by apply Ha in Hin as (_ & _ & ? & _).
  - intros Hin. rewrite Forall_forall in Hp. by apply Hp in Hin as [_ ?].
  - destruct Hq as [->|(r & -> & Hr)]; [by apply not_elem_of_nil|]. by apply not_elem_of_cons.
Qed.

(** The path begins at the first slash. *)
Lemma cut_path r authority path :
  match cut 47 r with (a, Some p) => (a, 47 :: p) | (a, None) => (a, []) end = (authority, path) →
  r = authority ++ path ∧ slash ∉ authority ∧ (path = [] ∨ head path = Some slash).
Proof.
  destruct (cut 47 r) as [a [q|]] eqn:Hc; intros [= <- <-].
  - apply cut_Some in Hc as [-> ?]. auto.
  - apply cut_None in Hc as [-> ?]. rewrite app_nil_r. auto.
Qed.

(** Whatever is parsed with the scheme, a host and no user is in parts. *)
Lemma parse_https l u :
  Forall is_byte l → hash ∉ l → parse l = Some u → Scheme u = "https"%string →
  Hostname u ≠ ""%string → User u = None →
  ∃ scheme authority path query,
    l = scheme ++ [58; 47; 47] ++ authority ++ path ++ query ∧
    https_parts scheme authority path query ∧ RawQuery u = of_bytes (tail query).
Proof.
  intros Hbytes Hhash. unfold parse. destruct (has_ctl l) eqn:Hctl; [done|].
  case_bool_decide; [by intros [= <-]|].
  destruct (getScheme l) as [[scheme rest]|] eqn:Hgs; [|done]. cbn [mbind option_bind].
  destruct (split_query rest) as [[force rest'] rawq] eqn:Hsq.
  set (sch := lower_byte <$> scheme) in *.
  destruct (negb (bool_decide (head rest' = Some 47)) && negb (bool_decide (sch = []))).
  { intros [= <-] _ Hh. by destruct Hh. }
  destruct (_ && _); [done|].
  intros (([[user host] omit] & path) & Hauth & Hu)%bind_Some.
  apply bind_Some in Hu as ([p rp] & Hp & [= <-]). cbn [Scheme User RawQuery Hostname Host].
  intros Hsch Hname ->.
  assert (Forall is_byte scheme) as Hsb.
  { destruct scheme as [|c scheme]; [constructor|]. apply getScheme_Some in Hgs; [|done].
    rewrite Hgs in Hbytes. by apply Forall_app in Hbytes as [? _]. }
  apply of_bytes_lower_https in Hsch; [|done].
  destruct (https_letters _ Hsch) as [_ Hne]. apply getScheme_Some in Hgs; [|done].
  apply split_query_spec in Hsq as (query & -> & Hq & Hquery).
  unfold take_authority in Hauth.
  case_bool_decide as Htake; cbn [andb] in Hauth; [|injection Hauth as <- _ _; by destruct Hname].
  rewrite bool_decide_eq_false_2 in Hauth by (unfold sch; by rewrite Hsch). cbn [negb orb] in Hauth.
  assert (rest' = 47 :: 47 :: drop 2 rest') as Hrest.
  { rewrite <- (take_drop 2 rest') at 1. by rewrite Htake. }
  set (r := drop 2 rest') in *. rewrite Hrest in *. clear Hrest Htake.
  destruct (match cut 47 r with (a, Some p) => (a, 47 :: p) | (a, None) => (a, []) end) as [authority path'] eqn:Hcut.
  apply cut_path in Hcut as (Hr & Hsl & Hpath).
  apply bind_Some in Hauth as ([user' host'] & Hpa & Hauth). injection Hauth as -> -> <- ->.
  apply parseAuthority_None in Hpa as [Hat Hhost]. unfold sch in Hhost. rewrite Hsch in Hhost.
  rewrite Hr in Hgs, Hq. rewrite !not_elem_of_cons, not_elem_of_app in Hq. destruct Hq as (_ & _ & Hqa & Hqp).
  assert (l = scheme ++ [58; 47; 47] ++ authority ++ path ++ query) as Hl
    by (rewrite Hgs; cbn; by rewrite <- app_assoc).
  rewrite Hl in Hhash, Hctl. rewrite !not_elem_of_app in Hhash. destruct Hhash as (_ & _ & Hha & Hhp & Hhq).
  exists scheme, authority, path, query. split_and!; [done| |by destruct Hquery as [[-> ->]| ->]].
  split; [done|..|done].
  - apply Forall_forall. intros c Hc. split_and!; by intros ->.
  - done.
  - apply Forall_forall. intros c Hc. split; by intros ->.
  - unfold set_component in Hp. destruct (unescape_component EncodePath path); [by eexists|done].
  - destruct Hquery as [[-> _]| ->]; [by left|right]. exists rawq. split; [done|]. set_solver.
  - exists host. split; [done|exact Hname].
Qed.

(** ** What httpsURL accepts *)

Lemma unescape_nonempty m l p : unescape_component m l = Some p → l ≠ [] → p ≠ [].
Proof.
  destruct l as [|c l]; [done|]. cbn [unescape_component]. intros H _ ->. revert H.
  destruct (c =? 37).
  - destruct l as [|a [|b l]]; [done..|]. destruct (unhex a) as [x|]; [|done]. cbn [mbind option_bind].
    destruct (unhex b) as [y|]; [|done]. cbn [mbind option_bind].
    destruct (match m with EncodeHost => _ | _ => _ end); [|done].
    by destruct (unescape_component m l).
  - destruct (match m with EncodeHost | EncodeZone => _ | _ => _ end); [done|].
    by destruct (unescape_component m l).
Qed.

Lemma of_bytes_nil l : of_bytes l = ""%string → l = [].
Proof. by destruct l. Qed.

(** A parse without a fragment: there is none, or an empty one. *)
Lemma url_Parse_no_fragment s u :
  url_Parse s = Some u → Fragment u = ""%string →
  ∃ l mark, bytes s = l ++ mark ∧ (mark = [] ∨ mark = [hash]) ∧ hash ∉ l ∧ parse l = Some u.
Proof.
  unfold url_Parse. destruct (cut 35 (bytes s)) as [l [[|c frag]|]] eqn:Hc; intros Hu Hf.
  - apply cut_Some in Hc as [-> Hn]. exists l, [hash]. auto.
  - apply bind_Some in Hu as (v & Hv & Hu). apply bind_Some in Hu as ([f rf] & Hset & [= <-]).
    cbn [Fragment] in Hf. subst f. unfold set_component in Hset.
    apply bind_Some in Hset as (p & Hp & [= Hp' _]). apply of_bytes_nil in Hp'.
    by apply unescape_nonempty in Hp.
  - apply cut_None in Hc as [<- Hn]. exists l, []. rewrite app_nil_r. auto.
Qed.

Lemma url_Parse_mark s l mark :
  bytes s = l ++ mark → mark = [] ∨ mark = [hash] → hash ∉ l → url_Parse s = parse l.
Proof.
  unfold url_Parse. intros -> [->| ->] Hn.
  - by rewrite app_nil_r, cut_absent.
  - by rewrite cut_clean.
Qed.

(** C18 (equivalence): exactly which texts pass as https URLs. They have 1 to 8192 bytes of
    valid UTF-8 and are a scheme that is https in any case, [://], an authority, a path, a
    query and at most an empty fragment. The authority has no [@], so no credentials, and
    is a host that [net/url] accepts, with a name that is not empty; the path is empty or
    starts with a slash and its escapes are well formed; where no query is allowed, there
    is at most the bare question mark; control characters occur nowhere before the
    fragment mark. *)
Theorem https_url_iff value query :
  httpsURL value query = true ↔
  0 < len value ≤ 8192 ∧ ValidString value = true ∧
  ∃ scheme authority path q mark,
    bytes value = (scheme ++ [58; 47; 47] ++ authority ++ path ++ q) ++ mark ∧
    (mark = [] ∨ mark = [hash]) ∧ https_parts scheme authority path q ∧
    (query = false → q = [] ∨ q = [question]).
Proof.
  unfold httpsURL. assert (0 ≤ len value) by (unfold len; lia).
  destruct (Z.eqb_spec (len value) 0); [cbn [orb]; split; [done|]; intros [? _]; lia|].
  destruct (Z.ltb_spec 8192 (len value)); [cbn [orb]; split; [done|]; intros [? _]; lia|].
  destruct (ValidString value); [|cbn [orb negb]; split; [done|]; by intros (_ & ? & _)]. cbn [orb negb].
  split.
  - destruct (url_Parse value) as [u|] eqn:Hu; [|done]. intros Hok. bool_simp.
    match goal with H : Fragment u = _ |- _ => destruct (url_Parse_no_fragment _ _ Hu H)
      as (l & mark & Hl & Hmark & Hn & Hp) end.
    assert (Forall is_byte l) as Hb.
    { pose proof (bytes_are_bytes value) as Hb. rewrite Hl in Hb. by apply Forall_app in Hb as [? _]. }
    destruct (parse_https l u Hb Hn Hp) as (scheme & authority & path & q & -> & Hparts & Hraw); [done..|].
    split_and!; [lia|lia|done|]. exists scheme, authority, path, q, mark. split_and!; [done..|].
    intros ->. match goal with H : (false || _) = true |- _ => cbn [orb] in H; apply bool_decide_eq_true in H;
      rewrite Hraw in H; apply of_bytes_nil in H end.
    destruct (hp_query _ _ _ _ Hparts) as [->|(q' & -> & _)]; [by left|right]. cbn [tail] in *. by subst.
  - intros (_ & _ & scheme & authority & path & q & mark & Hl & Hmark & Hparts & Hq).
    assert (hash ∉ scheme ++ [58; 47; 47] ++ authority ++ path ++ q) as Hn by by apply parts_no_hash.
    rewrite (url_Parse_mark value _ _ Hl Hmark Hn).
    destruct (parse_parts _ _ _ _ Hparts) as (host & force & p & rp & Hhost & Hname & ->).
    unfold Hostname. cbn [Scheme User Fragment RawQuery Host].
    rewrite !bool_decide_eq_true_2, (bool_decide_eq_false_2 _ Hname) by done. cbn [negb andb].
    destruct query; [done|]. cbn [orb]. apply bool_decide_eq_true_2. by destruct (Hq eq_refl) as [->| ->].
Qed.
