(* ===== verification/OidcParams.v ===== *)
(** * OidcParams

    The checks and encodings of [oidc/provider.go] that need no network: protocol
    values, scopes, algorithms, the token authentication method and the
    configuration fingerprint. SHA-256 is a parameter. *)

From stdpp Require Import sorting.
From S2P Require Import Prelude GoRuntime GoStrings GoBase64.
Local Open Scope Z_scope.

Definition DefaultMaxResponseBytes : Z := Z.shiftl 1 20.
Definition DefaultTimeout : Duration := 10 * Second.
Definition maxCredentialBytes : Z := 16 * 1024.

(** The sentinel errors; [Joined] is [errors.Join(category, ctx.Err())]. *)
Inductive oidc_error : Type :=
| ErrNotConfigured
| ErrInvalidConfig
| ErrDiscovery
| ErrUnsupportedAuthMethod
| ErrInvalidState
| ErrExchange
| ErrInvalidToken
| ErrNonceMismatch
| ErrInvalidClaims
| ErrUnavailable
| Joined (category : oidc_error) (ctxErr : string).

Definition ClientSecretBasic : string := "client_secret_basic".
Definition ClientSecretPost : string := "client_secret_post".
Definition PublicClient : string := "none".

(** oauth2's [AuthStyle]. *)
Inductive AuthStyle : Type := AuthStyleInHeader | AuthStyleInParams.

(** ** Protocol values *)

(** [failed]: [ctx.Err()] at that moment. *)
Definition failed (ctxErr : option string) (category : oidc_error) : oidc_error :=
  match ctxErr with Some e => Joined category e | None => category end.

(** [randomValue], given what [rand.Read] makes of the 32 bytes. *)
Definition randomValue (rand : option string) : res oidc_error string :=
  match rand with
  | None => Err ErrUnavailable
  | Some raw => Ok (EncodeToString RawURLEncoding raw)
  end.

Definition canonicalValue (value : string) : bool :=
  if negb (len value =? 43) then false
  else match DecodeString (Strict RawURLEncoding) value with
       | None => false
       | Some decoded => len decoded =? 32
       end.

Lemma encode_Strict l : encode (Strict RawURLEncoding) l = encode RawURLEncoding l.
Proof.
  induction l as [|b0|b0 b1|b0 b1 b2 l IH] using bytes_ind3; [done..|].
  change (encode (Strict RawURLEncoding) (b0 :: b1 :: b2 :: l)) with
    (enc6 RawURLEncoding (b0 / 4) :: enc6 RawURLEncoding (b0 mod 4 * 16 + b1 / 16)
     :: enc6 RawURLEncoding (b1 mod 16 * 4 + b2 / 64) :: enc6 RawURLEncoding (b2 mod 64)
     :: encode (Strict RawURLEncoding) l).
  by rewrite IH.
Qed.

Lemma filter_same_length {A} (P : A → Prop) `{∀ x, Decision (P x)} l :
  length (filter P l) = length l → filter P l = l.
Proof.
  induction l as [|x l IH]; [done|]. rewrite filter_cons. case_decide; cbn.
  - intros [= Hl]. by rewrite IH.
  - pose proof (length_filter P l). lia.
Qed.

Lemma len_bytes s : len s = Z.of_nat (length (bytes s)).
Proof. unfold len. by rewrite length_bytes. Qed.

Lemma canonicalValue_iff value :
  canonicalValue value = true ↔
  ∃ raw, len raw = 32 ∧ value = EncodeToString RawURLEncoding raw.
Proof.
  unfold canonicalValue. split.
  - destruct (Z.eqb_spec (len value) 43) as [Hlen|]; [|done]. cbn [negb].
    unfold DecodeString. destruct (decode _ (bytes value)) as [b|] eqn:Hd; [|done]. cbn.
    intros H32. apply Z.eqb_eq in H32.
    apply encode_decode in Hd as [Henc Hb]; [|done]. rewrite encode_Strict in Henc.
    exists (of_bytes b). split; [done|]. rewrite len_bytes, bytes_of_bytes in H32 by done.
    pose proof (length_encode_raw RawURLEncoding b eq_refl) as Hl. rewrite H32, Henc in Hl.
    assert (filter (λ c, is_newline c = false) (bytes value) = bytes value) as Hf.
    { apply filter_same_length.
      rewrite len_bytes in Hlen. change ((4 * 32 + 2) / 3) with 43 in Hl. lia. }
    rewrite Hf in Henc. unfold EncodeToString. rewrite bytes_of_bytes by done.
    by rewrite Henc, of_bytes_bytes.
  - intros (raw & Hlen & ->).
    assert (len (EncodeToString RawURLEncoding raw) = 43) as ->.
    { rewrite len_bytes. unfold EncodeToString.
      rewrite bytes_of_bytes by are_bytes.
      rewrite length_encode_raw by done. rewrite <- len_bytes, Hlen. done. }
    cbn [negb Z.eqb Pos.eqb].
    assert (EncodeToString RawURLEncoding raw = EncodeToString (Strict RawURLEncoding) raw) as ->.
    { unfold EncodeToString. by rewrite encode_Strict. }
    rewrite DecodeString_EncodeToString. by apply Z.eqb_eq.
Qed.

(** A value passes the check exactly when it is the encoding of 32
    bytes: each 32-byte value has one accepted spelling (no padding, no line breaks, no
    stray bits), and whatever [randomValue] returns passes. *)
Theorem canonical_values value value' :
  (canonicalValue value = true ↔
   ∃ raw, len raw = 32 ∧ randomValue (Some raw) = Ok value) ∧
  (canonicalValue value = true → canonicalValue value' = true →
   DecodeString RawURLEncoding value = DecodeString RawURLEncoding value' → value = value').
Proof.
  split.
  - rewrite canonicalValue_iff. cbn. split; intros (raw & ? & H); exists raw; split; congruence.
  - intros (raw & _ & ->)%canonicalValue_iff (raw' & _ & ->)%canonicalValue_iff.
    rewrite !DecodeString_EncodeToString. congruence.
Qed.

(** ** Scopes *)

Definition scope_byte (b : Z) : bool :=
  negb ((b <? 33) || (126 <? b) || (b =? 34) || (b =? 92)).

Definition scope_ok (value : string) : bool :=
  negb ((len value =? 0) || (256 <? len value)) && forallb scope_byte (bytes value).

(** The body of the loop over the values: [seen] holds exactly what [result] holds. *)
Definition add_scope (st : list string * gset string) (value : string)
    : res oidc_error (list string * gset string) :=
  if negb (scope_ok value) then Err ErrInvalidConfig
  else if bool_decide (value ∈ st.2) then Ok st
  else Ok (st.1 ++ [value], {[value]} ∪ st.2).

Definition normalizeScopes (values : list string) : res oidc_error (list string) :=
  if 32 <? Z.of_nat (length values) then Err ErrInvalidConfig
  else
    st ← fold_res add_scope values (["openid"%string], {["openid"%string]});
    Ok st.1.

(** The values that were not there before, in order of first appearance. *)
Fixpoint distinct_from (seen : list string) (values : list string) : list string :=
  match values with
  | [] => []
  | v :: values =>
      if decide (v ∈ seen) then distinct_from seen values
      else v :: distinct_from (seen ++ [v]) values
  end.

Lemma distinct_from_spec values : ∀ seen,
  NoDup seen →
  NoDup (seen ++ distinct_from seen values) ∧
  (∀ x, x ∈ seen ++ distinct_from seen values ↔ x ∈ seen ∨ x ∈ values) ∧
  distinct_from seen values `sublist_of` values.
Proof.
  induction values as [|v values IH]; intros seen Hnd; cbn [distinct_from].
  { rewrite app_nil_r. split_and!; [done| |done]. set_solver. }
  case_decide as Hv.
  - destruct (IH seen Hnd) as (H1 & H2 & H3). split_and!; [done| |by apply sublist_cons].
    intros x. rewrite H2, elem_of_cons. naive_solver.
  - destruct (IH (seen ++ [v])) as (H1 & H2 & H3).
    { apply NoDup_app. split_and!; [done|set_solver|apply NoDup_singleton]. }
    rewrite <- app_assoc in H1. cbn [app] in H1. split_and!; [done| |by apply sublist_skip].
    intros x. replace (seen ++ v :: distinct_from (seen ++ [v]) values)
      with ((seen ++ [v]) ++ distinct_from (seen ++ [v]) values) by (by rewrite <- app_assoc).
    rewrite H2, elem_of_app, list_elem_of_singleton, elem_of_cons. naive_solver.
Qed.

Lemma fold_add_scope values : ∀ result (seen : gset string),
  seen = list_to_set result →
  fold_res add_scope values (result, seen) =
  if forallb scope_ok values
  then Ok (result ++ distinct_from result values,
           list_to_set (result ++ distinct_from result values))
  else Err ErrInvalidConfig.
Proof.
  induction values as [|v values IH]; intros result seen Hseen; cbn [fold_res forallb distinct_from].
  { rewrite app_nil_r. congruence. }
  unfold add_scope at 2; cbn [fst snd]. destruct (scope_ok v); [|done]. cbn [negb andb].
  assert (v ∈ seen ↔ v ∈ result) as Hv by (rewrite Hseen; apply elem_of_list_to_set).
  case_bool_decide as Hin; cbn [mbind res_bind].
  - rewrite decide_True by tauto. by apply IH.
  - rewrite decide_False by tauto. rewrite IH.
    + rewrite <- app_assoc. done.
    + rewrite list_to_set_app_L, Hseen. set_solver.
Qed.

(** The scopes are refused exactly when there are more than 32, or one
    is empty, too long or has a character RFC 6749 does not allow in a scope; otherwise
    the result starts with openid, has no duplicates, and is the given scopes in their
    order of first appearance. *)
Theorem normalize_scopes_spec values :
  if (Z.of_nat (length values) <=? 32) && forallb scope_ok values
  then ∃ rest, normalizeScopes values = Ok ("openid"%string :: rest) ∧
         NoDup ("openid"%string :: rest) ∧ rest `sublist_of` values ∧
         ∀ v, v ∈ "openid"%string :: rest ↔ v = "openid"%string ∨ v ∈ values
  else normalizeScopes values = Err ErrInvalidConfig.
Proof.
  unfold normalizeScopes. rewrite Z.ltb_antisym.
  destruct (Z.of_nat (length values) <=? 32); cbn [negb andb]; [|done].
  rewrite fold_add_scope by set_solver. destruct (forallb scope_ok values); [|done].
  cbn [mbind res_bind fst app].
  destruct (distinct_from_spec values ["openid"%string]) as (H1 & H2 & H3);
    [apply NoDup_singleton|].
  exists (distinct_from ["openid"%string] values). split_and!; [done..|].
  intros v. specialize (H2 v). cbn [app] in H2. rewrite H2, list_elem_of_singleton. done.
Qed.

(** ** Signing algorithms *)

Definition known_algorithms : list string :=
  ["RS256"; "RS384"; "RS512"; "ES256"; "ES384"; "ES512"; "PS256"; "PS384"; "PS512"; "EdDSA"]%string.

Fixpoint collect_algorithms (result values : list string) : list string :=
  match values with
  | [] => result
  | v :: values =>
      collect_algorithms
        (if bool_decide (v ∈ known_algorithms) && negb (bool_decide (v ∈ result))
         then result ++ [v] else result) values
  end.

(** [sort.Strings]: bytewise lexicographic order. *)
Definition string_le (a b : string) : Prop := String.leb a b = true.
#[local] Instance string_le_dec a b : Decision (string_le a b).
Proof. unfold string_le. apply _. Defined.
#[local] Instance string_le_total : Total string_le.
Proof. intros a b. apply String.leb_total. Qed.

Definition sort_Strings (l : list string) : list string := merge_sort string_le l.

Definition acceptedAlgorithms (values : list string) : list string :=
  sort_Strings (collect_algorithms [] values).

Lemma collect_algorithms_spec values : ∀ result,
  NoDup result →
  NoDup (collect_algorithms result values) ∧
  ∀ v, v ∈ collect_algorithms result values ↔ v ∈ result ∨ (v ∈ values ∧ v ∈ known_algorithms).
Proof.
  induction values as [|w values IH]; intros result Hnd; cbn [collect_algorithms].
  { split; [done|]. intros v. rewrite elem_of_nil. naive_solver. }
  set (r := if _ : bool then _ else _).
  assert (NoDup r ∧ ∀ v, v ∈ r ↔ v ∈ result ∨ (v = w ∧ v ∈ known_algorithms)) as [Hr Hin].
  { unfold r. case_bool_decide as Hk; case_bool_decide as Hw; cbn [andb negb].
    - split; [done|]. naive_solver.
    - split.
      + apply NoDup_app. split_and!; [done| |apply NoDup_singleton].
        intros x Hx ->%list_elem_of_singleton. done.
      + intros v. rewrite elem_of_app, list_elem_of_singleton. naive_solver.
    - split; [done|]. naive_solver.
    - split; [done|]. naive_solver. }
  destruct (IH r Hr) as [H1 H2]. split; [done|]. intros v. rewrite H2, Hin, elem_of_cons.
  naive_solver.
Qed.

(** The accepted algorithms are exactly the announced ones that are on
    the fixed asymmetric list, without duplicates and in lexicographic order; none and
    the symmetric algorithms never get through. *)
Theorem accepted_algorithms_spec values :
  Sorted string_le (acceptedAlgorithms values) ∧ NoDup (acceptedAlgorithms values) ∧
  ∀ v, v ∈ acceptedAlgorithms values ↔ v ∈ values ∧ v ∈ known_algorithms.
Proof.
  destruct (collect_algorithms_spec values []) as [Hnd Hin]; [constructor|].
  unfold acceptedAlgorithms, sort_Strings.
  pose proof (merge_sort_Permutation string_le (collect_algorithms [] values)) as Hp.
  split_and!.
  - apply Sorted_merge_sort. apply _.
  - by rewrite Hp.
  - intros v. rewrite Hp, Hin, elem_of_nil. naive_solver.
Qed.

Lemma acceptedAlgorithms_known values alg :
  alg ∈ acceptedAlgorithms values → alg ∈ known_algorithms.
Proof.
  unfold acceptedAlgorithms, sort_Strings. rewrite merge_sort_Permutation.
  destruct (collect_algorithms_spec values []) as [_ ->]; [constructor|]. rewrite elem_of_nil. naive_solver.
Qed.

Lemma normalizeScopes_head values scopes :
  normalizeScopes values = Ok scopes → head scopes = Some "openid"%string.
Proof.
  unfold normalizeScopes. destruct (_ <? _); [done|]. rewrite fold_add_scope by set_solver.
  destruct (forallb scope_ok values); [|done]. cbn. by intros [= <-].
Qed.

Lemma normalizeScopes_Err values e : normalizeScopes values = Err e → e = ErrInvalidConfig.
Proof.
  unfold normalizeScopes. destruct (_ <? _); [by intros [= <-]|].
  rewrite fold_add_scope by set_solver. by destruct (forallb scope_ok values); intros [= <-].
Qed.

(** ** Token authentication *)

(** The method meant when none is requested. *)
Definition requested_method (requested secret : string) (supported : list string) : string :=
  if bool_decide (requested = ""%string) then
    if bool_decide (secret = ""%string) then PublicClient
    else if bool_decide (ClientSecretBasic ∈ supported) then ClientSecretBasic
    else ClientSecretPost
  else requested.

Definition chooseAuthMethod (requested secret : string) (supported : list string)
    : res oidc_error (string * AuthStyle) :=
  let requested := requested_method requested secret supported in
  if negb (bool_decide (requested ∈ supported)) then Err ErrUnsupportedAuthMethod
  else if bool_decide (requested = ClientSecretBasic) then
    if negb (bool_decide (secret = ""%string)) then Ok (requested, AuthStyleInHeader)
    else Err ErrUnsupportedAuthMethod
  else if bool_decide (requested = ClientSecretPost) then
    if negb (bool_decide (secret = ""%string)) then Ok (requested, AuthStyleInParams)
    else Err ErrUnsupportedAuthMethod
  else if bool_decide (requested = PublicClient) then
    if bool_decide (secret = ""%string) then Ok (requested, AuthStyleInParams)
    else Err ErrUnsupportedAuthMethod
  else Err ErrUnsupportedAuthMethod.

Lemma chooseAuthMethod_not_config requested secret supported :
  chooseAuthMethod requested secret supported ≠ Err ErrInvalidConfig.
Proof. unfold chooseAuthMethod. repeat case_match; congruence. Qed.

(** The three ways a method goes with a secret. *)
Definition method_style (method secret : string) : option AuthStyle :=
  if decide (method = ClientSecretBasic ∧ secret ≠ ""%string) then Some AuthStyleInHeader
  else if decide (method = ClientSecretPost ∧ secret ≠ ""%string) then Some AuthStyleInParams
  else if decide (method = PublicClient ∧ secret = ""%string) then Some AuthStyleInParams
  else None.

(** A method is chosen exactly when the one requested (or, unasked, none
    without a secret and otherwise basic if supported, else post) is supported and fits
    the secret; a secret is used with a secret method and only then, and it goes in the
    header exactly for [client_secret_basic]. *)
Theorem auth_method_iff requested secret supported method style :
  chooseAuthMethod requested secret supported = Ok (method, style) ↔
  method ∈ supported ∧ method_style method secret = Some style ∧
  (requested ≠ ""%string → method = requested) ∧
  (requested = ""%string → secret ≠ ""%string → ClientSecretBasic ∈ supported →
   method = ClientSecretBasic).
Proof.
  assert (∀ r, (if negb (bool_decide (r ∈ supported)) then Err ErrUnsupportedAuthMethod
     else if bool_decide (r = ClientSecretBasic) then
       if negb (bool_decide (secret = ""%string)) then Ok (r, AuthStyleInHeader)
       else Err ErrUnsupportedAuthMethod
     else if bool_decide (r = ClientSecretPost) then
       if negb (bool_decide (secret = ""%string)) then Ok (r, AuthStyleInParams)
       else Err ErrUnsupportedAuthMethod
     else if bool_decide (r = PublicClient) then
       if bool_decide (secret = ""%string) then Ok (r, AuthStyleInParams)
       else Err ErrUnsupportedAuthMethod
     else Err ErrUnsupportedAuthMethod) = Ok (method, style) ↔
    r = method ∧ method ∈ supported ∧ method_style method secret = Some style) as Hr.
  { intros r. unfold method_style.
    destruct (decide (r ∈ supported)) as [Hs|Hs];
      [rewrite (bool_decide_eq_true_2 _ Hs)|rewrite (bool_decide_eq_false_2 _ Hs)]; cbn [negb];
      [|naive_solver].
    destruct (decide (secret = ""%string)) as [He|He];
      [rewrite !(bool_decide_eq_true_2 _ He)|rewrite !(bool_decide_eq_false_2 _ He)]; cbn [negb];
      repeat case_bool_decide; subst; split.
    all: try (intros Hm; discriminate Hm).
    all: try (intros Hm; injection Hm as <- <-; split_and!; [done..|];
              repeat case_decide; naive_solver).
    all: intros (<- & _ & Hm); repeat case_decide; naive_solver. }
  unfold chooseAuthMethod. cbn zeta. rewrite Hr. clear Hr. unfold requested_method.
  destruct (decide (requested = ""%string)) as [->|Hq];
    [|rewrite bool_decide_eq_false_2 by done; naive_solver].
  rewrite bool_decide_eq_true_2 by done.
  destruct (decide (secret = ""%string)) as [->|He].
  - rewrite bool_decide_eq_true_2 by done. split; [naive_solver|].
    intros (Hin & Hm & _). split; [|done]. unfold method_style in Hm.
    repeat case_decide; naive_solver.
  - rewrite (bool_decide_eq_false_2 (secret = _)) by done. case_bool_decide as Hb.
    + naive_solver.
    + split; [naive_solver|]. intros (Hin & Hm & _). split; [|done]. unfold method_style in Hm.
      repeat case_decide; naive_solver.
Qed.

(** ** Configuration fingerprint *)

(** [binary.BigEndian.AppendUint32(encoded, uint32(n))] *)
Definition uint32 (n : Z) : Z := n mod 2 ^ 32.
Definition AppendUint32 (encoded : list Z) (n : Z) : list Z := encoded ++ FillBytes 4 (uint32 n).

Definition append_value (encoded : list Z) (value : string) : list Z :=
  AppendUint32 encoded (len value) ++ bytes value.

Definition append_section (encoded : list Z) (section : list string) : list Z :=
  fold_left append_value section (AppendUint32 encoded (Z.of_nat (length section))).

Definition encode_configuration (values scopes algs : list string) : list Z :=
  fold_left append_section [values; scopes; algs] (bytes "authcore/oidc/code/v1").

Section fingerprint.
(** [sha256.Sum256] *)
Context (Sum256 : list Z → list Z).

Definition configuration (values scopes algs : list string) : string :=
  of_bytes (encode RawURLEncoding (Sum256 (encode_configuration values scopes algs))).

Definition section_ok (section : list string) : Prop :=
  Z.of_nat (length section) < 2 ^ 32 ∧ Forall (λ v, len v < 2 ^ 32) section.

Definition be32 (n : Z) : list Z := FillBytes 4 (uint32 n).
Definition value_bytes (v : string) : list Z := be32 (len v) ++ bytes v.
Definition section_bytes (section : list string) : list Z :=
  be32 (Z.of_nat (length section)) ++ (section ≫= value_bytes).

Lemma fold_append_value section : ∀ acc,
  fold_left append_value section acc = acc ++ (section ≫= value_bytes).
Proof.
  induction section as [|v section IH]; intros acc; cbn [fold_left]; [by rewrite app_nil_r|].
  rewrite IH, bind_cons. unfold append_value, AppendUint32, value_bytes, be32.
  by rewrite <- !app_assoc.
Qed.

Lemma encode_configuration_sections values scopes algs :
  encode_configuration values scopes algs =
  bytes "authcore/oidc/code/v1" ++ section_bytes values ++ section_bytes scopes ++ section_bytes algs.
Proof.
  unfold encode_configuration. cbn [fold_left]. unfold append_section.
  rewrite !fold_append_value. unfold AppendUint32, section_bytes, be32. by rewrite <- !app_assoc.
Qed.

Lemma be32_inj a b x y :
  0 ≤ a < 2 ^ 32 → 0 ≤ b < 2 ^ 32 → be32 a ++ x = be32 b ++ y → a = b ∧ x = y.
Proof.
  intros Ha Hb Heq. unfold be32 in Heq.
  apply app_inj_1 in Heq as [Heq ->]; [|by rewrite !length_FillBytes]. split; [|done].
  apply (f_equal SetBytes) in Heq. unfold uint32 in Heq.
  rewrite !Z.mod_small, !SetBytes_FillBytes in Heq by (done || lia). done.
Qed.

Lemma values_inj s1 : ∀ s2 x y,
  length s1 = length s2 → Forall (λ v, len v < 2 ^ 32) s1 → Forall (λ v, len v < 2 ^ 32) s2 →
  (s1 ≫= value_bytes) ++ x = (s2 ≫= value_bytes) ++ y → s1 = s2 ∧ x = y.
Proof.
  induction s1 as [|v s1 IH]; intros [|w s2] x y Hl H1 H2 Heq; try done.
  apply Forall_cons in H1 as [Hv H1]. apply Forall_cons in H2 as [Hw H2].
  rewrite !bind_cons in Heq. unfold value_bytes in Heq at 1 3. rewrite <- !app_assoc in Heq.
  apply be32_inj in Heq as [Hlen Heq]; [|unfold len in *; lia..].
  apply app_inj_1 in Heq as [Hb Heq]; [|rewrite !len_bytes in Hlen; lia].
  apply bytes_inj in Hb as ->. injection Hl as Hl.
  destruct (IH s2 x y Hl H1 H2 Heq) as [-> ->]. done.
Qed.

Lemma section_inj s1 s2 x y :
  section_ok s1 → section_ok s2 → section_bytes s1 ++ x = section_bytes s2 ++ y → s1 = s2 ∧ x = y.
Proof.
  intros [L1 F1] [L2 F2] Heq. unfold section_bytes in Heq. rewrite <- !app_assoc in Heq.
  apply be32_inj in Heq as [Hl Heq]; [|lia..]. apply Nat2Z.inj in Hl. by apply values_inj.
Qed.

(** Two configurations with one fingerprint agree on the parameters, the scopes and the
    algorithms, each of them whole and in order, unless their encodings are a collision of
    SHA-256. *)
Lemma configuration_inj values scopes algs values' scopes' algs' :
  (∀ l, Forall is_byte (Sum256 l)) →
  section_ok values → section_ok scopes → section_ok algs →
  section_ok values' → section_ok scopes' → section_ok algs' →
  configuration values scopes algs = configuration values' scopes' algs' →
  (values = values' ∧ scopes = scopes' ∧ algs = algs') ∨
  (encode_configuration values scopes algs ≠ encode_configuration values' scopes' algs' ∧
   Sum256 (encode_configuration values scopes algs) =
   Sum256 (encode_configuration values' scopes' algs')).
Proof.
  intros Hdigest H1 H2 H3 H1' H2' H3' Heq.
  assert (Sum256 (encode_configuration values scopes algs) =
          Sum256 (encode_configuration values' scopes' algs')) as Hsum.
  { unfold configuration in Heq. apply (f_equal bytes) in Heq.
    rewrite !bytes_of_bytes in Heq by (apply encode_are_bytes, Hdigest).
    apply (f_equal (decode RawURLEncoding)) in Heq. rewrite !decode_encode in Heq by done.
    by injection Heq. }
  destruct (decide (encode_configuration values scopes algs =
                    encode_configuration values' scopes' algs')) as [He|He]; [left|by right].
  rewrite !encode_configuration_sections in He. apply app_inv_head in He.
  apply section_inj in He as [-> He]; [|done..]. apply section_inj in He as [-> He]; [|done..].
  rewrite <- (app_nil_r (section_bytes algs)), <- (app_nil_r (section_bytes algs')) in He.
  apply section_inj in He as [-> _]; [|done..]. done.
Qed.

End fingerprint.

(** What the checks let through is small enough for the lengths in the encoding. *)
Lemma section_small l n :
  (Z.of_nat (length l) < 2 ^ 32) → Forall (λ v, len v ≤ n) l → n < 2 ^ 32 → section_ok l.
Proof. intros Hl Hf Hn. split; [done|]. eapply Forall_impl; [done|]. cbn. lia. Qed.

Lemma scope_ok_len v : scope_ok v = true → len v ≤ 256.
Proof. unfold scope_ok. intros H. bool_simp. done. Qed.

Lemma normalizeScopes_section values scopes : normalizeScopes values = Ok scopes → section_ok scopes.
Proof.
  unfold normalizeScopes. destruct (Z.ltb_spec 32 (Z.of_nat (length values))); [done|].
  rewrite fold_add_scope by set_solver. destruct (forallb scope_ok values) eqn:Hs; [|done].
  cbn [mbind res_bind fst app]. intros [= <-].
  destruct (distinct_from_spec values ["openid"%string]) as (_ & _ & Hsub); [apply NoDup_singleton|].
  apply (section_small _ 256); [| |done].
  - apply sublist_length in Hsub. cbn [length]. lia.
  - constructor; [done|]. apply Forall_forall. intros v Hv. apply scope_ok_len.
    rewrite forallb_forall in Hs. apply Hs, list_elem_of_In. by eapply elem_of_sublist.
Qed.

Lemma known_algorithm_len alg : alg ∈ known_algorithms → len alg ≤ 5.
Proof. unfold known_algorithms. rewrite !elem_of_cons, elem_of_nil. intros H. by repeat destruct H as [->|H]. Qed.

Lemma acceptedAlgorithms_section values : section_ok (acceptedAlgorithms values).
Proof.
  assert (∀ v, v ∈ acceptedAlgorithms values → v ∈ known_algorithms) as Hk
    by (intros v; apply acceptedAlgorithms_known).
  assert (NoDup (acceptedAlgorithms values)) as Hnd.
  { unfold acceptedAlgorithms, sort_Strings. rewrite merge_sort_Permutation.
    by apply collect_algorithms_spec; constructor. }
  apply (section_small _ 5); [| |done].
  - pose proof (submseteq_length _ _ (NoDup_submseteq _ known_algorithms Hnd Hk)) as Hl. cbn in Hl. lia.
  - apply Forall_forall. intros v Hv. by apply known_algorithm_len, Hk.
Qed.

(** A chosen method is one of three, and with the secret it settles the style. *)
Lemma chosen_method requested secret supported method style :
  chooseAuthMethod requested secret supported = Ok (method, style) →
  len method ≤ 19 ∧
  style = (if bool_decide (method = ClientSecretBasic) then AuthStyleInHeader else AuthStyleInParams).
Proof.
  unfold chooseAuthMethod. generalize (requested_method requested secret supported). intros r.
  destruct (negb (bool_decide (r ∈ supported))); [done|].
  destruct (decide (r = ClientSecretBasic)) as [->|Hb];
    [|rewrite (bool_decide_eq_false_2 (r = ClientSecretBasic)) by done;
      destruct (decide (r = ClientSecretPost)) as [->|Hp];
      [|rewrite (bool_decide_eq_false_2 (r = ClientSecretPost)) by done;
        destruct (decide (r = PublicClient)) as [->|];
        [|by rewrite (bool_decide_eq_false_2 (r = PublicClient))]]].
  all: destruct (decide (secret = ""%string)) as [->|Hs];
    [|rewrite ?(bool_decide_eq_false_2 (secret = _)) by done].
  all: vm_compute; intros H; try discriminate H; injection H as <- <-; done.
Qed.

(** ** Witnesses *)

(** A digest of fixed size: the sum of the bytes. *)
Definition sample_digest (l : list Z) : list Z := [fold_left Z.add l 0 mod 256].
