(* ===== verification/OidcHttp.v ===== *)
(** * OidcHttp

    [oidc/http.go]: the transport that refuses anything but https and bounds what is read,
    the client built around it, and how [net/http] follows redirects with it. The
    underlying transport is a parameter. *)

From S2P Require Import Prelude GoRuntime GoStrings OidcUrl OidcParams.
Local Open Scope Z_scope.

Definition error : Type := string.

(** What the code looks at of a request and a response. [next] is the request [net/http]
    would send for a redirect response, whatever its method. *)
Record http_request : Type := HttpRequest { req_URL : string; Method : string }.
Record http_response : Type := HttpResponse {
  ContentLength : Z;
  Body : option (reader error);
  next : option http_request;
}.

Inductive transport_error : Type :=
| Unavailable                      (* ErrUnavailable *)
| BaseError (e : error).

(** What a [CheckRedirect] function answers besides nil. *)
Inductive redirect_error : Type :=
| ErrUseLastResponse
| RedirectUnavailable              (* ErrUnavailable *)
| RedirectOther (e : error).

Definition NoBody : reader error := Reader "" None true.

(** [http.MaxBytesReader]: an error after the first [n] bytes of a longer body. *)
Definition MaxBytesReader (r : reader error) (n : Z) : reader error :=
  if len (r_bytes r) <=? n then r
  else Reader (String.substring 0 (Z.to_nat n) (r_bytes r))
              (Some "http: request body too large"%string) true.

Lemma MaxBytesReader_len r n : 0 ≤ n → len (r_bytes (MaxBytesReader r n)) ≤ n.
Proof.
  intros Hn. unfold MaxBytesReader. destruct (Z.leb_spec (len (r_bytes r)) n); [done|].
  unfold len; cbn. rewrite length_substring. lia.
Qed.

(** A base transport: one exchange, and whether it can close idle connections. *)
Record RoundTripper : Type := MkRoundTripper {
  rt_RoundTrip : http_request → res error (option http_response);
  rt_is_http_Transport : bool;         (* its dynamic type is *http.Transport *)
  rt_closes_idle : bool;               (* it has a CloseIdleConnections method *)
  rt_MaxResponseHeaderBytes : Z;
}.

Section http.
(** [http.DefaultTransport] *)
Context (DefaultTransport : RoundTripper).

Record boundedTransport : Type := MkBoundedTransport {
  base : RoundTripper; maximum : Z; owned : bool;
}.

(** Whether the base transport's idle connections are closed. *)
Definition CloseIdleConnections (t : boundedTransport) : bool :=
  if owned t then rt_closes_idle (base t) else false.

(** One exchange: the requests the base transport was given, the outcome, and whether the
    base's response body was closed unread. *)
Record trip : Type := MkTrip {
  given : list http_request;
  outcome : res transport_error http_response;
  closed_unread : bool;
}.

Definition RoundTrip (t : boundedTransport) (request : http_request) : trip :=
  if negb (httpsURL (req_URL request) true) then MkTrip [] (Err Unavailable) false
  else match rt_RoundTrip (base t) request with
       | Err e => MkTrip [request] (Err (BaseError e)) false
       | Ok None => MkTrip [request] (Err Unavailable) false
       | Ok (Some response) =>
           let body := default NoBody (Body response) in
           if maximum t <? ContentLength response then MkTrip [request] (Err Unavailable) true
           else MkTrip [request]
                  (Ok (HttpResponse (ContentLength response)
                         (Some (MaxBytesReader body (maximum t))) (next response))) false
       end.

Definition redirect_policy : Type := http_request → list http_request → option redirect_error.

(** The caller's [http.Client]. *)
Record http_Client : Type := MkClient {
  hc_Timeout : Duration;
  hc_Transport : option RoundTripper;
  hc_CheckRedirect : option redirect_policy;
}.

Record bounded_Client : Type := MkBoundedClient {
  Timeout : Duration;
  Transport : boundedTransport;
  CheckRedirect : redirect_policy;
}.

(** The [CheckRedirect] closure. *)
Definition check_redirect (previous : option redirect_policy) : redirect_policy := λ request via,
  match via with
  | first :: _ =>
      if negb (bool_decide (Method first = "GET"%string)) then Some ErrUseLastResponse
      else if (3 <=? Z.of_nat (length via)) || negb (httpsURL (req_URL request) true)
      then Some RedirectUnavailable
      else match previous with Some f => f request via | None => None end
  | [] =>
      if negb (httpsURL (req_URL request) true) then Some RedirectUnavailable
      else match previous with Some f => f request via | None => None end
  end.

Definition boundedClient (original : option http_Client) (timeout : Duration) (maximum : Z)
    : bounded_Client :=
  let result := default (MkClient 0 None None) original in
  let t := if (hc_Timeout result <=? 0) || (timeout <? hc_Timeout result) then timeout
           else hc_Timeout result in
  let '(transport, owned) :=
    match hc_Transport result with
    | Some rt => (rt, false)
    | None =>
        if rt_is_http_Transport DefaultTransport
        then (MkRoundTripper (rt_RoundTrip DefaultTransport) true
                (rt_closes_idle DefaultTransport) (64 * 1024), true)
        else (DefaultTransport, false)
    end in
  MkBoundedClient t (MkBoundedTransport transport maximum owned)
    (check_redirect (hc_CheckRedirect result)).

(** ** Following redirects *)

Inductive client_error : Type :=
| TransportFailed (e : transport_error)
| RedirectRefused (e : redirect_error)
| OutOfFuel.

(** [Client.Do]: the requests that reach the base transport, and the outcome. *)
Fixpoint client_do (fuel : nat) (c : bounded_Client) (via : list http_request)
    (req : http_request) : list http_request * res client_error http_response :=
  match fuel with
  | O => ([], Err OutOfFuel)
  | S fuel =>
      let t := RoundTrip (Transport c) req in
      let sent := given t in
      match outcome t with
      | Err e => (sent, Err (TransportFailed e))
      | Ok resp =>
          match next resp with
          | None => (sent, Ok resp)
          | Some req' =>
              match CheckRedirect c req' (via ++ [req]) with
              | Some ErrUseLastResponse => (sent, Ok resp)
              | Some e => (sent, Err (RedirectRefused e))
              | None => let '(l, r) := client_do fuel c (via ++ [req]) req' in (sent ++ l, r)
              end
          end
      end
  end.

(** ** Properties *)

Lemma RoundTrip_given t req :
  Forall (λ q, httpsURL (req_URL q) true = true) (given (RoundTrip t req)) ∧
  (length (given (RoundTrip t req)) ≤ 1)%nat ∧
  (httpsURL (req_URL req) true = false → outcome (RoundTrip t req) = Err Unavailable).
Proof.
  unfold RoundTrip. destruct (httpsURL (req_URL req) true) eqn:He; cbn [negb].
  - destruct (rt_RoundTrip (base t) req) as [[r|]|]; [destruct (_ <? _)|..]; cbn;
      (split_and!; [by repeat constructor|lia|done]).
  - split_and!; [constructor|cbn; lia|done].
Qed.

Lemma RoundTrip_Ok t req resp :
  0 ≤ maximum t → outcome (RoundTrip t req) = Ok resp →
  ∃ body, Body resp = Some body ∧ len (r_bytes body) ≤ maximum t.
Proof.
  intros Hm. unfold RoundTrip. destruct (negb _); [done|].
  destruct (rt_RoundTrip (base t) req) as [[r|]|]; [|done..].
  destruct (Z.ltb_spec (maximum t) (ContentLength r)); [done|]. intros [= <-].
  eexists. split; [done|]. by apply MaxBytesReader_len.
Qed.

(** What the redirect policy lets through. *)
Lemma check_redirect_follows previous req via :
  check_redirect previous req via = None →
  httpsURL (req_URL req) true = true ∧ (length via < 3)%nat ∧
  ∀ first, head via = Some first → Method first = "GET"%string.
Proof.
  unfold check_redirect. destruct via as [|f via].
  - destruct (httpsURL (req_URL req) true); [|done]. intros _. split_and!; [done|cbn; lia|done].
  - case_bool_decide as Hget; cbn [negb]; [|done].
    destruct (Z.leb_spec 3 (Z.of_nat (length (f :: via)))); [done|]. cbn [orb].
    destruct (httpsURL (req_URL req) true); [|done]. intros _. split_and!; [done|lia|]. by intros ? [= <-].
Qed.

(** What holds of a run that has already sent [via]. *)
Lemma client_do_bounded original timeout limit fuel : ∀ via req,
  0 ≤ limit → (4 ≤ fuel + length via)%nat → (length via < 3)%nat →
  (via ≠ [] → (λ r, Method r) <$> head via = Some "GET"%string) →
  let c := boundedClient original timeout limit in
  let '(sent, r) := client_do fuel c via req in
  Forall (λ q, httpsURL (req_URL q) true = true) sent ∧
  (length via + length sent ≤ 3)%nat ∧
  (via = [] → Method req ≠ "GET"%string → (length sent ≤ 1)%nat) ∧
  r ≠ Err OutOfFuel ∧
  ∀ resp, r = Ok resp → ∃ body, Body resp = Some body ∧ len (r_bytes body) ≤ limit.
Proof.
  induction fuel as [|fuel IH]; intros via req Hmax Hfuel Hvia Hget; [lia|].
  cbn zeta. cbn [client_do].
  assert (∃ prev own rt, boundedClient original timeout limit =
            MkBoundedClient (Timeout (boundedClient original timeout limit))
              (MkBoundedTransport rt limit own) (check_redirect prev)) as (prev & own & rt & Hc).
  { unfold boundedClient. destruct (hc_Transport _); [by eauto|].
    destruct (rt_is_http_Transport _); by eauto. }
  set (c := boundedClient original timeout limit) in *.
  destruct (RoundTrip_given (Transport c) req) as (Hsent & Hlen & _).
  set (sent := given _) in *.
  destruct (outcome (RoundTrip (Transport c) req)) as [resp|e] eqn:Hrt.
  2: { split_and!; [done|lia|lia|done|done]. }
  apply RoundTrip_Ok in Hrt as Hbody; [|by rewrite Hc].
  assert (maximum (Transport c) = limit) as Hmx by by rewrite Hc.
  rewrite Hmx in Hbody.
  destruct (next resp) as [req'|].
  2: { split_and!; [done|lia|lia|done|]. by intros ? [= <-]. }
  assert (CheckRedirect c = check_redirect prev) as -> by by rewrite Hc.
  destruct (check_redirect prev req' (via ++ [req])) as [[]|] eqn:Hcr.
  1: { split_and!; [done|lia|lia|done|]. by intros ? [= <-]. }
  1,2: split_and!; [done|lia|lia|done|done].
  destruct (head (via ++ [req])) as [fst_req|] eqn:Hh; [|by destruct via].
  pose proof (check_redirect_follows _ _ _ Hcr) as (_ & Hn & Hfirst). specialize (Hfirst _ Hh).
  specialize (IH (via ++ [req]) req' Hmax). rewrite !length_app in *. cbn [length] in *.
  specialize (IH ltac:(lia) Hn).
  destruct (client_do fuel c (via ++ [req]) req') as [l r].
  destruct IH as (H1 & H2 & _ & H4 & H5). { intros _. rewrite Hh. by cbn; rewrite Hfirst. }
  split_and!; [by apply Forall_app| |..|done|done].
  - rewrite length_app. lia.
  - intros -> Hm. cbn in Hh. injection Hh as <-. done.
Qed.

Lemma boundedClient_Timeout original timeout limit :
  0 < timeout → 0 < Timeout (boundedClient original timeout limit) ≤ timeout.
Proof.
  intros Ht. unfold boundedClient. set (o := default _ original).
  destruct (Z.leb_spec (hc_Timeout o) 0); destruct (Z.ltb_spec timeout (hc_Timeout o)); cbn [orb];
    destruct (hc_Transport o); try destruct (rt_is_http_Transport _); cbn; lia.
Qed.

(** C20 (safety): what a bounded client can do. For any caller's client and any servers:
    the requests that its transport hands to the base transport are to https URLs without
    credentials or fragment, a request that is not a GET (the token exchange) is sent once
    and never again for a redirect, at most three requests are sent in all, no body yields
    more than the limit, and the client's timeout is positive and at most the configured
    one. A request to any other URL is not sent and fails. Its redirect policy, whatever the
    caller's is, follows a redirect to such URLs only, after less than three requests of
    which the first was a GET. *)
Theorem bounded_client_safe original timeout limit req
  (Hmax : 0 ≤ limit) (Htimeout : 0 < timeout) :
  let c := boundedClient original timeout limit in
  let '(sent, r) := client_do 4 c [] req in
  Forall (λ q, httpsURL (req_URL q) true = true) sent ∧
  (length sent ≤ 3)%nat ∧ (Method req ≠ "GET"%string → (length sent ≤ 1)%nat) ∧
  r ≠ Err OutOfFuel ∧
  (∀ resp, r = Ok resp → ∃ body, Body resp = Some body ∧ len (r_bytes body) ≤ limit) ∧
  (httpsURL (req_URL req) true = false → sent = [] ∧ r = Err (TransportFailed Unavailable)) ∧
  (∀ req' via, CheckRedirect c req' via = None →
     httpsURL (req_URL req') true = true ∧ (length via < 3)%nat ∧
     ∀ first, head via = Some first → Method first = "GET"%string) ∧
  0 < Timeout c ≤ timeout.
Proof.
  cbn zeta.
  pose proof (client_do_bounded original timeout limit 4 [] req Hmax) as H.
  specialize (H ltac:(cbn; lia) ltac:(cbn; lia) ltac:(done)). cbn zeta in H.
  destruct (client_do 4 (boundedClient original timeout limit) [] req) as [sent r] eqn:Hdo.
  destruct H as (H1 & H2 & H3 & H4 & H5). cbn [length] in H2. split_and!; [done|lia|auto|done|done|..].
  - intros Hn. cbn [client_do] in Hdo. unfold RoundTrip in Hdo. rewrite Hn in Hdo. cbn in Hdo. by injection Hdo as <- <-.
  - intros req' via. unfold boundedClient. destruct (hc_Transport _); [apply check_redirect_follows|].
    destruct (rt_is_http_Transport _); apply check_redirect_follows.
  - apply boundedClient_Timeout; lia.
  - apply boundedClient_Timeout; lia.
Qed.
End http.

(** ** Witnesses *)

Definition sample_transport : RoundTripper :=
  MkRoundTripper (λ r, Ok (Some (HttpResponse 1 (Some (Reader "abcdef" None true))
                                  (Some (HttpRequest "https://b" "GET"))))) true true 0.

Lemma bounded_client_safe_witness :
  let c := boundedClient sample_transport None 5 3 in
  let '(sent, r) := client_do 4 c [] (HttpRequest "https://a" "POST") in
  length sent = 1%nat ∧
  (∀ resp, r = Ok resp → ∃ body, Body resp = Some body ∧ len (r_bytes body) ≤ 3).
Proof.
  pose proof (bounded_client_safe sample_transport None 5 3
                (HttpRequest "https://a" "POST") ltac:(lia) ltac:(lia)) as H.
  cbn zeta in *. destruct (client_do 4 _ [] _) as [sent r] eqn:He.
  destruct H as (_ & _ & _ & _ & H & _). split; [|exact H].
  vm_compute in He. injection He as <- _. reflexivity.
Defined.
