(* ===== verification/OidcClaims.v ===== *)
(** * OidcClaims

    What [Provider.Complete] of [oidc/provider.go] reads out of an ID token's claims: the
    authorized party, as [json.Unmarshal] into the local struct [party] leaves it. *)

From S2P Require Import Prelude GoStrings GoJson.
Local Open Scope Z_scope.

Section claims.
Context {U : UnicodeTables}.

(** The raw [azp], empty when absent. A null is kept as a text: [RawMessage] is an
    [Unmarshaler]. *)
Definition json_azp (claims : string) : option (list Z) :=
  v ← whole_value (bytes claims);
  let '(azp, e) := decode_struct ["azp"%string] (λ _ text _ _, (text, false)) v [] in
  if (e : bool) then None else Some azp.

(** [json.Unmarshal] of a raw message into a string. *)
Definition json_string (raw : list Z) : option string :=
  v ← whole_value raw;
  let '(s, e) := decode_string v "" in
  if (e : bool) then None else Some s.

(** The member that decides: the last one whose name is azp up to case folding. *)
Definition is_azp (m : list Z * list Z * json) : Prop :=
  find_field ["azp"%string] (unquote m.1.1) = Some "azp"%string.
#[global] Instance is_azp_dec m : Decision (is_azp m).
Proof. unfold is_azp. apply _. Defined.
Definition azp_of (ms : list (list Z * list Z * json)) : option (list Z * list Z * json) :=
  last (filter is_azp ms).

(** The claims name [client] as the authorized party, or name none for at most one
    audience. *)
Definition party_names (client : string) (audience : list string) (v : json) : Prop :=
  match v with
  | JNull => (length audience ≤ 1)%nat
  | JObject ms =>
      match azp_of ms with
      | Some m => ∃ lit, m.2 = JString lit ∧ unquote lit = client
      | None => (length audience ≤ 1)%nat
      end
  | _ => False
  end.

(** ** What is scanned is a value's own text *)

Lemma find_azp key f : find_field ["azp"%string] key = Some f → f = "azp"%string.
Proof.
  unfold find_field. case_bool_decide as Hk.
  - intros [= <-]. by apply list_elem_of_singleton in Hk.
  - cbn. destruct (EqualFold key "azp"); [by intros [= <-]|done].
Qed.

Lemma decode_azp ms :
  fold_left (decode_member ["azp"%string] (λ _ text _ _, (text, false))) ms ([], false) =
  (match azp_of ms with Some m => m.1.2 | None => [] end, false).
Proof.
  unfold azp_of. induction ms as [|[[name text] v] ms IH] using rev_ind; [done|].
  rewrite fold_left_app, IH, filter_app. cbn [fold_left]. unfold decode_member.
  destruct (find_field _ (unquote name)) as [f|] eqn:Hf.
  - pose proof (find_azp _ _ Hf) as ->. rewrite (filter_cons_True is_azp) by exact Hf.
    by rewrite filter_nil, last_snoc.
  - rewrite (filter_cons_False is_azp) by (unfold is_azp; cbn [fst]; congruence).
    by rewrite filter_nil, app_nil_r.
Qed.

Lemma azp_of_Some ms m : azp_of ms = Some m → m ∈ ms.
Proof. intros H%last_Some_elem_of. by apply list_elem_of_filter in H as [_ ?]. Qed.

(** [azp] is the text of the deciding member, and empty exactly without one. *)
Lemma json_azp_inv claims azp :
  json_azp claims = Some azp →
  ∃ v, whole_value (bytes claims) = Some v ∧
    match v with
    | JNull => azp = []
    | JObject ms => azp = match azp_of ms with Some m => m.1.2 | None => [] end
    | _ => False
    end.
Proof.
  unfold json_azp. intros (v & Hv & H)%bind_Some. exists v. split; [done|].
  destruct v as [| | | | |ms]; cbn [decode_struct] in H; try done; [by injection H as <-|].
  rewrite decode_azp in H. by injection H as <-.
Qed.

Lemma json_string_text fuel depth start v r client :
  scan_value fuel depth start = Some (v, r) → client ≠ ""%string →
  json_string (text_between start r) = Some client →
  ∃ lit, v = JString lit ∧ unquote lit = client.
Proof.
  intros Hscan Hc. unfold json_string. intros (w & Hw & Hs)%bind_Some.
  destruct w as [| | |lit| |]; cbn in Hs; try done; [by injection Hs as <-|].
  exists lit. injection Hs as Hs. split; [|done].
  apply bind_Some in Hw as ([w r0] & Hw & Hrest). case_bool_decide; [|done]. injection Hrest as ->.
  unfold first_value in Hw. destruct (text_between_head _ _ _ _ _ Hscan) as (c & t & -> & Hsp & Htext).
  rewrite Htext in Hw. cbn [skip_space] in Hw. rewrite Hsp in Hw.
  apply scan_value_string in Hw as (l' & [= -> Hl'] & Hlit).
  apply scan_value_quote in Hscan as (s & -> & Hs').
  destruct (scan_string_split _ _ _ _ ltac:(done) Hs') as [-> Hsame].
  assert (l' = s ++ [34]) as ->.
  { rewrite <- Hl'. change (34 :: r) with ([34] ++ r). rewrite app_assoc.
    apply take_app_length'. rewrite !length_app. cbn. lia. }
  rewrite Hsame in Hlit. by injection Hlit as ->.
Qed.

(** The rule [Complete] applies to the raw [azp] is the one on the claims' value. *)
Lemma party_spec claims azp client audience :
  client ≠ ""%string → json_azp claims = Some azp →
  (azp ≠ [] → json_string azp = Some client) → (azp = [] → (length audience ≤ 1)%nat) →
  ∃ v, whole_value (bytes claims) = Some v ∧ party_names client audience v.
Proof.
  intros Hc (v & Hv & Hazp)%json_azp_inv Hsome Hnone. exists v. split; [done|].
  destruct v as [| | | | |ms]; try done; cbn [party_names]; [by apply Hnone|].
  destruct (azp_of ms) as [m|] eqn:Hm; [|by apply Hnone]. subst azp.
  apply azp_of_Some in Hm. apply bind_Some in Hv as ([v r0] & Hv & Hrest).
  case_bool_decide; [|done]. injection Hrest as ->.
  apply scan_object_scanned in Hv. rewrite Forall_forall in Hv.
  destruct (Hv _ Hm) as (fuel & depth & start & r & Hscan & Htext).
  apply (json_string_text fuel depth start (m.2) r); [done..|]. rewrite <- Htext. apply Hsome.
  rewrite Htext. by destruct (text_between_head _ _ _ _ _ Hscan) as (c & t & _ & _ & ->).
Qed.
End claims.
