(* ===== verification/OidcProvider.v ===== *)
(** * OidcProvider

    [oidc/provider.go]: [New], [Begin], [Complete] and the accessors. go-oidc's discovery
    and verifier and the oauth2 exchange are parameters. *)

From S2P Require Import Prelude GoRuntime GoStrings GoUrl GoBase64 GoJson OidcUrl OidcParams OidcHttp OidcClaims.
Local Open Scope Z_scope.

(** ** Data *)

Record Config : Type := MkConfig {
  IssuerURL : string;
  ClientID : string;
  ClientSecret : string;
  RedirectURL : string;
  Scopes : list string;
  HTTPClient : option http_Client;
  AuthMethod : string;
  c_Timeout : Duration;
  MaxResponseBytes : Z;
  Now : option Time;                 (* what the clock tells; None is a nil function *)
}.

Record Metadata : Type := MkMetadata {
  Issuer : string;
  AuthorizationEndpoint : string;
  TokenEndpoint : string;
  JWKSURI : string;
  AuthMethods : list string;
  SigningAlgs : list string;
}.

(** The discovery document as [New] decodes it; an absent list of methods is [None]. *)
Record document : Type := MkDocument {
  d_Metadata : Metadata;
  Methods : option (list string);
  ResponseTypes : list string;
}.

Record State : Type := MkState {
  st_Value : string; st_Nonce : string; st_Verifier : string; st_Configuration : string;
}.
Record Authorization : Type := MkAuthorization { au_URL : string; au_State : State }.

Record Assertion : Type := MkAssertion {
  a_Issuer : string;
  a_ProviderIssuer : string;
  a_Subject : string;
  a_Audience : list string;
  a_ExpiresAt : Time;
  a_IssuedAt : Time;
  a_claims : string;
}.

Record oauth_Config : Type := MkOAuth {
  o_ClientID : string;
  o_ClientSecret : string;
  o_RedirectURL : string;
  o_Scopes : list string;
  o_AuthURL : string;
  o_TokenURL : string;
  o_AuthStyle : AuthStyle;
}.

(** The arguments the ID token verifier is made with. *)
Record verifier_Config : Type := MkVerifier {
  v_Issuer : string;
  v_JWKSURI : string;
  v_ClientID : string;
  v_Algs : list string;
  v_Now : option Time;
}.

Record Provider : Type := MkProvider {
  metadata : Metadata;
  oauth : oauth_Config;
  verifier : verifier_Config;
  client : bounded_Client;
  timeout : Duration;
  maxBytes : Z;
  configuration_id : string;
}.

(** What is used of an oauth2 token and of a verified ID token. *)
Record tokens : Type := MkTokens { id_token : option string; AccessToken : string }.
Record IDToken : Type := MkIDToken {
  t_Issuer : string;
  t_Subject : string;
  t_Audience : list string;
  t_Expiry : Time;
  t_IssuedAt : Time;
  t_Nonce : string;
  t_AccessTokenHash : string;
  t_Claims : option string;                (* Claims(&raw) *)
  VerifyAccessToken : string → bool;       (* ... == nil *)
}.

(** What [fmt] prints of these values: no field shows. *)
Definition Config_String (_ : Config) : string := "oidc.Config(redacted)".
Definition Config_GoString (c : Config) : string := Config_String c.
Definition State_String (_ : State) : string := "oidc.State(redacted)".
Definition State_GoString (s : State) : string := State_String s.
Definition Authorization_String (_ : Authorization) : string := "oidc.Authorization(redacted)".
Definition Authorization_GoString (a : Authorization) : string := Authorization_String a.
Definition Assertion_String (_ : option Assertion) : string := "oidc.Assertion(verified)".
Definition Assertion_GoString (a : option Assertion) : string := Assertion_String a.
Definition Provider_String (_ : option Provider) : string := "oidc.Provider(redacted)".
Definition Provider_GoString (p : option Provider) : string := Provider_String p.

Section provider.
Context {U : UnicodeTables}.
Context (DefaultTransport : RoundTripper).
Context (Sum256 : list Z → list Z).
(** [coreoidc.NewProvider] and [upstream.Claims(&document)]; [None] is a document that
    does not decode. *)
Context (NewProvider : bounded_Client → string → res error (option document)).
Context (Exchange : bounded_Client → oauth_Config → string → string → res error tokens).
Context (Verify : bounded_Client → verifier_Config → string → res error IDToken).
Context (AuthCodeURL : oauth_Config → string → string → string → string).

(** ** New *)

(** The outcome, and whether idle connections were closed on the way out. *)
Definition New (ctx_nil : bool) (ctxErr : option string) (config : Config)
    : res oidc_error Provider * bool :=
  if ctx_nil || negb (httpsURL (IssuerURL config) false)
     || negb (httpsURL (RedirectURL config) true)
     || (len (ClientID config) =? 0) || (4096 <? len (ClientID config))
     || negb (ValidString (ClientID config))
     || (maxCredentialBytes <? len (ClientSecret config))
  then (Err ErrInvalidConfig, false)
  else
    let timeout := if c_Timeout config =? 0 then DefaultTimeout else c_Timeout config in
    let maxBytes := if MaxResponseBytes config =? 0 then DefaultMaxResponseBytes
                    else MaxResponseBytes config in
    if (timeout <? 0) || (Minute <? timeout) || (maxBytes <? 1)
       || (Z.shiftl 16 20 <? maxBytes)
    then (Err ErrInvalidConfig, false)
    else
      match normalizeScopes (Scopes config) with
      | Err e => (Err e, false)
      | Ok scopes =>
          let client := boundedClient DefaultTransport (HTTPClient config) timeout
                                      maxBytes in
          let outcome :=
            upstream ← (match NewProvider client (IssuerURL config) with
                        | Err _ => Err (failed ctxErr ErrDiscovery)
                        | Ok d => Ok d
                        end);
            document ← of_option upstream ErrDiscovery;
            let md := d_Metadata document in
            _ ← check (negb (negb (bool_decide (Issuer md = IssuerURL config))
                             || negb (httpsURL (AuthorizationEndpoint md) true)
                             || negb (httpsURL (TokenEndpoint md) true)
                             || negb (httpsURL (JWKSURI md) true)
                             || negb (bool_decide ("code"%string ∈ ResponseTypes document))))
                      ErrDiscovery;
            let methods := default [ClientSecretBasic] (Methods document) in
            let algs := acceptedAlgorithms (SigningAlgs md) in
            let md := MkMetadata (Issuer md) (AuthorizationEndpoint md) (TokenEndpoint md)
                                 (JWKSURI md) methods algs in
            _ ← check (negb (Z.of_nat (length algs) =? 0)) ErrDiscovery;
            choice ← chooseAuthMethod (AuthMethod config) (ClientSecret config) methods;
            let '(method, style) := choice in
            let oauth := MkOAuth (ClientID config) (ClientSecret config) (RedirectURL config)
                                 scopes (AuthorizationEndpoint md) (TokenEndpoint md) style in
            let verifier := MkVerifier (IssuerURL config) (JWKSURI md) (ClientID config) algs
                                       (Now config) in
            let values := [IssuerURL config; ClientID config; RedirectURL config; method;
                           AuthorizationEndpoint md; TokenEndpoint md; JWKSURI md] in
            Ok (MkProvider md oauth verifier client timeout maxBytes
                           (configuration Sum256 values scopes algs)) in
          (outcome,
           if is_ok outcome then false else CloseIdleConnections (Transport client))
      end.

(** The methods of a provider: [None] is a nil one, or one that [New] did not make (its
    verifier is nil). [CloseIdleConnections]: whether the transport's idle connections are closed. *)
Definition Provider_CloseIdleConnections (p : option Provider) : bool :=
  match p with Some p => CloseIdleConnections (Transport (client p)) | None => false end.

Definition Provider_Metadata (p : option Provider) : res oidc_error Metadata :=
  match p with Some p => Ok (metadata p) | None => Err ErrNotConfigured end.

(** ** Begin *)

(** [value_rand] and [nonce_rand] are what the random source gives, [v] is what
    [oauth2.GenerateVerifier] returns. *)
Definition Begin (p : option Provider) (value_rand nonce_rand : option string) (v : string)
    : res oidc_error Authorization :=
  match p with
  | None => Err ErrNotConfigured
  | Some p =>
      value ← randomValue value_rand;
      nonce ← randomValue nonce_rand;
      let state := MkState value nonce v (configuration_id p) in
      Ok (MkAuthorization (AuthCodeURL (oauth p) value nonce v) state)
  end.

(** ** Complete *)

(** The checks before anything is sent. *)
Definition state_ok (p : Provider) (ctx_nil : bool) (callbackState code : string) (state : State)
    : bool :=
  negb (ctx_nil || negb (canonicalValue callbackState) || negb (canonicalValue (st_Value state))
        || negb (canonicalValue (st_Nonce state)) || negb (canonicalValue (st_Verifier state))
        || negb (bool_decide (st_Configuration state = configuration_id p))
        || negb (ConstantTimeCompare callbackState (st_Value state) =? 1)
        || (len code =? 0) || (8192 <? len code)).

(** The authorized-party rule. *)
Definition party_ok (p : Provider) (token : IDToken) (azp : list Z) : bool :=
  if 0 <? Z.of_nat (length azp)
  then match json_string azp with
       | None => false
       | Some value => bool_decide (value = o_ClientID (oauth p))
       end
  else negb (1 <? Z.of_nat (length (t_Audience token))).

Definition Complete (p : option Provider) (ctx_nil : bool) (ctxErr : option string)
    (callbackState code : string) (state : State) : res oidc_error Assertion :=
  match p with
  | None => Err ErrNotConfigured
  | Some p =>
      _ ← check (state_ok p ctx_nil callbackState code state) ErrInvalidState;
      tokens ← (match Exchange (client p) (oauth p) code (st_Verifier state) with
                | Err _ => Err (failed ctxErr ErrExchange)
                | Ok t => Ok t
                end);
      raw ← of_option (id_token tokens) ErrInvalidToken;
      _ ← check (negb ((len raw =? 0) || (maxBytes p <? len raw))) ErrInvalidToken;
      token ← (match Verify (client p) (verifier p) raw with
               | Err _ => Err (failed ctxErr ErrInvalidToken)
               | Ok t => Ok t
               end);
      _ ← check (ConstantTimeCompare (t_Nonce token) (st_Nonce state) =? 1) ErrNonceMismatch;
      claims ← of_option (t_Claims token) ErrInvalidToken;
      _ ← check (negb (negb (ValidString claims) || (len (t_Subject token) =? 0)
                       || (4096 <? len (t_Subject token)))) ErrInvalidToken;
      azp ← of_option (json_azp claims) ErrInvalidToken;
      _ ← check (party_ok p token azp) ErrInvalidToken;
      _ ← check (negb (negb (bool_decide (t_AccessTokenHash token = ""%string)) &&
                       negb (VerifyAccessToken token (AccessToken tokens)))) ErrInvalidToken;
      Ok (MkAssertion (t_Issuer token) (Issuer (metadata p)) (t_Subject token)
            (t_Audience token) (t_Expiry token) (t_IssuedAt token) claims)
  end.

(** [Claims]: [None] is a nil assertion or one without claims; the decoder fills the destination. *)
Definition Claims {T} (json_Unmarshal : string → option T) (a : option Assertion)
    : res oidc_error T :=
  match a with
  | None => Err ErrNotConfigured
  | Some a => of_option (json_Unmarshal (a_claims a)) ErrInvalidClaims
  end.

(** ** Properties *)

(** A protocol value: the encoding of 32 bytes. *)
Definition protocol_value (v : string) : Prop :=
  ∃ raw, len raw = 32 ∧ v = EncodeToString RawURLEncoding raw.

Lemma constant_time_eq x y : (ConstantTimeCompare x y =? 1) = true ↔ x = y.
Proof using. rewrite Z.eqb_eq. apply ConstantTimeCompare_eq. Qed.

Lemma state_ok_iff p callbackState code state :
  state_ok p false callbackState code state = true ↔
  callbackState = st_Value state ∧ protocol_value (st_Value state) ∧
  protocol_value (st_Nonce state) ∧ protocol_value (st_Verifier state) ∧
  st_Configuration state = configuration_id p ∧ 0 < len code ≤ 8192.
Proof using.
  unfold state_ok, protocol_value. rewrite <- !canonicalValue_iff. cbn [orb].
  pose proof (constant_time_eq callbackState (st_Value state)) as Hc.
  assert (0 ≤ len code) as Hpos by (unfold len; lia). split.
  - intros Hok. rewrite negb_true_iff, !orb_false_iff, !negb_false_iff in Hok.
    destruct Hok as (((((((_ & Hv) & Hn) & Hf) & Hconf) & Heq) & H0) & H1).
    apply Hc in Heq. bool_simp. split_and!; [done..|lia|lia].
  - intros (-> & Hv & Hn & Hf & Hconf & Hcode). rewrite Hv, Hn, Hf. cbn [negb orb].
    rewrite bool_decide_eq_true_2 by done. rewrite (proj2 Hc eq_refl). cbn [negb orb].
    destruct (Z.eqb_spec (len code) 0); [lia|]. destruct (Z.ltb_spec 8192 (len code)); [lia|done].
Qed.

(** What makes a callback acceptable: [tokens] and [token] are what the exchange and the
    verifier gave. *)
Record acceptable (p : Provider) (callbackState code : string) (state : State)
    (t : tokens) (raw : string) (token : IDToken) (claims : string) (azp : list Z) : Prop := Acceptable {
  acc_state : callbackState = st_Value state;
  acc_values : protocol_value (st_Value state) ∧ protocol_value (st_Nonce state) ∧
               protocol_value (st_Verifier state);
  acc_configuration : st_Configuration state = configuration_id p;
  acc_code : 0 < len code ≤ 8192;
  acc_exchange : Exchange (client p) (oauth p) code (st_Verifier state) = Ok t;
  acc_raw : id_token t = Some raw ∧ 0 < len raw ≤ maxBytes p;
  acc_verify : Verify (client p) (verifier p) raw = Ok token;
  acc_nonce : t_Nonce token = st_Nonce state;
  acc_claims : t_Claims token = Some claims ∧ ValidString claims = true;
  acc_subject : 0 < len (t_Subject token) ≤ 4096;
  acc_azp : json_azp claims = Some azp;
  acc_party : (azp ≠ [] → json_string azp = Some (o_ClientID (oauth p))) ∧
              (azp = [] → (length (t_Audience token) ≤ 1)%nat);
  acc_at_hash : t_AccessTokenHash token = ""%string ∨
                VerifyAccessToken token (AccessToken t) = true;
}.

Lemma len_zero s : len s = 0 ↔ s = ""%string.
Proof. unfold len. destruct s; cbn; split; intros; try done; lia. Qed.

Lemma party_ok_iff p token azp :
  party_ok p token azp = true ↔
  (azp ≠ [] → json_string azp = Some (o_ClientID (oauth p))) ∧
  (azp = [] → (length (t_Audience token) ≤ 1)%nat).
Proof using U.
  clear DefaultTransport Sum256 NewProvider Exchange Verify AuthCodeURL. unfold party_ok. destruct azp as [|c azp]; cbn [length].
  - change (0 <? Z.of_nat 0) with false. cbn iota. rewrite negb_true_iff, Z.ltb_ge. split; [|intros [_ Hn]; specialize (Hn eq_refl); lia].
    intros. split; [done|intros _; lia].
  - destruct (Z.ltb_spec 0 (Z.of_nat (S (length azp)))); [|lia].
    destruct (json_string (c :: azp)) as [v|]; [|naive_solver]. rewrite bool_decide_eq_true. naive_solver.
Qed.

(** The bounds on a length, as the code tests them. *)
Lemma length_guard s n : negb ((len s =? 0) || (n <? len s)) = true ↔ 0 < len s ≤ n.
Proof using.
  assert (0 ≤ len s) by (unfold len; lia).
  rewrite negb_true_iff, orb_false_iff, Z.eqb_neq, Z.ltb_ge. lia.
Qed.

Lemma complete_Ok p ctxErr callbackState code state a :
  Complete (Some p) false ctxErr callbackState code state = Ok a →
  ∃ t raw token claims azp,
    acceptable p callbackState code state t raw token claims azp ∧
    a = MkAssertion (t_Issuer token) (Issuer (metadata p)) (t_Subject token)
          (t_Audience token) (t_Expiry token) (t_IssuedAt token) claims.
Proof using Exchange Verify.
  clear DefaultTransport Sum256 NewProvider AuthCodeURL. unfold Complete. intros H. res_inv.
  repeat match goal with
  | H : match ?o with _ => _ end = Ok _ |- _ => destruct o eqn:?; [|discriminate H]
  end. res_inv.
  match goal with H : state_ok _ _ _ _ _ = true |- _ =>
    apply state_ok_iff in H as (? & ? & ? & ? & ? & ?) end.
  match goal with H : party_ok _ _ _ = true |- _ => apply party_ok_iff in H end.
  match goal with H : (ConstantTimeCompare _ _ =? 1) = true |- _ =>
    apply constant_time_eq in H end.
  match goal with H : negb ((len ?r =? 0) || _) = true |- _ => apply length_guard in H end.
  match goal with H : negb (negb _ || _ || _) = true |- _ =>
    rewrite <- orb_assoc, negb_orb, negb_involutive, andb_true_iff, length_guard in H;
    destruct H end.
  match goal with H : negb (negb _ && negb _) = true |- _ =>
    rewrite negb_andb, !negb_involutive, orb_true_iff, bool_decide_eq_true in H end.
  do 5 eexists. split; [|reflexivity]. by split; [..|eassumption|eassumption].
Qed.

Lemma acceptable_complete p ctxErr callbackState code state t raw token claims azp :
  acceptable p callbackState code state t raw token claims azp →
  Complete (Some p) false ctxErr callbackState code state =
  Ok (MkAssertion (t_Issuer token) (Issuer (metadata p)) (t_Subject token)
        (t_Audience token) (t_Expiry token) (t_IssuedAt token) claims).
Proof using Exchange Verify.
  unfold Complete. intros []. destruct acc_values0 as (?&?&?).
  destruct acc_raw0 as [Hraw Hlen], acc_claims0 as [Hclaims Hvalid].
  rewrite (proj2 (state_ok_iff _ _ _ _)) by done. cbn [check of_option mbind res_bind].
  rewrite acc_exchange0. cbn [check of_option mbind res_bind]. rewrite Hraw. cbn [check of_option mbind res_bind].
  rewrite (proj2 (length_guard _ _)) by done. cbn [check of_option mbind res_bind]. rewrite acc_verify0. cbn [mbind res_bind].
  rewrite (proj2 (constant_time_eq _ _)) by done. cbn [check of_option mbind res_bind]. rewrite Hclaims. cbn [check of_option mbind res_bind].
  rewrite <- orb_assoc, negb_orb, negb_involutive, (proj2 (length_guard _ _)), Hvalid by done.
  cbn [andb check mbind res_bind]. rewrite acc_azp0. cbn [check of_option mbind res_bind].
  rewrite (proj2 (party_ok_iff _ _ _)) by done. cbn [check of_option mbind res_bind].
  rewrite negb_andb, !negb_involutive.
  by destruct acc_at_hash0 as [Hh|Hh]; [rewrite bool_decide_eq_true_2 by done|rewrite Hh, orb_true_r].
Qed.

(** C16 (functional): exactly which callbacks [Complete] accepts, and what it returns. The
    callback's state is the one begun with, state, nonce and verifier are encodings of 32
    bytes, the state belongs to this configuration, the code is not empty and at most 8192
    bytes; the exchange made with the state's verifier yields an ID token that is not empty
    and within the size limit; it verifies and carries the state's nonce; its claims are
    valid UTF-8, its subject has 1 to 4096 bytes; an azp claim names this client, and
    without one there is a single audience; an at_hash claim matches the access token. The
    assertion has the verified token's values, never the callback's. *)
Theorem complete_accepts_iff p ctxErr callbackState code state a :
  Complete (Some p) false ctxErr callbackState code state = Ok a ↔
  ∃ t raw token claims azp,
    acceptable p callbackState code state t raw token claims azp ∧
    a = MkAssertion (t_Issuer token) (Issuer (metadata p)) (t_Subject token)
          (t_Audience token) (t_Expiry token) (t_IssuedAt token) claims.
Proof using Exchange Verify.
  split; [apply complete_Ok|]. intros (t & raw & token & claims & azp & Hacc & ->).
  by eapply acceptable_complete.
Qed.

(** C17 (safety): an accepted callback's claims are one JSON value, and as far as the
    authorized party goes they name this client: the last member called azp, up to case
    folding, is a string literal that decodes to the client id; without such a member, or
    for a null, there is at most one audience. A null, a number or an object as azp is
    refused. *)
Theorem accepted_party_is_client p ctxErr callbackState code state a
  (Hclient : o_ClientID (oauth p) ≠ ""%string)
  (Hok : Complete (Some p) false ctxErr callbackState code state = Ok a) :
  ∃ v, whole_value (bytes (a_claims a)) = Some v ∧
       party_names (o_ClientID (oauth p)) (a_Audience a) v.
Proof using Exchange Verify.
  destruct (complete_Ok _ _ _ _ _ _ Hok) as (t & raw & token & claims & azp & Hacc & ->).
  destruct (acc_party _ _ _ _ _ _ _ _ _ Hacc) as [Hs Hn].
  apply (party_spec _ azp); [done|apply Hacc|done|done].
Qed.

Lemma failed_not_invalid_state ctxErr category :
  category ≠ ErrInvalidState → failed ctxErr category ≠ ErrInvalidState.
Proof. unfold failed. by destruct ctxErr. Qed.

(** Only the checks before the exchange answer [ErrInvalidState]. *)
Lemma complete_invalid_state p ctxErr callbackState code state :
  Complete (Some p) false ctxErr callbackState code state = Err ErrInvalidState ↔
  state_ok p false callbackState code state = false.
Proof.
  unfold Complete. destruct (state_ok p false callbackState code state) eqn:Hs.
  2: by cbn.
  split; [|done]. intros H. exfalso. revert H. cbn [check mbind res_bind].
  repeat (apply bind_not_Err; [|intros ?]); try done;
    first [by apply check_not_Err|by apply of_option_not_Err|idtac].
  - destruct (Exchange _ _ _ _); [done|]. intros [=H]. by apply (failed_not_invalid_state _ _) in H.
  - destruct (Verify _ _ _); [done|]. intros [=H]. by apply (failed_not_invalid_state _ _) in H.
Qed.

(** C23 (roundtrip): a state that [Begin] made is refused by [Complete] before any exchange
    for exactly three reasons: the callback carries another state value, the provider has
    another configuration than the one that began, or the code is empty or longer than
    8192 bytes. [oauth2.GenerateVerifier] documents that it returns 32 random octets in
    base64url. *)
Theorem begun_state_binds p p' rv rn v au ctxErr callbackState code
  (Hv : len rv = 32) (Hn : len rn = 32) (Hgen : protocol_value v)
  (Hbegin : Begin (Some p) (Some rv) (Some rn) v = Ok au) :
  Complete (Some p') false ctxErr callbackState code (au_State au) = Err ErrInvalidState ↔
  callbackState ≠ st_Value (au_State au) ∨ configuration_id p ≠ configuration_id p' ∨
  len code = 0 ∨ 8192 < len code.
Proof using Exchange Verify AuthCodeURL.
  rewrite complete_invalid_state, <- not_true_iff_false, state_ok_iff.
  cbn in Hbegin. injection Hbegin as <-. cbn.
  assert (protocol_value (EncodeToString RawURLEncoding rv)) by by exists rv.
  assert (protocol_value (EncodeToString RawURLEncoding rn)) by by exists rn.
  assert (0 ≤ len code) by (unfold len; lia).
  destruct (decide (callbackState = EncodeToString RawURLEncoding rv)) as [->|]; [|naive_solver].
  destruct (decide (configuration_id p = configuration_id p')) as [He|]; [|naive_solver].
  split.
  - intros Hc. right. right. destruct (decide (0 < len code ≤ 8192)); [|lia].
    destruct Hc. split_and!; [done..|lia|lia].
  - intros [?|[?|?]] (_ & _ & _ & _ & _ & ?); [done..|lia].
Qed.

(** The configured limits with their defaults. *)
Definition limits_ok (p : Provider) : Prop :=
  0 < timeout p ≤ Minute ∧ 1 ≤ maxBytes p ≤ 16777216.

(** C19 (invariant): what holds of every provider [New] returns. Issuer, redirect URL and
    the three discovered endpoints are https URLs, the issuer without a query; the
    discovered issuer is literally the configured one; the verifier checks that issuer,
    this client and only known asymmetric algorithms, of which there is at least one, with
    the keys of the discovered JWKS URI; the scopes start with openid; the timeout and the
    size limit are in range, and all requests go through a client built with them; no idle
    connection was closed. *)
Theorem new_provider_trusts ctx_nil ctxErr config p closed
  (Hnew : New ctx_nil ctxErr config = (Ok p, closed)) :
  httpsURL (IssuerURL config) false = true ∧
  httpsURL (RedirectURL config) true = true ∧
  Forall (λ u, httpsURL u true = true)
    [AuthorizationEndpoint (metadata p); TokenEndpoint (metadata p); JWKSURI (metadata p)] ∧
  Issuer (metadata p) = IssuerURL config ∧
  (∃ algs, verifier p = MkVerifier (IssuerURL config) (JWKSURI (metadata p))
                                   (ClientID config) algs (Now config) ∧
           algs ≠ [] ∧ ∀ alg, alg ∈ algs → alg ∈ known_algorithms) ∧
  head (o_Scopes (oauth p)) = Some "openid"%string ∧
  o_AuthURL (oauth p) = AuthorizationEndpoint (metadata p) ∧
  o_TokenURL (oauth p) = TokenEndpoint (metadata p) ∧
  limits_ok p ∧
  client p = boundedClient DefaultTransport (HTTPClient config) (timeout p) (maxBytes p) ∧
  closed = false.
Proof.
  revert Hnew. unfold New.
  match goal with |- context [if ?b then (Err ErrInvalidConfig, false) else _] =>
    destruct b eqn:Hconf end; [done|].
  cbn zeta.
  set (tmo := if c_Timeout config =? 0 then _ else _).
  set (mx := if MaxResponseBytes config =? 0 then _ else _).
  destruct ((tmo <? 0) || _ || _ || _) eqn:Hlim; [done|].
  destruct (normalizeScopes (Scopes config)) as [scopes|] eqn:Hscopes; [|done].
  intros [= Hres <-]. bool_simp. rewrite Hres. cbn [is_ok]. res_inv.
  match goal with H : (let '(_, _) := ?x in _) = Ok _ |- _ => destruct x; injection H as <- end.
  cbn [metadata AuthorizationEndpoint TokenEndpoint JWKSURI Issuer verifier oauth o_Scopes o_AuthURL
       o_TokenURL client timeout maxBytes]. bool_simp.
  split_and!; [done|done|by repeat constructor|done| |by eapply normalizeScopes_head|done|done|..|done|done].
  - eexists. split_and!; [done| |by apply acceptedAlgorithms_known].
    intros He. rewrite He in *. by cbn in *.
  - unfold limits_ok. cbn [timeout maxBytes].
    change (Z.shiftl 16 20) with 16777216 in *. split; [split; [|done]|by split].
    unfold tmo in *. destruct (Z.eqb_spec (c_Timeout config) 0); [done|lia].
Qed.

(** What identifies a provider: its fingerprint is that of the parameters the provider
    works with, and they are small enough for the encoding. *)
Lemma new_configuration ctx_nil ctxErr config p closed :
  New ctx_nil ctxErr config = (Ok p, closed) →
  ∃ method,
    let values := [v_Issuer (verifier p); o_ClientID (oauth p); o_RedirectURL (oauth p); method;
                   o_AuthURL (oauth p); o_TokenURL (oauth p); v_JWKSURI (verifier p)] in
    configuration_id p = configuration Sum256 values (o_Scopes (oauth p)) (v_Algs (verifier p)) ∧
    section_ok values ∧ section_ok (o_Scopes (oauth p)) ∧ section_ok (v_Algs (verifier p)) ∧
    o_AuthStyle (oauth p) =
      (if bool_decide (method = ClientSecretBasic) then AuthStyleInHeader else AuthStyleInParams) ∧
    v_ClientID (verifier p) = o_ClientID (oauth p) ∧ Issuer (metadata p) = v_Issuer (verifier p).
Proof.
  unfold New.
  match goal with |- context [if ?b then (Err ErrInvalidConfig, false) else _] =>
    destruct b eqn:Hconf end; [done|]. cbn zeta.
  match goal with |- context [if ?b then (Err ErrInvalidConfig, false) else _] =>
    destruct b end; [done|].
  destruct (normalizeScopes (Scopes config)) as [scopes|] eqn:Hscopes; [|done].
  intros [= Hres _]. bool_simp. res_inv.
  match goal with H : (let '(_, _) := ?x in _) = Ok _ |- _ =>
    destruct x as [method style]; injection H as <- end.
  match goal with H : chooseAuthMethod _ _ _ = Ok _ |- _ => apply chosen_method in H as [? ?] end.
  bool_simp. exists method.
  cbn [configuration_id verifier oauth metadata v_Issuer o_ClientID o_RedirectURL o_AuthURL o_TokenURL
       v_JWKSURI o_Scopes v_Algs o_AuthStyle v_ClientID Issuer].
  split_and!; [done| |by eapply normalizeScopes_section|apply acceptedAlgorithms_section|done..].
  apply (section_small _ 8192); [done| |done].
  repeat match goal with H : httpsURL _ _ = true |- _ => apply httpsURL_len in H end.
  repeat constructor; lia.
Qed.

(** The client and the issuer of a provider are the configured ones. *)
Lemma new_parties ctx_nil ctxErr config p closed :
  New ctx_nil ctxErr config = (Ok p, closed) →
  o_ClientID (oauth p) = ClientID config ∧ Issuer (metadata p) = IssuerURL config.
Proof.
  unfold New.
  match goal with |- context [if ?b then (Err ErrInvalidConfig, false) else _] =>
    destruct b end; [done|]. cbn zeta.
  match goal with |- context [if ?b then (Err ErrInvalidConfig, false) else _] =>
    destruct b end; [done|].
  destruct (normalizeScopes (Scopes config)) as [scopes|]; [|done].
  intros [= Hres _]. res_inv.
  match goal with H : (let '(_, _) := ?x in _) = Ok _ |- _ => destruct x; injection H as <- end.
  bool_simp. by cbn.
Qed.

(** A failed [New] closes the idle connections of a transport it made itself
    and never those of the caller's. Failures before the client exists are
    [ErrInvalidConfig], for which nothing is closed. *)
Theorem new_failure_releases ctx_nil ctxErr config e closed
  (Hnew : New ctx_nil ctxErr config = (Err e, closed)) :
  closed = true ↔
  e ≠ ErrInvalidConfig ∧ (∀ c, HTTPClient config = Some c → hc_Transport c = None) ∧
  rt_is_http_Transport DefaultTransport = true ∧ rt_closes_idle DefaultTransport = true.
Proof.
  revert Hnew. unfold New.
  match goal with |- context [if ?b then (Err ErrInvalidConfig, false) else _] =>
    destruct b end; [naive_solver|]. cbn zeta.
  destruct (_ || _ || _ || _); [naive_solver|].
  destruct (normalizeScopes (Scopes config)) as [scopes|e'] eqn:Hscopes.
  2: { apply normalizeScopes_Err in Hscopes as ->. naive_solver. }
  intros [= Hres <-]. rewrite Hres. cbn [is_ok].
  assert (e ≠ ErrInvalidConfig) as He.
  { intros ->. revert Hres.
    repeat (apply bind_not_Err; [|intros ?]); try done;
      first [by apply check_not_Err|by apply of_option_not_Err|idtac].
    - destruct (NewProvider _ _); [done|]. by destruct ctxErr.
    - apply chooseAuthMethod_not_config.
    - by case_match. }
  unfold boundedClient, CloseIdleConnections.
  destruct (HTTPClient config) as [[? [rt|] ?]|]; cbn.
  - split; [done|]. intros (_ & Hc & _). by specialize (Hc _ eq_refl).
  - destruct (rt_is_http_Transport DefaultTransport); cbn; naive_solver.
  - destruct (rt_is_http_Transport DefaultTransport); cbn; naive_solver.
Qed.
End provider.

(** ** Across providers *)

(** A collision of the digest: two texts that it does not tell apart. *)
Definition collision (Sum256 : list Z → list Z) : Prop := ∃ a b, a ≠ b ∧ Sum256 a = Sum256 b.

(** C21 (safety): the login a provider began is never completed with another party. When
    [New] made two providers, under any configurations and whatever discovery answered to
    each, and a state begun by the first gets past the checks of [Complete] at the second,
    then both have one issuer, one client, one redirect URL, one way of authenticating the
    client, the same endpoints and keys URL, and the same scopes and algorithms: the
    code goes to the token endpoint it was issued for, unless two texts collide under
    SHA-256. *)
Theorem begun_state_same_party `{U : UnicodeTables} transport Sum256 discovery discovery'
    Exchange Verify AuthCodeURL ctx_nil ctxErr config p closed ctx_nil' ctxErr' config' p' closed'
    value_rand nonce_rand v au callbackState code ctxErr''
  (Hdigest : ∀ l, Forall is_byte (Sum256 l))
  (Hnew : New transport Sum256 discovery ctx_nil ctxErr config = (Ok p, closed))
  (Hnew' : New transport Sum256 discovery' ctx_nil' ctxErr' config' = (Ok p', closed'))
  (Hbegin : Begin AuthCodeURL (Some p) value_rand nonce_rand v = Ok au)
  (Hpast : Complete Exchange Verify (Some p') false ctxErr'' callbackState code (au_State au)
           ≠ Err ErrInvalidState) :
  (Issuer (metadata p) = Issuer (metadata p') ∧
   o_ClientID (oauth p) = o_ClientID (oauth p') ∧ o_RedirectURL (oauth p) = o_RedirectURL (oauth p') ∧
   o_AuthStyle (oauth p) = o_AuthStyle (oauth p') ∧
   o_AuthURL (oauth p) = o_AuthURL (oauth p') ∧ o_TokenURL (oauth p) = o_TokenURL (oauth p') ∧
   v_JWKSURI (verifier p) = v_JWKSURI (verifier p') ∧
   o_Scopes (oauth p) = o_Scopes (oauth p') ∧ v_Algs (verifier p) = v_Algs (verifier p')) ∨
  collision Sum256.
Proof.
  assert (state_ok p' false callbackState code (au_State au) = true) as Hok.
  { apply not_false_iff_true. intros Hf. by apply Hpast, complete_invalid_state. }
  apply state_ok_iff in Hok as (_ & _ & _ & _ & Hconf & _).
  unfold Begin in Hbegin. res_inv. cbn [au_State st_Configuration] in Hconf.
  apply new_configuration in Hnew as (method & Hid & H1 & H2 & H3 & Hstyle & _ & ->).
  apply new_configuration in Hnew' as (method' & Hid' & H1' & H2' & H3' & Hstyle' & _ & ->).
  rewrite Hid, Hid' in Hconf.
  apply configuration_inj in Hconf as [(Hvalues & -> & ->)|[Hne Hsum]]; [|right|done..].
  - left. injection Hvalues as -> -> -> -> -> -> ->. rewrite Hstyle, Hstyle'. done.
  - by do 2 eexists.
Qed.

(** C22 (liveness): a login can be completed. On a provider that [New] made, a login is
    begun with 32 random bytes each for state and nonce; the callback brings the state back
    with a code, the code and the verifier are exchanged for tokens within the size limit,
    and the ID token verifies and carries the nonce of the authorization URL, a subject and
    well-formed claims for this client. Then [Complete] returns the subject, under the
    issuer that was configured. *)
Theorem login_completes `{U : UnicodeTables} transport Sum256 discovery Exchange Verify AuthCodeURL
    ctx_nil ctxErr config p closed rv rn v code ctxErr' t raw token claims azp
  (Hnew : New transport Sum256 discovery ctx_nil ctxErr config = (Ok p, closed))
  (Hrv : len rv = 32) (Hrn : len rn = 32) (Hgen : protocol_value v)
  (Hcode : 0 < len code ≤ 8192)
  (Hexchange : Exchange (client p) (oauth p) code v = Ok t)
  (Hraw : id_token t = Some raw) (Hsize : 0 < len raw ≤ maxBytes p)
  (Hverify : Verify (client p) (verifier p) raw = Ok token)
  (Hnonce : t_Nonce token = EncodeToString RawURLEncoding rn)
  (Hclaims : t_Claims token = Some claims) (Hvalid : ValidString claims = true)
  (Hsubject : 0 < len (t_Subject token) ≤ 4096)
  (Hazp : json_azp claims = Some azp)
  (Hparty : if decide (azp = []) then (length (t_Audience token) ≤ 1)%nat
            else json_string azp = Some (ClientID config))
  (Hhash : t_AccessTokenHash token = ""%string ∨ VerifyAccessToken token (AccessToken t) = true) :
  let value := EncodeToString RawURLEncoding rv in
  let nonce := EncodeToString RawURLEncoding rn in
  ∃ state a,
    Begin AuthCodeURL (Some p) (Some rv) (Some rn) v =
      Ok (MkAuthorization (AuthCodeURL (oauth p) value nonce v) state) ∧
    Complete Exchange Verify (Some p) false ctxErr' value code state = Ok a ∧
    a_Subject a = t_Subject token ∧ a_ProviderIssuer a = IssuerURL config ∧ a_claims a = claims.
Proof.
  intros value nonce. exists (MkState value nonce v (configuration_id p)). eexists. split; [done|].
  apply new_parties in Hnew as [Hclient Hissuer].
  split.
  - eapply acceptable_complete. split; cbn [st_Value st_Nonce st_Verifier st_Configuration]; try done.
    + split_and!; [by exists rv|by exists rn|done].
    + rewrite Hclient. case_decide; naive_solver.
  - by rewrite <- Hissuer.
Qed.

(** ** Witnesses *)

#[local] Existing Instance ascii_unicode.

Definition sample_config : Config :=
  MkConfig "https://idp" "client" "" "https://rp/cb" ["email"%string] None "" 0 0 None.
Definition sample_document : document :=
  MkDocument (MkMetadata "https://idp" "https://idp/a" "https://idp/t" "https://idp/k" [] ["ES256"%string])
             (Some ["none"%string]) ["code"%string].
Definition sample_discovery (c : bounded_Client) (issuer : string) : res error (option document) :=
  Ok (Some sample_document).
Definition sample_New :=
  New sample_transport sample_digest sample_discovery false None.
Definition blank_provider : Provider :=
  MkProvider (d_Metadata sample_document) (MkOAuth "" "" "" [] "" "" AuthStyleInHeader)
    (MkVerifier "" "" "" [] None) (boundedClient sample_transport None 0 0) 0 0 "".
Definition sample_provider : option Provider :=
  match (sample_New sample_config).1 with Ok p => Some p | Err _ => None end.

Lemma new_provider_trusts_witness :
  ∃ p, sample_New sample_config = (Ok p, false) ∧ limits_ok p ∧
       head (o_Scopes (oauth p)) = Some "openid"%string.
Proof.
  exists (default blank_provider sample_provider). split; [reflexivity|].
  destruct (new_provider_trusts sample_transport sample_digest sample_discovery
              false None sample_config _ false ltac:(reflexivity)) as (_&_&_&_&_&H&_&_&Hl&_).
  by split.
Defined.

(** A document that does not decode: the transport made for it is released. *)
Lemma new_failure_releases_witness :
  New sample_transport sample_digest (λ _ _, Ok None) false None sample_config =
    (Err ErrDiscovery, true) ∧ true = true.
Proof.
  split; [reflexivity|].
  apply (new_failure_releases sample_transport sample_digest (λ _ _, Ok None)
           false None sample_config ErrDiscovery true); [reflexivity|].
  split_and!; [done|done|reflexivity|reflexivity].
Defined.

Definition sample_raw : string := "0123456789abcdef0123456789abcdef".
Definition sample_value : string := EncodeToString RawURLEncoding sample_raw.

(** A begun state with its own value and a code gets as far as the exchange. *)
Lemma begun_state_binds_witness :
  ∃ p au, sample_provider = Some p ∧
    Begin (λ _ _ _ _, ""%string) (Some p) (Some sample_raw) (Some sample_raw) sample_value = Ok au ∧
    Complete (λ _ _ _ _, Err "refused"%string) (λ _ _ _, Err ""%string)
      (Some p) false None sample_value "code" (au_State au) ≠ Err ErrInvalidState.
Proof.
  exists (default blank_provider sample_provider).
  eexists. split; [reflexivity|]. split; [reflexivity|].
  rewrite (begun_state_binds (λ _ _ _ _, Err "refused"%string) (λ _ _ _, Err ""%string)
             (λ _ _ _ _, ""%string)
             (default blank_provider sample_provider) _ sample_raw sample_raw sample_value _ None
             sample_value "code" eq_refl eq_refl
             ltac:(by exists sample_raw) eq_refl).
  intros [H|[H|[H|H]]]; [by apply H|by apply H|by vm_compute in H|by vm_compute in H].
Defined.

(** The same issuer and client behind another timeout: a login may be completed there. *)
Lemma begun_state_same_party_witness :
  let config' := MkConfig "https://idp" "client" "" "https://rp/cb" ["email"%string] None "" Second 0 None in
  let p := default blank_provider sample_provider in
  ∃ p', (sample_New config').1 = Ok p' ∧ timeout p ≠ timeout p' ∧
    (Issuer (metadata p) = Issuer (metadata p') ∧
     o_ClientID (oauth p) = o_ClientID (oauth p') ∧ o_RedirectURL (oauth p) = o_RedirectURL (oauth p') ∧
     o_AuthStyle (oauth p) = o_AuthStyle (oauth p') ∧
     o_AuthURL (oauth p) = o_AuthURL (oauth p') ∧ o_TokenURL (oauth p) = o_TokenURL (oauth p') ∧
     v_JWKSURI (verifier p) = v_JWKSURI (verifier p') ∧
     o_Scopes (oauth p) = o_Scopes (oauth p') ∧ v_Algs (verifier p) = v_Algs (verifier p') ∨
     collision sample_digest).
Proof.
  intros config' p.
  exists (match (sample_New config').1 with Ok p' => p' | Err _ => blank_provider end).
  split; [reflexivity|]. split; [vm_compute; congruence|].
  refine (begun_state_same_party sample_transport sample_digest sample_discovery sample_discovery
            (λ _ _ _ _, Err "refused"%string) (λ _ _ _, Err ""%string) (λ _ _ _ _, ""%string)
            false None sample_config _ false false None config' _ false
            (Some sample_raw) (Some sample_raw) sample_value _ sample_value "code" None
            _ eq_refl eq_refl eq_refl _).
  - intros l. repeat constructor; apply Z.mod_pos_bound; reflexivity.
  - vm_compute; congruence.
Defined.

(** A token for two audiences whose claims name the client, in another spelling. *)
Definition sample_claims : string :=
  of_bytes (bytes "{" ++ [34] ++ bytes "azp" ++ [34] ++ bytes ":null, " ++
            [34] ++ bytes "AZP" ++ [34; 58; 34] ++ bytes "client" ++ [34; 125]).
Definition sample_exchange (c : bounded_Client) (o : oauth_Config) (code v : string)
    : res error tokens := Ok (MkTokens (Some "jwt"%string) "at").
Definition sample_verify (c : bounded_Client) (v : verifier_Config) (raw : string) : res error IDToken :=
  Ok (MkIDToken "https://idp" "alice" ["client"; "other"]%string 10 0 sample_value "" (Some sample_claims)
        (λ _, false)).
Definition sample_state : State :=
  MkState sample_value sample_value sample_value
          (configuration_id (default blank_provider sample_provider)).
Definition sample_complete : res oidc_error Assertion :=
  Complete sample_exchange sample_verify sample_provider false None sample_value "code" sample_state.

Lemma login_completes_witness :
  let p := default blank_provider sample_provider in
  ∃ state a,
    Begin (λ _ _ _ _, "https://idp/a?..."%string) (Some p) (Some sample_raw) (Some sample_raw) sample_value =
      Ok (MkAuthorization "https://idp/a?..." state) ∧
    Complete sample_exchange sample_verify (Some p) false None sample_value "code" state = Ok a ∧
    a_Subject a = "alice"%string ∧ a_ProviderIssuer a = "https://idp"%string ∧ a_claims a = sample_claims.
Proof.
  intros p.
  destruct (json_azp sample_claims) as [azp|] eqn:Hazp; [|exfalso; vm_compute in Hazp; discriminate Hazp].
  refine (login_completes sample_transport sample_digest sample_discovery sample_exchange sample_verify
            (λ _ _ _ _, "https://idp/a?..."%string) false None sample_config p false
            sample_raw sample_raw sample_value "code" None (MkTokens (Some "jwt"%string) "at") "jwt"
            _ sample_claims azp eq_refl eq_refl eq_refl _ _ eq_refl eq_refl _ eq_refl eq_refl eq_refl
            _ _ Hazp _ _).
  - exists sample_raw. split; reflexivity.
  - vm_compute; split; congruence.
  - vm_compute; split; congruence.
  - vm_compute; reflexivity.
  - vm_compute; split; congruence.
  - vm_compute in Hazp. injection Hazp as <-. rewrite decide_False by discriminate. vm_compute; reflexivity.
  - left; reflexivity.
Defined.

Lemma accepted_party_is_client_witness :
  ∃ a v, sample_complete = Ok a ∧ a_Subject a = "alice"%string ∧
         whole_value (bytes (a_claims a)) = Some v ∧
         party_names "client" ["client"; "other"]%string v.
Proof.
  eexists. destruct (accepted_party_is_client sample_exchange sample_verify
                       (default blank_provider sample_provider) None sample_value "code" sample_state
                       (MkAssertion "https://idp" "https://idp" "alice" ["client"; "other"]%string
                                    10 0 sample_claims))
    as (v & Hv & Hp); [by vm_compute|vm_compute; reflexivity|].
  exists v. split; [vm_compute; reflexivity|]. by split_and!.
Defined.
