(* ===== verification/GeoAddress.v ===== *)
(** * GeoAddress

    The address classes of [net.IP] and [IsResolvable] of [geoip/geoip.go]: exactly the
    addresses outside a table of reserved blocks, however they are written. *)

From S2P Require Import Prelude GoStrings GoNet GoNetText.
Local Open Scope Z_scope.

(** ** net.IP *)

(** [To4] of a 16-byte address. *)
Definition To4 (ip : list Z) : option (list Z) :=
  if bool_decide (take 12 ip = repeat 0 10 ++ [255; 255]) then Some (drop 12 ip) else None.

Definition byte_at (ip : list Z) (i : nat) : Z := ip !!! i.

Definition IPv6loopback : list Z := repeat 0 15 ++ [1].
Definition IPv6unspecified : list Z := repeat 0 16.

Definition IsUnspecified (ip : list Z) : bool :=
  bool_decide (ip = v4_in_v6 [0; 0; 0; 0]) || bool_decide (ip = IPv6unspecified).

Definition IsLoopback (ip : list Z) : bool :=
  match To4 ip with
  | Some ip4 => byte_at ip4 0 =? 127
  | None => bool_decide (ip = IPv6loopback)
  end.

Definition IsPrivate (ip : list Z) : bool :=
  match To4 ip with
  | Some ip4 =>
      (byte_at ip4 0 =? 10)
      || ((byte_at ip4 0 =? 172) && (Z.land (byte_at ip4 1) 240 =? 16))
      || ((byte_at ip4 0 =? 192) && (byte_at ip4 1 =? 168))
  | None => Z.land (byte_at ip 0) 254 =? 252
  end.

Definition IsMulticast (ip : list Z) : bool :=
  match To4 ip with
  | Some ip4 => Z.land (byte_at ip4 0) 240 =? 224
  | None => byte_at ip 0 =? 255
  end.

Definition IsLinkLocalMulticast (ip : list Z) : bool :=
  match To4 ip with
  | Some ip4 => (byte_at ip4 0 =? 224) && (byte_at ip4 1 =? 0) && (byte_at ip4 2 =? 0)
  | None => (byte_at ip 0 =? 255) && (Z.land (byte_at ip 1) 15 =? 2)
  end.

Definition IsLinkLocalUnicast (ip : list Z) : bool :=
  match To4 ip with
  | Some ip4 => (byte_at ip4 0 =? 169) && (byte_at ip4 1 =? 254)
  | None => (byte_at ip 0 =? 254) && (Z.land (byte_at ip 1) 192 =? 128)
  end.

(** ** IsResolvable *)

Definition IsResolvable (ip : string) : bool :=
  match ParseIP (TrimSpace ip) with
  | None => false
  | Some p =>
      negb (IsLoopback p) && negb (IsPrivate p) && negb (IsUnspecified p) &&
      negb (IsLinkLocalUnicast p) && negb (IsLinkLocalMulticast p) && negb (IsMulticast p)
  end.

(** ** Reserved blocks *)

(** A block of addresses: a network and how many of its leading bits count. An address is
    a number of 128 bits, most significant byte first. *)
Definition in_block (ip : list Z) (block : list Z * Z) : Prop :=
  SetBytes ip / 2 ^ (128 - block.2) = SetBytes block.1 / 2 ^ (128 - block.2).

(** An IPv4 block, as the block of the mapped addresses. *)
Definition block4 (a b c d bits : Z) : list Z * Z := (v4_in_v6 [a; b; c; d], 96 + bits).
Definition block6 (a b bits : Z) : list Z * Z := (a :: b :: repeat 0 14, bits).

Definition reserved_blocks : list (list Z * Z) :=
  [ block4 127 0 0 0 8; (IPv6loopback, 128);                  (* loopback *)
    block4 10 0 0 0 8; block4 172 16 0 0 12; block4 192 168 0 0 16;
    block6 252 0 7;                                           (* private *)
    (v4_in_v6 [0; 0; 0; 0], 128); (IPv6unspecified, 128);     (* unspecified *)
    block4 169 254 0 0 16; block6 254 128 10;                 (* link-local *)
    block4 224 0 0 0 4; block6 255 0 8 ].                     (* multicast *)

(** The leading [8 * length pre + r] bits: the bytes before, and the high bits of the next. *)
Lemma leading_bits pre b post r :
  Forall is_byte (pre ++ b :: post) → 0 ≤ r ≤ 8 →
  SetBytes (pre ++ b :: post) / 2 ^ (8 * Z.of_nat (length post) + (8 - r)) =
  SetBytes pre * 2 ^ r + b / 2 ^ (8 - r).
Proof.
  intros [_ [Hb Hpost]%Forall_cons]%Forall_app Hr. apply SetBytes_range in Hpost.
  change (b :: post) with ([b] ++ post). rewrite !SetBytes_app, length_app. cbn [length].
  change (SetBytes [b]) with b.
  set (n := Z.of_nat (length post)) in *.
  replace (Z.of_nat (1 + length post)) with (1 + n) by lia. rewrite (Z.pow_add_r 256) by lia.
  rewrite Z.pow_add_r, (Z.pow_mul_r 2 8) by lia. change (2 ^ 8) with 256. rewrite Z.pow_1_r.
  assert (0 < 256 ^ n) by (apply Z.pow_pos_nonneg; lia).
  assert (0 < 2 ^ (8 - r)) by (apply Z.pow_pos_nonneg; lia).
  rewrite <- Z.div_div by lia.
  replace (SetBytes pre * (256 * 256 ^ n) + (b * 256 ^ n + SetBytes post)) with
    (SetBytes post + (SetBytes pre * 256 + b) * 256 ^ n) by lia.
  rewrite Z.div_add, (Z.div_small (SetBytes post)) by lia. rewrite Z.add_0_l.
  replace 256 with (2 ^ r * 2 ^ (8 - r)) by (rewrite <- Z.pow_add_r by lia; by replace (r + (8 - r)) with 8 by lia).
  rewrite Z.mul_assoc, Z.add_comm, Z.div_add by lia. lia.
Qed.

(** Membership in a block, byte by byte. *)
Lemma in_block_bytes pre b post pre' b' post' r bits :
  length pre = length pre' → length post = length post' →
  Forall is_byte (pre ++ b :: post) → Forall is_byte (pre' ++ b' :: post') → 0 ≤ r ≤ 8 →
  128 - bits = 8 * Z.of_nat (length post) + (8 - r) →
  in_block (pre ++ b :: post) (pre' ++ b' :: post', bits) ↔
  pre = pre' ∧ b / 2 ^ (8 - r) = b' / 2 ^ (8 - r).
Proof.
  intros Hpre Hpost Hb Hb' Hr Hbits. unfold in_block. cbn [fst snd]. rewrite Hbits.
  rewrite leading_bits, Hpost, leading_bits by done.
  assert (∀ x, is_byte x → 0 ≤ x / 2 ^ (8 - r) < 2 ^ r) as Hq.
  { intros x Hx. unfold is_byte in Hx. assert (0 < 2 ^ (8 - r)) by (apply Z.pow_pos_nonneg; lia).
    split; [apply Z.div_pos; lia|]. apply Z.div_lt_upper_bound; [done|].
    rewrite <- Z.pow_add_r by lia. replace (8 - r + r) with 8 by lia. cbn. lia. }
  apply Forall_app in Hb as [Hb1 [Hb2 _]%Forall_cons], Hb' as [Hb1' [Hb2' _]%Forall_cons].
  pose proof (Hq _ Hb2). pose proof (Hq _ Hb2'). split; [|by intros [-> ->]].
  intros Heq. assert (SetBytes pre = SetBytes pre') as Hs by nia.
  split; [by apply SetBytes_inj|]. rewrite Hs in Heq. lia.
Qed.

(** Facts about one byte, by looking at all 256. *)
Lemma byte_forall (P : Z → bool) :
  forallb P (Z.of_nat <$> seq 0 256) = true → ∀ b, is_byte b → P b = true.
Proof.
  intros H b Hb. rewrite forallb_forall in H. apply H, list_elem_of_In, list_elem_of_fmap.
  exists (Z.to_nat b). unfold is_byte in Hb. split; [lia|]. apply elem_of_seq. lia.
Qed.

Lemma land_block b mask net shift :
  forallb (λ b, Bool.eqb (Z.land b mask =? net) (b / 2 ^ shift =? net / 2 ^ shift))
    (Z.of_nat <$> seq 0 256) = true →
  is_byte b → (Z.land b mask =? net) = true ↔ b / 2 ^ shift = net / 2 ^ shift.
Proof.
  intros H Hb. apply (byte_forall _ H) in Hb. apply eqb_prop in Hb. rewrite Hb. apply Z.eqb_eq.
Qed.

Lemma in_block_full ip net :
  address ip → address net → in_block ip (net, 128) ↔ ip = net.
Proof.
  intros [H1 H2] [H3 H4]. unfold in_block. cbn [fst snd]. rewrite Z.sub_diag, Z.pow_0_r, !Z.div_1_r.
  split; [|by intros ->]. apply SetBytes_inj; [lia|done|done].
Qed.

(** A block shorter than the address, given as a list of whole bytes and the next byte. *)
Lemma in_block_split ip net (k : nat) r bits :
  address ip → address net → (k < 16)%nat → 0 ≤ r ≤ 8 → bits = 8 * Z.of_nat k + r →
  in_block ip (net, bits) ↔
  take k ip = take k net ∧ byte_at ip k / 2 ^ (8 - r) = byte_at net k / 2 ^ (8 - r).
Proof.
  intros [H1 H2] [H3 H4] Hk Hr ->.
  assert (∀ l : list Z, length l = 16%nat → l = take k l ++ byte_at l k :: drop (S k) l) as Hsplit.
  { intros l Hl. symmetry. apply take_drop_middle. apply list_lookup_lookup_total_lt. lia. }
  rewrite (Hsplit ip), (Hsplit net) at 1 by done.
  apply in_block_bytes; rewrite <- ?Hsplit by done; rewrite ?length_take, ?length_drop; (done || lia).
Qed.

Ltac bytes_tac := repeat (apply Forall_cons_2; [first [assumption|done]|]); apply Forall_nil_2.

(** IPv4 addresses in their mapped form. *)
Definition mapped (ip : list Z) : Prop := take 12 ip = repeat 0 10 ++ [255; 255].

Lemma take_S_byte (ip : list Z) k : (k < length ip)%nat → take (S k) ip = take k ip ++ [byte_at ip k].
Proof. intros Hk. apply take_S_r. by apply list_lookup_lookup_total_lt. Qed.

Lemma address_v4 a b c d : Forall is_byte [a; b; c; d] → address (v4_in_v6 [a; b; c; d]).
Proof.
  intros H. split; [done|]. unfold v4_in_v6.
  apply Forall_app. split; [by repeat constructor|]. apply Forall_app. by split; [repeat constructor|].
Qed.

Section blocks.
Context (ip : list Z) (Hip : address ip).

Lemma block4_high a bits :
  is_byte a → 0 ≤ bits ≤ 8 →
  in_block ip (block4 a 0 0 0 bits) ↔ mapped ip ∧ byte_at ip 12 / 2 ^ (8 - bits) = a / 2 ^ (8 - bits).
Proof.
  intros Ha Hb. unfold block4. rewrite (in_block_split _ _ 12 bits); [done|done|..|lia|lia|lia].
  apply address_v4. bytes_tac.
Qed.

Lemma block4_low a b bits :
  is_byte a → is_byte b → 8 ≤ bits ≤ 16 →
  in_block ip (block4 a b 0 0 bits) ↔
  mapped ip ∧ byte_at ip 12 = a ∧ byte_at ip 13 / 2 ^ (16 - bits) = b / 2 ^ (16 - bits).
Proof.
  intros Ha Hb Hbits. unfold block4. destruct Hip as [Hlen _].
  rewrite (in_block_split _ _ 13 (bits - 8)); [|done|apply address_v4; bytes_tac|lia..].
  rewrite !(take_S_byte _ 12) by (rewrite ?Hlen; cbn; lia). replace (8 - (bits - 8)) with (16 - bits) by lia.
  change (byte_at (v4_in_v6 [a; b; 0; 0]) 13) with b. change (byte_at (v4_in_v6 [a; b; 0; 0]) 12) with a.
  change (take 12 (v4_in_v6 [a; b; 0; 0])) with (repeat 0 10 ++ [255; 255]).
  unfold mapped. split.
  - intros [Ht Hd]. apply app_inj_2 in Ht as [Ht [= Ha']]; done.
  - by intros (-> & -> & Hd).
Qed.

Lemma block6_high a b bits :
  is_byte a → is_byte b → 0 ≤ bits ≤ 8 →
  in_block ip (block6 a b bits) ↔ byte_at ip 0 / 2 ^ (8 - bits) = a / 2 ^ (8 - bits).
Proof.
  intros Ha Hb Hbits. unfold block6. rewrite (in_block_split _ _ 0 bits); [|done|..|lia|lia|lia].
  - rewrite !take_0. naive_solver.
  - split; [done|]. cbn [repeat]. bytes_tac.
Qed.

Lemma block6_low a b bits :
  is_byte a → is_byte b → 8 ≤ bits ≤ 16 →
  in_block ip (block6 a b bits) ↔
  byte_at ip 0 = a ∧ byte_at ip 1 / 2 ^ (16 - bits) = b / 2 ^ (16 - bits).
Proof.
  intros Ha Hb Hbits. unfold block6. destruct Hip as [Hlen _].
  rewrite (in_block_split _ _ 1 (bits - 8)); [|done|..|lia|lia|lia].
  - rewrite !(take_S_byte _ 0), !take_0 by (rewrite ?Hlen; cbn; lia).
    replace (8 - (bits - 8)) with (16 - bits) by lia. cbn. naive_solver.
  - split; [done|]. cbn [repeat]. bytes_tac.
Qed.

Lemma byte_at_is_byte k : is_byte (byte_at ip k).
Proof.
  unfold byte_at. destruct (ip !! k) as [b|] eqn:Hb.
  - rewrite (list_lookup_total_correct _ _ _ Hb). destruct Hip as [_ H].
    by eapply Forall_lookup_1.
  - rewrite list_lookup_total_alt, Hb. done.
Qed.

(** An IPv4 address is in no IPv6 block and the other way around. *)
Lemma To4_cases :
  (mapped ip ∧ To4 ip = Some (drop 12 ip) ∧ byte_at ip 0 = 0 ∧ byte_at ip 11 = 255) ∨
  (¬ mapped ip ∧ To4 ip = None).
Proof.
  unfold To4, mapped. case_bool_decide as Hm; [left|by right]. split_and!; [done..| |].
  - pose proof (f_equal (λ l, l !!! 0%nat) Hm) as H0. cbn beta in H0.
    rewrite lookup_total_take in H0 by lia. exact H0.
  - pose proof (f_equal (λ l, l !!! 11%nat) Hm) as H0. cbn beta in H0.
    rewrite lookup_total_take in H0 by lia. exact H0.
Qed.

Lemma byte_at_drop k : byte_at (drop 12 ip) k = byte_at ip (12 + k).
Proof. unfold byte_at. by rewrite lookup_total_drop. Qed.
End blocks.

(** What [IsResolvable] tests of a parsed address. *)
Definition reserved (ip : list Z) : bool :=
  IsLoopback ip || IsPrivate ip || IsUnspecified ip || IsLinkLocalUnicast ip ||
  IsLinkLocalMulticast ip || IsMulticast ip.

(** The table, block by block. *)
Lemma in_reserved_blocks ip :
  address ip → Exists (in_block ip) reserved_blocks ↔
  (mapped ip ∧ byte_at ip 12 = 127) ∨ ip = IPv6loopback ∨
  (mapped ip ∧ byte_at ip 12 = 10) ∨ (mapped ip ∧ byte_at ip 12 = 172 ∧ byte_at ip 13 / 16 = 1) ∨
  (mapped ip ∧ byte_at ip 12 = 192 ∧ byte_at ip 13 = 168) ∨ byte_at ip 0 / 2 = 126 ∨
  ip = v4_in_v6 [0; 0; 0; 0] ∨ ip = IPv6unspecified ∨
  (mapped ip ∧ byte_at ip 12 = 169 ∧ byte_at ip 13 = 254) ∨
  (byte_at ip 0 = 254 ∧ byte_at ip 1 / 64 = 2) ∨
  (mapped ip ∧ byte_at ip 12 / 16 = 14) ∨ byte_at ip 0 = 255.
Proof.
  intros Hip. unfold reserved_blocks. rewrite !Exists_cons, Exists_nil.
  rewrite !block4_high, !block4_low, (block6_high _ Hip 252), (block6_low _ Hip 254),
    (block6_high _ Hip 255), !in_block_full by (done || (split; [done|by repeat constructor])).
  change (2 ^ (8 - 8)) with 1. change (2 ^ (16 - 16)) with 1. rewrite !Z.div_1_r.
  change (2 ^ (16 - 12)) with 16. change (2 ^ (8 - 7)) with 2. change (2 ^ (16 - 10)) with 64.
  change (2 ^ (8 - 4)) with 16. change (16 / 16) with 1. change (252 / 2) with 126.
  change (128 / 64) with 2. change (224 / 16) with 14. tauto.
Qed.

Lemma reserved_iff ip : address ip → reserved ip = true ↔ Exists (in_block ip) reserved_blocks.
Proof.
  intros Hip. rewrite in_reserved_blocks by done. unfold reserved.
  rewrite !orb_true_iff. unfold IsLoopback, IsPrivate, IsUnspecified, IsLinkLocalUnicast,
    IsLinkLocalMulticast, IsMulticast.
  rewrite orb_true_iff, !bool_decide_eq_true.
  destruct (To4_cases ip) as [(Hm & -> & H0 & H11)|[Hm ->]].
  - rewrite !byte_at_drop. cbn [Nat.add].
    rewrite !orb_true_iff, !andb_true_iff, !Z.eqb_eq.
    rewrite <- (Z.eqb_eq (Z.land _ 240) 16), <- (Z.eqb_eq (Z.land _ 240) 224).
    rewrite (land_block _ 240 16 4), (land_block _ 240 224 4)
      by (reflexivity || by apply byte_at_is_byte).
    change (2 ^ 4) with 16. change (16 / 16) with 1. change (224 / 16) with 14. rewrite H0.
    assert (ip ≠ IPv6loopback) by (intros ->; discriminate H11).
    assert (ip ≠ IPv6unspecified) by (intros ->; discriminate H11).
    assert (byte_at ip 12 = 224 → byte_at ip 12 / 16 = 14) by by intros ->.
    assert (0 / 2 ≠ 126) by done. assert (0 ≠ 254) by done. assert (0 ≠ 255) by done. tauto.
  - rewrite !andb_true_iff, !bool_decide_eq_true, !Z.eqb_eq.
    rewrite <- (Z.eqb_eq (Z.land _ 254) 252), <- (Z.eqb_eq (Z.land _ 192) 128).
    rewrite (land_block _ 254 252 1), (land_block _ 192 128 6)
      by (reflexivity || by apply byte_at_is_byte).
    change (2 ^ 1) with 2. change (2 ^ 6) with 64. change (252 / 2) with 126. change (128 / 64) with 2.
    tauto.
Qed.

(** Outside every block of the table. *)
Definition public (ip : list Z) : Prop := ∀ block, block ∈ reserved_blocks → ¬ in_block ip block.

Lemma IsResolvable_parsed s ip :
  ParseIP (TrimSpace s) = Some ip → IsResolvable s = true ↔ public ip.
Proof.
  intros Hp. pose proof (ParseIP_address _ _ Hp) as Ha. unfold IsResolvable. rewrite Hp, <- !negb_orb.
  match goal with |- _ = true ↔ ?P => change (negb (reserved ip) = true ↔ P) end.
  rewrite negb_true_iff, <- not_true_iff_false, reserved_iff by done. unfold public. split.
  - intros Hn block Hb Hin. apply Hn, Exists_exists. by exists block.
  - intros Hn [block [Hb Hin]]%Exists_exists. by apply (Hn block).
Qed.

(** C28 (equivalence): [IsResolvable] holds of exactly the texts that parse as an address
    (white space around it aside) which is in none of the reserved blocks: loopback,
    private, unspecified, link-local and multicast, of IPv4 (also in mapped form) and
    IPv6. The bit tests of [net.IP] are compared with prefix lengths on the 128-bit
    number. However an address is written, as a dotted quad, as eight groups, or with an
    ellipsis in any place, the text resolves exactly when the address is public; and every
    address can be written. *)
Theorem resolvable_iff_public s :
  (IsResolvable s = true ↔ ∃ ip, ParseIP (TrimSpace s) = Some ip ∧ address ip ∧ public ip) ∧
  (∀ l ip, spells l ip → s = of_bytes l → IsResolvable s = true ↔ public ip) ∧
  (∀ ip, address ip → ∃ l, spells l ip).
Proof.
  split_and!.
  - destruct (ParseIP (TrimSpace s)) as [ip|] eqn:Hp.
    + rewrite (IsResolvable_parsed s ip Hp). pose proof (ParseIP_address _ _ Hp). naive_solver.
    + unfold IsResolvable. rewrite Hp. naive_solver.
  - intros l ip Hs ->. destruct (spells_chars l ip Hs). apply IsResolvable_parsed.
    rewrite TrimSpace_text by done. by apply ParseIP_spells.
  - intros ip Hip. eexists. by apply spells_address.
Qed.

(** ** Witnesses *)

Lemma resolvable_iff_public_witness :
  let l := ellipsis_text [0x2001; 0xdb8] [1] in
  let ip := [0x20; 0x01; 0x0d; 0xb8] ++ repeat 0 10 ++ [0; 1] in
  of_bytes l = "2001:db8::1"%string ∧ spells l ip ∧ public ip.
Proof.
  assert (spells (ellipsis_text [0x2001; 0xdb8] [1])
                 ([0x20; 0x01; 0x0d; 0xb8] ++ repeat 0 10 ++ [0; 1])) as Hs.
  { apply (spells_ellipsis [0x2001; 0xdb8] [1]); [|cbn; lia].
    repeat (apply Forall_cons_2; [unfold group; lia|]). apply Forall_nil_2. }
  split; [reflexivity|]. split; [exact Hs|].
  apply (proj1 (proj2 (resolvable_iff_public "2001:db8::1")) _ _ Hs eq_refl).
  vm_compute. reflexivity.
Defined.
