(* ===== verification/GeoRecord.v ===== *)
(** * GeoRecord

    [geoip/geoip.go]: a decoded database record of either schema becomes a [Location];
    [Reader] looks an address up. The database itself ([maxminddb]) is a parameter. *)

From Stdlib Require Import SpecFloat.
From S2P Require Import Prelude GoStrings GoFloat GoNet GeoAddress.
Local Open Scope Z_scope.

(** ** Data *)

(** What [maxminddb] decodes into [any]. A map is the list of its entries, which have
    different keys; the order of a [range] over it is not the list's. *)
Inductive any : Type :=
| AString (s : string)
| AMap (m : list (string * any))
| ASlice (l : list any)
| AFloat64 (f : float)
| AFloat32 (f : float)
| AUint64 (n : Z)
| AInt (n : Z)
| AInt64 (n : Z)
| AOther.                          (* bool, bytes, big integers, nil *)

Abbreviation gomap := (list (string * any)).

Record LocalizedNames : Type := MkLocalizedNames {
  ln_Country : gmap string string;
  ln_Region : gmap string string;
  ln_City : gmap string string;
}.

Record Location : Type := MkLocation {
  CountryCode : string;
  Country : string;
  Region : string;
  City : string;
  RegionCode : string;
  Latitude : float;
  Longitude : float;
  AccuracyRadiusKm : Z;
  loc_LocalizedNames : option LocalizedNames;
}.

Definition zero64 : float := S754_zero false.
Definition empty_Location : Location := MkLocation "" "" "" "" "" zero64 zero64 0 None.

Definition Empty (l : Location) : bool :=
  bool_decide (CountryCode l = ""%string) && bool_decide (Country l = ""%string) &&
  bool_decide (Region l = ""%string) && bool_decide (City l = ""%string).

Record DBInfo : Type := MkDBInfo { Type_ : string; BuildEpoch : Z; Granularity : string }.

(** [m[key]]; [None] is the nil an absent key gives. *)
Fixpoint index (m : gomap) (key : string) : option any :=
  match m with
  | [] => None
  | (k, v) :: m' => if bool_decide (k = key) then Some v else index m' key
  end.

Section record.
Context {U : UnicodeTables}.
(** [range m]: the entries in the order of this loop. *)
Context (range : gomap → gomap).

(** ** Reading values *)

Definition str (v : option any) : string :=
  match v with Some (AString s) => TrimSpace s | _ => TrimSpace "" end.

Definition as_map (v : option any) : option gomap :=
  match v with Some (AMap m) => Some m | _ => None end.

(** The loop of [localizedName]: the first name that is not empty. *)
Fixpoint first_name (entries : gomap) : string :=
  match entries with
  | [] => ""
  | (_, v) :: rest => let sv := str (Some v) in
                      if bool_decide (sv = ""%string) then first_name rest else sv
  end.

Definition localizedName (m : gomap) : string :=
  match as_map (index m "names") with
  | None => str (index m "name")
  | Some names =>
      let v := str (index names "en") in
      if bool_decide (v = ""%string) then first_name (range names) else v
  end.

(** [None] is nil. *)
Definition localizedNames (m : gomap) : option (gmap string string) :=
  match as_map (index m "names") with
  | None => None
  | Some raw =>
      if (length raw <? 2)%nat then None
      else
        let out := fold_left (λ (out : gmap string string) '(locale, value),
                     let name := str (Some value) in
                     if bool_decide (name = ""%string) then out else <[locale := name]> out)
                     (range raw) ∅ in
        if (size out <? 2)%nat then None else Some out
  end.

Inductive kind : Type := KCountry | KRegion | KCity.

Definition setLocalized (l : Location) (k : kind) (names : option (gmap string string)) : Location :=
  match names with
  | None => l
  | Some names =>
      if (size names =? 0)%nat then l
      else
        let ln := default (MkLocalizedNames ∅ ∅ ∅) (loc_LocalizedNames l) in
        let ln := match k with
                  | KCountry => MkLocalizedNames names (ln_Region ln) (ln_City ln)
                  | KRegion => MkLocalizedNames (ln_Country ln) names (ln_City ln)
                  | KCity => MkLocalizedNames (ln_Country ln) (ln_Region ln) names
                  end in
        MkLocation (CountryCode l) (Country l) (Region l) (City l) (RegionCode l) (Latitude l)
                   (Longitude l) (AccuracyRadiusKm l) (Some ln)
  end.

(** ** Coordinates *)

Definition maxAccuracyRadiusKm : Z := 20037.

Definition number (v : option any) : option float :=
  match
    match v with
    | Some (AFloat64 n) => Some n
    | Some (AFloat32 n) => Some (float64_of_float32 n)
    | Some (AUint64 n) => Some (float64_of_int n)
    | Some (AInt n) => Some (float64_of_int n)
    | Some (AInt64 n) => Some (float64_of_int n)
    | _ => None
    end
  with
  | None => None
  | Some f => if IsNaN f || IsInf f then None else Some f
  end.

Definition coordinates (loc : gomap) : float * float * Z :=
  match number (index loc "latitude"), number (index loc "longitude") with
  | Some lat, Some lon =>
      if lt64 lat (float64_of_int (-90)) || lt64 (float64_of_int 90) lat
         || lt64 lon (float64_of_int (-180)) || lt64 (float64_of_int 180) lon
         || (eq64 lat zero64 && eq64 lon zero64)
      then (zero64, zero64, 0)
      else
        let radiusKm :=
          match number (index loc "accuracy_radius") with
          | Some r => if le64 zero64 r && le64 r (float64_of_int maxAccuracyRadiusKm)
                      then int_of_float (Ceil r) else 0
          | None => 0
          end in
        (lat, lon, radiusKm)
  | _, _ => (zero64, zero64, 0)
  end.

(** ** mapRecord *)

Definition set_country (code country : string) (l : Location) : Location :=
  MkLocation code country (Region l) (City l) (RegionCode l) (Latitude l) (Longitude l)
             (AccuracyRadiusKm l) (loc_LocalizedNames l).
Definition set_city (city : string) (l : Location) : Location :=
  MkLocation (CountryCode l) (Country l) (Region l) city (RegionCode l) (Latitude l) (Longitude l)
             (AccuracyRadiusKm l) (loc_LocalizedNames l).
Definition set_region (region code : string) (l : Location) : Location :=
  MkLocation (CountryCode l) (Country l) region (City l) code (Latitude l) (Longitude l)
             (AccuracyRadiusKm l) (loc_LocalizedNames l).
Definition set_point (p : float * float * Z) (l : Location) : Location :=
  MkLocation (CountryCode l) (Country l) (Region l) (City l) (RegionCode l) p.1.1 p.1.2 p.2
             (loc_LocalizedNames l).

(** The type switch on ["country"], and the fallback for the code. *)
Definition map_country (rec : gomap) (out : Location) : Location :=
  let out :=
    match index rec "country" with
    | Some (AMap c) =>
        setLocalized (set_country (str (index c "iso_code")) (localizedName c) out)
                     KCountry (localizedNames c)
    | Some (AString c) => set_country (str (index rec "country_code")) c out
    | _ => set_country (str (index rec "country_code")) (str (index rec "country_name")) out
    end in
  let code := if bool_decide (CountryCode out = ""%string) then str (index rec "country_code")
              else CountryCode out in
  set_country (ToUpper code) (Country out) out.

Definition map_city (rec : gomap) (out : Location) : Location :=
  match as_map (index rec "city") with
  | Some city => setLocalized (set_city (localizedName city) out) KCity (localizedNames city)
  | None => set_city (str (index rec "city")) out
  end.

Definition map_region (rec : gomap) (out : Location) : Location :=
  let out :=
    match index rec "subdivisions" with
    | Some (ASlice (first :: _)) =>
        match as_map (Some first) with
        | Some first =>
            setLocalized (set_region (localizedName first) (ToUpper (str (index first "iso_code"))) out)
                         KRegion (localizedNames first)
        | None => out
        end
    | _ => out
    end in
  if bool_decide (Region out = ""%string) then set_region (str (index rec "region")) (RegionCode out) out
  else out.

Definition map_location (rec : gomap) (out : Location) : Location :=
  match as_map (index rec "location") with
  | Some loc => set_point (coordinates loc) out
  | None => out
  end.

(** [None] is a nil record. *)
Definition mapRecord (rec : option gomap) : Location :=
  match rec with
  | None => empty_Location
  | Some rec => map_location rec (map_region rec (map_city rec (map_country rec empty_Location)))
  end.

(** ** Reader *)

Definition granularityOf (dbType : string) : string :=
  if Contains (ToLower dbType) "city" then "city" else "country".

(** An open database: its metadata, and what it decodes for an address ([None] when the
    address is not in it). *)
Record maxminddb_Reader : Type := MkDB {
  DatabaseType : string;
  db_BuildEpoch : Z;
  db_Lookup : list Z → res string (option gomap);
}.

(** A [*Reader]: nil or without a database, or with one; the methods tell no more apart. *)
Definition Reader : Type := option maxminddb_Reader.

Definition Reader_Info (r : Reader) : DBInfo :=
  match r with
  | None => MkDBInfo "" 0 ""
  | Some db => MkDBInfo (DatabaseType db) (db_BuildEpoch db) (granularityOf (DatabaseType db))
  end.

Definition Reader_Lookup (r : Reader) (ip : string) : res string Location :=
  match r with
  | None => Ok empty_Location
  | Some db =>
      match ParseIP (TrimSpace ip) with
      | None => Ok empty_Location
      | Some parsed =>
          if negb (IsResolvable ip) then Ok empty_Location
          else rec ← db_Lookup db parsed; Ok (mapRecord rec)
      end
  end.
End record.

(** ** Coordinates are points *)

(** Values the decoder can produce: floats of their format, integers of their width. *)
Definition decoded (v : any) : Prop :=
  match v with
  | AFloat64 f => valid64 f
  | AFloat32 f => valid32 f
  | AUint64 n => 0 ≤ n < 2 ^ 64
  | AInt n | AInt64 n => - 2 ^ 63 ≤ n < 2 ^ 63
  | _ => True
  end.

Lemma index_elem m key v : index m key = Some v → (key, v) ∈ m.
Proof.
  induction m as [|[k w] m IH]; cbn; [done|]. case_bool_decide; [|set_solver].
  subst. intros [= ->]. set_solver.
Qed.

Lemma number_valid v f :
  (∀ a, v = Some a → decoded a) → number v = Some f → valid64 f ∧ finite f.
Proof.
  intros Hd. unfold number.
  destruct (match v with Some (AFloat64 n) => _ | _ => _ end) as [g|] eqn:Hg; [|done].
  destruct (IsNaN g || IsInf g) eqn:Hn; [done|]. intros [= <-].
  split; [|by destruct g].
  destruct v as [[]|]; try done; specialize (Hd _ eq_refl); cbn in Hd; injection Hg as <-;
    first [done|by apply float64_of_float32_valid|apply float64_of_int_valid; lia].
Qed.

Lemma int_constant n :
  - 2 ^ 53 < n < 2 ^ 53 →
  valid64 (float64_of_int n) ∧ finite (float64_of_int n) ∧ units (float64_of_int n) = int_units n.
Proof. intros H. destruct (float64_of_int_exact n H) as (?&?&_). split; [apply float64_of_int_valid; lia|done]. Qed.

(** Comparisons with integer constants are those of the values. *)
Lemma lt64_int_r f n : valid64 f → finite f → - 2 ^ 53 < n < 2 ^ 53 →
  lt64 f (float64_of_int n) = (units f <? int_units n).
Proof. intros ?? (?&?&<-)%int_constant. by apply lt64_units. Qed.
Lemma lt64_int_l f n : valid64 f → finite f → - 2 ^ 53 < n < 2 ^ 53 →
  lt64 (float64_of_int n) f = (int_units n <? units f).
Proof. intros ?? (?&?&<-)%int_constant. by apply lt64_units. Qed.
Lemma le64_int_r f n : valid64 f → finite f → - 2 ^ 53 < n < 2 ^ 53 →
  le64 f (float64_of_int n) = (units f <=? int_units n).
Proof. intros ?? (?&?&<-)%int_constant. by apply le64_units. Qed.

Definition within (f : float) (n : Z) : Prop := int_units (- n) ≤ units f ≤ int_units n.

(** The radius a block gives: rounded up when it is a sensible figure, else none. *)
Definition radius_of (v : option any) : Z :=
  match number v with
  | Some r => if bool_decide (0 ≤ units r ≤ int_units maxAccuracyRadiusKm) then ceiling (units r) else 0
  | None => 0
  end.

Lemma radius_of_range v : 0 ≤ radius_of v ≤ maxAccuracyRadiusKm.
Proof.
  unfold radius_of. destruct (number v); [|done]. case_bool_decide; [by apply ceiling_range|done].
Qed.

(** A latitude and a longitude in degrees, not both zero. *)
Definition good_point (lat lon : float) : Prop :=
  finite lat ∧ finite lon ∧ within lat 90 ∧ within lon 180 ∧ ¬ (units lat = 0 ∧ units lon = 0).

Lemma coordinates_cases loc (Hloc : Forall (λ e, decoded e.2) loc) :
  (∃ x y, number (index loc "latitude") = Some x ∧ number (index loc "longitude") = Some y ∧
     good_point x y ∧ coordinates loc = (x, y, radius_of (index loc "accuracy_radius"))) ∨
  ((∀ x y, number (index loc "latitude") = Some x → number (index loc "longitude") = Some y →
      ¬ good_point x y) ∧ coordinates loc = (zero64, zero64, 0)).
Proof.
  assert (∀ key v, index loc key = Some v → decoded v) as Hdec.
  { intros key v Hv%index_elem. rewrite Forall_forall in Hloc. by apply (Hloc (key, v)). }
  unfold coordinates.
  destruct (number (index loc "latitude")) as [x|] eqn:Hx; [|by right].
  destruct (number (index loc "longitude")) as [y|] eqn:Hy; [|by right].
  apply number_valid in Hx as [Vx Fx]; [|by apply Hdec].
  apply number_valid in Hy as [Vy Fy]; [|by apply Hdec].
  rewrite !lt64_int_r, !lt64_int_l by (done || lia).
  rewrite (eq64_units x zero64), (eq64_units y zero64) by done. cbn [units zero64].
  match goal with |- context [if ?b then _ else _] => set (bad := b) end.
  assert (bad = false ↔ within x 90 ∧ within y 180 ∧ ¬ (units x = 0 ∧ units y = 0)) as Hbad.
  { unfold bad, within. rewrite !orb_false_iff, andb_false_iff, !Z.ltb_ge, !Z.eqb_neq.
    change (- (90)) with (-90). change (- (180)) with (-180). lia. }
  destruct bad.
  { right. split; [|done]. intros ? ? [= <-] [= <-] (_ & _ & Hgood). by apply Hbad in Hgood. }
  left. exists x, y. split_and!; [done|done|by split_and!; [| |apply Hbad..]|].
  f_equal. unfold radius_of. destruct (number (index loc "accuracy_radius")) as [r|] eqn:Hr; [|done].
  apply number_valid in Hr as [Vr Fr]; [|by apply Hdec].
  rewrite (le64_units zero64 r), le64_int_r by done. cbn [units zero64]. case_bool_decide as Hu.
  - rewrite (proj2 (Z.leb_le 0 _)), (proj2 (Z.leb_le _ (int_units _))) by lia. cbn [andb].
    by eapply int_Ceil.
  - destruct (Z.leb_spec 0 (units r)); [|done].
    destruct (Z.leb_spec (units r) (int_units maxAccuracyRadiusKm)); [lia|done].
Qed.

(** C27 (bounds): what [coordinates] returns for any block the decoder can produce. Without
    two numbers that are a latitude between -90 and 90 and a longitude between -180 and
    180, not both zero, all three results are zero. Otherwise the pair is exactly the
    block's, and the radius is the block's rounded up to the next integer, in the range
    from 0 to 20037, or 0 when the block has none in that range. Values are compared
    exactly, in units of 2^-1074 degrees (or km). *)
Theorem coordinates_are_points loc (Hloc : Forall (λ e, decoded e.2) loc) :
  let lat := number (index loc "latitude") in
  let lon := number (index loc "longitude") in
  (∀ x y, lat = Some x → lon = Some y → good_point x y →
     coordinates loc = (x, y, radius_of (index loc "accuracy_radius")) ∧
     0 ≤ radius_of (index loc "accuracy_radius") ≤ maxAccuracyRadiusKm) ∧
  ((∀ x y, lat = Some x → lon = Some y → ¬ good_point x y) → coordinates loc = (zero64, zero64, 0)).
Proof.
  cbn zeta. destruct (coordinates_cases loc Hloc) as [(x & y & -> & -> & Hg & ->)|[Hn ->]].
  - split; [|intros H; by destruct (H x y eq_refl eq_refl)].
    intros ? ? [= <-] [= <-] _. split; [done|apply radius_of_range].
  - split; [|done]. intros x y Hx Hy Hg. by destruct (Hn x y).
Qed.

(** ** Every location is well formed *)

(** Alternate names: none, or at least two locales with texts that are not blank. *)
Definition names_ok (names : gmap string string) : Prop :=
  names = ∅ ∨ (2 ≤ size names)%nat ∧ map_Forall (λ _ n, n ≠ ""%string) names.

Definition localized_ok (ln : LocalizedNames) : Prop :=
  names_ok (ln_Country ln) ∧ names_ok (ln_Region ln) ∧ names_ok (ln_City ln) ∧
  ¬ (ln_Country ln = ∅ ∧ ln_Region ln = ∅ ∧ ln_City ln = ∅).

(** A point with its radius, or none of the three. *)
Definition point_ok (l : Location) : Prop :=
  (good_point (Latitude l) (Longitude l) ∧ 0 ≤ AccuracyRadiusKm l ≤ maxAccuracyRadiusKm) ∨
  (Latitude l = zero64 ∧ Longitude l = zero64 ∧ AccuracyRadiusKm l = 0).

Definition well_formed (l : Location) : Prop :=
  point_ok l ∧ ∀ ln, loc_LocalizedNames l = Some ln → localized_ok ln.

Section well_formed.
Context {U : UnicodeTables} (range : gomap → gomap).

Lemma collect_nonempty entries : ∀ acc : gmap string string,
  map_Forall (λ _ n, n ≠ ""%string) acc →
  map_Forall (λ _ n, n ≠ ""%string)
    (fold_left (λ (out : gmap string string) '(locale, value),
                  let name := str (Some value) in
                  if bool_decide (name = ""%string) then out else <[locale := name]> out) entries acc).
Proof.
  induction entries as [|[k v] entries IH]; intros acc Hacc; cbn; [done|]. apply IH.
  case_bool_decide; [done|]. by apply map_Forall_insert_2.
Qed.

Lemma localizedNames_ok m names : localizedNames range m = Some names →
  (2 ≤ size names)%nat ∧ map_Forall (λ _ n, n ≠ ""%string) names.
Proof.
  unfold localizedNames. destruct (as_map _); [|done]. destruct (_ <? 2)%nat; [done|]. cbn zeta.
  match goal with |- context [size ?o] => destruct (Nat.ltb_spec (size o) 2) end; [done|].
  intros [= <-]. split; [done|]. apply collect_nonempty, map_Forall_empty.
Qed.

Lemma setLocalized_ok l k m :
  (∀ ln, loc_LocalizedNames l = Some ln → localized_ok ln) →
  ∀ ln, loc_LocalizedNames (setLocalized l k (localizedNames range m)) = Some ln → localized_ok ln.
Proof.
  intros Hl. unfold setLocalized. destruct (localizedNames range m) as [names|] eqn:Hn; [|done].
  apply localizedNames_ok in Hn as [Hsize Hne].
  destruct (Nat.eqb_spec (size names) 0) as [|_]; [lia|].
  assert (names ≠ ∅) by (intros ->; by rewrite map_size_empty in Hsize; lia).
  assert (names_ok names) by by right.
  assert (∃ a b c, default (MkLocalizedNames ∅ ∅ ∅) (loc_LocalizedNames l) = MkLocalizedNames a b c ∧
                   names_ok a ∧ names_ok b ∧ names_ok c) as (a & b & c & -> & Ha & Hb & Hc).
  { destruct (loc_LocalizedNames l) as [[a b c]|]; cbn.
    - destruct (Hl _ eq_refl) as (?&?&?&_). by exists a, b, c.
    - exists ∅, ∅, ∅. by split_and!; [|left..]. }
  destruct k; cbn; intros ln [= <-]; split_and!; cbn; try done; by intros (?&?&?).
Qed.

Lemma map_country_names rec l :
  (∀ ln, loc_LocalizedNames l = Some ln → localized_ok ln) →
  ∀ ln, loc_LocalizedNames (map_country range rec l) = Some ln → localized_ok ln.
Proof.
  intros Hl. unfold map_country. cbn [loc_LocalizedNames set_country].
  destruct (index rec "country") as [[]|]; try exact Hl. by apply setLocalized_ok.
Qed.

Lemma map_city_names rec l :
  (∀ ln, loc_LocalizedNames l = Some ln → localized_ok ln) →
  ∀ ln, loc_LocalizedNames (map_city range rec l) = Some ln → localized_ok ln.
Proof.
  intros Hl. unfold map_city. destruct (as_map _); [|exact Hl]. by apply setLocalized_ok.
Qed.

Lemma map_region_names rec l :
  (∀ ln, loc_LocalizedNames l = Some ln → localized_ok ln) →
  ∀ ln, loc_LocalizedNames (map_region range rec l) = Some ln → localized_ok ln.
Proof.
  intros Hl. unfold map_region. cbn zeta.
  match goal with |- context [if bool_decide (Region ?o = _) then _ else _] => set (out := o) end.
  assert (∀ ln, loc_LocalizedNames out = Some ln → localized_ok ln) as Ho.
  { unfold out. destruct (index rec "subdivisions") as [[| |[|first subs]| | | | | |]|]; try exact Hl.
    destruct (as_map (Some first)); [|exact Hl]. by apply setLocalized_ok. }
  by case_bool_decide.
Qed.

(** The steps before [map_location] leave the point alone. *)
Lemma setLocalized_point l k n : point_ok l → point_ok (setLocalized l k n).
Proof. destruct n as [n|]; cbn; [|done]. by destruct (size n =? 0)%nat. Qed.

Lemma map_country_point rec l : point_ok l → point_ok (map_country range rec l).
Proof.
  intros Hl. unfold map_country. destruct (index rec "country") as [[]|]; try exact Hl.
  by apply (setLocalized_point (set_country _ _ l)).
Qed.

Lemma map_city_point rec l : point_ok l → point_ok (map_city range rec l).
Proof. intros Hl. unfold map_city. destruct (as_map _); [|exact Hl]. by apply setLocalized_point. Qed.

Lemma map_region_point rec l : point_ok l → point_ok (map_region range rec l).
Proof.
  intros Hl. unfold map_region. cbn zeta.
  match goal with |- context [if bool_decide (Region ?o = _) then _ else _] => set (out := o) end.
  assert (point_ok out) as Ho.
  { unfold out. destruct (index rec "subdivisions") as [[| |[|first subs]| | | | | |]|]; try exact Hl.
    destruct (as_map (Some first)); [|exact Hl]. by apply setLocalized_point. }
  by case_bool_decide.
Qed.

Lemma map_location_ok rec l :
  (∀ loc, index rec "location" = Some (AMap loc) → Forall (λ e, decoded e.2) loc) →
  point_ok l → point_ok (map_location rec l).
Proof.
  intros Hd Hl. unfold map_location. destruct (index rec "location") as [[]|] eqn:Hi; try exact Hl.
  cbn [as_map]. destruct (coordinates_cases _ (Hd _ eq_refl)) as [(x & y & _ & _ & Hg & ->)|[_ ->]].
  - left. split; [done|apply radius_of_range].
  - by right.
Qed.

(** C26 (type): whatever a database holds, what [Lookup] returns without an error is a
    well-formed [Location]. Its coordinates are a point on the Earth with a radius from 0
    to 20037, or all three are zero; where it has alternate names, each group of them is
    empty or has at least two locales, every text in it is not blank, and not all groups
    are empty. The decoder is only relied on to produce numbers of their Go types. *)
Theorem lookup_well_formed (r : Reader) ip l
  (Hdb : ∀ db parsed rec loc, r = Some db → db_Lookup db parsed = Ok (Some rec) →
     index rec "location" = Some (AMap loc) → Forall (λ e, decoded e.2) loc)
  (Hok : Reader_Lookup range r ip = Ok l) :
  well_formed l.
Proof.
  assert (well_formed empty_Location) as He by (split; [by right|done]).
  unfold Reader_Lookup in Hok. destruct r as [db|]; [|by injection Hok as <-].
  destruct (ParseIP _) as [parsed|]; [|by injection Hok as <-].
  destruct (negb (IsResolvable ip)); [by injection Hok as <-|].
  apply bind_Ok in Hok as (rec & Hrec & [= <-]). destruct rec as [rec|]; [|done].
  unfold mapRecord. split.
  - apply map_location_ok; [intros loc; by eapply Hdb|].
    by apply map_region_point, map_city_point, map_country_point, He.
  - assert (∀ l, loc_LocalizedNames (map_location rec l) = loc_LocalizedNames l) as ->
      by (intros l; unfold map_location; by case_match).
    by apply map_region_names, map_city_names, map_country_names.
Qed.
End well_formed.

(** ** The order of map iteration *)

(** A [range] visits every entry once. *)
Definition range_ok (range : gomap → gomap) : Prop := ∀ m, range m ≡ₚ m.

Lemma index_None m key : index m key = None ↔ key ∉ m.*1.
Proof.
  induction m as [|[k v] m IH]; cbn; [set_solver|].
  case_bool_decide; [set_solver|]. rewrite IH. set_solver.
Qed.

Lemma index_Some m key v : NoDup m.*1 → index m key = Some v ↔ (key, v) ∈ m.
Proof.
  intros Hnd. split; [apply index_elem|]. intros Hin.
  destruct (index m key) as [w|] eqn:Hw.
  - f_equal. by eapply NoDup_fst_inj; [|apply index_elem|].
  - apply index_None in Hw. destruct Hw. apply list_elem_of_fmap. by exists (key, v).
Qed.

Lemma index_perm m m' key : m ≡ₚ m' → NoDup m.*1 → index m key = index m' key.
Proof.
  intros Hp Hnd. assert (NoDup m'.*1) by by rewrite <- Hp.
  apply option_eq. intros v. by rewrite !index_Some, Hp by done.
Qed.

(** The name a locale has, if it is a text that is not blank. *)
Definition name_at (names : gomap) (locale : string) : option string :=
  match index names locale with
  | Some v => if bool_decide (str (Some v) = ""%string) then None else Some (str (Some v))
  | None => None
  end.

Definition collect_names (entries : gomap) (acc : gmap string string) : gmap string string :=
  fold_left (λ (out : gmap string string) '(locale, value),
    let name := str (Some value) in
    if bool_decide (name = ""%string) then out else <[locale := name]> out) entries acc.

Lemma collect_names_lookup entries : ∀ acc locale,
  NoDup entries.*1 →
  collect_names entries acc !! locale =
  match name_at entries locale with Some n => Some n | None => acc !! locale end.
Proof.
  unfold name_at. induction entries as [|[k v] entries IH]; intros acc locale Hnd; [done|].
  cbn [fmap list_fmap fst] in Hnd. apply NoDup_cons in Hnd as [Hk Hnd].
  cbn [collect_names fold_left]. change (fold_left _ entries ?a) with (collect_names entries a).
  rewrite IH by done. cbn [index]. destruct (decide (k = locale)) as [->|E].
  - rewrite (bool_decide_eq_true_2 (locale = locale)) by done.
    assert (index entries locale = None) as -> by by apply index_None.
    case_bool_decide; [done|]. by rewrite lookup_insert_eq.
  - rewrite (bool_decide_eq_false_2 (k = locale)) by done.
    assert ((if bool_decide (str (Some v) = ""%string) then acc else <[k:=str (Some v)]> acc) !! locale
            = acc !! locale) as ->; [|done].
    case_bool_decide; [done|]. by rewrite lookup_insert_ne.
Qed.

Lemma collect_names_spec entries locale :
  NoDup entries.*1 → collect_names entries ∅ !! locale = name_at entries locale.
Proof.
  intros Hnd. rewrite collect_names_lookup by done. destruct (name_at entries locale); [done|].
  apply lookup_empty.
Qed.

Section order.
Context {U : UnicodeTables} (range1 range2 : gomap → gomap).
Context (Hr1 : range_ok range1) (Hr2 : range_ok range2).

(** A block whose names, if it has any, are a Go map: its keys are distinct. *)
Definition keyed (m : gomap) : Prop :=
  match as_map (index m "names") with None => True | Some names => NoDup names.*1 end.

(** A block whose display name does not depend on the order: it has no names, an English
    one, or at most one text among its names. *)
Definition steady (m : gomap) : Prop :=
  match as_map (index m "names") with
  | None => True
  | Some names =>
      str (index names "en") ≠ ""%string ∨
      ∀ k v k' v', (k, v) ∈ names → (k', v') ∈ names →
        str (Some v) ≠ ""%string → str (Some v') ≠ ""%string → str (Some v) = str (Some v')
  end.

(** A location without its display names. *)
Definition but_display (l : Location) : Location :=
  MkLocation (CountryCode l) "" "" "" (RegionCode l) (Latitude l) (Longitude l) (AccuracyRadiusKm l)
             (loc_LocalizedNames l).

Lemma first_name_spec entries :
  (first_name entries = ""%string ∧ ∀ k v, (k, v) ∈ entries → str (Some v) = ""%string) ∨
  (first_name entries ≠ ""%string ∧ ∃ k v, (k, v) ∈ entries ∧ str (Some v) = first_name entries).
Proof.
  induction entries as [|[k v] entries IH]; cbn [first_name]; [left; set_solver|].
  case_bool_decide as E.
  - destruct IH as [[H1 H2]|[H1 (k' & v' & H2 & H3)]]; [left|right].
    + split; [done|]. intros k' v' [[= -> ->]|?]%elem_of_cons; [done|by eapply H2].
    + split; [done|]. exists k', v'. split; [set_solver|done].
  - right. split; [done|]. exists k, v. split; [set_solver|done].
Qed.

Lemma localizedName_order m : steady m → localizedName range1 m = localizedName range2 m.
Proof.
  unfold steady, localizedName. destruct (as_map (index m "names")) as [names|]; [|done].
  intros [Hen|Hone]; [by rewrite bool_decide_eq_false_2|].
  case_bool_decide; [|done].
  assert (∀ k v, (k, v) ∈ range1 names ↔ (k, v) ∈ names) as E1 by (intros; by rewrite (Hr1 names)).
  assert (∀ k v, (k, v) ∈ range2 names ↔ (k, v) ∈ names) as E2 by (intros; by rewrite (Hr2 names)).
  destruct (first_name_spec (range1 names)) as [[H1 H1']|[H1 (k1 & v1 & Hin1 & Hv1)]],
    (first_name_spec (range2 names)) as [[H2 H2']|[H2 (k2 & v2 & Hin2 & Hv2)]].
  - congruence.
  - destruct H2. rewrite <- Hv2. apply (H1' k2). by apply E1, E2.
  - destruct H1. rewrite <- Hv1. apply (H2' k1). by apply E2, E1.
  - rewrite <- Hv1, <- Hv2 in *. by apply (Hone k1 _ k2); [apply E1|apply E2|..].
Qed.

Lemma localizedNames_order m : keyed m → localizedNames range1 m = localizedNames range2 m.
Proof.
  unfold keyed, localizedNames. destruct (as_map (index m "names")) as [names|]; [|done].
  intros Hnd. destruct (_ <? _)%nat; [done|]. cbn zeta.
  change (fold_left _ (range1 names) ∅) with (collect_names (range1 names) ∅).
  change (fold_left _ (range2 names) ∅) with (collect_names (range2 names) ∅).
  assert (collect_names (range1 names) ∅ = collect_names (range2 names) ∅) as ->; [|done].
  apply map_eq. intros locale. assert (NoDup (range1 names).*1) by by rewrite (Hr1 names).
  assert (NoDup (range2 names).*1) by by rewrite (Hr2 names).
  rewrite !collect_names_spec by done. unfold name_at.
  rewrite (index_perm (range1 names) (range2 names)); [done| |done]. by rewrite (Hr1 names), (Hr2 names).
Qed.

(** The blocks of a record that have names. *)
Definition named_blocks (rec : gomap) : list gomap :=
  omap as_map [index rec "country"; index rec "city";
               match index rec "subdivisions" with Some (ASlice l) => head l | _ => None end].

Lemma named_block P rec v m :
  Forall P (named_blocks rec) →
  v ∈ [index rec "country"; index rec "city";
       match index rec "subdivisions" with Some (ASlice l) => head l | _ => None end] →
  as_map v = Some m → P m.
Proof.
  intros HP Hv Hm. rewrite Forall_forall in HP. apply HP. apply list_elem_of_omap. by exists v.
Qed.

(** The parts of a record one by one. *)
Section parts.
Context (rec : gomap) (Hkeyed : Forall keyed (named_blocks rec)).

Lemma map_country_display l : but_display (map_country range1 rec l) = but_display (map_country range2 rec l).
Proof using All.
  unfold map_country. destruct (index rec "country") as [[]|] eqn:Hc; try done.
  rewrite localizedNames_order by (eapply named_block; [done|by left|by rewrite Hc]).
  unfold setLocalized. destruct (localizedNames _ _) as [names|]; [|done]. by destruct (_ =? 0)%nat.
Qed.

Lemma map_city_display l1 l2 :
  but_display l1 = but_display l2 →
  but_display (map_city range1 rec l1) = but_display (map_city range2 rec l2).
Proof using All.
  destruct l1, l2. intros [= -> -> -> -> -> ->]. unfold map_city.
  destruct (as_map (index rec "city")) as [city|] eqn:Hc; [|done].
  rewrite localizedNames_order by (eapply named_block; [done|by right; left|done]).
  unfold setLocalized. destruct (localizedNames _ _) as [names|]; [|done]. by destruct (_ =? 0)%nat.
Qed.

Lemma map_region_display l1 l2 :
  but_display l1 = but_display l2 →
  but_display (map_region range1 rec l1) = but_display (map_region range2 rec l2).
Proof using All.
  intros Hl. unfold map_region.
  assert (∀ l1 l2, but_display l1 = but_display l2 →
    but_display (if bool_decide (Region l1 = ""%string)
                 then set_region (str (index rec "region")) (RegionCode l1) l1 else l1) =
    but_display (if bool_decide (Region l2 = ""%string)
                 then set_region (str (index rec "region")) (RegionCode l2) l2 else l2))
    as Hdefault.
  { clear. intros [] []. intros [= -> -> -> -> -> ->]. by do 2 case_bool_decide. }
  destruct (index rec "subdivisions") as [[| |[|first subs]| | | | | |]|] eqn:Hs; try (by apply Hdefault).
  destruct (as_map (Some first)) as [m|] eqn:Hm; [|by apply Hdefault]. apply Hdefault.
  rewrite localizedNames_order
    by (eapply named_block; [done|by right; right; left|by rewrite Hs]).
  destruct l1, l2. injection Hl as -> -> -> -> -> ->.
  unfold setLocalized. destruct (localizedNames _ _) as [names|]; [|done]. by destruct (_ =? 0)%nat.
Qed.

(** With clear display names nothing depends on the order. *)
Context (Hsteady : Forall steady (named_blocks rec)).

Lemma mapRecord_steady : mapRecord range1 (Some rec) = mapRecord range2 (Some rec).
Proof using All.
  assert (∀ v m, v ∈ [index rec "country"; index rec "city";
      match index rec "subdivisions" with Some (ASlice l) => head l | _ => None end] →
    as_map v = Some m →
    localizedName range1 m = localizedName range2 m ∧ localizedNames range1 m = localizedNames range2 m) as Hb.
  { intros v m Hv Hm. split; [apply localizedName_order|apply localizedNames_order]; by eapply named_block. }
  assert (map_country range1 rec empty_Location = map_country range2 rec empty_Location) as Hc.
  { unfold map_country. destruct (index rec "country") as [[]|]; try done.
    edestruct Hb as [-> ->]; [by left|done|done]. }
  assert (∀ l, map_city range1 rec l = map_city range2 rec l) as Hci.
  { intros l. unfold map_city. destruct (as_map (index rec "city")) as [city|] eqn:E; [|done].
    edestruct Hb as [-> ->]; [by right; left|done|done]. }
  assert (∀ l, map_region range1 rec l = map_region range2 rec l) as Hre.
  { intros l. unfold map_region. destruct (index rec "subdivisions") as [[| |[|first subs]| | | | | |]|];
      try done.
    destruct (as_map (Some first)) as [m|] eqn:E; [|done].
    edestruct Hb as [-> ->]; [by right; right; left|done|done]. }
  unfold mapRecord. by rewrite Hc, Hci, Hre.
Qed.
End parts.

(** C39 (equivalence): Go's random order of map iteration does not show in a [Location] but
    in its display names: the codes, the coordinates and the alternate names never depend on
    it. The display names do not either as long as every block with names has a clear one:
    an English one, or not two different texts. *)
Theorem record_order_independent rec (Hkeyed : Forall keyed (named_blocks rec)) :
  but_display (mapRecord range1 (Some rec)) = but_display (mapRecord range2 (Some rec)) ∧
  (Forall steady (named_blocks rec) → mapRecord range1 (Some rec) = mapRecord range2 (Some rec)).
Proof.
  split; [|by intros; apply mapRecord_steady].
  pose proof (map_region_display rec Hkeyed _ _ (map_city_display rec Hkeyed _ _
                (map_country_display rec Hkeyed empty_Location))) as H.
  cbn [mapRecord]. unfold map_location. revert H.
  set (l1 := map_region range1 _ _). set (l2 := map_region range2 _ _). clearbody l1 l2.
  destruct (as_map (index rec "location")); [|done]. destruct l1, l2. by intros [= -> -> -> -> -> ->].
Qed.
End order.

(** ** An unstable fallback *)

Definition two_names : gomap :=
  [("country"%string, AMap [("names"%string,
      AMap [("de"%string, AString "Deutschland"); ("fr"%string, AString "Allemagne")])])].

(** Without an English name and with two others, the display name is
    whichever the iteration meets first, so two lookups of one record can disagree. *)
Theorem fallback_name_unstable :
  ∃ range1 range2, range_ok range1 ∧ range_ok range2 ∧
    Country (mapRecord (U := ascii_unicode) range1 (Some two_names)) ≠
    Country (mapRecord (U := ascii_unicode) range2 (Some two_names)).
Proof.
  exists id, reverse. split_and!; [by intros m|intros m; apply reverse_Permutation|].
  vm_compute. discriminate.
Qed.

(** ** Witnesses *)

(** 37.5 degrees north, 122 degrees west, half a kilometre. *)
Definition sample_block : gomap :=
  [("latitude"%string, AFloat64 (S754_finite false 5277655813324800 (-47)));
   ("longitude"%string, AInt (-122));
   ("accuracy_radius"%string, AFloat64 (S754_finite false 4503599627370496 (-53)))].

Lemma coordinates_are_points_witness :
  coordinates sample_block =
    (S754_finite false 5277655813324800 (-47), float64_of_int (-122), 1).
Proof.
  assert (Forall (λ e, decoded e.2) sample_block) as Hd.
  { repeat (apply Forall_cons_2; [vm_compute; repeat split; congruence|]). apply Forall_nil_2. }
  destruct (coordinates_are_points sample_block Hd) as [H _].
  destruct (H (S754_finite false 5277655813324800 (-47)) (float64_of_int (-122)) eq_refl eq_refl)
    as [He _]; [|exact He].
  vm_compute. repeat split; try congruence. by intros [? _].
Defined.

Definition english_names : gomap :=
  [("country"%string, AMap [("iso_code"%string, AString "de"); ("names"%string,
      AMap [("de"%string, AString "Deutschland"); ("en"%string, AString " Germany ")])])].

Lemma record_order_independent_witness :
  let l := mapRecord (U := ascii_unicode) reverse (Some english_names) in
  mapRecord (U := ascii_unicode) id (Some english_names) = l ∧
  CountryCode l = "DE"%string ∧ Country l = "Germany"%string.
Proof.
  cbn zeta. split; [|split; vm_compute; reflexivity].
  apply (record_order_independent (U := ascii_unicode) id reverse).
  - by intros m.
  - intros m. apply reverse_Permutation.
  - apply Forall_cons_2; [|apply Forall_nil_2]. vm_compute.
    repeat (apply NoDup_cons; split; [set_solver|]). apply NoDup_nil_2.
  - apply Forall_cons_2; [|apply Forall_nil_2]. left. vm_compute. discriminate.
Defined.

Definition located_names : gomap := ("location"%string, AMap sample_block) :: english_names.
Definition located_db : maxminddb_Reader := MkDB "GeoLite2-City" 0 (λ _, Ok (Some located_names)).

Lemma lookup_well_formed_witness :
  ∃ l, Reader_Lookup (U := ascii_unicode) id (Some located_db) " 8.8.8.8" = Ok l ∧
       City l = ""%string ∧ AccuracyRadiusKm l = 1 ∧ well_formed l.
Proof.
  eexists. split; [vm_compute; reflexivity|]. split_and!; [done|done|].
  apply (lookup_well_formed (U := ascii_unicode) id (Some located_db) " 8.8.8.8");
    [|vm_compute; reflexivity].
  intros db parsed rec loc [= <-] [= <-] [= <-].
  repeat (apply Forall_cons_2; [vm_compute; repeat split; congruence|]). apply Forall_nil_2.
Defined.
