(* ===== verification/GeoWatcher.v ===== *)
(** * GeoWatcher

    [geoip/watcher.go]: one watched file, reloaded when it changes. The operations are
    cut at the locks: what a goroutine does under one lock is one step, [os.Stat] runs
    between two of them ([GeoWatcherLocks] has the lock calls as steps as well). Open
    databases are handles, so that a read or a close of a database that is already closed
    shows. Calls made one after the other refine a specification without handles
    ([spec_call]). *)

From S2P Require Import Prelude GoRuntime GoStrings GeoAddress GeoRecord.
Local Open Scope Z_scope.

(** ** State *)

(** What the file system answers at one moment. *)
Record disk : Type := MkDisk {
  Stat : string → res string (Time * Z);             (* modification time and size *)
  disk_Open : string → res string maxminddb_Reader;
}.

Record Watcher : Type := MkWatcher {
  enabled : bool;
  path : string;
  w_reader : option nat;                             (* a handle *)
  modTime : Time;
  w_size : Z;
  openErr : option string;
}.

(** The watcher with the open databases, the next handle, and how many times a closed
    database was read or closed again. *)
Record world : Type := MkWorld {
  watcher : Watcher;
  mapped_dbs : gmap nat maxminddb_Reader;
  next_handle : nat;
  faults : nat;
}.

Definition set_watcher (w : Watcher) (s : world) : world :=
  MkWorld w (mapped_dbs s) (next_handle s) (faults s).

(** [maxminddb.Open] and [Close] of a handle. *)
Definition open_handle (db : maxminddb_Reader) (s : world) : nat * world :=
  (next_handle s, MkWorld (watcher s) (<[next_handle s := db]> (mapped_dbs s))
                          (S (next_handle s)) (faults s)).
Definition close_handle (h : nat) (s : world) : world :=
  match mapped_dbs s !! h with
  | Some _ => MkWorld (watcher s) (delete h (mapped_dbs s)) (next_handle s) (faults s)
  | None => MkWorld (watcher s) (mapped_dbs s) (next_handle s) (S (faults s))
  end.

(** ** Construction *)

Definition Option_ : Type := Watcher → Watcher.
Definition WithPath (p : string) : Option_ := λ w,
  MkWatcher (enabled w) p (w_reader w) (modTime w) (w_size w) (openErr w).
Definition WithEnabled (e : bool) : Option_ := λ w,
  MkWatcher e (path w) (w_reader w) (modTime w) (w_size w) (openErr w).
Definition NewWatcher (opts : list Option_) : Watcher :=
  fold_left (λ w opt, opt w) opts (MkWatcher true "" None zero_time 0 None).
Definition initial_world (opts : list Option_) : world := MkWorld (NewWatcher opts) ∅ 0 0.

(** ** One step under a lock *)

Definition SetPath (p : string) (s : world) : world := set_watcher (WithPath p (watcher s)) s.
Definition SetEnabled (e : bool) (s : world) : world := set_watcher (WithEnabled e (watcher s)) s.

Definition Close (s : world) : world :=
  let w := watcher s in
  match w_reader w with
  | None => s
  | Some h => set_watcher (MkWatcher (enabled w) (path w) None zero_time 0 (openErr w)) (close_handle h s)
  end.

(** The test made under the read lock and again under the write lock. *)
Definition unchanged (w : Watcher) (p : string) (mod_ : Time) (size_ : Z) : bool :=
  negb (bool_decide (w_reader w = None)) && bool_decide (path w = p) && (modTime w =? mod_) &&
  (w_size w =? size_).

Definition stat_values (st : res string (Time * Z)) : Time * Z :=
  match st with Ok v => v | Err _ => (zero_time, 0) end.

Definition close_current (s : world) : world :=
  match w_reader (watcher s) with Some h => close_handle h s | None => s end.

(** The write-locked part of [refresh], given what [os.Stat] returned. *)
Definition reload (d : disk) (p : string) (st : res string (Time * Z)) (s : world) : world :=
  let w := watcher s in
  let '(mod_, size_) := stat_values st in
  if unchanged w p mod_ size_ then s
  else match st with
       | Err statErr =>
           set_watcher (MkWatcher (enabled w) p None zero_time 0 (Some statErr)) (close_current s)
       | Ok _ =>
           match disk_Open d p with
           | Err err =>
               set_watcher (MkWatcher (enabled w) p None mod_ size_ (Some err)) (close_current s)
           | Ok db =>
               let '(nr, s1) := open_handle db s in
               set_watcher (MkWatcher (enabled w) p (Some nr) mod_ size_ None) (close_current s1)
           end
       end.

Section watcher.
Context {U : UnicodeTables} (range : gomap → gomap).

(** The read-locked part of [Lookup]. *)
Definition read (ip : string) (s : world) : Location * world :=
  match w_reader (watcher s) with
  | None => (empty_Location, s)
  | Some h =>
      match mapped_dbs s !! h with
      | None => (empty_Location,
                 MkWorld (watcher s) (mapped_dbs s) (next_handle s) (S (faults s)))
      | Some db => (match Reader_Lookup range (Some db) ip with Ok l => l | Err _ => empty_Location end, s)
      end
  end.

Record Status : Type := MkStatus {
  s_Enabled : bool; s_Path : string; Loaded : bool; s_Info : DBInfo; s_Error : string;
}.

Definition Watcher_Status (s : world) : Status :=
  let w := watcher s in
  MkStatus (enabled w) (path w) (negb (bool_decide (w_reader w = None)))
    (Reader_Info (w_reader w ≫= λ h, mapped_dbs s !! h)) (default ""%string (openErr w)).

(** ** Goroutines *)

(** What a goroutine that called [Lookup] or [Refresh] still has to do. *)
Inductive goal : Type := KLookup (ip : string) | KRefresh.
Inductive thread : Type :=
| Starting (k : goal)                                        (* refresh is next *)
| Checked (p : string) (k : goal)                            (* os.Stat is next *)
| Statted (p : string) (st : res string (Time * Z)) (k : goal)
| Reloading (p : string) (st : res string (Time * Z)) (k : goal)
| Reading (ip : string)                                      (* Lookup's own read *)
| Done (answer : option Location).

Definition after_refresh (k : goal) : thread :=
  match k with KLookup ip => Reading ip | KRefresh => Done None end.

(** The next step of a goroutine. *)
Definition thread_step (d : disk) (t : thread) (s : world) : thread * world :=
  match t with
  | Starting k =>
      let w := watcher s in
      if negb (enabled w) || bool_decide (path w = ""%string) then (after_refresh k, s)
      else (Checked (path w) k, s)
  | Checked p k => (Statted p (Stat d p) k, s)
  | Statted p st k =>
      let '(mod_, size_) := stat_values st in
      if unchanged (watcher s) p mod_ size_ then (after_refresh k, s) else (Reloading p st k, s)
  | Reloading p st k => (after_refresh k, reload d p st s)
  | Reading ip => let '(l, s') := read ip s in (Done (Some l), s')
  | Done a => (Done a, s)
  end.

(** A watcher in use: any number of goroutines, a file system that changes at will. *)
Record config : Type := MkConfig_ { c_world : world; c_disk : disk; c_threads : list thread }.

Inductive step : relation config :=
| StepThread s d ts i t t' s' :
    ts !! i = Some t → thread_step d t s = (t', s') →
    step (MkConfig_ s d ts) (MkConfig_ s' d (<[i := t']> ts))
| StepSpawn s d ts k : step (MkConfig_ s d ts) (MkConfig_ s d (ts ++ [Starting k]))
| StepSetPath s d ts p : step (MkConfig_ s d ts) (MkConfig_ (SetPath p s) d ts)
| StepSetEnabled s d ts e : step (MkConfig_ s d ts) (MkConfig_ (SetEnabled e s) d ts)
| StepClose s d ts : step (MkConfig_ s d ts) (MkConfig_ (Close s) d ts)
| StepDisk s d d' ts : step (MkConfig_ s d ts) (MkConfig_ s d' ts).

(** One call without interference: [refresh] is at most four steps, [Lookup] one more. *)
Fixpoint run_thread (n : nat) (d : disk) (t : thread) (s : world) : thread * world :=
  match n with
  | O => (t, s)
  | S n => let '(t', s') := thread_step d t s in run_thread n d t' s'
  end.

Definition Refresh (d : disk) (s : world) : world := (run_thread 5 d (Starting KRefresh) s).2.
Definition Lookup (d : disk) (ip : string) (s : world) : thread * world :=
  run_thread 5 d (Starting (KLookup ip)) s.

(** ** Handles *)

(** The watcher's reader is open, nothing else is, and nothing was misused. *)
Record handles_ok (s : world) : Prop := HandlesOk {
  ho_faults : faults s = 0%nat;
  ho_open : ∀ h, is_Some (mapped_dbs s !! h) ↔ w_reader (watcher s) = Some h;
  ho_fresh : ∀ h, is_Some (mapped_dbs s !! h) → (h < next_handle s)%nat;
}.

(** Closing the current reader leaves nothing open; the other fields may then be set. *)
Lemma close_current_ok s e p m z err :
  handles_ok s → handles_ok (set_watcher (MkWatcher e p None m z err) (close_current s)).
Proof.
  intros [H1 H2 H3]. unfold close_current. destruct (w_reader (watcher s)) as [h|] eqn:Hr.
  - assert (is_Some (mapped_dbs s !! h)) as [db Hdb] by by apply H2.
    unfold close_handle. rewrite Hdb. split; cbn.
    + done.
    + intros h'. split; [|done]. intros [db' Hd]. apply lookup_delete_Some in Hd as [Hne Hd].
      assert (Some h = Some h') by (apply H2; eauto). congruence.
    + intros h' [db' Hd]. apply lookup_delete_Some in Hd as [_ Hd]. apply H3. eauto.
  - split; cbn; [done| |done]. intros h. split; [|done]. intros Hh%H2. congruence.
Qed.

(** Opening a database and closing the one before leaves exactly the new one. *)
Lemma swap_reader_ok s db e p m z err :
  handles_ok s →
  let s' := set_watcher (MkWatcher e p (Some (next_handle s)) m z err)
              (close_current (open_handle db s).2) in
  handles_ok s' ∧ mapped_dbs s' !! next_handle s = Some db.
Proof.
  intros [H1 H2 H3]. cbn zeta. unfold close_current, open_handle. cbn [snd watcher].
  assert (mapped_dbs s !! next_handle s = None) as Hnone.
  { destruct (mapped_dbs s !! next_handle s) eqn:E; [|done].
    assert (next_handle s < next_handle s)%nat by (apply H3; eauto). lia. }
  destruct (w_reader (watcher s)) as [h|] eqn:Hr.
  - assert (is_Some (mapped_dbs s !! h)) as [old Hold] by by apply H2.
    assert (h < next_handle s)%nat by (apply H3; eauto).
    unfold close_handle. cbn [mapped_dbs]. rewrite lookup_insert_ne, Hold by lia. split; [split|]; cbn.
    + done.
    + intros h'. split.
      * intros [db' [Hne Hd]%lookup_delete_Some]. destruct (decide (h' = next_handle s)); [congruence|].
        rewrite lookup_insert_ne in Hd by done. assert (Some h = Some h') by (apply H2; eauto). congruence.
      * intros [= <-]. rewrite lookup_delete_ne, lookup_insert_eq by lia. eauto.
    + intros h' [db' [_ Hd]%lookup_delete_Some]. destruct (decide (h' = next_handle s)); [lia|].
      rewrite lookup_insert_ne in Hd by done. assert (h' < next_handle s)%nat by (apply H3; eauto). lia.
    + by rewrite lookup_delete_ne, lookup_insert_eq by lia.
  - split; [split|]; cbn.
    + done.
    + intros h'. split.
      * intros [db' Hd]. destruct (decide (h' = next_handle s)); [congruence|].
        rewrite lookup_insert_ne in Hd by done. assert (None = Some h') by (apply H2; eauto). congruence.
      * intros [= <-]. rewrite lookup_insert_eq. eauto.
    + intros h' [db' Hd]. destruct (decide (h' = next_handle s)); [lia|].
      rewrite lookup_insert_ne in Hd by done. assert (h' < next_handle s)%nat by (apply H3; eauto). lia.
    + by rewrite lookup_insert_eq.
Qed.

Lemma reload_ok d p st s : handles_ok s → handles_ok (reload d p st s).
Proof.
  intros Hs. unfold reload. destruct (stat_values st) as [m z]. destruct (unchanged _ _ _ _); [done|].
  destruct st; [|by apply close_current_ok]. destruct (disk_Open d p) as [db|]; [|by apply close_current_ok].
  by apply swap_reader_ok.
Qed.

Lemma read_ok ip s : handles_ok s → (read ip s).2 = s.
Proof.
  intros [H1 H2 H3]. unfold read. destruct (w_reader (watcher s)) as [h|] eqn:Hr; [|done].
  assert (is_Some (mapped_dbs s !! h)) as [db ->] by by apply H2. done.
Qed.

Lemma thread_step_ok d t s : handles_ok s → handles_ok (thread_step d t s).2.
Proof.
  intros Hs. destruct t as [k|p k|p st k|p st k|ip|a]; cbn [thread_step]; [| | | | |done].
  - by case_match.
  - done.
  - destruct (stat_values st). by case_match.
  - by apply reload_ok.
  - pose proof (read_ok ip s Hs) as Hr. by destruct (read ip s); cbn in *; subst.
Qed.

Lemma set_watcher_ok s w : w_reader w = w_reader (watcher s) → handles_ok s → handles_ok (set_watcher w s).
Proof. intros Hw [H1 H2 H3]. split; cbn; [done| |done]. by rewrite Hw. Qed.

Lemma Close_ok s : handles_ok s → handles_ok (Close s).
Proof.
  intros Hs. unfold Close. destruct (w_reader (watcher s)) as [h|] eqn:Hr; [|done].
  pose proof (close_current_ok s (enabled (watcher s)) (path (watcher s)) zero_time 0
                (openErr (watcher s)) Hs) as H.
  unfold close_current in H. by rewrite Hr in H.
Qed.

Lemma step_ok c c' : step c c' → handles_ok (c_world c) → handles_ok (c_world c').
Proof.
  destruct 1; cbn; intros Hs; try done.
  - match goal with H : thread_step _ _ _ = _ |- _ => apply (f_equal snd) in H; cbn in H; subst end.
    by apply thread_step_ok.
  - by apply set_watcher_ok.
  - by apply set_watcher_ok.
  - by apply Close_ok.
Qed.

Definition is_option (o : Option_) : Prop := ∃ p e, o = WithPath p ∨ o = WithEnabled e.

Lemma initial_ok opts : Forall is_option opts → handles_ok (initial_world opts).
Proof.
  intros Ho. assert (w_reader (NewWatcher opts) = None) as Hr.
  { unfold NewWatcher. generalize (eq_refl : w_reader (MkWatcher true "" None zero_time 0 None) = None).
    generalize (MkWatcher true "" None zero_time 0 None).
    induction Ho as [|o opts (p & e & [->| ->]) _ IH]; intros w Hw; [done|by apply IH..]. }
  split; cbn; [done| |].
  - intros h. rewrite Hr, lookup_empty. split; [by intros [? ?]|done].
  - intros h. rewrite lookup_empty. by intros [? ?].
Qed.

Lemma initial_no_reader opts : handles_ok (initial_world opts) → w_reader (NewWatcher opts) = None.
Proof.
  intros [_ H2 _]. cbn in H2. destruct (w_reader (NewWatcher opts)) as [h|] eqn:Hr; [|done].
  destruct (proj2 (H2 h) eq_refl) as [db H]. by rewrite lookup_empty in H.
Qed.

Lemma reachable_ok c c' : rtc step c c' → handles_ok (c_world c) → handles_ok (c_world c').
Proof. induction 1 as [|c1 c2 c3 Hstep _ IH]; [done|]. intros H. apply IH. by eapply step_ok. Qed.

(** C24 (safety): under any interleaving of lookups, refreshes, path changes, switches,
    closes and changes of the files, no database is read or closed after it was closed,
    and the only database that is open is the watcher's reader, so reloads do not leak. *)
Theorem watcher_no_use_after_close opts d c
  (Hopts : Forall is_option opts)
  (Hreach : rtc step (MkConfig_ (initial_world opts) d []) c) :
  faults (c_world c) = 0%nat ∧
  ∀ h, is_Some (mapped_dbs (c_world c) !! h) ↔ w_reader (watcher (c_world c)) = Some h.
Proof.
  assert (handles_ok (c_world c)) as [H1 H2 _]; [|done].
  eapply reachable_ok; [exact Hreach|]. by apply initial_ok.
Qed.

(** ** Following the file *)

(** Nobody interferes: what a whole [refresh] does. *)
Lemma refresh_run d k s :
  run_thread 4 d (Starting k) s =
  let w := watcher s in
  if negb (enabled w) || bool_decide (path w = ""%string) then run_thread 3 d (after_refresh k) s
  else let '(m, z) := stat_values (Stat d (path w)) in
       if unchanged w (path w) m z then run_thread 1 d (after_refresh k) s
       else (after_refresh k, reload d (path w) (Stat d (path w)) s).
Proof.
  cbn [run_thread thread_step]. cbn zeta. destruct (negb _ || _); [done|].
  cbn [run_thread thread_step]. destruct (stat_values _) as [m z] eqn:E. destruct (unchanged _ _ _ _) eqn:Hu; [done|].
  done.
Qed.

Lemma run_Reading n d ip s :
  handles_ok s → run_thread (S n) d (Reading ip) s = (Done (Some (read ip s).1), s).
Proof.
  intros Hs. cbn [run_thread thread_step]. pose proof (read_ok ip s Hs) as Hr.
  destruct (read ip s) as [l s']. cbn in *. subst. by induction n as [|n IH]; [|cbn [run_thread thread_step]].
Qed.

Lemma run_thread_add n m d t s :
  run_thread (n + m) d t s = let '(t', s') := run_thread n d t s in run_thread m d t' s'.
Proof.
  revert t s. induction n as [|n IH]; intros t s; [done|]. cbn [run_thread Nat.add].
  destruct (thread_step d t s). apply IH.
Qed.

(** What a database answers through a watcher. *)
Definition answer (db : option maxminddb_Reader) (ip : string) : Location :=
  match Reader_Lookup range db ip with Ok l => l | Err _ => empty_Location end.

Lemma read_answer ip s :
  handles_ok s → (read ip s).1 = answer (w_reader (watcher s) ≫= λ h, mapped_dbs s !! h) ip.
Proof.
  intros [_ H2 _]. unfold read. destruct (w_reader (watcher s)) as [h|] eqn:Hr; [|done].
  assert (is_Some (mapped_dbs s !! h)) as [db Hdb] by by apply H2. cbn. by rewrite Hdb.
Qed.

(** The reader a world has after a [refresh]. *)
Definition refreshed (d : disk) (s : world) : world :=
  let w := watcher s in
  if negb (enabled w) || bool_decide (path w = ""%string) then s
  else let '(m, z) := stat_values (Stat d (path w)) in
       if unchanged w (path w) m z then s else reload d (path w) (Stat d (path w)) s.

Lemma Lookup_refreshed d ip s :
  handles_ok s →
  Lookup d ip s = (Done (Some (read ip (refreshed d s)).1), refreshed d s) ∧ handles_ok (refreshed d s).
Proof.
  intros Hs. assert (handles_ok (refreshed d s)) as Hok.
  { unfold refreshed. cbn zeta. destruct (_ || _); [done|]. destruct (stat_values _).
    destruct (unchanged _ _ _ _); [done|]. by apply reload_ok. }
  split; [|done]. revert Hok. unfold Lookup, refreshed. change 5%nat with (4 + 1)%nat.
  rewrite run_thread_add, refresh_run. cbn zeta. cbn [after_refresh].
  destruct (_ || _); [|destruct (stat_values _) as [m z]; destruct (unchanged _ _ _ _)]; intros Hok.
  - by rewrite run_Reading.
  - by rewrite run_Reading.
  - by rewrite run_Reading.
Qed.

(** If the file looks as it did when the reader was opened, the reader is that file's. *)
Definition serves (d : disk) (s : world) : Prop :=
  let w := watcher s in
  let '(m, z) := stat_values (Stat d (path w)) in
  unchanged w (path w) m z = true →
  ∃ v h db, Stat d (path w) = Ok v ∧ w_reader w = Some h ∧ mapped_dbs s !! h = Some db ∧
            disk_Open d (path w) = Ok db.

(** The database a file holds now. *)
Definition current (d : disk) (p : string) : option maxminddb_Reader :=
  match Stat d p, disk_Open d p with Ok _, Ok db => Some db | _, _ => None end.

Lemma lookup_serves d ip s :
  handles_ok s → serves d s → enabled (watcher s) = true → path (watcher s) ≠ ""%string →
  (Lookup d ip s).1 = Done (Some (answer (current d (path (watcher s))) ip)).
Proof.
  intros Hs Hserves He Hp. destruct (Lookup_refreshed d ip s Hs) as [-> Hok]. cbn [fst]. do 2 f_equal.
  rewrite read_answer by done. f_equal. revert Hserves Hok. unfold serves, refreshed, current.
  rewrite He, bool_decide_eq_false_2 by done. cbn [negb orb].
  destruct (stat_values (Stat d (path (watcher s)))) as [m z] eqn:Hst.
  destruct (unchanged _ _ _ _) eqn:Hu.
  - intros Hserves _. destruct (Hserves eq_refl) as (v & h & db & -> & -> & Hdb & ->). cbn. by rewrite Hdb.
  - intros _ _. unfold reload. rewrite Hst, Hu. destruct (Stat d (path (watcher s))) as [v|]; [|done].
    destruct (disk_Open d (path (watcher s))) as [db|]; [|done].
    destruct (open_handle db s) as [nr s1] eqn:Ho. injection Ho as <- <-.
    by destruct (swap_reader_ok s db (enabled (watcher s)) (path (watcher s)) m z None Hs) as [_ Hdb].
Qed.

Lemma Refresh_refreshed d s : Refresh d s = refreshed d s.
Proof.
  unfold Refresh, refreshed. change 5%nat with (4 + 1)%nat. rewrite run_thread_add, refresh_run. cbn zeta.
  destruct (_ || _); [done|]. destruct (stat_values _) as [m z]. by destruct (unchanged _ _ _ _).
Qed.

(** *** Specification: one database, known by its stamp

    What a caller sees of a watcher, calls made one after the other: a path, a switch, at
    most one database with the modification time and size its file had, and an error. No
    handles, no closing, no second look at the file. *)

Record cached : Type := MkCached {
  k_enabled : bool;
  k_path : string;
  k_db : option (maxminddb_Reader * (Time * Z));
  k_error : option string;
}.

(** Opening the file anew. *)
Definition spec_open (d : disk) (k : cached) (stamp : Time * Z) : cached :=
  match disk_Open d (k_path k) with
  | Ok db => MkCached (k_enabled k) (k_path k) (Some (db, stamp)) None
  | Err e => MkCached (k_enabled k) (k_path k) None (Some e)
  end.

(** Whether the database held has a stamp. *)
Definition has_stamp (k : cached) (stamp : Time * Z) : bool :=
  match k_db k with Some (_, stamp') => bool_decide (stamp' = stamp) | None => false end.

(** A file that is missing counts as one of no time and no size. *)
Definition spec_refresh (d : disk) (k : cached) : cached :=
  if negb (k_enabled k) || bool_decide (k_path k = ""%string) then k
  else match Stat d (k_path k) with
       | Ok stamp => if has_stamp k stamp then k else spec_open d k stamp
       | Err e => if has_stamp k (zero_time, 0) then k
                  else MkCached (k_enabled k) (k_path k) None (Some e)
       end.

(** Calls made one after the other, each with the files as they are then. *)
Inductive call : Type :=
| CallLookup (d : disk) (ip : string)
| CallRefresh (d : disk)
| CallSetPath (p : string)
| CallSetEnabled (e : bool)
| CallClose
| CallStatus.
Inductive reply : Type := RLocation (l : Location) | RStatus (st : Status) | RNothing.

Definition spec_call (c : call) (k : cached) : reply * cached :=
  match c with
  | CallLookup d ip => let k := spec_refresh d k in (RLocation (answer (fst <$> k_db k) ip), k)
  | CallRefresh d => (RNothing, spec_refresh d k)
  | CallSetPath p => (RNothing, MkCached (k_enabled k) p (k_db k) (k_error k))
  | CallSetEnabled e => (RNothing, MkCached e (k_path k) (k_db k) (k_error k))
  | CallClose => (RNothing, MkCached (k_enabled k) (k_path k) None (k_error k))
  | CallStatus =>
      (RStatus (MkStatus (k_enabled k) (k_path k) (bool_decide (k_db k ≠ None))
                  (Reader_Info (fst <$> k_db k)) (default ""%string (k_error k))), k)
  end.

Definition run_call (c : call) (s : world) : reply * world :=
  match c with
  | CallLookup d ip =>
      let '(t, s) := Lookup d ip s in (match t with Done (Some l) => RLocation l | _ => RNothing end, s)
  | CallRefresh d => (RNothing, Refresh d s)
  | CallSetPath p => (RNothing, SetPath p s)
  | CallSetEnabled e => (RNothing, SetEnabled e s)
  | CallClose => (RNothing, Close s)
  | CallStatus => (RStatus (Watcher_Status s), s)
  end.

Fixpoint run_calls {S} (step_ : call → S → reply * S) (calls : list call) (s : S) : list reply * S :=
  match calls with
  | [] => ([], s)
  | c :: calls => let '(r, s) := step_ c s in let '(rs, s) := run_calls step_ calls s in (r :: rs, s)
  end.

(** *** The watcher keeps to it *)

Definition open_db (s : world) : option maxminddb_Reader :=
  w_reader (watcher s) ≫= λ h, mapped_dbs s !! h.
Definition abs (s : world) : cached :=
  let w := watcher s in
  MkCached (enabled w) (path w) ((λ db, (db, (modTime w, w_size w))) <$> open_db s) (openErr w).

Lemma open_db_None s : handles_ok s → open_db s = None ↔ w_reader (watcher s) = None.
Proof.
  intros [_ H2 _]. unfold open_db. destruct (w_reader (watcher s)) as [h|]; [|done].
  cbn. destruct (proj2 (H2 h) eq_refl) as [db ->]. done.
Qed.

Lemma unchanged_stamp s m z :
  handles_ok s → unchanged (watcher s) (path (watcher s)) m z = has_stamp (abs s) (m, z).
Proof.
  intros Hs. unfold unchanged, has_stamp, abs. cbn [k_db]. rewrite (bool_decide_eq_true_2 (path _ = _)) by done.
  destruct (open_db s) as [db|] eqn:Hdb; cbn [fmap option_fmap option_map].
  - rewrite bool_decide_eq_false_2 by (intros Hn%(open_db_None s Hs); congruence). cbn [negb andb].
    case_bool_decide as He; [injection He as <- <-; by rewrite !Z.eqb_refl|].
    destruct (Z.eqb_spec (modTime (watcher s)) m), (Z.eqb_spec (w_size (watcher s)) z); cbn; congruence.
  - by rewrite bool_decide_eq_true_2 by (by apply open_db_None).
Qed.

Lemma abs_refreshed d s : handles_ok s → abs (refreshed d s) = spec_refresh d (abs s).
Proof.
  intros Hs. unfold refreshed, spec_refresh. cbn [k_enabled k_path abs].
  destruct (negb _ || _); [done|]. destruct (Stat d (path (watcher s))) as [[m z]|e] eqn:Hst; cbn [stat_values];
    rewrite unchanged_stamp by done; destruct (has_stamp _ _) eqn:Hu; try done;
    rewrite <- unchanged_stamp in Hu by done; unfold reload; cbn [stat_values]; rewrite Hu.
  - unfold spec_open. cbn [k_path k_enabled abs]. destruct (disk_Open d _) as [db|e]; [|done].
    destruct (open_handle db s) as [nr s1] eqn:Ho. injection Ho as <- <-.
    destruct (swap_reader_ok s db (enabled (watcher s)) (path (watcher s)) m z None Hs) as [_ Hdb].
    unfold abs, open_db. cbn [set_watcher watcher w_reader enabled path modTime w_size openErr mbind option_bind].
    unfold open_handle in Hdb. cbn [snd set_watcher mapped_dbs] in Hdb |- *. by rewrite Hdb.
  - done.
Qed.

Lemma run_call_abs c s :
  handles_ok s →
  let '(r, s') := run_call c s in handles_ok s' ∧ spec_call c (abs s) = (r, abs s').
Proof.
  intros Hs. destruct c as [d ip|d|p|e| |]; cbn [run_call spec_call].
  - destruct (Lookup_refreshed d ip s Hs) as [-> Hok]. split; [done|].
    rewrite <- abs_refreshed, read_answer by done. do 3 f_equal. unfold abs. cbn [k_db]. fold (open_db (refreshed d s)).
    by destruct (open_db _).
  - rewrite Refresh_refreshed, <- abs_refreshed by done. by destruct (Lookup_refreshed d "" s Hs).
  - split; [by apply set_watcher_ok|done].
  - split; [by apply set_watcher_ok|done].
  - split; [by apply Close_ok|]. unfold Close. destruct (w_reader (watcher s)) as [h|] eqn:Hr; [done|].
    f_equal. unfold abs. cbn [k_enabled k_path k_error]. by rewrite (proj2 (open_db_None s Hs) Hr).
  - split; [done|]. do 2 f_equal. unfold Watcher_Status, abs. cbn [k_enabled k_path k_db k_error].
    fold (open_db s). f_equal; [|by destruct (open_db s)].
    pose proof (open_db_None s Hs). destruct (open_db s), (w_reader (watcher s)); cbn; try done; naive_solver.
Qed.

Lemma run_calls_abs calls : ∀ s,
  handles_ok s →
  let '(rs, s') := run_calls run_call calls s in
  handles_ok s' ∧ run_calls spec_call calls (abs s) = (rs, abs s').
Proof.
  induction calls as [|c calls IH]; intros s Hs; cbn [run_calls]; [done|].
  pose proof (run_call_abs c s Hs) as Hc. destruct (run_call c s) as [r s1]. destruct Hc as [Hs1 ->].
  specialize (IH s1 Hs1). destruct (run_calls run_call calls s1) as [rs s2]. destruct IH as [Hs2 ->]. done.
Qed.

(** The database held was opened by one of the calls, from a file of that stamp. *)
Definition call_disk (c : call) : option disk :=
  match c with CallLookup d _ | CallRefresh d => Some d | _ => None end.
Definition opened_by (calls : list call) (db : maxminddb_Reader) (stamp : Time * Z) : Prop :=
  ∃ c d p, c ∈ calls ∧ call_disk c = Some d ∧ Stat d p = Ok stamp ∧ disk_Open d p = Ok db.

Lemma spec_refresh_opened d k db stamp :
  k_db (spec_refresh d k) = Some (db, stamp) →
  k_db k = Some (db, stamp) ∨ ∃ p, Stat d p = Ok stamp ∧ disk_Open d p = Ok db.
Proof.
  unfold spec_refresh, spec_open. destruct (_ || _); [by left|].
  destruct (Stat d (k_path k)) as [st|e] eqn:Hst; destruct (has_stamp _ _); try (by left).
  destruct (disk_Open d (k_path k)) as [db'|] eqn:Ho; [|done]. cbn [k_db]. intros [= -> ->]. right. eauto.
Qed.

Lemma spec_calls_opened calls : ∀ k db stamp,
  k_db (run_calls spec_call calls k).2 = Some (db, stamp) →
  k_db k = Some (db, stamp) ∨ opened_by calls db stamp.
Proof.
  induction calls as [|c calls IH]; intros k db stamp; cbn [run_calls]; [by left|].
  destruct (spec_call c k) as [r k1] eqn:Hc. specialize (IH k1 db stamp).
  destruct (run_calls spec_call calls k1) as [rs k2]. cbn [snd] in *.
  intros [Hk|(c' & d & p & Hin & H)]%IH; [|right; exists c', d, p; split; [by right|done]].
  assert (k_db k = Some (db, stamp) ∨ ∃ d p, call_disk c = Some d ∧ Stat d p = Ok stamp ∧ disk_Open d p = Ok db)
    as [?|(d & p & H)]; [|by left|right; exists c, d, p; split; [by left|done]].
  destruct c as [d ip|d|p|e| |]; cbn [spec_call] in Hc; injection Hc as <- <-; try (by left); try done;
    (apply spec_refresh_opened in Hk as [?|(p & H)]; [by left|right; by exists d, p]).
Qed.

(** What an enabled watcher answers from after a refresh. *)
Lemma spec_refresh_db d k :
  k_enabled k = true → k_path k ≠ ""%string →
  fst <$> k_db (spec_refresh d k) =
  match k_db k with
  | Some (db, stamp) =>
      if decide (stamp = match Stat d (k_path k) with Ok st => st | Err _ => (zero_time, 0) end)
      then Some db else current d (k_path k)
  | None => current d (k_path k)
  end.
Proof.
  intros He Hp. unfold spec_refresh, spec_open, has_stamp, current.
  rewrite He, bool_decide_eq_false_2 by done. cbn [negb orb].
  destruct (Stat d (k_path k)) as [st|e]; destruct (k_db k) as [[db stamp]|] eqn:Hk;
    try (case_bool_decide; case_decide); cbn [k_db]; rewrite ?Hk; try done; by destruct (disk_Open d (k_path k)).
Qed.

Lemma initial_abs opts : Forall is_option opts → k_db (abs (initial_world opts)) = None.
Proof. intros Ho%initial_ok. unfold abs. cbn [k_db]. by rewrite (proj2 (open_db_None _ Ho) (initial_no_reader _ Ho)). Qed.

(** C29 (refinement): whatever sequence of lookups, refreshes, path changes, switches, closes
    and status queries is made on a watcher, and however the files change in between, every
    result is the one of the specification above. So a lookup of an enabled watcher answers
    from the file at its path as it is then, and with an empty location when it is missing
    or does not open, unless the database held has the modification time and size of that
    file (a missing one counts as of none): it then answers from that database, which one
    of the calls made opened from a file with this time and size. *)
Theorem watcher_follows_files opts calls (Hopts : Forall is_option opts) :
  let '(replies, s) := run_calls run_call calls (initial_world opts) in
  run_calls spec_call calls (abs (initial_world opts)) = (replies, abs s) ∧
  (∀ db stamp, k_db (abs s) = Some (db, stamp) → opened_by calls db stamp) ∧
  ∀ d ip, enabled (watcher s) = true → path (watcher s) ≠ ""%string →
    (Lookup d ip s).1 =
    Done (Some (answer
      match k_db (abs s) with
      | Some (db, stamp) =>
          if decide (stamp = match Stat d (path (watcher s)) with Ok st => st | Err _ => (zero_time, 0) end)
          then Some db else current d (path (watcher s))
      | None => current d (path (watcher s))
      end ip)).
Proof.
  pose proof (run_calls_abs calls _ (initial_ok _ Hopts)) as H.
  destruct (run_calls run_call calls (initial_world opts)) as [rs s]. destruct H as [Hs Hspec].
  split_and!; [done| |].
  - intros db stamp Hk. pose proof (spec_calls_opened calls (abs (initial_world opts)) db stamp) as Ho.
    rewrite Hspec, initial_abs in Ho by done. by destruct (Ho Hk).
  - intros d ip He Hp. destruct (Lookup_refreshed d ip s Hs) as [-> Hok]. cbn [fst]. do 2 f_equal.
    rewrite read_answer by done. f_equal. fold (open_db (refreshed d s)).
    transitivity (fst <$> k_db (abs (refreshed d s))); [unfold abs; cbn [k_db]; by destruct (open_db _)|].
    by rewrite abs_refreshed, spec_refresh_db by done.
Qed.

(** ** Schedules *)

Inductive event : Type :=
| EvThread (i : nat)
| EvSpawn (k : goal)
| EvSetPath (p : string)
| EvSetEnabled (e : bool)
| EvClose
| EvDisk (d : disk).

Definition exec_event (c : config) (e : event) : config :=
  let '(MkConfig_ s d ts) := c in
  match e with
  | EvThread i =>
      match ts !! i with
      | Some t => let '(t', s') := thread_step d t s in MkConfig_ s' d (<[i := t']> ts)
      | None => c
      end
  | EvSpawn k => MkConfig_ s d (ts ++ [Starting k])
  | EvSetPath p => MkConfig_ (SetPath p s) d ts
  | EvSetEnabled e => MkConfig_ (SetEnabled e s) d ts
  | EvClose => MkConfig_ (Close s) d ts
  | EvDisk d' => MkConfig_ s d' ts
  end.

Lemma exec_reachable events : ∀ c, rtc step c (fold_left exec_event events c).
Proof.
  induction events as [|e events IH]; intros c; [done|]. cbn [fold_left].
  etransitivity; [|apply IH]. destruct c as [s d ts]. destruct e as [i|k|p|e| |d']; cbn [exec_event].
  2-6: apply rtc_once; constructor.
  destruct (ts !! i) as [t|] eqn:Ht; [|done]. destruct (thread_step d t s) as [t' s'] eqn:Hst.
  apply rtc_once. by econstructor.
Qed.

(** ** Changing the path *)

(** C40 (functional): a new path takes effect at the next lookup, unless a database is
    loaded and the new file has the recorded modification time and size: then the old
    database goes on answering, whatever the new file holds. *)
Theorem set_path_effect s d p' ip m z
  (Hs : handles_ok s) (Henabled : enabled (watcher s) = true) (Hp' : p' ≠ ""%string)
  (Hstat : Stat d p' = Ok (m, z)) :
  let w := watcher s in
  (Lookup d ip (SetPath p' s)).1 =
  Done (Some (answer (if bool_decide (w_reader w ≠ None ∧ m = modTime w ∧ z = w_size w)
                      then w_reader w ≫= λ h, mapped_dbs s !! h
                      else current d p') ip)).
Proof.
  cbn zeta. assert (handles_ok (SetPath p' s)) as Hs' by by apply set_watcher_ok.
  case_bool_decide as Hsame.
  - destruct (Lookup_refreshed d ip (SetPath p' s) Hs') as [-> Hok]. cbn [fst]. rewrite read_answer by done.
    do 2 f_equal. f_equal. unfold refreshed. cbn [SetPath set_watcher watcher WithPath enabled path].
    destruct (_ || _); [done|]. rewrite Hstat. cbn [stat_values]. unfold unchanged. cbn [w_reader path modTime w_size].
    destruct Hsame as (Hr & -> & ->). rewrite bool_decide_eq_false_2, bool_decide_eq_true_2, !Z.eqb_refl by done.
    done.
  - apply (lookup_serves d ip (SetPath p' s)); [done| |done|done]. unfold serves. cbn [SetPath set_watcher watcher WithPath path].
    rewrite Hstat. cbn [stat_values]. unfold unchanged. cbn [w_reader path modTime w_size].
    intros Hu. bool_simp. destruct Hsame. by split_and!; [|symmetry..].
Qed.

(** Switching a watcher off does not unload what it has loaded, and a
    lookup of a switched-off watcher still answers from it. *)
Theorem disabled_watcher_resolves s d ip (Hs : handles_ok s) :
  (Lookup d ip (SetEnabled false s)).1 =
  Done (Some (answer (w_reader (watcher s) ≫= λ h, mapped_dbs s !! h) ip)).
Proof.
  assert (handles_ok (SetEnabled false s)) as Hs' by by apply set_watcher_ok.
  destruct (Lookup_refreshed d ip _ Hs') as [-> Hok]. cbn [fst]. by rewrite read_answer by done.
Qed.
End watcher.

(** ** Witnesses *)

Definition sample_db (country : string) : maxminddb_Reader :=
  MkDB "City" 0 (λ _, Ok (Some [("country"%string, AString country)])).
(** Two files of the same time and size. *)
Definition sample_disk : disk :=
  MkDisk (λ _, Ok (7, 100)) (λ p, Ok (sample_db (if bool_decide (p = "a"%string) then "A" else "B"))).
Definition missing_disk : disk := MkDisk (λ _, Err "no such file"%string) (λ _, Err "no such file"%string).

Abbreviation lookup_ := (Lookup (U := ascii_unicode) id).
Abbreviation step_ := (step (U := ascii_unicode) id).
Definition sample_world : world := (lookup_ sample_disk "8.8.8.8" (initial_world [WithPath "a"])).2.
Definition country_of (t : thread) : string := match t with Done (Some l) => Country l | _ => "" end.

Lemma sample_world_ok : handles_ok sample_world.
Proof.
  destruct (Lookup_refreshed (U := ascii_unicode) id sample_disk "8.8.8.8"%string
              (initial_world [WithPath "a"])) as [H Hok]; [|unfold sample_world; by rewrite H].
  apply initial_ok. apply Forall_cons_2; [|apply Forall_nil_2]. exists "a"%string, true. by left.
Qed.

Abbreviation exec_ := (fold_left (exec_event (U := ascii_unicode) id)).

(** A lookup loads the file, and the database is closed again. *)
Definition load_and_close : list event :=
  [EvSpawn (KLookup "8.8.8.8"); EvThread 0; EvThread 0; EvThread 0; EvThread 0; EvThread 0; EvClose].

Lemma watcher_no_use_after_close_witness :
  let c := exec_ load_and_close (MkConfig_ (initial_world [WithPath "a"]) sample_disk []) in
  country_of <$> c_threads c = ["A"%string] ∧ next_handle (c_world c) = 1%nat ∧
  faults (c_world c) = 0%nat.
Proof.
  cbn zeta. split; [vm_compute; reflexivity|]. split; [vm_compute; reflexivity|].
  apply (watcher_no_use_after_close (U := ascii_unicode) id [WithPath "a"] sample_disk).
  - apply Forall_cons_2; [|apply Forall_nil_2]. exists "a"%string, true. by left.
  - apply exec_reachable.
Defined.

(** The file is read, removed and restored; then the path is changed to another file of the
    same time and size, of which the watcher takes no notice until it is closed. *)
Definition history : list call :=
  [CallLookup sample_disk "8.8.8.8"; CallLookup missing_disk "8.8.8.8"; CallLookup sample_disk "8.8.8.8";
   CallSetPath "b"; CallLookup sample_disk "8.8.8.8"; CallClose; CallStatus; CallLookup sample_disk "8.8.8.8"].
Definition reply_country (r : reply) : string := match r with RLocation l => Country l | _ => "-" end.

Lemma watcher_follows_files_witness :
  let '(replies, s) := run_calls (run_call (U := ascii_unicode) id) history (initial_world [WithPath "a"]) in
  (reply_country <$> replies) = ["A"; ""; "A"; "-"; "A"; "-"; "-"; "B"]%string ∧
  run_calls (spec_call (U := ascii_unicode) id) history (abs (initial_world [WithPath "a"])) = (replies, abs s) ∧
  ∃ db, k_db (abs s) = Some (db, (7, 100)) ∧ opened_by history db (7, 100).
Proof.
  pose proof (watcher_follows_files (U := ascii_unicode) id [WithPath "a"] history) as H.
  destruct (run_calls (run_call (U := ascii_unicode) id) history (initial_world [WithPath "a"])) as [replies s] eqn:E.
  destruct H as (Hspec & Hopened & _).
  { apply Forall_cons_2; [|apply Forall_nil_2]. exists "a"%string, true. by left. }
  split; [|split; [exact Hspec|]].
  - apply (f_equal (λ x, reply_country <$> x.1)) in E. cbn [fst] in E. rewrite <- E. vm_compute. reflexivity.
  - assert (∃ db, k_db (abs s) = Some (db, (7, 100))) as [db Hdb].
    { apply (f_equal snd) in E. cbn [snd] in E. rewrite <- E. eexists. vm_compute. reflexivity. }
    exists db. split; [exact Hdb|]. by apply Hopened.
Defined.

(** The path is changed to a file of the same time and size. *)
Lemma set_path_effect_witness :
  country_of (lookup_ sample_disk "8.8.8.8" (SetPath "b" sample_world)).1 = "A"%string.
Proof.
  rewrite (set_path_effect (U := ascii_unicode) id sample_world sample_disk "b" "8.8.8.8" 7 100
             sample_world_ok eq_refl ltac:(done) eq_refl).
  vm_compute. reflexivity.
Defined.

Lemma disabled_watcher_resolves_witness :
  enabled (watcher (SetEnabled false sample_world)) = false ∧
  country_of (lookup_ sample_disk "8.8.8.8" (SetEnabled false sample_world)).1 = "A"%string.
Proof.
  split; [vm_compute; reflexivity|].
  rewrite (disabled_watcher_resolves (U := ascii_unicode) id sample_world sample_disk "8.8.8.8" sample_world_ok).
  vm_compute. reflexivity.
Defined.

(** ** A lost path *)

Definition in_flight : list event :=
  [EvSpawn KRefresh; EvThread 0; EvThread 0; EvThread 0].

(** A refresh that is under way when the path is changed puts its own path
    back when it reloads, and the new path is lost. *)
Theorem set_path_lost :
  ∃ c, rtc step_ (MkConfig_ (initial_world [WithPath "a"]) sample_disk []) c ∧
    let c1 := exec_ [EvSetPath "b"] c in
    let c2 := exec_ [EvThread 0] c1 in
    path (watcher (c_world c1)) = "b"%string ∧
    c_threads c2 = [Done None] ∧ path (watcher (c_world c2)) = "a"%string ∧
    country_of (lookup_ sample_disk "8.8.8.8" (c_world c2)).1 = "A"%string.
Proof.
  exists (exec_ in_flight (MkConfig_ (initial_world [WithPath "a"]) sample_disk [])).
  split; [apply exec_reachable|]. split_and!; vm_compute; reflexivity.
Qed.
