(* ===== verification/GeoWatcherLocks.v ===== *)
(** * GeoWatcherLocks

    The lock of [geoip/watcher.go], written out. The operations are programs over
    [sync.RWMutex]: every [Lock], [RLock] and unlock of the source is a step of its own, a
    deferred unlock stands at each return, and what is done between two of them is cut at
    every use of the file system or of a database. Goroutines block as the mutex makes
    them. [GeoWatcher] has the same operations with each locked part as one step. *)

From S2P Require Import Prelude GoRuntime GoStrings GeoAddress GeoRecord GeoWatcher.
Local Open Scope nat_scope.

(** ** sync.RWMutex *)

(** A writer first announces itself, which keeps new readers and other writers out, and
    has the lock when the readers are gone. *)
Record rwmutex : Type := MkRWMutex { readers : nat; pending : bool; writer : bool }.
Definition unlocked : rwmutex := MkRWMutex 0 false false.

(** ** Programs *)

(** What is left of a call: it ends in [Ret]. [Acquire] is a writer that has announced
    itself, [Os] asks the file system, [Do] uses the watcher. *)
Inductive prog (R : Type) : Type :=
| Ret (r : R)
| RLock (k : prog R)
| RUnlock (k : prog R)
| Lock (k : prog R)
| Acquire (k : prog R)
| Unlock (k : prog R)
| Os (A : Type) (f : disk → A) (k : A → prog R)
| Do (A : Type) (f : disk → world → A * world) (k : A → prog R).
Arguments Ret {R}. Arguments RLock {R}. Arguments RUnlock {R}. Arguments Lock {R}.
Arguments Acquire {R}. Arguments Unlock {R}. Arguments Os {R A}. Arguments Do {R A}.

Fixpoint prog_bind_ {A B : Type} (k : A → prog B) (p : prog A) : prog B :=
  match p with
  | Ret a => k a
  | RLock p => RLock (prog_bind_ k p)
  | RUnlock p => RUnlock (prog_bind_ k p)
  | Lock p => Lock (prog_bind_ k p)
  | Acquire p => Acquire (prog_bind_ k p)
  | Unlock p => Unlock (prog_bind_ k p)
  | Os f p => Os f (λ a, prog_bind_ k (p a))
  | Do f p => Do f (λ a, prog_bind_ k (p a))
  end.
#[local] Instance prog_ret : MRet prog := @Ret.
#[local] Instance prog_bind : MBind prog := @prog_bind_.

Definition mu_RLock : prog unit := RLock (Ret ()).
Definition mu_RUnlock : prog unit := RUnlock (Ret ()).
Definition mu_Lock : prog unit := Lock (Ret ()).
Definition mu_Unlock : prog unit := Unlock (Ret ()).
Definition os_Stat (p : string) : prog (res string (Time * Z)) := Os (λ d, Stat d p) Ret.
(** A look at the watcher's fields, and a change of the watcher. *)
Definition get {A} (f : world → A) : prog A := Do (λ _ s, (f s, s)) Ret.
Definition put (f : world → world) : prog unit := Do (λ _ s, ((), f s)) Ret.

(** [Open] of the source, a handle or an error. *)
Definition Open_ (p : string) : prog (res string nat) :=
  Do (λ d s, match disk_Open d p with
             | Ok db => let '(h, s1) := open_handle db s in (Ok h, s1)
             | Err err => (Err err, s)
             end) Ret.
(** [w.reader, w.path, w.modTime, w.size, w.openErr = ...] *)
Definition assign (r : option nat) (p : string) (m z : Z) (err : option string) : prog unit :=
  put (λ s, set_watcher (MkWatcher (enabled (watcher s)) p r m z err) s).

(** ** The operations *)

Definition watcher_refresh : prog () :=
  mu_RLock;; '(enabled_, path_) ← get (λ s, (enabled (watcher s), path (watcher s))); mu_RUnlock;;
  if negb enabled_ || bool_decide (path_ = ""%string) then mret ()
  else
    st ← os_Stat path_;
    let '(mod_, size_) := stat_values st in
    mu_RLock;; same ← get (λ s, unchanged (watcher s) path_ mod_ size_);
    if same : bool then mu_RUnlock;; mret ()
    else
      mu_RUnlock;; mu_Lock;;
      same ← get (λ s, unchanged (watcher s) path_ mod_ size_);
      if same : bool then mu_Unlock;; mret ()
      else match st with
           | Err statErr =>
               put close_current;; assign None path_ zero_time 0 (Some statErr);; mu_Unlock;; mret ()
           | Ok _ =>
               nr ← Open_ path_;
               match nr with
               | Err err => put close_current;; assign None path_ mod_ size_ (Some err);; mu_Unlock;; mret ()
               | Ok nr => put close_current;; assign (Some nr) path_ mod_ size_ None;; mu_Unlock;; mret ()
               end
           end.

(** The calls a program makes on a watcher. *)
Inductive request : Type :=
| QLookup (ip : string) | QRefresh | QSetPath (p : string) | QSetEnabled (e : bool) | QClose | QStatus.

Section locks.
Context {U : UnicodeTables} (range : gomap → gomap).

(** [w.reader.Lookup(ip)] of a handle: a closed one is a fault. *)
Definition use_handle (h : nat) (ip : string) (s : world) : Location * world :=
  match mapped_dbs s !! h with
  | None => (empty_Location, MkWorld (watcher s) (mapped_dbs s) (next_handle s) (S (faults s)))
  | Some db => (answer range (Some db) ip, s)
  end.

Definition watcher_Lookup (ip : string) : prog Location :=
  watcher_refresh;;
  mu_RLock;; reader ← get (λ s, w_reader (watcher s));
  match reader with
  | None => mu_RUnlock;; mret empty_Location
  | Some h => loc ← Do (λ _, use_handle h ip) Ret; mu_RUnlock;; mret loc
  end.

Definition watcher_SetPath (p : string) : prog () := mu_Lock;; put (SetPath p);; mu_Unlock;; mret ().
Definition watcher_SetEnabled (e : bool) : prog () := mu_Lock;; put (SetEnabled e);; mu_Unlock;; mret ().

Definition watcher_Status : prog Status :=
  mu_RLock;; st ← get Watcher_Status; mu_RUnlock;; mret st.

Definition watcher_Close : prog () :=
  mu_Lock;; reader ← get (λ s, w_reader (watcher s));
  match reader with
  | None => mu_Unlock;; mret ()
  | Some h =>
      put (close_handle h);;
      put (λ s, let w := watcher s in
                set_watcher (MkWatcher (enabled w) (path w) None zero_time 0 (openErr w)) s);;
      mu_Unlock;; mret ()
  end.

Definition serve (q : request) : prog reply :=
  match q with
  | QLookup ip => l ← watcher_Lookup ip; mret (RLocation l)
  | QRefresh => watcher_refresh;; mret RNothing
  | QSetPath p => watcher_SetPath p;; mret RNothing
  | QSetEnabled e => watcher_SetEnabled e;; mret RNothing
  | QClose => watcher_Close;; mret RNothing
  | QStatus => st ← watcher_Status; mret (RStatus st)
  end.

(** ** Goroutines *)

Definition blocked {R} (p : prog R) (mu : rwmutex) : bool :=
  match p with
  | Ret _ => true
  | RLock _ | Lock _ => pending mu || writer mu
  | Acquire _ => negb (readers mu =? 0)
  | _ => false
  end.

(** One step of a goroutine that is not blocked; [None] is a fatal error of the runtime,
    the unlock of a mutex that is not locked. *)
Definition advance {R} (d : disk) (p : prog R) (mu : rwmutex) (s : world) :
    option (prog R * rwmutex * world) :=
  match p with
  | Ret r => Some (p, mu, s)
  | RLock k => Some (k, MkRWMutex (S (readers mu)) (pending mu) (writer mu), s)
  | RUnlock k =>
      match readers mu with
      | O => None
      | S n => Some (k, MkRWMutex n (pending mu) (writer mu), s)
      end
  | Lock k => Some (Acquire k, MkRWMutex (readers mu) true (writer mu), s)
  | Acquire k => Some (k, MkRWMutex (readers mu) false true, s)
  | Unlock k => if writer mu then Some (k, MkRWMutex (readers mu) (pending mu) false, s) else None
  | Os f k => Some (k (f d), mu, s)
  | Do f k => let '(a, s') := f d s in Some (k a, mu, s')
  end.

Record machine : Type := MkMachine {
  m_world : world;
  m_mutex : rwmutex;
  m_disk : disk;
  m_threads : list (request * prog reply);           (* what was called, what is left of it *)
  dead : bool;
}.
Definition start (opts : list Option_) (d : disk) : machine :=
  MkMachine (initial_world opts) unlocked d [] false.

Inductive happening : Type := Spawn (q : request) | Turn (i : nat) | Files (d : disk).

Definition happen (c : machine) (e : happening) : machine :=
  let '(MkMachine s mu d ts dead_) := c in
  if dead_ then c
  else match e with
       | Spawn q => MkMachine s mu d (ts ++ [(q, serve q)]) false
       | Files d' => MkMachine s mu d' ts false
       | Turn i =>
           match ts !! i with
           | None => c
           | Some (q, p) =>
               if blocked p mu then c
               else match advance d p mu s with
                    | None => MkMachine s mu d ts true
                    | Some (p', mu', s') => MkMachine s' mu' d (<[i := (q, p')]> ts) false
                    end
           end
       end.
Definition run_from (c : machine) (es : list happening) : machine := fold_left happen es c.

(** The calls of a history, in order. *)
Definition requests (history : list happening) : list request :=
  omap (λ e, match e with Spawn q => Some q | _ => None end) history.

(** A call with no other goroutine about; [None] when it blocks or dies. *)
Fixpoint alone {R} (d : disk) (p : prog R) (mu : rwmutex) (s : world) : option (R * rwmutex * world) :=
  match p with
  | Ret r => Some (r, mu, s)
  | RLock k => if pending mu || writer mu then None
               else alone d k (MkRWMutex (S (readers mu)) (pending mu) (writer mu)) s
  | RUnlock k =>
      match readers mu with
      | O => None
      | S n => alone d k (MkRWMutex n (pending mu) (writer mu)) s
      end
  | Lock k => if pending mu || writer mu then None
              else if readers mu =? 0 then alone d k (MkRWMutex 0 false true) s else None
  | Acquire k => if readers mu =? 0 then alone d k (MkRWMutex 0 false true) s else None
  | Unlock k => if writer mu then alone d k (MkRWMutex (readers mu) (pending mu) false) s else None
  | Os f k => alone d (k (f d)) mu s
  | Do f k => let '(a, s') := f d s in alone d (k a) mu s'
  end.

(** ** The lock discipline

    What a goroutine holds: nothing; the read lock, and then the watcher stays as it is;
    an announcement; the write lock, and then the watcher is as the goroutine left it. *)

Section discipline.
Context (D : disk → Prop).                           (* the states the files go through *)

(** A database was opened from a file that was there. *)
Definition from_file (db : option maxminddb_Reader) : Prop :=
  match db with Some db => ∃ d p, D d ∧ disk_Open d p = Ok db | None => True end.

(** What holds of the watcher while nobody has the write lock. *)
Definition in_order (s : world) : Prop := handles_ok s ∧ from_file (open_db s).

Inductive mode : Type := Free | Shared (s : world) | Announced | Exclusive (s : world).

(** [wp p m n Q]: in mode [m] the program needs at most [n] steps, uses the watcher only
    under a lock, changes it only under the write lock, misuses no database, leaves the
    handles in order at every unlock, unlocks only what it locked, and ends in [Q]. *)
Fixpoint wp {R} (p : prog R) (m : mode) (n : nat) (Q : R → mode → nat → Prop) : Prop :=
  match p, n with
  | Ret r, _ => Q r m n
  | _, O => False
  | RLock k, S n => m = Free ∧ ∀ s, in_order s → wp k (Shared s) n Q
  | RUnlock k, S n => match m with Shared _ => wp k Free n Q | _ => False end
  | Lock k, S n => m = Free ∧
      match n with O => False | S n => ∀ s, in_order s → wp k (Exclusive s) n Q end
  | Acquire k, S n => m = Announced ∧ ∀ s, in_order s → wp k (Exclusive s) n Q
  | Unlock k, S n => match m with Exclusive s => in_order s ∧ wp k Free n Q | _ => False end
  | Os f k, S n => ∀ d, D d → wp (k (f d)) m n Q
  | Do f k, S n =>
      match m with
      | Shared s => ∀ d, D d → (f d s).2 = s ∧ wp (k (f d s).1) m n Q
      | Exclusive s => ∀ d, D d → faults (f d s).2 = 0 ∧ wp (k (f d s).1) (Exclusive (f d s).2) n Q
      | _ => False
      end
  end.

Lemma wp_mono {R} (Q Q' : R → mode → nat → Prop) (p : prog R) : ∀ m n,
  (∀ r m n, Q r m n → Q' r m n) → wp p m n Q → wp p m n Q'.
Proof.
  induction p as [r|k IH|k IH|k IH|k IH|k IH|A f k IH|A f k IH]; intros m n HQ;
    [cbn; apply HQ|destruct n as [|n]; [done|cbn]..].
  - intros [-> H]. split; [done|]. intros s Hs. by apply IH, H.
  - destruct m; try done. by apply IH.
  - destruct n as [|n]; [by intros []|]. intros [-> H]. split; [done|]. intros s Hs. by apply IH, H.
  - intros [-> H]. split; [done|]. intros s Hs. by apply IH, H.
  - destruct m; try done. intros [??]. split; [done|]. by apply IH.
  - intros H d Hd. by apply IH, H.
  - destruct m; try done; intros H d Hd; destruct (H d Hd); (split; [done|]); by apply IH.
Qed.

Lemma wp_bind {A B} (k : A → prog B) (p : prog A) Q : ∀ m n,
  wp p m n (λ a m n, wp (k a) m n Q) → wp (p ≫= k) m n Q.
Proof.
  induction p as [r|p IH|p IH|p IH|p IH|p IH|A' f p IH|A' f p IH]; intros m n;
    [done|destruct n as [|n]; [done|cbn]..].
  - intros [-> H]. split; [done|]. intros s Hs. by apply IH, H.
  - destruct m; try done. by apply IH.
  - destruct n as [|n]; [by intros []|]. intros [-> H]. split; [done|]. intros s Hs. by apply IH, H.
  - intros [-> H]. split; [done|]. intros s Hs. by apply IH, H.
  - destruct m; try done. intros [??]. split; [done|]. by apply IH.
  - intros H d Hd. by apply IH, H.
  - destruct m; try done; intros H d Hd; destruct (H d Hd); (split; [done|]); by apply IH.
Qed.

(** *** The operations keep it *)

#[local] Ltac wp_cbn :=
  cbn [mbind prog_bind prog_bind_ mret prog_ret mu_RLock mu_RUnlock mu_Lock mu_Unlock os_Stat get put
       Open_ assign wp Nat.add fst snd].

Lemma in_order_empty s : handles_ok s → w_reader (watcher s) = None → in_order s.
Proof. intros Hs Hr. split; [done|]. by rewrite (proj2 (open_db_None s Hs) Hr). Qed.

Lemma from_file_open s db d p : open_db s = Some db → D d → disk_Open d p = Ok db → from_file (open_db s).
Proof. intros -> Hd Ho. by exists d, p. Qed.

Lemma in_order_set_watcher s w :
  w_reader w = w_reader (watcher s) → in_order s → in_order (set_watcher w s).
Proof.
  intros Hw [Hs Hd]. split; [by apply set_watcher_ok|]. unfold open_db in *. cbn [set_watcher watcher mapped_dbs].
  by rewrite Hw.
Qed.

Lemma close_and_assign s p m z err n (Q : () → mode → nat → Prop) :
  in_order s → Q () Free n →
  wp (put close_current;; assign None p m z err;; mu_Unlock;; mret ()) (Exclusive s) (3 + n) Q.
Proof.
  intros [Hs _] HQ. wp_cbn. intros _ _.
  pose proof (close_current_ok s (enabled (watcher (close_current s))) p m z err Hs) as Hc.
  split; [apply Hc|]. intros _ _. split; [apply Hc|]. split; [by apply in_order_empty|done].
Qed.

(** The read-locked fetch and the test, then one of the three ways to reload. *)
Lemma refresh_wp n (Q : () → mode → nat → Prop) :
  (∀ k, n ≤ k → Q () Free k) → wp watcher_refresh Free (14 + n) Q.
Proof.
  intros HQ. unfold watcher_refresh. wp_cbn.
  split; [done|]. intros s Hs. split; [done|]. wp_cbn.
  destruct (_ || _); wp_cbn; [apply HQ; lia|]. intros d' _.
  destruct (stat_values (Stat d' _)) as [m z]. wp_cbn.
  split; [done|]. intros s1 Hs1. split; [done|]. destruct (unchanged _ _ _ _); wp_cbn; [apply HQ; lia|].
  split; [done|]. intros s2 Hs2 _ _. split; [apply Hs2|].
  destruct (unchanged _ _ _ _); wp_cbn; [split; [done|apply HQ; lia]|].
  destruct (Stat d' _) as [v|e]; wp_cbn.
  - intros d2 Hd2. destruct (disk_Open d2 _) as [db|err] eqn:Hopen; wp_cbn.
    + destruct (swap_reader_ok s2 db (enabled (watcher (close_current (open_handle db s2).2)))
                  (path (watcher s)) m z None (proj1 Hs2)) as [Hswap Hdb].
      split; [apply Hs2|]. intros _ _. split; [apply Hswap|]. intros _ _. split; [apply Hswap|].
      split; [|apply HQ; lia]. split; [exact Hswap|].
      apply (from_file_open _ db d2 (path (watcher s))); [exact Hdb|done|done].
    + split; [apply Hs2|]. apply close_and_assign; [done|apply HQ; lia].
  - apply close_and_assign; [done|apply HQ; lia].
Qed.

Lemma lookup_wp ip n :
  wp (watcher_Lookup ip) Free (18 + n)
    (λ l m _, m = Free ∧ ∃ db, from_file db ∧ l = answer range db ip).
Proof.
  apply wp_bind. change (18 + n) with (14 + (4 + n)). apply refresh_wp. intros k Hk.
  destruct k as [|[|[|[|k]]]]; try lia. wp_cbn.
  split; [done|]. intros s [Hs Hfile]. split; [done|]. destruct (w_reader (watcher s)) as [h|] eqn:Hr; wp_cbn.
  - intros _ _. destruct (proj2 (ho_open _ Hs h) Hr) as [db Hdb]. unfold use_handle. rewrite Hdb.
    split; [done|]. split; [done|]. exists (Some db). split; [|done].
    unfold open_db in Hfile. rewrite Hr in Hfile. cbn in Hfile. by rewrite Hdb in Hfile.
  - split; [done|]. by exists None.
Qed.

Lemma put_wp (f : world → world) n :
  (∀ s, in_order s → in_order (f s)) →
  wp (mu_Lock;; put f;; mu_Unlock;; mret ()) Free (4 + n) (λ _ m _, m = Free).
Proof.
  intros Hf. wp_cbn. split; [done|]. intros s Hs _ _. pose proof (Hf s Hs) as Hfs.
  split; [apply Hfs|]. by split.
Qed.

Lemma close_wp n : wp watcher_Close Free (6 + n) (λ _ m _, m = Free).
Proof.
  unfold watcher_Close. wp_cbn. split; [done|]. intros s Hs _ _. split; [apply Hs|].
  pose proof (Close_ok s (proj1 Hs)) as Hc. unfold Close in Hc.
  destruct (w_reader (watcher s)) as [h|] eqn:Hr; wp_cbn; [|done].
  intros _ _. split; [exact (ho_faults _ Hc)|]. intros _ _. cbn zeta.
  replace (enabled (watcher (close_handle h s))) with (enabled (watcher s)) by (unfold close_handle; by case_match).
  replace (path (watcher (close_handle h s))) with (path (watcher s)) by (unfold close_handle; by case_match).
  replace (openErr (watcher (close_handle h s))) with (openErr (watcher s)) by (unfold close_handle; by case_match).
  split; [apply Hc|]. split; [by apply in_order_empty|done].
Qed.

(** What a call returns: a lookup the answer of a database that was opened from a file that
    was there, or an empty location; a status query the status of a watcher in order. *)
Definition answers (q : request) (r : reply) : Prop :=
  match q, r with
  | QLookup ip, RLocation l => ∃ db, from_file db ∧ l = answer range db ip
  | QStatus, RStatus st => ∃ s, in_order s ∧ st = Watcher_Status s
  | (QRefresh | QSetPath _ | QSetEnabled _ | QClose), RNothing => True
  | _, _ => False
  end.
Definition returned (q : request) (r : reply) (m : mode) (_ : nat) : Prop := m = Free ∧ answers q r.

(** No call takes more steps. *)
Definition max_turns : nat := 18.

Lemma serve_wp q : wp (serve q) Free max_turns (returned q).
Proof.
  unfold max_turns. destruct q as [ip| |p|e| |]; cbn [serve]; apply wp_bind.
  - eapply wp_mono, (lookup_wp ip 0). by intros l m n [-> H].
  - apply (refresh_wp 4). done.
  - eapply wp_mono, (put_wp (SetPath p) 14); [by intros ??? ->|]. intros s Hs. by apply in_order_set_watcher.
  - eapply wp_mono, (put_wp (SetEnabled e) 14); [by intros ??? ->|]. intros s Hs. by apply in_order_set_watcher.
  - eapply wp_mono, (close_wp 12). by intros ??? ->.
  - unfold watcher_Status. wp_cbn. split; [done|]. intros s Hs. split; [done|]. split; [done|]. by exists s.
Qed.

(** ** The machine

    Each goroutine with its mode and the steps it may still take. *)

Abbreviation ghost := (mode * nat)%type (only parsing).
Definition shared (g : ghost) : nat := match g.1 with Shared _ => 1 | _ => 0 end.
Definition announced (g : ghost) : nat := match g.1 with Announced => 1 | _ => 0 end.
Definition exclusive (g : ghost) : nat := match g.1 with Exclusive _ => 1 | _ => 0 end.
Definition total (f : ghost → nat) (gs : list ghost) : nat := sum_list_with f gs.

(** Who holds a lock knows the watcher. *)
Definition knows (s : world) (g : ghost) : Prop :=
  match g.1 with Shared s' | Exclusive s' => s' = s | _ => True end.

Record ordered (c : machine) (gs : list ghost) : Prop := Ordered {
  or_alive : dead c = false;
  or_disk : D (m_disk c);
  or_threads : Forall2 (λ t g, wp t.2 g.1 g.2 (returned t.1)) (m_threads c) gs;
  or_readers : readers (m_mutex c) = total shared gs;
  or_pending : Nat.b2n (pending (m_mutex c)) = total announced gs;
  or_writer : Nat.b2n (writer (m_mutex c)) = total exclusive gs;
  or_excluded : writer (m_mutex c) = true → readers (m_mutex c) = 0 ∧ pending (m_mutex c) = false;
  or_knows : Forall (knows (m_world c)) gs;
  or_free : writer (m_mutex c) = false → in_order (m_world c);
  or_faults : faults (m_world c) = 0;
}.

Lemma total_insert f gs i g g' :
  gs !! i = Some g → total f (<[i := g']> gs) + f g = total f gs + f g'.
Proof.
  revert i. unfold total. induction gs as [|g0 gs IH]; intros [|i] Hi; try done.
  - injection Hi as ->. cbn. lia.
  - change (<[S i := g']> (g0 :: gs)) with (g0 :: <[i := g']> gs). cbn [sum_list_with].
    specialize (IH i Hi). lia.
Qed.
Lemma total_lookup f gs i g : gs !! i = Some g → f g ≤ total f gs.
Proof. intros Hi. apply sum_list_with_in, list_elem_of_lookup. by exists i. Qed.
Lemma total_two f gs i j g g' : i ≠ j → gs !! i = Some g → gs !! j = Some g' → f g + f g' ≤ total f gs.
Proof.
  revert i j. induction gs as [|g0 gs IH]; intros [|i] [|j] Hne Hi Hj; try done; cbn in *.
  - injection Hi as ->. pose proof (total_lookup f gs j g' Hj). unfold total in *. lia.
  - injection Hj as ->. pose proof (total_lookup f gs i g Hi). unfold total in *. lia.
  - specialize (IH i j ltac:(congruence) Hi Hj). unfold total in *. lia.
Qed.

(** A goroutine moves; the others keep what they hold. *)
Lemma ordered_move c gs i q m n p' m' n' mu' s' :
  ordered c gs → gs !! i = Some (m, n) →
  wp p' m' n' (returned q) → fst <$> m_threads c !! i = Some q →
  readers mu' + shared (m, n) = readers (m_mutex c) + shared (m', n') →
  Nat.b2n (pending mu') + announced (m, n) = Nat.b2n (pending (m_mutex c)) + announced (m', n') →
  Nat.b2n (writer mu') + exclusive (m, n) = Nat.b2n (writer (m_mutex c)) + exclusive (m', n') →
  (writer mu' = true → readers mu' = 0 ∧ pending mu' = false) →
  knows s' (m', n') → (m_world c = s' ∨ exclusive (m, n) = 1) →
  (writer mu' = false → in_order s') → faults s' = 0 →
  ordered (MkMachine s' mu' (m_disk c) (<[i := (q, p')]> (m_threads c)) false) (<[i := (m', n')]> gs).
Proof.
  intros [H1 Hdisk H2 H3 H4 H5 H6 H7 H8 H9] Hi Hwp Hq Hr Hp Hw Hex Hk Hs Hok Hf.
  pose proof (total_insert shared gs i _ (m', n') Hi). pose proof (total_insert announced gs i _ (m', n') Hi).
  pose proof (total_insert exclusive gs i _ (m', n') Hi).
  split; cbn [dead m_disk m_threads m_mutex m_world readers pending writer] in *; try done; try lia.
  - by apply Forall2_insert.
  - apply Forall_lookup. intros j g Hj. destruct (decide (i = j)) as [<-|Hne].
    { rewrite list_lookup_insert_eq in Hj by (by eapply lookup_lt_Some). by injection Hj as <-. }
    rewrite list_lookup_insert_ne in Hj by done. pose proof (proj1 (Forall_lookup _ _) H7 j g Hj) as Hg.
    destruct Hs as [<-|Hx]; [done|].
    pose proof (total_two exclusive gs i j _ _ Hne Hi Hj). pose proof (total_lookup shared gs j g Hj).
    pose proof (total_lookup exclusive gs i _ Hi).
    assert (writer (m_mutex c) = true) as Hwt by (destruct (writer (m_mutex c)); [done|cbn in *; lia]).
    destruct (H6 Hwt). rewrite Hwt in *. cbn in *.
    unfold knows. destruct g as [[|?| |?] ?]; cbn in *; done || lia.
Qed.

Lemma ordered_thread c gs i g :
  ordered c gs → gs !! i = Some g →
  ∃ q p, m_threads c !! i = Some (q, p) ∧ wp p g.1 g.2 (returned q) ∧ knows (m_world c) g.
Proof.
  intros Ho Hi. destruct (Forall2_lookup_r _ _ _ _ _ (or_threads _ _ Ho) Hi) as ([q p] & Ht & Hwp).
  exists q, p. split_and!; [done|done|]. by apply (proj1 (Forall_lookup _ _) (or_knows _ _ Ho) i).
Qed.

#[local] Ltac moves Hmove mode_ :=
  eexists _, _, _, mode_, _; split; [reflexivity|]; split; [apply Nat.lt_succ_diag_r|];
  apply Hmove; cbn in *; try done; try lia; try (by left); try (by right).

(** A goroutine that is not blocked moves, without a fatal error, and needs fewer steps
    from then on. *)
Lemma turn_ordered c gs i q p m n :
  ordered c gs → m_threads c !! i = Some (q, p) → gs !! i = Some (m, n) →
  blocked p (m_mutex c) = false →
  ∃ p' mu' s' m' n',
    advance (m_disk c) p (m_mutex c) (m_world c) = Some (p', mu', s') ∧ n' < n ∧
    ordered (MkMachine s' mu' (m_disk c) (<[i := (q, p')]> (m_threads c)) false) (<[i := (m', n')]> gs).
Proof.
  intros Ho Ht Hi Hb.
  destruct (ordered_thread c gs i _ Ho Hi) as (q' & p' & Ht' & Hwp & Hk). rewrite Ht in Ht'.
  injection Ht' as <- <-. assert (fst <$> m_threads c !! i = Some q) as Hq by by rewrite Ht.
  pose proof (total_lookup shared gs i _ Hi). pose proof (total_lookup announced gs i _ Hi).
  pose proof (total_lookup exclusive gs i _ Hi).
  pose proof Ho as [_ Hdisk _ Hrs Hpd Hwr Hex _ Hok Hf]. destruct (m_mutex c) as [rs pd wr] eqn:Hmu.
  pose proof (ordered_move c gs i q m n) as Hmove. rewrite Hmu in Hmove.
  cbn [fst snd readers pending writer] in *.
  destruct p as [r|k|k|k|k|k|A f k|A f k]; destruct n as [|n]; cbn [wp blocked advance readers pending writer] in *;
    try done.
  - destruct Hwp as [-> Hwp]. bool_simp. destruct pd, wr; try done. moves Hmove (Shared (m_world c)). auto.
  - destruct m as [|s| |]; try done. unfold knows in Hk. cbn in Hk. subst s. destruct rs as [|rs]; [cbn in *; lia|].
    destruct wr; [by destruct Hex|]. moves Hmove Free.
  - destruct Hwp as [-> Hwp]. bool_simp. destruct pd, wr; try done. moves Hmove Announced. destruct n; by auto.
  - destruct Hwp as [-> Hwp]. destruct wr; [destruct Hex; [done|subst pd; cbn in *; lia]|].
    destruct pd; [|cbn in *; lia]. destruct rs; [|done]. moves Hmove (Exclusive (m_world c)). auto.
  - destruct m as [| | |s]; try done. unfold knows in Hk. cbn in Hk. subst s. destruct Hwp.
    destruct wr; [|cbn in *; lia]. moves Hmove Free.
  - moves Hmove m. by apply Hwp.
  - destruct m as [|s| |s]; try done; unfold knows in Hk; cbn in Hk; subst s; specialize (Hwp (m_disk c) Hdisk);
      destruct (f (m_disk c) (m_world c)) as [a s']; cbn in Hwp; destruct Hwp as [Hs' Hwp].
    + subst s'. moves Hmove (Shared (m_world c)).
    + destruct wr; [|cbn in *; lia]. moves Hmove (Exclusive s').
Qed.

(** *** No deadlock *)

Lemma total_pos f gs : 0 < total f gs → ∃ i g, gs !! i = Some g ∧ 0 < f g.
Proof.
  unfold total. induction gs as [|g gs IH]; cbn [sum_list_with]; [lia|]. intros H.
  destruct (decide (0 < f g)) as [Hg|Hg]; [by exists 0, g|].
  destruct IH as (i & g' & Hi & Hg'); [lia|]. by exists (S i), g'.
Qed.

Definition finished (t : request * prog reply) : bool := match t.2 with Ret _ => true | _ => false end.

(** Unless every call has returned, some goroutine can move: whoever has the write lock;
    else whoever reads; else whoever waits for the readers; else anybody. *)
Lemma someone_moves c gs :
  ordered c gs → Forall finished (m_threads c) ∨
  ∃ i q p, m_threads c !! i = Some (q, p) ∧ blocked p (m_mutex c) = false.
Proof.
  intros Ho. pose proof Ho as [_ _ _ Hrs Hpd Hwr Hex _ _ _].
  assert (∀ f : ghost → nat, 0 < total f gs →
            (∀ q p m n, wp p m n (returned q) → 0 < f (m, n) → blocked p (m_mutex c) = false) →
            ∃ i q p, m_threads c !! i = Some (q, p) ∧ blocked p (m_mutex c) = false) as Hfind.
  { intros f (i & [m n] & Hi & Hf)%total_pos Hp. destruct (ordered_thread c gs i _ Ho Hi) as (q & p & Ht & Hwp & _).
    exists i, q, p. split; [done|]. by apply (Hp q p m n). }
  destruct (m_mutex c) as [rs pd wr]. cbn [readers pending writer] in *.
  destruct (decide (0 < total exclusive gs)) as [Hx|Hx]; [right; apply (Hfind exclusive Hx)|].
  { intros q p [| | |s] n Hwp Hm; cbn in Hm; try lia.
    destruct p, n; cbn in Hwp; try done; try (by destruct Hwp). }
  destruct wr; [cbn in *; lia|].
  destruct (decide (0 < total shared gs)) as [Hs|Hs]; [right; apply (Hfind shared Hs)|].
  { intros q p [|s| |] n Hwp Hm; cbn in Hm; try lia.
    destruct p, n; cbn in Hwp; try done; try (by destruct Hwp). }
  destruct (decide (0 < total announced gs)) as [Ha|Ha]; [right; apply (Hfind announced Ha)|].
  { intros q p [| | |] n Hwp Hm; cbn in Hm; try lia.
    destruct p, n; cbn in Hwp |- *; try done; try (by destruct Hwp).
    destruct rs; [done|lia]. }
  destruct pd; [cbn in *; lia|].
  destruct (decide (Forall finished (m_threads c))) as [?|Hn]; [by left|right].
  apply not_Forall_Exists, Exists_exists in Hn as ([q p] & Hin & Hp); [|apply _].
  apply list_elem_of_lookup in Hin as [i Ht]. exists i, q, p. split; [done|].
  destruct p; try done; [by destruct Hp|]. destruct rs; [done|lia].
Qed.

(** *** Progress *)

Definition steps_left (gs : list ghost) : nat := total snd gs.
Definition quiet (e : happening) : bool := match e with Spawn _ => false | _ => true end.
Definition can_move (c : machine) (e : happening) : Prop :=
  match e with
  | Turn i => ∃ q p, m_threads c !! i = Some (q, p) ∧ blocked p (m_mutex c) = false
  | _ => False
  end.
(** The same goroutines at the same places. *)
Definition same_place (c c' : machine) : Prop :=
  m_threads c' = m_threads c ∧ m_mutex c' = m_mutex c.

(** The files are in one of their states. *)
Definition among (e : happening) : Prop := match e with Files d => D d | _ => True end.

Lemma happen_ordered c gs e :
  ordered c gs → quiet e → among e →
  ∃ gs', ordered (happen c e) gs' ∧ fst <$> m_threads (happen c e) = fst <$> m_threads c ∧
    (steps_left gs' < steps_left gs ∨ gs' = gs ∧ same_place c (happen c e) ∧ ¬ can_move c e).
Proof.
  intros Ho Hq Hamong. pose proof (or_alive _ _ Ho) as Halive. destruct c as [s mu d ts dd]. cbn in Halive. subst dd.
  destruct e as [q|i|d']; [done| |].
  - cbn [happen]. destruct (ts !! i) as [[q p]|] eqn:Ht;
      [|exists gs; split_and!; try done; right; split_and!; [done..|]; cbn; rewrite Ht; naive_solver].
    destruct (blocked p mu) eqn:Hb.
    { exists gs. split_and!; try done. right. split_and!; [done..|]. cbn. rewrite Ht. naive_solver congruence. }
    destruct (Forall2_lookup_l _ _ _ _ _ (or_threads _ _ Ho) Ht) as ([m n] & Hi & _).
    destruct (turn_ordered _ gs i q p m n Ho Ht Hi Hb) as (p' & mu' & s' & m' & n' & Hadv & Hn & Ho').
    cbn [m_disk m_mutex m_world m_threads] in *. rewrite Hadv. exists (<[i := (m', n')]> gs).
    split_and!; [done| |left; pose proof (total_insert snd gs i _ (m', n') Hi); unfold steps_left; cbn in *; lia].
    cbn [m_threads]. rewrite list_fmap_insert. cbn [fst]. apply list_insert_id. by rewrite list_lookup_fmap, Ht.
  - exists gs. cbn [happen]. split_and!; [|done|right; split_and!; [done..|by intros []]].
    destruct Ho. by split.
Qed.

Lemma run_from_ordered es : ∀ c gs,
  ordered c gs → Forall quiet es → Forall among es →
  ∃ gs', ordered (run_from c es) gs' ∧ fst <$> m_threads (run_from c es) = fst <$> m_threads c ∧
    (steps_left gs' < steps_left gs ∨ gs' = gs ∧ same_place c (run_from c es) ∧ ∀ e, e ∈ es → ¬ can_move c e).
Proof.
  induction es as [|e es IH]; intros c gs Ho Hes Hd; cbn.
  { exists gs. split_and!; [done..|right; split_and!; [done..|]]. by intros e ?%not_elem_of_nil. }
  apply Forall_cons in Hes as [He Hes]. apply Forall_cons in Hd as [Hde Hd].
  destruct (happen_ordered c gs e Ho He Hde) as (gs1 & Ho1 & Ht1 & H1).
  destruct (IH _ gs1 Ho1 Hes Hd) as (gs2 & Ho2 & Ht2 & H2). fold (run_from (happen c e) es) in *.
  exists gs2. split_and!; [done|by rewrite Ht2|].
  destruct H1 as [H1|(-> & [Hp1 Hm1] & Hn1)]; destruct H2 as [H2|(-> & [Hp2 Hm2] & Hn2)];
    try (left; lia). right. split_and!; [done|by split; congruence|].
  intros e' [->|Hin]%elem_of_cons; [done|]. intros Hc. apply (Hn2 e' Hin).
  destruct e'; try done. cbn in *. by rewrite Hp1, Hm1.
Qed.

(** Every goroutine gets a turn, in any order and with anything in between but new calls. *)
Definition round (n : nat) (es : list happening) : Prop :=
  Forall quiet es ∧ ∀ i, i < n → Turn i ∈ es.

Lemma run_from_app c es es' : run_from c (es ++ es') = run_from (run_from c es) es'.
Proof. apply fold_left_app. Qed.

Lemma finished_stay es : ∀ c,
  Forall finished (m_threads c) → Forall quiet es → m_threads (run_from c es) = m_threads c.
Proof.
  induction es as [|e es IH]; intros c Hc Hes; [done|]. apply Forall_cons in Hes as [He Hes]. cbn.
  fold (run_from (happen c e) es).
  assert (m_threads (happen c e) = m_threads c) as Heq; [|by rewrite IH by by rewrite ?Heq].
  destruct c as [s mu d ts [|]]; [done|]. destruct e as [q|i|d']; [done| |done]. cbn [happen m_threads] in *.
  destruct (ts !! i) as [[q p]|] eqn:Ht; [|done]. pose proof (proj1 (Forall_lookup _ _) Hc i _ Ht) as Hp.
  by destruct p.
Qed.

(** One round: somebody moves, unless nobody has anything left to do. *)
Lemma round_progress c gs es :
  ordered c gs → round (length (m_threads c)) es → Forall among es →
  ∃ gs', ordered (run_from c es) gs' ∧ fst <$> m_threads (run_from c es) = fst <$> m_threads c ∧
    (Forall finished (m_threads (run_from c es)) ∨ steps_left gs' < steps_left gs).
Proof.
  intros Ho [Hes Hturns] Hd. destruct (run_from_ordered es c gs Ho Hes Hd) as (gs' & Ho' & Ht & Hor).
  exists gs'. split_and!; [done..|]. destruct Hor as [?|(_ & [Hsame _] & Hnone)]; [by right|left].
  rewrite Hsame. destruct (someone_moves c gs Ho) as [?|(i & q & p & Hi & Hb)]; [done|].
  destruct (Hnone (Turn i)); [apply Hturns; by eapply lookup_lt_Some|]. by exists q, p.
Qed.

Lemma rounds_progress rounds : ∀ c gs,
  ordered c gs → Forall (round (length (m_threads c))) rounds → Forall among (concat rounds) →
  ∃ gs', ordered (run_from c (concat rounds)) gs' ∧
    fst <$> m_threads (run_from c (concat rounds)) = fst <$> m_threads c ∧
    (Forall finished (m_threads (run_from c (concat rounds))) ∨ steps_left gs' + length rounds ≤ steps_left gs).
Proof.
  induction rounds as [|es rounds IH]; intros c gs Ho Hr Hd; cbn [concat length] in *.
  { exists gs. split_and!; [done..|right; lia]. }
  apply Forall_cons in Hr as [He Hr]. apply Forall_app in Hd as [Hde Hd].
  destruct (round_progress c gs es Ho He Hde) as (gs1 & Ho1 & Ht1 & H1).
  assert (length (m_threads (run_from c es)) = length (m_threads c)) as Hlen
    by by rewrite <- (length_fmap fst), Ht1, length_fmap.
  destruct (IH _ gs1 Ho1) as (gs2 & Ho2 & Ht2 & H2); [by rewrite Hlen|done|].
  rewrite run_from_app. exists gs2. split_and!; [done|by rewrite Ht2|].
  destruct H2 as [?|H2]; [by left|]. destruct H1 as [H1|H1]; [left|right; lia].
  rewrite (finished_stay (concat rounds) (run_from c es)); [done|done|].
  apply Forall_concat. eapply Forall_impl; [exact Hr|]. by intros ? [? _].
Qed.

Lemma rounds_finish rounds c gs :
  ordered c gs → Forall (round (length (m_threads c))) rounds → Forall among (concat rounds) →
  steps_left gs ≤ length rounds →
  ∃ gs', ordered (run_from c (concat rounds)) gs' ∧
    fst <$> m_threads (run_from c (concat rounds)) = fst <$> m_threads c ∧
    Forall finished (m_threads (run_from c (concat rounds))).
Proof.
  intros Ho Hr Hd Hn. destruct (rounds_progress rounds c gs Ho Hr Hd) as (gs' & Ho' & Ht & Hor).
  exists gs'. split_and!; [done..|]. destruct Hor as [?|Hl]; [done|].
  destruct (someone_moves _ gs' Ho') as [?|(i & q & p & Hi & Hb)]; [done|].
  destruct (Forall2_lookup_l _ _ _ _ _ (or_threads _ _ Ho') Hi) as ([m n] & Hg & _).
  destruct (turn_ordered _ gs' i q p m n Ho' Hi Hg Hb) as (_ & _ & _ & _ & n' & _ & Hn' & _).
  pose proof (total_lookup snd gs' i _ Hg). unfold steps_left in *. cbn in *. lia.
Qed.

Lemma start_ordered opts d : Forall is_option opts → D d → ordered (start opts d) [].
Proof.
  intros Hopts Hd. pose proof (initial_ok opts Hopts) as Hok.
  split; try done. intros _. by apply in_order_empty, initial_no_reader.
Qed.

Lemma spawn_ordered c gs q :
  ordered c gs → ordered (happen c (Spawn q)) (gs ++ [(Free, max_turns)]).
Proof.
  intros [Ha Hd Ht Hr Hp Hw Hx Hk Hf Hn]. destruct c as [s mu d ts dd]. cbn in *. subst dd.
  assert (∀ f : ghost → nat, f (Free, max_turns) = 0 → total f (gs ++ [(Free, max_turns)]) = total f gs) as Htot.
  { intros f Hz. unfold total. rewrite sum_list_with_app. cbn. lia. }
  split; cbn; try done; [|by rewrite Htot..|].
  - apply Forall2_app; [done|]. apply Forall2_cons. split; [apply serve_wp|constructor].
  - apply Forall_app. split; [done|]. by apply Forall_singleton.
Qed.

(** Any history leaves every call within its steps. *)
Lemma history_ordered history : ∀ c gs,
  ordered c gs → Forall among history →
  ∃ gs', ordered (run_from c history) gs' ∧
    fst <$> m_threads (run_from c history) = (fst <$> m_threads c) ++ requests history ∧
    steps_left gs' ≤ steps_left gs + max_turns * length (requests history).
Proof.
  induction history as [|e history IH]; intros c gs Ho Hd.
  { exists gs. cbn. rewrite app_nil_r. split_and!; [done..|lia]. }
  apply Forall_cons in Hd as [Hde Hd]. destruct (quiet e) eqn:He.
  - destruct (happen_ordered c gs e Ho) as (gs1 & Ho1 & Ht1 & H1); [by rewrite He|done|].
    destruct (IH _ gs1 Ho1 Hd) as (gs2 & Ho2 & Ht2 & H2). exists gs2. rewrite Ht1 in Ht2.
    assert (requests (e :: history) = requests history) as -> by by destruct e.
    split_and!; [done..|]. destruct H1 as [?|(-> & _)]; lia.
  - destruct e as [q| |]; try done. destruct (IH _ _ (spawn_ordered c gs q Ho) Hd) as (gs2 & Ho2 & Ht2 & H2).
    exists gs2. split_and!; [done| |].
    + change (requests (Spawn q :: history)) with (q :: requests history). change (run_from c (Spawn q :: history))
        with (run_from (happen c (Spawn q)) history). rewrite Ht2.
      pose proof (or_alive _ _ Ho) as Ha. destruct c as [s mu d ts dd]. cbn in Ha |- *. subst dd.
      cbn. by rewrite fmap_app, <- app_assoc.
    + change (requests (Spawn q :: history)) with (q :: requests history). cbn [length].
      unfold steps_left, total in *. rewrite sum_list_with_app in H2. cbn in *. lia.
Qed.

(** ** Alone

    Without another goroutine about, a call does what [GeoWatcher] has for it. *)

Definition as_call (d : disk) (q : request) : call :=
  match q with
  | QLookup ip => CallLookup d ip
  | QRefresh => CallRefresh d
  | QSetPath p => CallSetPath p
  | QSetEnabled e => CallSetEnabled e
  | QClose => CallClose
  | QStatus => CallStatus
  end.

Lemma alone_bind {A B} d (k : A → prog B) (p : prog A) : ∀ mu s,
  alone d (p ≫= k) mu s = alone d p mu s ≫= λ x, alone d (k x.1.1) x.1.2 x.2.
Proof.
  induction p as [r|p IH|p IH|p IH|p IH|p IH|A' f p IH|A' f p IH]; intros mu s; cbn; try apply IH; try done.
  - case_match; [done|apply IH].
  - case_match; [done|apply IH].
  - case_match; [done|]. case_match; [apply IH|done].
  - case_match; [apply IH|done].
  - case_match; [apply IH|done].
  - destruct (f d s). apply IH.
Qed.

Lemma enabled_close_current s : enabled (watcher (close_current s)) = enabled (watcher s).
Proof. unfold close_current, close_handle. by repeat case_match. Qed.

Lemma refresh_alone d s : alone d watcher_refresh unlocked s = Some ((), unlocked, refreshed d s).
Proof.
  unfold watcher_refresh, refreshed. wp_cbn. cbn [alone unlocked pending writer readers orb Nat.eqb].
  destruct (negb _ || _) eqn:Hoff; [done|].
  cbn [alone]. destruct (stat_values (Stat d _)) as [m z] eqn:Hst. wp_cbn.
  cbn [alone pending writer readers orb Nat.eqb]. destruct (unchanged _ _ _ _) eqn:Hu; [done|].
  cbn [alone pending writer readers orb Nat.eqb]. rewrite Hu. unfold reload. rewrite Hst, Hu.
  destruct (Stat d _) as [v|e]; wp_cbn; cbn [alone].
  - destruct (disk_Open d _) as [db|err]; [destruct (open_handle db s) as [nr s1] eqn:Hop|]; wp_cbn;
      cbn [alone writer]; rewrite enabled_close_current; [by injection Hop as <- <-|done].
  - cbn [writer]. by rewrite enabled_close_current.
Qed.

Lemma serve_alone d q s :
  handles_ok s → ∃ r s', alone d (serve q) unlocked s = Some (r, unlocked, s') ∧
                         run_call range (as_call d q) s = (r, s').
Proof.
  intros Hs. destruct q as [ip| |p|e| |]; cbn [serve as_call run_call]; rewrite ?alone_bind.
  - unfold watcher_Lookup. rewrite alone_bind, refresh_alone.
    destruct (Lookup_refreshed range d ip s Hs) as [-> Hok]. wp_cbn. unfold read.
    cbn [option_bind alone unlocked pending writer readers orb fst snd].
    destruct (w_reader (watcher (refreshed d s))) as [h|] eqn:Hr; wp_cbn; cbn [alone]; [|by eexists _, _].
    destruct (proj2 (ho_open _ Hok h) Hr) as [db Hdb]. unfold use_handle. rewrite Hdb. by eexists _, _.
  - rewrite refresh_alone, Refresh_refreshed. cbn. by eexists _, _.
  - cbn. by eexists _, _.
  - cbn. by eexists _, _.
  - unfold watcher_Close, Close. wp_cbn. cbn [option_bind alone unlocked pending writer readers orb Nat.eqb fst snd].
    destruct (w_reader (watcher s)) as [h|]; wp_cbn; cbn; [|by eexists _, _]. eexists _, _. split; [done|].
    unfold close_handle. by destruct (mapped_dbs s !! h).
  - cbn. by eexists _, _.
Qed.

Lemma all_finished_free c gs :
  ordered c gs → Forall finished (m_threads c) →
  m_mutex c = unlocked ∧ in_order (m_world c) ∧
  Forall (λ t, ∃ r, t.2 = Ret r ∧ answers t.1 r) (m_threads c).
Proof.
  intros [_ _ Ht Hr Hp Hw _ _ Hok _] Hfin.
  assert (Forall (λ g : ghost, g.1 = Free) gs ∧ Forall (λ t, ∃ r, t.2 = Ret r ∧ answers t.1 r) (m_threads c)) as [Hg Hret].
  { clear Hr Hp Hw Hok. induction Ht as [|[q p] [m n] ts gs Hwp Ht IH]; [by split; constructor|].
    apply Forall_cons in Hfin as [Hf Hfin]. destruct (IH Hfin) as [??].
    destruct p as [r| | | | | | |]; try done. destruct n, Hwp as [Hm Hans]; cbn in Hm; subst m.
    all: split; (apply Forall_cons; split; [|done]); [done|by exists r]. }
  assert (∀ f : ghost → nat, (∀ n, f (Free, n) = 0) → total f gs = 0) as Hz.
  { intros f Hf. clear -Hg Hf. unfold total. induction Hg as [|[m n] gs Hm _ IH]; [done|].
    cbn in Hm |- *. subst m. by rewrite Hf, IH. }
  rewrite Hz in Hr, Hp, Hw by done. destruct (m_mutex c) as [rs [|] [|]]; try done. cbn in *. subst rs.
  split_and!; [done|by apply Hok|done].
Qed.

End discipline.

(** The states the files go through in a run. *)
Definition disks (d : disk) (es : list happening) : disk → Prop := λ d', d' = d ∨ Files d' ∈ es.

Lemma disks_among d es es' : es' ⊆ es → Forall (among (disks d es)) es'.
Proof. intros Hsub. apply Forall_forall. intros [| |d'] Hin; [done..|]. right. by apply Hsub. Qed.

(** C25 (termination): every call returns. Take any watcher with its mutex and any history
    of calls of its methods, each in a goroutine of its own, of turns of the goroutines in
    any order and of changes of the files. There is no deadlock, no unlock of a mutex that
    is not locked and no use of a closed database; and after eighteen rounds for each call
    made, in which every goroutine has its turn, blocked or not, and the files go on
    changing, every call has returned: a lookup with the answer of a database opened from
    a file that was there at some time, or with an empty location, a status query with a
    status, the others with nothing. The mutex is free then and the watcher in order: the
    next call, when it is made alone, returns, with the result and the effect that
    [GeoWatcher]'s specification has for it. *)
Theorem calls_return opts d history rounds
  (Hopts : Forall is_option opts)
  (Hrounds : Forall (round (length (requests history))) rounds)
  (Hlen : max_turns * length (requests history) ≤ length rounds) :
  let c := run_from (start opts d) history in
  let c' := run_from c (concat rounds) in
  (dead c = false ∧ faults (m_world c) = 0) ∧
  dead c' = false ∧ faults (m_world c') = 0 ∧ m_mutex c' = unlocked ∧
  fst <$> m_threads c' = requests history ∧
  Forall (λ t, ∃ r, t.2 = Ret r ∧ answers (disks d (history ++ concat rounds)) t.1 r) (m_threads c') ∧
  ∀ d' q, ∃ r s', alone d' (serve q) unlocked (m_world c') = Some (r, unlocked, s') ∧
    spec_call range (as_call d' q) (abs (m_world c')) = (r, abs s').
Proof.
  cbn zeta. set (D := disks d (history ++ concat rounds)).
  destruct (history_ordered D history _ _ (start_ordered D opts d Hopts (or_introl eq_refl))) as (gs & Ho & Ht & Hs).
  { apply disks_among. set_solver. }
  change (steps_left []) with 0 in Hs. cbn [start m_threads fmap list_fmap app] in Ht.
  assert (length (m_threads (run_from (start opts d) history)) = length (requests history)) as Hl
    by by rewrite <- Ht, length_fmap.
  rewrite <- Hl in Hrounds. destruct (rounds_finish D rounds _ gs Ho Hrounds) as (gs' & Ho' & Ht' & Hfin);
    [apply disks_among; set_solver|lia|].
  destruct (all_finished_free D _ gs' Ho' Hfin) as (Hmu & [Hok _] & Hret).
  split; [split; [apply (or_alive _ _ _ Ho)|apply (or_faults _ _ _ Ho)]|].
  split_and!; [apply (or_alive _ _ _ Ho')|apply (or_faults _ _ _ Ho')|done|by rewrite Ht', Ht|done|].
  intros d' q. destruct (serve_alone d' q _ Hok) as (r & s' & Ha & Hc). exists r, s'. split; [done|].
  pose proof (run_call_abs range (as_call d' q) _ Hok) as Hspec. rewrite Hc in Hspec. by destruct Hspec.
Qed.
End locks.

(** ** Witness *)

Abbreviation run_ := (run_from (U := ascii_unicode) id).

(** A lookup holds the read lock and a close has announced itself, which keeps everybody
    else out; then the file goes missing. *)
Definition busy : list happening :=
  [Spawn (QLookup "8.8.8.8"); Spawn QClose; Spawn (QSetPath "b"); Spawn (QLookup "8.8.8.8"); Spawn QStatus] ++
  replicate 15 (Turn 0) ++ [Turn 1; Turn 2; Turn 3; Turn 4; Files missing_disk].
Definition around : list happening := Turn <$> seq 0 5.
Definition shown (t : request * prog reply) : string :=
  match t.2 with Ret r => reply_country r | _ => "..." end.

Lemma calls_return_witness :
  let c := run_ (start [WithPath "a"] sample_disk) busy in
  let c' := run_ c (concat (replicate 90 around)) in
  m_mutex c = MkRWMutex 1 true false ∧
  (λ t, blocked t.2 (m_mutex c)) <$> m_threads c = [false; true; true; true; true] ∧
  shown <$> m_threads c' = ["A"; "-"; "-"; ""; "-"]%string ∧
  dead c' = false ∧ faults (m_world c') = 0 ∧ m_mutex c' = unlocked.
Proof.
  cbn zeta. split; [vm_compute; reflexivity|]. split; [vm_compute; reflexivity|].
  split; [vm_compute; reflexivity|].
  destruct (calls_return (U := ascii_unicode) id [WithPath "a"] sample_disk busy (replicate 90 around))
    as (_ & Hd & Hf & Hm & _).
  - apply Forall_cons_2; [|apply Forall_nil_2]. exists "a"%string, true. by left.
  - apply Forall_replicate. split; [by repeat constructor|].
    intros i Hi. apply list_elem_of_fmap. exists i. split; [done|]. apply elem_of_seq. cbn in Hi. lia.
  - vm_compute. lia.
  - split; [exact Hd|]. split; [exact Hf|exact Hm].
Defined.
